(** * stm32cubemonitor-elfparser: a shallow embedding of the GDB-driven ELF
    variable extractor ([src/index.ts], [src/gdbInfoDecoder.ts]) and the
    properties of its specification.

    Layout: [JS] holds the ECMAScript string and number primitives the
    program calls, [Decoder] embeds [gdbInfoDecoder.ts], [Controller] embeds
    the [ElfParser] class of [index.ts].  All definitions come first, the
    lemmas and the theorems about them follow.

    Text is a list of 8-bit characters: the debugger's replies are taken to
    stay inside the Latin-1 range, so one [ascii] stands for one UTF-16 code
    unit.  Numbers that index into text are integers ([Z]), with [-1] as the
    "not found" result, exactly as in the source. *)

From stdpp Require Import base list strings.
From Stdlib Require Import ZArith Lia Ascii Decimal Hexadecimal.
From Stdlib Require DecimalPos DecimalN HexadecimalPos HexadecimalN.

Local Open Scope Z_scope.

(** ** ECMAScript primitives *)

Module JS.

Abbreviation jstring := (list ascii).

(** A string literal of the source. *)
Definition lit (s : string) : jstring := String.list_ascii_of_string s.

(** [s.length] *)
Definition len (s : jstring) : Z := Z.of_nat (length s).

(** The WhiteSpace and LineTerminator code units below 256: TAB, LF, VT, FF,
    CR, SPACE and NBSP.  [trim] and the regular expression class [\s] use
    the same set. *)
Definition isWhiteSpace (c : ascii) : bool :=
  let n := N_of_ascii c in
  ((9 <=? n) && (n <=? 13) || (n =? 32) || (n =? 160))%N.

(** The regular expression class [\d]. *)
Definition isDigit (c : ascii) : bool :=
  let n := N_of_ascii c in ((48 <=? n) && (n <=? 57))%N.

(** [s.startsWith(p)] *)
Fixpoint startsWith (s p : jstring) {struct p} : bool :=
  match p, s with
  | [], _ => true
  | _ :: _, [] => false
  | a :: p', b :: s' => Ascii.eqb a b && startsWith s' p'
  end.

(** Offset of the first occurrence of [p] in [s]. *)
Fixpoint find (p s : jstring) : option nat :=
  if startsWith s p then Some 0%nat
  else match s with
       | [] => None
       | _ :: s' => S <$> find p s'
       end.

(** Offset of the last occurrence of [p] in [s]. *)
Fixpoint findLast (p s : jstring) : option nat :=
  match s with
  | [] => if startsWith [] p then Some 0%nat else None
  | _ :: s' =>
      match findLast p s' with
      | Some i => Some (S i)
      | None => if startsWith s p then Some 0%nat else None
      end
  end.

(** A position argument clamped into [0 .. s.length]. *)
Definition clamp (s : jstring) (i : Z) : nat :=
  Z.to_nat (Z.min (Z.max i 0) (len s)).

(** [s.indexOf(p)] and [s.indexOf(p, from)] *)
Definition indexOf (s p : jstring) : Z :=
  match find p s with Some i => Z.of_nat i | None => -1 end.

Definition indexOfFrom (s p : jstring) (from : Z) : Z :=
  let k := clamp s from in
  match find p (drop k s) with
  | Some i => Z.of_nat (k + i)
  | None => -1
  end.

(** [s.lastIndexOf(p)] and [s.lastIndexOf(p, from)]: the latter keeps the
    occurrences that start at or before [from]. *)
Definition lastIndexOf (s p : jstring) : Z :=
  match findLast p s with Some i => Z.of_nat i | None => -1 end.

Definition lastIndexOfFrom (s p : jstring) (from : Z) : Z :=
  match findLast p (take (Z.to_nat (Z.max from 0) + length p) s) with
  | Some i => Z.of_nat i
  | None => -1
  end.

(** [s.includes(p)] *)
Definition includes (s p : jstring) : bool :=
  negb (indexOf s p =? -1).

(** [s.substring(a, b)]: both positions are clamped and swapped when out of
    order; [s.substring(a)] runs to the end. *)
Definition substring (s : jstring) (a b : Z) : jstring :=
  let a' := clamp s a in
  let b' := clamp s b in
  take (Nat.max a' b' - Nat.min a' b') (drop (Nat.min a' b') s).

Definition substringFrom (s : jstring) (a : Z) : jstring :=
  drop (clamp s a) s.

(** [s.slice(a, b)] and [s.slice(a)]: a negative position counts from the
    end, and an empty string results when the positions are out of order. *)
Definition sliceIdx (s : jstring) (i : Z) : nat :=
  if i <? 0 then Z.to_nat (Z.max (len s + i) 0) else Z.to_nat (Z.min i (len s)).

Definition slice (s : jstring) (a b : Z) : jstring :=
  take (sliceIdx s b - sliceIdx s a) (drop (sliceIdx s a) s).

Definition sliceFrom (s : jstring) (a : Z) : jstring :=
  drop (sliceIdx s a) s.

(** [s.trim()] *)
Fixpoint trimStart (s : jstring) : jstring :=
  match s with
  | c :: s' => if isWhiteSpace c then trimStart s' else s
  | [] => []
  end.

Definition trimEnd (s : jstring) : jstring := reverse (trimStart (reverse s)).

Definition trim (s : jstring) : jstring := trimEnd (trimStart s).

(** [s.replace(/c/g, r)] for a one-character pattern [c]. *)
Definition replaceChar (c : ascii) (r : jstring) (s : jstring) : jstring :=
  flat_map (fun x => if Ascii.eqb x c then r else [x]) s.

(** [s[0] === c] *)
Definition firstCharIs (s : jstring) (c : ascii) : bool :=
  match s with
  | x :: _ => Ascii.eqb x c
  | [] => false
  end.

(** The numbers the program computes with: integers, [NaN] (from [parseInt]
    and [Number] on text that is not a number, and from [0 / 0]) and
    [Infinity] (from a division by zero).  The engine computes in binary64,
    which is exact on the integers below 2^53 in absolute value; the
    operations below are the ones of the engine on these integers only, and
    the statements that use them keep the numbers in that range. *)
Inductive JsNumber : Type :=
  | JInt (z : Z)
  | JNaN
  | JInf.

#[global] Instance JsNumber_eq_dec : EqDecision JsNumber.
Proof. solve_decision. Defined.

(** [a !== b] on numbers: [NaN] differs from everything, itself included. *)
Definition strictNe (a b : JsNumber) : bool :=
  match a, b with
  | JInt x, JInt y => negb (x =? y)
  | JInf, JInf => false
  | _, _ => true
  end.

(** Decimal digits of a natural number, most significant first. *)
Fixpoint uintChars (d : Decimal.uint) : jstring :=
  match d with
  | Decimal.Nil => []
  | Decimal.D0 d => "0"%char :: uintChars d
  | Decimal.D1 d => "1"%char :: uintChars d
  | Decimal.D2 d => "2"%char :: uintChars d
  | Decimal.D3 d => "3"%char :: uintChars d
  | Decimal.D4 d => "4"%char :: uintChars d
  | Decimal.D5 d => "5"%char :: uintChars d
  | Decimal.D6 d => "6"%char :: uintChars d
  | Decimal.D7 d => "7"%char :: uintChars d
  | Decimal.D8 d => "8"%char :: uintChars d
  | Decimal.D9 d => "9"%char :: uintChars d
  end.

(** Lowercase hexadecimal digits, most significant first. *)
Fixpoint hexChars (d : Hexadecimal.uint) : jstring :=
  match d with
  | Hexadecimal.Nil => []
  | Hexadecimal.D0 d => "0"%char :: hexChars d
  | Hexadecimal.D1 d => "1"%char :: hexChars d
  | Hexadecimal.D2 d => "2"%char :: hexChars d
  | Hexadecimal.D3 d => "3"%char :: hexChars d
  | Hexadecimal.D4 d => "4"%char :: hexChars d
  | Hexadecimal.D5 d => "5"%char :: hexChars d
  | Hexadecimal.D6 d => "6"%char :: hexChars d
  | Hexadecimal.D7 d => "7"%char :: hexChars d
  | Hexadecimal.D8 d => "8"%char :: hexChars d
  | Hexadecimal.D9 d => "9"%char :: hexChars d
  | Hexadecimal.Da d => "a"%char :: hexChars d
  | Hexadecimal.Db d => "b"%char :: hexChars d
  | Hexadecimal.Dc d => "c"%char :: hexChars d
  | Hexadecimal.Dd d => "d"%char :: hexChars d
  | Hexadecimal.De d => "e"%char :: hexChars d
  | Hexadecimal.Df d => "f"%char :: hexChars d
  end.

(** String concatenation with a number operand, [n.toString()]: the
    decimal digits of the integer, which is what the engine prints for an
    integer below 2^53 in absolute value. *)
Definition toString (n : JsNumber) : jstring :=
  match n with
  | JInt z =>
      (if z <? 0 then lit "-" else []) ++ uintChars (N.to_uint (Z.abs_N z))
  | JNaN => lit "NaN"
  | JInf => lit "Infinity"
  end.

(** [n.toString(16)] *)
Definition toString16 (n : JsNumber) : jstring :=
  match n with
  | JInt z =>
      (if z <? 0 then lit "-" else []) ++ hexChars (N.to_hex_uint (Z.abs_N z))
  | JNaN => lit "NaN"
  | JInf => lit "Infinity"
  end.

(** [s.padStart(n, "0")] *)
Definition padStart0 (n : nat) (s : jstring) : jstring :=
  replicate (n - length s) "0"%char ++ s.

(** Value of a decimal digit. *)
Definition digitValue (c : ascii) : Z := Z.of_N (N_of_ascii c) - 48.

(** Value of a hexadecimal digit, if [c] is one. *)
Definition hexDigitValue (c : ascii) : option Z :=
  let n := Z.of_N (N_of_ascii c) in
  if (48 <=? n) && (n <=? 57) then Some (n - 48)
  else if (97 <=? n) && (n <=? 102) then Some (n - 87)
  else if (65 <=? n) && (n <=? 70) then Some (n - 55)
  else None.

(** Reads the longest run of decimal digits at the head of [s], most
    significant first; [acc] is the value read so far, [seen] tells whether
    a digit was read. *)
Fixpoint readDigits (s : jstring) (seen : bool) (acc : Z) : option Z :=
  match s with
  | c :: s' =>
      if isDigit c then readDigits s' true (10 * acc + digitValue c)
      else if seen then Some acc else None
  | [] => if seen then Some acc else None
  end.

(** [parseInt(s, 10)]: leading white space, an optional sign, then the
    longest run of digits; [NaN] when there is no digit.  The value is the
    integer that the digits stand for; the engine gives this integer when it
    is below 2^53 in absolute value, and the nearest binary64 number
    otherwise. *)
Definition parseInt10 (s : jstring) : JsNumber :=
  let s1 := trimStart s in
  let '(neg, s2) :=
    match s1 with
    | c :: r =>
        if Ascii.eqb c "-" then (true, r)
        else if Ascii.eqb c "+" then (false, r)
        else (false, s1)
    | [] => (false, s1)
    end in
  match readDigits s2 false 0 with
  | Some v => JInt (if neg then - v else v)
  | None => JNaN
  end.

(** All of [s] read as hexadecimal digits. *)
Fixpoint readHex (s : jstring) (acc : Z) : option Z :=
  match s with
  | [] => Some acc
  | c :: s' =>
      match hexDigitValue c with
      | Some v => readHex s' (16 * acc + v)
      | None => None
      end
  end.

(** [Number(s)] on the numeric literals that the debugger prints for an
    address: after trimming, the empty text is [0], [0x] or [0X] followed by
    hexadecimal digits is that number, a run of decimal digits is that
    number.  Every other text is [NaN] here; this departs from the engine
    only on signed, fractional, exponent, binary, octal and [Infinity]
    literals. *)
Definition Number (s : jstring) : JsNumber :=
  let t := trim s in
  match t with
  | [] => JInt 0
  | c0 :: c1 :: (_ :: _) as r =>
      if Ascii.eqb c0 "0" && (Ascii.eqb c1 "x" || Ascii.eqb c1 "X") then
        match readHex (drop 2 t) 0 with
        | Some v => JInt v
        | None => JNaN
        end
      else if forallb isDigit t then
        match readDigits t false 0 with Some v => JInt v | None => JNaN end
      else JNaN
  | _ =>
      if forallb isDigit t then
        match readDigits t false 0 with Some v => JInt v | None => JNaN end
      else JNaN
  end.

(** [a - 1] and [Math.min(a, b)] on these numbers; the subtraction is the
    one of the engine for [a] below 2^53 in absolute value. *)
Definition pred (a : JsNumber) : JsNumber :=
  match a with
  | JInt z => JInt (z - 1)
  | other => other
  end.

Definition mathMin (a : JsNumber) (b : Z) : JsNumber :=
  match a with
  | JInt z => JInt (Z.min z b)
  | JNaN => JNaN
  | JInf => JInt b
  end.

End JS.

(** ** The host the program runs on

    What the program takes from its platform and is not part of its text:
    the line terminator [os.EOL], the file system test [existsSync], the
    regular expression engine run on the inheritance list of a class, and
    the binary64 evaluation of the progress ratio. *)

Record Host : Type := mkHost {
  (** [os.EOL] *)
  EOL : JS.jstring;
  (** [existsSync(elfFilename)] *)
  existsSync : JS.jstring -> bool;
  (** The successive values of capture group 1 that
      [/\s*([^<\[,]+)((<.*?>)?\s*(\[.*?\])?\s*($|,))/gs.exec] returns on the
      text of an inheritance list, until it returns [null]. *)
  regexInheritExec : JS.jstring -> list JS.jstring;
  (** [Math.floor(25 * (c / n))] for a counter [c] and a positive [n]. *)
  floorRatio25 : Z -> Z -> Z;
  (** [a.localeCompare(b)]: negative, zero or positive. *)
  localeCompare : JS.jstring -> JS.jstring -> Z
}.

(** ** gdbInfoDecoder.ts *)

Module Decoder.
Import JS.

(** [enum TYPE_VALUE] *)
Module TYPE_VALUE.
Definition UNSIGNED_8 : Z := 1.
Definition SIGNED_8 : Z := 2.
Definition UNSIGNED_16 : Z := 3.
Definition SIGNED_16 : Z := 4.
Definition UNSIGNED_32 : Z := 5.
Definition SIGNED_32 : Z := 6.
Definition UNSIGNED_64 : Z := 7.
Definition SIGNED_64 : Z := 8.
Definition FLOAT : Z := 9.
Definition DOUBLE : Z := 10.
End TYPE_VALUE.

(** One object of an [identifiersList]; an absent optional field is
    [None] ([undefined] in the source). *)
Record Identifier : Type := mkIdentifier {
  identifier : jstring;
  type : option jstring;
  typeValue : option Z;
  address : option jstring;
  classHierarchy : option jstring
}.

(** The identifier objects live in a store and the lists hold references to
    them (positions in the store), since the source shares and mutates the
    objects in place. *)
Abbreviation Store := (list Identifier).

(** [IGdbVariableInfo] *)
Record IGdbVariableInfo : Type := mkVariableInfo {
  filename : jstring;
  identifiersList : list nat
}.

Abbreviation TgdbVariablesInfo := (list IGdbVariableInfo).

(** [rootHierarchy || ""] *)
Definition orEmpty (o : option jstring) : jstring := default [] o.

(** [checkClassRecursion] *)
Definition checkClassRecursion (classHierarchy className : jstring) : bool :=
  let pos := indexOf classHierarchy className in
  bool_decide (pos ≠ -1).

(** One pass of the loop body of [removeStorageClassSpecifier] (and of
    [removeScopeClassSpecifier]): each marker in turn is cut off the front of
    the text when the text starts with it. *)
Definition stripMarker (acc : jstring * bool) (marker : jstring) : jstring * bool :=
  if startsWith acc.1 marker
  then (substringFrom acc.1 (len marker), true)
  else acc.

Definition stripMarkers (markers : list jstring) (tmpStr : jstring) : jstring * bool :=
  foldl stripMarker (tmpStr, false) markers.

(** [while (bFound === true) { ... }]; [None] when the fuel runs out. *)
Fixpoint stripMarkersLoop (markers : list jstring) (fuel : nat) (tmpStr : jstring)
  : option jstring :=
  match fuel with
  | O => None
  | S k =>
      let '(t, found) := stripMarkers markers tmpStr in
      if found then stripMarkersLoop markers k t else Some t
  end.

Definition storageMarkers : list jstring :=
  [lit "extern "; lit "static "; lit "volatile "; lit "const "].

Definition scopeMarkers : list jstring :=
  [lit "public "; lit "protected "; lit "private "].

(** [removeStorageClassSpecifier] *)
Definition removeStorageClassSpecifier (expr : jstring) : jstring :=
  default expr (stripMarkersLoop storageMarkers (S (length expr)) expr).

(** [removeScopeClassSpecifier] *)
Definition removeScopeClassSpecifier (expr : jstring) : jstring :=
  default expr (stripMarkersLoop scopeMarkers (S (length expr)) expr).

(** The loop of [getMatchingClosingBrace]. *)
Fixpoint closingBraceLoop (fuel : nat) (block : jstring) (nbOpen nextOpen nextClose : Z)
  : option Z :=
  match fuel with
  | O => None
  | S k =>
      if decide (nbOpen ≠ 0) then
        if decide (nextClose = -1) then Some (-1)
        else
          let '(nbOpen1, nextOpen1) :=
            if decide (nextOpen ≠ -1 ∧ nextOpen < nextClose)
            then (nbOpen + 1, indexOfFrom block (lit "{") (nextOpen + 1))
            else (nbOpen, nextOpen) in
          let nbOpen2 := nbOpen1 - 1 in
          let nextClose1 :=
            if decide (nbOpen2 > 0)
            then indexOfFrom block (lit "}") (nextClose + 1)
            else nextClose in
          closingBraceLoop k block nbOpen2 nextOpen1 nextClose1
      else Some nextClose
  end.

(** [getMatchingClosingBrace] *)
Definition getMatchingClosingBrace (block : jstring) : Z :=
  let firstOpenBrace := indexOf block (lit "{") in
  if decide (firstOpenBrace = -1) then 0
  else
    default (-1)
      (closingBraceLoop (S (S (length block))) block 1
         (indexOfFrom block (lit "{") (firstOpenBrace + 1))
         (indexOfFrom block (lit "}") (firstOpenBrace + 1))).

(** Length of the white space run at the head of [s]. *)
Fixpoint spaceRun (s : jstring) : nat :=
  match s with
  | c :: s' => if isWhiteSpace c then S (spaceRun s') else O
  | [] => O
  end.

(** Length of the digit run at the head of [s]. *)
Fixpoint digitRun (s : jstring) : nat :=
  match s with
  | c :: s' => if isDigit c then S (digitRun s') else O
  | [] => O
  end.

(** Length of the match of [/\s*(public:|private:|protected:)/] anchored at
    the head of [s]. *)
Definition accessMatch (s : jstring) : option nat :=
  let w := spaceRun s in
  let r := drop w s in
  if startsWith r (lit "public:") then Some (w + 7)%nat
  else if startsWith r (lit "private:") then Some (w + 8)%nat
  else if startsWith r (lit "protected:") then Some (w + 10)%nat
  else None.

(** [expr.replace(/\s*(public:|private:|protected:)/g, "")]: [skip] counts
    the characters of the current match that are still to be dropped. *)
Fixpoint stripAccess (skip : nat) (s : jstring) : jstring :=
  match s with
  | [] => []
  | c :: s' =>
      match skip with
      | S k => stripAccess k s'
      | O =>
          match accessMatch s with
          | Some (S k) => stripAccess k s'
          | _ => c :: stripAccess O s'
          end
      end
  end.

(** Length of the match of [/\d+:/] anchored at the head of [s]. *)
Definition lineNumberMatch (s : jstring) : option nat :=
  let d := digitRun s in
  if decide (d ≠ O ∧ drop d s !! O = Some ":"%char) then Some (S d) else None.

(** [tmpStr.replace(/\d+:/, "")]: the first match only. *)
Fixpoint stripLineNumber (s : jstring) : jstring :=
  match s with
  | [] => []
  | c :: s' =>
      match lineNumberMatch s with
      | Some n => drop n s
      | None => c :: stripLineNumber s'
      end
  end.

(** The text [extractIdentifiers] works on, after its two replacements and
    the trim. *)
Definition cleanDeclarator (expr : jstring) : jstring :=
  trim (stripLineNumber (stripAccess O expr)).

(** [extractIdentifiers] *)
Definition extractIdentifiers (expr rootIdentifier : jstring) (bExpandTableElements : bool)
  : list jstring :=
  let tmpStr := cleanDeclarator expr in
  let tblStartIdx := indexOf tmpStr (lit "[") in
  if decide (tblStartIdx ≠ -1) then
    let tblName :=
      trim (substring tmpStr (lastIndexOfFrom tmpStr (lit " ") tblStartIdx + 1) tblStartIdx) in
    if decide (indexOf (substringFrom tmpStr (tblStartIdx + 1)) (lit "[") ≠ -1) then
      [ [] ]
    else
      let tblName1 :=
        if decide (lastIndexOf tblName (lit "*") ≠ -1)
        then trim (substringFrom tblName (lastIndexOf tblName (lit "*") + 1))
        else tblName in
      let sizeStr :=
        substring tmpStr (tblStartIdx + 1) (indexOfFrom tmpStr (lit "]") tblStartIdx) in
      let lastTableIdx := JS.pred (parseInt10 sizeStr) in
      if bExpandTableElements
      then [ rootIdentifier ++ tblName1 ++ lit "[" ++ toString lastTableIdx ++ lit "]" ]
      else [ rootIdentifier ++ tblName1 ++ lit "[0]" ]
  else if decide (lastIndexOf tmpStr (lit "*") ≠ -1) then
    let endIdx := indexOf tmpStr (lit ")") in
    let tmpStr1 := if decide (endIdx ≠ -1) then substring tmpStr 0 endIdx else tmpStr in
    let tmpStr2 := trim (substringFrom tmpStr1 (lastIndexOf tmpStr1 (lit "*") + 1)) in
    let tmpStr3 :=
      if decide (lastIndexOf tmpStr2 (lit " ") ≠ -1)
      then trim (substringFrom tmpStr2 (lastIndexOf tmpStr2 (lit " ") + 1))
      else tmpStr2 in
    [ rootIdentifier ++ tmpStr3 ]
  else if decide (indexOf tmpStr (lit " : ") ≠ -1) then
    [ [] ]
  else
    [ rootIdentifier ++ trim (substringFrom tmpStr (lastIndexOf tmpStr (lit " ") + 1)) ].

(** How one round of a [while] loop ends: with the state for the next
    round, or with the result of the function ([break] and [return]). *)
Inductive Round (A B : Type) : Type :=
  | Next (state : A)
  | Exit (result : B).
Arguments Next {A B} state.
Arguments Exit {A B} result.

(** The body of the loop of [buildVarList], run when [startIdx] is inside
    the block.  The identifier objects [{identifier}] of a
    [TgdbIdentifiersList] are kept as their identifier text. *)
Definition buildVarListBody (fileBlock rootIdentifier : jstring)
    (expandTableElements : bool) (startIdx : Z) (variablesList : list jstring)
  : Round (Z * list jstring) (list jstring) :=
  let tmpStr := substringFrom fileBlock startIdx in
  let firstSemiColon := indexOf tmpStr (lit ";") in
  let firstOpenBrace := indexOf tmpStr (lit "{") in
  let closeBraceIdx :=
    if decide (firstOpenBrace ≠ -1 ∧ firstOpenBrace < firstSemiColon)
    then getMatchingClosingBrace tmpStr
    else 0 in
  if decide (closeBraceIdx = -1) then Exit variablesList
  else
    let endIdx := indexOfFrom tmpStr (lit ";") closeBraceIdx in
    if decide (endIdx = -1) then Exit variablesList
    else
      let expr :=
        if decide (closeBraceIdx ≠ 0)
        then substring tmpStr 0 firstOpenBrace
               ++ substring tmpStr (closeBraceIdx + 1) endIdx
        else substring tmpStr 0 endIdx in
      let identifiers := extractIdentifiers expr rootIdentifier expandTableElements in
      let variablesList1 :=
        if decide (head identifiers ≠ Some [])
        then variablesList ++ identifiers
        else variablesList in
      Next (startIdx + endIdx + 1, variablesList1).

(** [while (startIdx < fileBlock.length)]; [None] when the fuel runs out. *)
Fixpoint buildVarListLoop (fuel : nat) (fileBlock rootIdentifier : jstring)
    (expandTableElements : bool) (startIdx : Z) (variablesList : list jstring)
  : option (list jstring) :=
  match fuel with
  | O => None
  | S k =>
      if decide (startIdx < len fileBlock) then
        match buildVarListBody fileBlock rootIdentifier expandTableElements
                startIdx variablesList with
        | Next (startIdx1, variablesList1) =>
            buildVarListLoop k fileBlock rootIdentifier expandTableElements
              startIdx1 variablesList1
        | Exit result => Some result
        end
      else Some variablesList
  end.

(** [buildVarList] *)
Definition buildVarList (fileBlock rootIdentifier : jstring) (expandTableElements : bool)
  : list jstring :=
  default []
    (buildVarListLoop (S (length fileBlock)) fileBlock rootIdentifier
       expandTableElements 0 []).

(** The loop of [parseGdbVariablesInfo]: one file block per iteration; the
    result is [None] after the early [return []] of the source is taken
    (reported as the empty list by [parseGdbVariablesInfo]) and when the fuel
    runs out. *)
Fixpoint parseBlocksLoop (host : Host) (fuel : nat) (data : jstring)
    (expandTableElements : bool) (fileBlockStart : Z) (parsingIsEnded : bool)
    (gdbVariablesInfo : list (jstring * list jstring))
  : option (list (jstring * list jstring)) :=
  match fuel with
  | O => None
  | S k =>
      if decide (fileBlockStart ≠ -1 ∧ parsingIsEnded = false) then
        let FILE_MARKER_START := lit "File " in
        let FILE_MARKER_END := lit ":" ++ EOL host in
        let NON_DEBUG_MARKER := lit "Non-debugging symbols:" in
        let fileBlockEnd0 := indexOfFrom data FILE_MARKER_START (fileBlockStart + 1) in
        let '(fileBlockEnd1, ended1) :=
          if decide (fileBlockEnd0 = -1)
          then (indexOfFrom data NON_DEBUG_MARKER (fileBlockStart + 1), true)
          else (fileBlockEnd0, parsingIsEnded) in
        let '(fileBlockEnd, ended) :=
          if decide (fileBlockEnd1 = -1)
          then (len data - 1, true)
          else (fileBlockEnd1, ended1) in
        let endFilenameIdx := indexOfFrom data FILE_MARKER_END fileBlockStart in
        if decide (endFilenameIdx = -1) then Some []
        else
          let filename :=
            substring data (fileBlockStart + len FILE_MARKER_START) endFilenameIdx in
          let identifiersList :=
            buildVarList
              (substring data (endFilenameIdx + len FILE_MARKER_END) fileBlockEnd)
              [] expandTableElements in
          parseBlocksLoop host k data expandTableElements fileBlockEnd ended
            (gdbVariablesInfo ++ [(filename, identifiersList)])
      else Some gdbVariablesInfo
  end.

(** [parseGdbVariablesInfo]: file names paired with the identifiers found
    in their block; the caller turns the identifiers into objects. *)
Definition parseGdbVariablesInfo (host : Host) (data : jstring) (expandTableElements : bool)
  : list (jstring * list jstring) :=
  default []
    (parseBlocksLoop host (S (length data)) data expandTableElements
       (indexOf data (lit "File ")) false []).

(** [entry.identifiersList.forEach] of [extractType]: the last position whose
    object has [rootIdentifier] as identifier. *)
Fixpoint lastIndexOfRoot (store : Store) (rootIdentifier : jstring) (l : list nat)
    (index : nat) (indexRootIdentifier : option nat) : option nat :=
  match l with
  | [] => indexRootIdentifier
  | r :: l' =>
      lastIndexOfRoot store rootIdentifier l' (S index)
        (match store !! r with
         | Some item =>
             if decide (identifier item = rootIdentifier) then Some index
             else indexRootIdentifier
         | None => indexRootIdentifier
         end)
  end.

(** "remove line containing rootIdentifier in gdbVariablesInfo": only the
    first entry with the file name is looked at. *)
Fixpoint removeRootIdentifier (store : Store) (fileName rootIdentifier : jstring)
    (variablesInfo : TgdbVariablesInfo) : TgdbVariablesInfo :=
  match variablesInfo with
  | [] => []
  | entry :: rest =>
      if decide (filename entry = fileName) then
        match lastIndexOfRoot store rootIdentifier (identifiersList entry) O None with
        | Some i =>
            mkVariableInfo (filename entry) (delete i (identifiersList entry)) :: rest
        | None => entry :: rest
        end
      else entry :: removeRootIdentifier store fileName rootIdentifier rest
  end.

(** Position of the first entry of [newVariablesInfo] with the file name. *)
Fixpoint findFilename (fileName : jstring) (newVariablesInfo : TgdbVariablesInfo)
  : option nat :=
  match newVariablesInfo with
  | [] => None
  | entry :: rest =>
      if decide (filename entry = fileName) then Some O
      else S <$> findFilename fileName rest
  end.

(** [variableInfo.identifiersList.push(...)] for each of the references. *)
Definition pushIdentifiers (refs : list nat) (entry : IGdbVariableInfo) : IGdbVariableInfo :=
  mkVariableInfo (filename entry) (identifiersList entry ++ refs).

(** The class name that [extractType] reads off a reply that starts with
    ["class "]: the text from position 5 up to the first [" : "], or up to
    the first opening brace when there is no [" : "]. *)
Definition classNameOf (tmpStr : jstring) : jstring :=
  let firstOpenBrace := indexOf tmpStr (lit "{") in
  let firstColonLeadingSpace := indexOf tmpStr (lit " : ") in
  trim (substring tmpStr 5
          (if decide (firstColonLeadingSpace = -1)
           then firstOpenBrace else firstColonLeadingSpace)).

(** [extractType]: the result is the type text together with the store and
    the two collections as the call leaves them. *)
Definition extractType (host : Host) (store : Store)
    (variablesInfo newVariablesInfo : TgdbVariablesInfo)
    (fileName expr rootIdentifier : jstring) (rootHierarchy : option jstring)
    (bExpandTableElements : bool)
  : jstring * Store * TgdbVariablesInfo * TgdbVariablesInfo :=
  let unchanged (t : jstring) := (t, store, variablesInfo, newVariablesInfo) in
  let tmpStr := removeStorageClassSpecifier (trim expr) in
  if startsWith tmpStr (lit "struct ") || startsWith tmpStr (lit "union ")
     || startsWith tmpStr (lit "class ") then
    let firstOpenBrace := indexOf tmpStr (lit "{") in
    let firstColonLeadingSpace := indexOf tmpStr (lit " : ") in
    if decide (firstOpenBrace = -1) then unchanged []
    else
      let className := classNameOf tmpStr in
      if startsWith tmpStr (lit "class ")
         && checkClassRecursion (orEmpty rootHierarchy) className
      then unchanged []
      else
        let hierarchy :=
          if startsWith tmpStr (lit "class ")
          then orEmpty rootHierarchy ++ lit "." ++ className
          else [] in
        let closeBraceIdx := getMatchingClosingBrace tmpStr in
        if decide (closeBraceIdx = -1) then unchanged []
        else if decide (indexOfFrom tmpStr (lit "*") (closeBraceIdx + 1) = -1) then
          let blockStr := substring tmpStr (firstOpenBrace + 1) closeBraceIdx in
          let variablesList :=
            buildVarList blockStr (rootIdentifier ++ lit ".") bExpandTableElements in
          let variablesInfo1 :=
            removeRootIdentifier store fileName rootIdentifier variablesInfo in
          let '(position, newVariablesInfo1) :=
            match findFilename fileName newVariablesInfo with
            | Some i => (i, newVariablesInfo)
            | None =>
                (length newVariablesInfo,
                 newVariablesInfo ++ [mkVariableInfo fileName []])
            end in
          let members :=
            (fun newEntry => mkIdentifier newEntry None None None (Some hierarchy))
              <$> variablesList in
          let baseClasses :=
            if startsWith tmpStr (lit "class ")
               && bool_decide (firstColonLeadingSpace ≠ -1)
            then
              let baseClassStr :=
                substring tmpStr (firstColonLeadingSpace + 2) firstOpenBrace in
              (fun baseClass =>
                 mkIdentifier rootIdentifier
                   (Some (lit "?" ++ trim (removeScopeClassSpecifier (trim baseClass))))
                   None None None)
                <$> regexInheritExec host baseClassStr
            else [] in
          let added := members ++ baseClasses in
          let refs := seq (length store) (length added) in
          ([], store ++ added, variablesInfo1,
           alter (pushIdentifiers refs) position newVariablesInfo1)
        else unchanged tmpStr
  else unchanged tmpStr.

(** The text after ["= "] in a [p sizeof] reply, trimmed ([tmpSize]). *)
Definition measuredSize (size : jstring) : jstring :=
  let SIZE_MARKER := lit "= " in
  let pos := indexOf size SIZE_MARKER + len SIZE_MARKER in
  trim (substring size pos (len size)).

(** The [switch (tmpStr)] of [computeTypeValue]. *)
Definition typeSpellings : list (jstring * Z) :=
  (fun p => (lit p.1, p.2)) <$>
  [ ("unsigned char"%string, TYPE_VALUE.UNSIGNED_8);
    ("_Bool"%string, TYPE_VALUE.UNSIGNED_8);
    ("char"%string, TYPE_VALUE.SIGNED_8);
    ("signed char"%string, TYPE_VALUE.SIGNED_8);
    ("unsigned short"%string, TYPE_VALUE.UNSIGNED_16);
    ("unsigned short int"%string, TYPE_VALUE.UNSIGNED_16);
    ("short unsigned int"%string, TYPE_VALUE.UNSIGNED_16);
    ("short"%string, TYPE_VALUE.SIGNED_16);
    ("short int"%string, TYPE_VALUE.SIGNED_16);
    ("signed short"%string, TYPE_VALUE.SIGNED_16);
    ("signed short int"%string, TYPE_VALUE.SIGNED_16);
    ("short signed int"%string, TYPE_VALUE.SIGNED_16);
    ("unsigned long"%string, TYPE_VALUE.UNSIGNED_32);
    ("unsigned long int"%string, TYPE_VALUE.UNSIGNED_32);
    ("long unsigned int"%string, TYPE_VALUE.UNSIGNED_32);
    ("long"%string, TYPE_VALUE.SIGNED_32);
    ("long int"%string, TYPE_VALUE.SIGNED_32);
    ("signed long"%string, TYPE_VALUE.SIGNED_32);
    ("signed long int"%string, TYPE_VALUE.SIGNED_32);
    ("long signed int"%string, TYPE_VALUE.SIGNED_32);
    ("unsigned long long"%string, TYPE_VALUE.UNSIGNED_64);
    ("unsigned long long int"%string, TYPE_VALUE.UNSIGNED_64);
    ("long long unsigned int"%string, TYPE_VALUE.UNSIGNED_64);
    ("long long"%string, TYPE_VALUE.SIGNED_64);
    ("long long int"%string, TYPE_VALUE.SIGNED_64);
    ("signed long long"%string, TYPE_VALUE.SIGNED_64);
    ("signed long long int"%string, TYPE_VALUE.SIGNED_64);
    ("long long signed int"%string, TYPE_VALUE.SIGNED_64);
    ("float"%string, TYPE_VALUE.FLOAT);
    ("double"%string, TYPE_VALUE.DOUBLE);
    ("long double"%string, TYPE_VALUE.DOUBLE) ].

Fixpoint lookupSpelling (table : list (jstring * Z)) (tmpStr : jstring) : Z :=
  match table with
  | [] => -1
  | (spelling, value) :: rest =>
      if decide (tmpStr = spelling) then value else lookupSpelling rest tmpStr
  end.

(** [computeTypeValue] *)
Definition computeTypeValue (expr size : jstring) : Z :=
  let tmpSize := measuredSize size in
  let tmpStr := removeStorageClassSpecifier (trim expr) in
  if decide (lastIndexOf tmpStr (lit "*") ≠ -1) then
    let typeValue0 := TYPE_VALUE.UNSIGNED_16 in
    let typeValue1 :=
      if decide (tmpSize = lit "1") then TYPE_VALUE.UNSIGNED_8 else typeValue0 in
    if decide (tmpSize = lit "4") then TYPE_VALUE.UNSIGNED_32 else typeValue1
  else if startsWith tmpStr (lit "enum") then
    if decide (tmpSize = lit "1") then TYPE_VALUE.SIGNED_8 else TYPE_VALUE.SIGNED_16
  else if decide (tmpStr = lit "unsigned int") then
    if decide (tmpSize = lit "2") then TYPE_VALUE.UNSIGNED_16 else TYPE_VALUE.UNSIGNED_32
  else if decide (tmpStr = lit "int" ∨ tmpStr = lit "signed int") then
    if decide (tmpSize = lit "2") then TYPE_VALUE.SIGNED_16 else TYPE_VALUE.SIGNED_32
  else lookupSpelling typeSpellings tmpStr.

(** [extractAddress] *)
Definition extractAddress (expr : jstring) : jstring :=
  let ADDRESS_MARKER := lit "= " in
  let pos := indexOf expr ADDRESS_MARKER in
  if decide (pos ≠ -1)
  then substring expr (pos + len ADDRESS_MARKER) (len expr)
  else [].

End Decoder.

(** ** index.ts *)

Module Controller.
Import JS Decoder.

(** [enum State] *)
Inductive State : Type :=
  | SET_METHODS_OFF
  | SET_TYPEDEFS_OFF
  | IDLE
  | START_GDB
  | GET_VARIABLES_INFO
  | GET_TYPE
  | GET_SIZE
  | GET_ADDRESS.

#[global] Instance State_eq_dec : EqDecision State.
Proof. solve_decision. Defined.

(** [enum InformationType] *)
Inductive InformationType : Type :=
  | IDENTIFIER
  | TYPE
  | SIZE
  | ADDRESS.

(** [enum Status] *)
Inductive Status : Type :=
  | ELFPARSER_OK
  | ELFPARSER_ELFFILENAME_NOT_FOUND
  | ELFPARSER_PARSING_ONGOING
  | ELFPARSER_ERR.

#[global] Instance Status_eq_dec : EqDecision Status.
Proof. solve_decision. Defined.

(** One entry of [TvariablesInfo]: [{name, address, type}]. *)
Record VariableInfo : Type := mkVariable {
  varName : jstring;
  varAddress : jstring;
  varType : Z
}.

(** What an [ElfParser] does to the outside, in order.  The two callbacks of
    [readElf] are opaque to the parser; they are named by a number, and a
    call is recorded with its argument. *)
Inductive Event : Type :=
  | Spawn (elfFilename : jstring)
  | StdinWrite (command : jstring)
  | ResultCall (callback : nat) (variablesInfo : list VariableInfo)
  | ProgressCall (progressCallback : nat) (progressStatus : JsNumber).

(** The fields of [class ElfParser] ([startTime] and [endTime] only feed the
    log and are left out), the store of identifier objects, and the events
    so far. *)
Record ElfParser : Type := mkElfParser {
  currentState : State;
  previousState : State;
  callback : option nat;
  expandTableElements : bool;
  progressCallback : option nat;
  gdbProcess : option jstring;
  dataBuffer : jstring;
  store : Store;
  gdbVariablesInfo : TgdbVariablesInfo;
  newGdbVariablesInfo : TgdbVariablesInfo;
  gdbResponseCounter : Z;
  numberOfVariables : Z;
  progressStatus : JsNumber;
  currentFilenameIdx : nat;
  currentIdentifierIdx : nat;
  events : list Event
}.

Definition set_currentState (v : State) (p : ElfParser) : ElfParser :=
  mkElfParser v (previousState p) (callback p) (expandTableElements p)
    (progressCallback p) (gdbProcess p) (dataBuffer p) (store p) (gdbVariablesInfo p)
    (newGdbVariablesInfo p) (gdbResponseCounter p) (numberOfVariables p)
    (progressStatus p) (currentFilenameIdx p) (currentIdentifierIdx p) (events p).

Definition set_previousState (v : State) (p : ElfParser) : ElfParser :=
  mkElfParser (currentState p) v (callback p) (expandTableElements p)
    (progressCallback p) (gdbProcess p) (dataBuffer p) (store p) (gdbVariablesInfo p)
    (newGdbVariablesInfo p) (gdbResponseCounter p) (numberOfVariables p)
    (progressStatus p) (currentFilenameIdx p) (currentIdentifierIdx p) (events p).

(** The three input parameters that [readElf] stores. *)
Definition set_parameters (cb : nat) (expand : bool) (progressCb : option nat)
    (p : ElfParser) : ElfParser :=
  mkElfParser (currentState p) (previousState p) (Some cb) expand
    progressCb (gdbProcess p) (dataBuffer p) (store p) (gdbVariablesInfo p)
    (newGdbVariablesInfo p) (gdbResponseCounter p) (numberOfVariables p)
    (progressStatus p) (currentFilenameIdx p) (currentIdentifierIdx p) (events p).

Definition set_gdbProcess (v : option jstring) (p : ElfParser) : ElfParser :=
  mkElfParser (currentState p) (previousState p) (callback p) (expandTableElements p)
    (progressCallback p) v (dataBuffer p) (store p) (gdbVariablesInfo p)
    (newGdbVariablesInfo p) (gdbResponseCounter p) (numberOfVariables p)
    (progressStatus p) (currentFilenameIdx p) (currentIdentifierIdx p) (events p).

Definition set_dataBuffer (v : jstring) (p : ElfParser) : ElfParser :=
  mkElfParser (currentState p) (previousState p) (callback p) (expandTableElements p)
    (progressCallback p) (gdbProcess p) v (store p) (gdbVariablesInfo p)
    (newGdbVariablesInfo p) (gdbResponseCounter p) (numberOfVariables p)
    (progressStatus p) (currentFilenameIdx p) (currentIdentifierIdx p) (events p).

(** The store and the two collections change together. *)
Definition set_variables (s : Store) (v n : TgdbVariablesInfo) (p : ElfParser)
  : ElfParser :=
  mkElfParser (currentState p) (previousState p) (callback p) (expandTableElements p)
    (progressCallback p) (gdbProcess p) (dataBuffer p) s v n
    (gdbResponseCounter p) (numberOfVariables p)
    (progressStatus p) (currentFilenameIdx p) (currentIdentifierIdx p) (events p).

Definition set_gdbResponseCounter (v : Z) (p : ElfParser) : ElfParser :=
  mkElfParser (currentState p) (previousState p) (callback p) (expandTableElements p)
    (progressCallback p) (gdbProcess p) (dataBuffer p) (store p) (gdbVariablesInfo p)
    (newGdbVariablesInfo p) v (numberOfVariables p)
    (progressStatus p) (currentFilenameIdx p) (currentIdentifierIdx p) (events p).

Definition set_numberOfVariables (v : Z) (p : ElfParser) : ElfParser :=
  mkElfParser (currentState p) (previousState p) (callback p) (expandTableElements p)
    (progressCallback p) (gdbProcess p) (dataBuffer p) (store p) (gdbVariablesInfo p)
    (newGdbVariablesInfo p) (gdbResponseCounter p) v
    (progressStatus p) (currentFilenameIdx p) (currentIdentifierIdx p) (events p).

Definition set_progressStatus (v : JsNumber) (p : ElfParser) : ElfParser :=
  mkElfParser (currentState p) (previousState p) (callback p) (expandTableElements p)
    (progressCallback p) (gdbProcess p) (dataBuffer p) (store p) (gdbVariablesInfo p)
    (newGdbVariablesInfo p) (gdbResponseCounter p) (numberOfVariables p)
    v (currentFilenameIdx p) (currentIdentifierIdx p) (events p).

(** [currentFilenameIdx] and [currentIdentifierIdx] *)
Definition set_cursor (f i : nat) (p : ElfParser) : ElfParser :=
  mkElfParser (currentState p) (previousState p) (callback p) (expandTableElements p)
    (progressCallback p) (gdbProcess p) (dataBuffer p) (store p) (gdbVariablesInfo p)
    (newGdbVariablesInfo p) (gdbResponseCounter p) (numberOfVariables p)
    (progressStatus p) f i (events p).

Definition emit (e : list Event) (p : ElfParser) : ElfParser :=
  mkElfParser (currentState p) (previousState p) (callback p) (expandTableElements p)
    (progressCallback p) (gdbProcess p) (dataBuffer p) (store p) (gdbVariablesInfo p)
    (newGdbVariablesInfo p) (gdbResponseCounter p) (numberOfVariables p)
    (progressStatus p) (currentFilenameIdx p) (currentIdentifierIdx p) (events p ++ e).

(** The constants of the class. *)
Definition LF : jstring := ["010"%char].
Definition GDB_SET_METHOD_OFF : jstring := lit "set print type methods off" ++ LF.
Definition GDB_SET_TYPEDEF_OFF : jstring := lit "set print type typedefs off" ++ LF.
Definition GDB_GET_INFO_VARIABLES : jstring := lit "info variables" ++ LF.
Definition GDB_GET_TYPE_HEAD : jstring := lit "ptype ".
Definition GDB_GET_TYPE_TAIL : jstring := LF.
Definition GDB_GET_SIZE_HEAD : jstring := lit "p sizeof ".
Definition GDB_GET_SIZE_TAIL : jstring := LF.
Definition GDB_GET_ADDRESS_HEAD : jstring := lit "print /x &(".
Definition GDB_GET_ADDRESS_TAIL : jstring := lit ")" ++ LF.
Definition GDB_QUIT : jstring := lit "quit" ++ LF.
Definition GDB_PROMPT : jstring := lit "(gdb) ".
Definition GDB_RESP_TYPE_HEAD : jstring := lit "type = ".

(** [constructor()] *)
Definition new : ElfParser :=
  mkElfParser IDLE IDLE None false None None [] [] [] [] 0 0 (JInt 0) O O [].

(** [sendCommandToGdb] *)
Definition sendCommandToGdb (command : jstring) (p : ElfParser) : ElfParser :=
  emit [StdinWrite command] p.

(** The objects that the references of all lists point to, in list order. *)
Definition elementsOf (s : Store) (v : TgdbVariablesInfo) : list Identifier :=
  omap (fun r => s !! r) (concat (identifiersList <$> v)).

(** [computeNumberOfVariables] *)
Definition computeNumberOfVariables (p : ElfParser) : Z :=
  foldl (fun n entry => n + Z.of_nat (length (identifiersList entry))) 0
    (gdbVariablesInfo p).

(** The [ptype] command of one element, if it needs one. *)
Definition typeCommand (element : Identifier) : list Event :=
  match type element with
  | None =>
      [StdinWrite (GDB_GET_TYPE_HEAD ++ identifier element ++ GDB_GET_TYPE_TAIL)]
  | Some t =>
      if firstCharIs t "?"
      then [StdinWrite (GDB_GET_TYPE_HEAD ++ substringFrom t 1 ++ GDB_GET_TYPE_TAIL)]
      else []
  end.

(** [requestAllElementsToGdb] *)
Definition requestAllElementsToGdb (informationType : InformationType) (p : ElfParser)
  : ElfParser :=
  let elements := elementsOf (store p) (gdbVariablesInfo p) in
  let p1 :=
    match informationType with
    | TYPE =>
        emit (concat (typeCommand <$> elements)
                ++ [StdinWrite (lit "StopRequestType" ++ LF)]) p
    | SIZE =>
        set_currentState GET_SIZE
          (emit (((fun element =>
                     StdinWrite (GDB_GET_SIZE_HEAD ++ identifier element ++ GDB_GET_SIZE_TAIL))
                    <$> elements)
                 ++ [StdinWrite (lit "StopRequestSize" ++ LF)]) p)
    | ADDRESS =>
        set_currentState GET_ADDRESS
          (emit (((fun element =>
                     StdinWrite
                       (GDB_GET_ADDRESS_HEAD ++ identifier element ++ GDB_GET_ADDRESS_TAIL))
                    <$> elements)
                 ++ [StdinWrite (lit "StopRequestAddress" ++ LF)]) p)
    | IDENTIFIER => p
    end in
  let p2 := set_cursor O O p1 in
  set_numberOfVariables (computeNumberOfVariables p2) p2.

(** The test that makes [storeAllElementsFromGdb] stop at an element. *)
Definition awaits (informationType : InformationType) (element : Identifier) : bool :=
  match informationType with
  | TYPE =>
      match type element with
      | None => true
      | Some t => firstCharIs t "?"
      end
  | SIZE => bool_decide (typeValue element = None)
  | ADDRESS => bool_decide (address element = None)
  | IDENTIFIER => false
  end.

(** The inner [for] of [storeAllElementsFromGdb]: [l] is the part of the list
    from [identifiersListIndex] on. *)
Fixpoint scanIdentifiers (s : Store) (informationType : InformationType)
    (l : list nat) (identifiersListIndex : nat) : option nat :=
  match l with
  | [] => None
  | r :: l' =>
      if from_option (awaits informationType) false (s !! r)
      then Some identifiersListIndex
      else scanIdentifiers s informationType l' (S identifiersListIndex)
  end.

(** The outer [for]: [files] is the part of [gdbVariablesInfo] from
    [filenameIndex] on; files after the first are scanned from position 0,
    since [currentIdentifierIdx] is reset at the end of every round. *)
Fixpoint scanFiles (s : Store) (informationType : InformationType)
    (files : TgdbVariablesInfo) (filenameIndex identifiersListIndex : nat)
  : option (nat * nat) :=
  match files with
  | [] => None
  | entry :: rest =>
      match scanIdentifiers s informationType
              (drop identifiersListIndex (identifiersList entry)) identifiersListIndex with
      | Some i => Some (filenameIndex, i)
      | None => scanFiles s informationType rest (S filenameIndex) O
      end
  end.

Definition set_type (v : jstring) (e : Identifier) : Identifier :=
  mkIdentifier (identifier e) (Some v) (typeValue e) (address e) (classHierarchy e).

Definition set_typeValue (v : Z) (e : Identifier) : Identifier :=
  mkIdentifier (identifier e) (type e) (Some v) (address e) (classHierarchy e).

Definition set_address (v : jstring) (e : Identifier) : Identifier :=
  mkIdentifier (identifier e) (type e) (typeValue e) (Some v) (classHierarchy e).

Definition set_identifier (v : jstring) (e : Identifier) : Identifier :=
  mkIdentifier v (type e) (typeValue e) (address e) (classHierarchy e).

(** The reply without its prompt, trimmed. *)
Definition replyBody (gdbResponse : jstring) (start : Z) : jstring :=
  trim (substring gdbResponse start (len gdbResponse - len GDB_PROMPT)).

(** What [storeAllElementsFromGdb] does with the element it stops at:
    [r] is the reference of the element and [fileName] the name of the file
    entry it was found in. *)
Definition storeElement (host : Host) (gdbResponse : jstring)
    (informationType : InformationType) (fileName : jstring) (r : nat)
    (element : Identifier) (p : ElfParser) : ElfParser :=
  match informationType with
  | TYPE =>
      let '(t, s, v, n) :=
        extractType host (store p) (gdbVariablesInfo p) (newGdbVariablesInfo p)
          fileName (replyBody gdbResponse (len GDB_RESP_TYPE_HEAD))
          (identifier element) (classHierarchy element) (expandTableElements p) in
      set_variables (alter (set_type t) r s) v n p
  | SIZE =>
      match type element with
      | Some t =>
          set_variables
            (alter (set_typeValue (computeTypeValue t (replyBody gdbResponse 0))) r (store p))
            (gdbVariablesInfo p) (newGdbVariablesInfo p) p
      | None => p
      end
  | ADDRESS =>
      set_variables
        (alter (set_address (extractAddress (replyBody gdbResponse 0))) r (store p))
        (gdbVariablesInfo p) (newGdbVariablesInfo p) p
  | IDENTIFIER => p
  end.

(** [storeAllElementsFromGdb]: the parser after the call and
    [identifierFound]. *)
Definition storeAllElementsFromGdb (host : Host) (gdbResponse : jstring)
    (informationType : InformationType) (p : ElfParser) : ElfParser * bool :=
  let files := gdbVariablesInfo p in
  match scanFiles (store p) informationType (drop (currentFilenameIdx p) files)
          (currentFilenameIdx p) (currentIdentifierIdx p) with
  | Some (filenameIndex, identifiersListIndex) =>
      match files !! filenameIndex with
      | Some entry =>
          match identifiersList entry !! identifiersListIndex with
          | Some r =>
              match store p !! r with
              | Some element =>
                  let p1 :=
                    storeElement host gdbResponse informationType (filename entry) r
                      element p in
                  let p2 := set_cursor filenameIndex identifiersListIndex p1 in
                  (set_gdbResponseCounter (gdbResponseCounter p2 + 1) p2, true)
              | None => (p, false)
              end
          | None => (p, false)
          end
      | None => (p, false)
      end
  | None =>
      (if decide (currentFilenameIdx p < length files)%nat
       then set_cursor (currentFilenameIdx p) O p
       else p,
       false)
  end.

(** [this.gdbVariablesInfo = parseGdbVariablesInfo(...)]: the identifiers
    become fresh objects [{identifier}] of the store. *)
Definition loadFile (acc : Store * TgdbVariablesInfo) (file : jstring * list jstring)
  : Store * TgdbVariablesInfo :=
  let objects := (fun i => mkIdentifier i None None None None) <$> file.2 in
  (acc.1 ++ objects,
   acc.2 ++ [mkVariableInfo file.1 (seq (length acc.1) (length objects))]).

Definition loadVariables (parsed : list (jstring * list jstring)) (p : ElfParser)
  : ElfParser :=
  let '(s, v) := foldl loadFile (store p, []) parsed in
  set_variables s v (newGdbVariablesInfo p) p.

(** "move newGdbVariablesInfo content into gdbVariablesInfo content", then
    [this.newGdbVariablesInfo = []]. *)
Definition mergeEntry (v : TgdbVariablesInfo) (newEntry : IGdbVariableInfo)
  : TgdbVariablesInfo :=
  (fun entry =>
     if decide (filename newEntry = filename entry)
     then pushIdentifiers (identifiersList newEntry) entry
     else entry) <$> v.

Definition mergeNewVariables (p : ElfParser) : ElfParser :=
  set_variables (store p)
    (foldl mergeEntry (gdbVariablesInfo p) (newGdbVariablesInfo p)) [] p.

(** The first two loops of [postProcessArraysInfo]: the markers are put in
    once for every position of every list. *)
Definition addMarkers (s : Store) (v : TgdbVariablesInfo) : Store :=
  foldl
    (fun s r =>
       alter
         (fun element =>
            set_identifier
              (replaceChar "]" (lit "x]") (replaceChar "[" (lit "[x") (identifier element)))
              element) r s)
    s (concat (identifiersList <$> v)).

(** The body of the innermost [for (const element of entry.identifiersList)]
    for the element behind reference [r]: the store and the list of the
    entry afterwards, and whether an array was detected. *)
Definition expandElement (s : Store) (l : list nat) (r : nat) : Store * list nat * bool :=
  match s !! r with
  | None => (s, l, false)
  | Some element =>
      let tblStartIdx := lastIndexOf (identifier element) (lit "[x") in
      let tblEndIdx := lastIndexOf (identifier element) (lit "x]") in
      if decide (tblStartIdx ≠ -1) then
        let identifierHead := slice (identifier element) 0 (tblStartIdx + 1) in
        let arraySizeStr := substring (identifier element) (tblStartIdx + 2) tblEndIdx in
        let arraySize := parseInt10 arraySizeStr in
        let IdentifierTail := sliceFrom (identifier element) (tblEndIdx + 1) in
        let s1 :=
          alter (set_identifier (identifierHead ++ toString arraySize ++ IdentifierTail))
            r s in
        let size := mathMin arraySize 10000 in
        let count := match size with JInt z => Z.to_nat z | _ => O end in
        let pushed :=
          (fun i : nat =>
             mkIdentifier (identifierHead ++ toString (JInt (Z.of_nat i)) ++ IdentifierTail)
               (type element) (typeValue element) None None) <$> seq O count in
        (s1 ++ pushed, l ++ seq (length s1) count, true)
      else (s, l, false)
  end.

(** One [for ... of] pass over the list of an entry; the iteration follows
    the list as it grows.  [None] when the fuel runs out. *)
Fixpoint expandPass (fuel : nat) (s : Store) (l : list nat) (index : nat)
    (stillProcessing : bool) : option (Store * list nat * bool) :=
  match fuel with
  | O => None
  | S k =>
      match l !! index with
      | None => Some (s, l, stillProcessing)
      | Some r =>
          let '(s1, l1, detected) := expandElement s l r in
          expandPass k s1 l1 (S index) (stillProcessing || detected)
      end
  end.

(** [while (stillProcessing === true)] for one entry. *)
Fixpoint expandEntry (fuel : nat) (s : Store) (l : list nat) : option (Store * list nat) :=
  match fuel with
  | O => None
  | S k =>
      match expandPass fuel s l O false with
      | Some (s1, l1, true) => expandEntry k s1 l1
      | Some (s1, l1, false) => Some (s1, l1)
      | None => None
      end
  end.

(** "Parse each file of gdbVariablesInfo". *)
Fixpoint expandEntries (fuel : nat) (s : Store) (v : TgdbVariablesInfo)
  : option (Store * TgdbVariablesInfo) :=
  match v with
  | [] => Some (s, [])
  | entry :: rest =>
      match expandEntry fuel s (identifiersList entry) with
      | Some (s1, l1) =>
          match expandEntries fuel s1 rest with
          | Some (s2, rest2) => Some (s2, mkVariableInfo (filename entry) l1 :: rest2)
          | None => None
          end
      | None => None
      end
  end.

(** [postProcessArraysInfo]; [None] when a loop does not end within the
    fuel. *)
Definition postProcessArraysInfo (fuel : nat) (p : ElfParser) : option ElfParser :=
  if expandTableElements p then
    match expandEntries fuel (addMarkers (store p) (gdbVariablesInfo p))
            (gdbVariablesInfo p) with
    | Some (s, v) => Some (set_variables s v (newGdbVariablesInfo p) p)
    | None => None
    end
  else Some p.

(** [base + Math.floor(25 * (counter / numberOfVariables))] *)
Definition ratioProgress (host : Host) (base counter total : Z) : JsNumber :=
  if decide (total = 0) then (if decide (counter = 0) then JNaN else JInf)
  else JInt (base + floorRatio25 host counter total).

(** [sendProgressStatusToClient] *)
Definition sendProgressStatusToClient (host : Host) (p : ElfParser) : ElfParser :=
  match progressCallback p with
  | Some cb =>
      let '(status, p1) :=
        match currentState p with
        | IDLE => (JInt 100, p)
        | START_GDB | SET_METHODS_OFF | SET_TYPEDEFS_OFF => (JInt 0, p)
        | GET_VARIABLES_INFO => (JInt 10, p)
        | GET_TYPE => (JInt 25, p)
        | GET_SIZE =>
            if decide (previousState p ≠ currentState p)
            then (JInt 50, set_gdbResponseCounter 0 p)
            else (ratioProgress host 50 (gdbResponseCounter p) (numberOfVariables p), p)
        | GET_ADDRESS =>
            if decide (previousState p ≠ currentState p)
            then (JInt 75, set_gdbResponseCounter 0 p)
            else (ratioProgress host 75 (gdbResponseCounter p) (numberOfVariables p), p)
        end in
      let p2 := set_previousState (currentState p1) p1 in
      if strictNe (progressStatus p2) status
      then emit [ProgressCall cb status] (set_progressStatus status p2)
      else p2
  | None => p
  end.

(** [variablesInfo.sort(compare)]: the sort of the engine is stable, and so
    is this insertion sort. *)
Fixpoint insertSorted {A : Type} (compare : A -> A -> Z) (x : A) (l : list A) : list A :=
  match l with
  | [] => [x]
  | y :: l' =>
      if decide (compare x y <= 0) then x :: l else y :: insertSorted compare x l'
  end.

Definition sort {A : Type} (compare : A -> A -> Z) (l : list A) : list A :=
  foldr (insertSorted compare) [] l.

(** The entry built for an element, if [sendVariablesInfoToClient] keeps it. *)
Definition resultEntry (element : Identifier) : option VariableInfo :=
  match address element, typeValue element with
  | Some a, Some t =>
      if decide (a ≠ [])
      then Some (mkVariable (identifier element)
                   (lit "0x" ++ padStart0 8 (toString16 (Number a))) t)
      else None
  | _, _ => None
  end.

(** The list that [sendVariablesInfoToClient] hands to the callback. *)
Definition resultList (host : Host) (p : ElfParser) : list VariableInfo :=
  sort (fun a b => localeCompare host (varName a) (varName b))
    (omap resultEntry (elementsOf (store p) (gdbVariablesInfo p))).

(** [sendVariablesInfoToClient], run when the debugger process closes. *)
Definition sendVariablesInfoToClient (host : Host) (p : ElfParser) : ElfParser :=
  match callback p with
  | Some cb => emit [ResultCall cb (resultList host p)] p
  | None => p
  end.

(** The [switch (this.currentState)] of [readData] for one reply; [fuel]
    bounds the loops of [postProcessArraysInfo]. *)
Definition handleResponse (host : Host) (fuel : nat) (p : ElfParser)
    (gdbResponse : jstring) : option ElfParser :=
  match currentState p with
  | IDLE => Some p
  | START_GDB =>
      Some (sendCommandToGdb GDB_SET_METHOD_OFF (set_currentState SET_METHODS_OFF p))
  | SET_METHODS_OFF =>
      Some (sendCommandToGdb GDB_SET_TYPEDEF_OFF (set_currentState SET_TYPEDEFS_OFF p))
  | SET_TYPEDEFS_OFF =>
      Some (sendCommandToGdb GDB_GET_INFO_VARIABLES
              (set_currentState GET_VARIABLES_INFO p))
  | GET_VARIABLES_INFO =>
      let p1 :=
        loadVariables
          (parseGdbVariablesInfo host gdbResponse (expandTableElements p)) p in
      if decide (length (gdbVariablesInfo p1) = O)
      then Some (sendCommandToGdb GDB_QUIT (set_currentState IDLE p1))
      else Some (set_currentState GET_TYPE (requestAllElementsToGdb TYPE p1))
  | GET_TYPE =>
      let '(p1, identifierFound) := storeAllElementsFromGdb host gdbResponse TYPE p in
      if identifierFound then Some p1
      else if decide (length (newGdbVariablesInfo p1) ≠ O)
      then Some (requestAllElementsToGdb TYPE (mergeNewVariables p1))
      else Some (set_currentState GET_SIZE (requestAllElementsToGdb SIZE p1))
  | GET_SIZE =>
      let '(p1, identifierFound) := storeAllElementsFromGdb host gdbResponse SIZE p in
      if identifierFound then Some p1
      else
        match postProcessArraysInfo fuel p1 with
        | Some p2 => Some (set_currentState GET_ADDRESS (requestAllElementsToGdb ADDRESS p2))
        | None => None
        end
  | GET_ADDRESS =>
      let '(p1, identifierFound) := storeAllElementsFromGdb host gdbResponse ADDRESS p in
      if identifierFound then Some p1
      else Some (sendCommandToGdb GDB_QUIT (set_currentState IDLE p1))
  end.

(** The [while (this.dataBuffer !== "")] loop of [readData], for any
    treatment [handle] of a reply: the buffer left over and the state after
    the last reply.  [None] when [handle] gives no state or the fuel runs
    out. *)
Fixpoint readResponses {T : Type} (handle : T -> jstring -> option T) (fuel : nat)
    (dataBuffer : jstring) (t : T) : option (jstring * T) :=
  match fuel with
  | O => None
  | S k =>
      if decide (dataBuffer ≠ []) then
        let endGdbResponse := indexOf dataBuffer GDB_PROMPT in
        if decide (endGdbResponse = -1) then Some (dataBuffer, t)
        else
          let gdbResponse := slice dataBuffer 0 (endGdbResponse + len GDB_PROMPT) in
          let dataBuffer1 := sliceFrom dataBuffer (endGdbResponse + len GDB_PROMPT) in
          match handle t gdbResponse with
          | Some t1 => readResponses handle k dataBuffer1 t1
          | None => None
          end
      else Some (dataBuffer, t)
  end.

(** [readData] up to the call of [sendProgressStatusToClient]: the new data
    is appended, and the replies are treated once a prompt is there. *)
Definition receive {T : Type} (handle : T -> jstring -> option T)
    (dataBuffer : jstring) (t : T) (data : jstring) : option (jstring * T) :=
  let dataBuffer1 := dataBuffer ++ data in
  if negb (includes dataBuffer1 GDB_PROMPT) then Some (dataBuffer1, t)
  else readResponses handle (S (length dataBuffer1)) dataBuffer1 t.

(** [readData]; [None] when the call does not return within the fuel. *)
Definition readData (host : Host) (fuel : nat) (p : ElfParser) (data : jstring)
  : option ElfParser :=
  match receive (handleResponse host fuel) (dataBuffer p) p data with
  | Some (rest, p1) =>
      let p2 := set_dataBuffer rest p1 in
      Some (if includes (dataBuffer p ++ data) GDB_PROMPT
            then sendProgressStatusToClient host p2
            else p2)
  | None => None
  end.

(** [readElf] *)
Definition readElf (host : Host) (elfFilename : jstring) (cb : nat)
    (expand : bool) (progressCb : option nat) (p : ElfParser) : Status * ElfParser :=
  let p1 := set_parameters cb expand progressCb p in
  let '(status, p2) :=
    if negb (existsSync host elfFilename) then (ELFPARSER_ELFFILENAME_NOT_FOUND, p1)
    else if decide (currentState p1 ≠ IDLE) then (ELFPARSER_PARSING_ONGOING, p1)
    else
      (ELFPARSER_OK,
       emit [Spawn elfFilename]
         (set_gdbProcess (Some elfFilename) (set_currentState START_GDB p1))) in
  if decide (status ≠ ELFPARSER_OK)
  then (status,
        match callback p2 with
        | Some c => emit [ResultCall c []] p2
        | None => p2
        end)
  else (status, p2).

(** The data events of a session, one call of [readData] per chunk; the run
    stops at a call that does not return. *)
Fixpoint feed (host : Host) (fuel : nat) (p : ElfParser) (chunks : list jstring)
  : ElfParser :=
  match chunks with
  | [] => p
  | data :: rest =>
      match readData host fuel p data with
      | Some p1 => feed host fuel p1 rest
      | None => p
      end
  end.

(** The data events as [receive] sees them, one chunk after the other. *)
Fixpoint receiveAll {T : Type} (handle : T -> jstring -> option T)
    (dataBuffer : jstring) (t : T) (chunks : list jstring) : option (jstring * T) :=
  match chunks with
  | [] => Some (dataBuffer, t)
  | data :: rest =>
      match receive handle dataBuffer t data with
      | Some (dataBuffer1, t1) => receiveAll handle dataBuffer1 t1 rest
      | None => None
      end
  end.

(** A treatment of replies that only keeps them, in order. *)
Definition keepResponse (seen : list jstring) (gdbResponse : jstring)
  : option (list jstring) :=
  Some (seen ++ [gdbResponse]).

(** The values handed to the progress callback, in order. *)
Definition progressValues (l : list Event) : list JsNumber :=
  omap (fun e => match e with ProgressCall _ v => Some v | _ => None end) l.

End Controller.
(** ** Predicates used in the statements *)

Module Spec.
Import JS Decoder Controller.

(** A reply handed to the treatment ends with the prompt and holds no
    other one. *)
Definition completeResponse (gdbResponse : jstring) : Prop :=
  exists body, gdbResponse = body ++ GDB_PROMPT
               /\ find GDB_PROMPT gdbResponse = Some (length body).

(** No storage class specifier starts [t]. *)
Definition noStorageMarker (t : jstring) : Prop :=
  forall m, m ∈ storageMarkers -> startsWith t m = false.

(** The characters that the cleaning of a declarator never removes: not
    white space, not a digit, and in none of the access keywords. *)
Definition kept (x : ascii) : Prop :=
  isWhiteSpace x = false /\ isDigit x = false /\ x ∉ lit "public:private:protected:".

(** The number that a run of decimal digits stands for, after the digits
    of [acc]. *)
Fixpoint decimalValue (d : Decimal.uint) (acc : Z) : Z :=
  match d with
  | Decimal.Nil => acc
  | Decimal.D0 d => decimalValue d (10 * acc)
  | Decimal.D1 d => decimalValue d (10 * acc + 1)
  | Decimal.D2 d => decimalValue d (10 * acc + 2)
  | Decimal.D3 d => decimalValue d (10 * acc + 3)
  | Decimal.D4 d => decimalValue d (10 * acc + 4)
  | Decimal.D5 d => decimalValue d (10 * acc + 5)
  | Decimal.D6 d => decimalValue d (10 * acc + 6)
  | Decimal.D7 d => decimalValue d (10 * acc + 7)
  | Decimal.D8 d => decimalValue d (10 * acc + 8)
  | Decimal.D9 d => decimalValue d (10 * acc + 9)
  end.

(** A character that may stand in the name of a variable in the statements
    about arrays: no white space, bracket, star or colon. *)
Definition nameChar (c : ascii) : Prop :=
  isWhiteSpace c = false /\ c <> "["%char /\ c <> "]"%char /\ c <> "*"%char
  /\ c <> ":"%char.

(** The text of an array element and the same text with the markers in. *)
Definition elementText (base : jstring) (index : jstring) : jstring :=
  (base ++ lit "[") ++ index ++ lit "]".

Definition markedText (base : jstring) (index : jstring) : jstring :=
  base ++ lit "[x" ++ index ++ lit "x]".

(** Comparison of two texts by their code units. *)
Fixpoint codeUnitCompare (a b : jstring) : Z :=
  match a, b with
  | [], [] => 0
  | [], _ :: _ => -1
  | _ :: _, [] => 1
  | x :: a', y :: b' =>
      match N.compare (N_of_ascii x) (N_of_ascii y) with
      | Lt => -1
      | Gt => 1
      | Eq => codeUnitCompare a' b'
      end
  end.

(** A host to run examples on: POSIX line ends, every file exists, the
    exact value of the ratio, texts compared by code units.  Its regular
    expression engine reports no base class; the examples hold no class
    with an inheritance list. *)
Definition sampleHost : Host :=
  mkHost LF (fun _ => true) (fun _ => []) (fun c n => 25 * c / n) codeUnitCompare.

(** The text of a source literal in which [|] stands for a line feed. *)
Definition lines (s : string) : jstring :=
  flat_map (fun c => if Ascii.eqb c "|" then LF else [c]) (lit s).

(** ** The state of a session, for the statement about progress *)

(** The references of all lists of a collection, in the order in which
    [storeAllElementsFromGdb] visits them. *)
Definition allRefs (v : TgdbVariablesInfo) : list nat :=
  concat (identifiersList <$> v).

(** The references that a scan visits, started at position [i] of the
    first list of [files]. *)
Definition restOf (files : TgdbVariablesInfo) (i : nat) : list nat :=
  match files with
  | [] => []
  | entry :: rest => drop i (identifiersList entry) ++ allRefs rest
  end.

(** The references that lie before position [i] of the first list of
    [files]. *)
Definition firstOf (files : TgdbVariablesInfo) (i : nat) : list nat :=
  match files with
  | [] => []
  | entry :: _ => take i (identifiersList entry)
  end.

(** The references from the cursor [(f, i)] on, and those before it. *)
Definition refsFrom (v : TgdbVariablesInfo) (f i : nat) : list nat :=
  restOf (drop f v) i.

Definition refsBefore (v : TgdbVariablesInfo) (f i : nat) : list nat :=
  allRefs (take f v) ++ firstOf (drop f v) i.

(** The element behind [r] still lacks the information: the test of
    [storeAllElementsFromGdb]. *)
Definition waiting (s : Store) (informationType : InformationType) (r : nat) : bool :=
  from_option (awaits informationType) false (s !! r).

(** The references from the first one on whose element lacks the
    information. *)
Fixpoint pending (s : Store) (informationType : InformationType) (l : list nat)
  : list nat :=
  match l with
  | [] => []
  | r :: l' => if waiting s informationType r then l else pending s informationType l'
  end.

(** The replies counted so far and the elements still to visit do not
    exceed the number of variables. *)
Definition counted (informationType : InformationType) (p : ElfParser) : Prop :=
  0 <= gdbResponseCounter p
  /\ gdbResponseCounter p
     + Z.of_nat (length (pending (store p) informationType
                           (refsFrom (gdbVariablesInfo p) (currentFilenameIdx p)
                              (currentIdentifierIdx p))))
     <= numberOfVariables p.

(** [previousState] is a state that the session has been in. *)
Definition ordered (p : ElfParser) : Prop :=
  (previousState p = GET_SIZE ->
   currentState p = GET_SIZE \/ currentState p = GET_ADDRESS \/ currentState p = IDLE)
  /\ (previousState p = GET_ADDRESS ->
      currentState p = GET_ADDRESS \/ currentState p = IDLE).

(** What holds of the collections in each state of a session:
    - while the types are asked for, the references point into the store
      and the elements before the cursor have their type;
    - while the sizes are asked for, every element has its type;
    - in the two counted states, [numberOfVariables] is the number of
      elements, and the counter is in step once [sendProgressStatusToClient]
      has seen the state. *)
Definition consistent (p : ElfParser) : Prop :=
  ordered p
  /\ match currentState p with
     | START_GDB | SET_METHODS_OFF | SET_TYPEDEFS_OFF | GET_VARIABLES_INFO =>
         newGdbVariablesInfo p = []
     | GET_TYPE =>
         Forall (fun r => (r < length (store p))%nat) (allRefs (gdbVariablesInfo p))
         /\ Forall (fun r => (r < length (store p))%nat) (allRefs (newGdbVariablesInfo p))
         /\ Forall (fun r => waiting (store p) TYPE r = false)
              (refsBefore (gdbVariablesInfo p) (currentFilenameIdx p)
                 (currentIdentifierIdx p))
     | GET_SIZE =>
         Forall (fun r => waiting (store p) TYPE r = false) (allRefs (gdbVariablesInfo p))
         /\ numberOfVariables p = Z.of_nat (length (allRefs (gdbVariablesInfo p)))
         /\ (previousState p = GET_SIZE -> counted SIZE p)
     | GET_ADDRESS =>
         numberOfVariables p = Z.of_nat (length (allRefs (gdbVariablesInfo p)))
         /\ (previousState p = GET_ADDRESS -> counted ADDRESS p)
     | IDLE => True
     end.

(** The ratio of [sendProgressStatusToClient] is a number. *)
Definition ratioDefined (p : ElfParser) : Prop :=
  (currentState p = GET_SIZE -> previousState p = GET_SIZE -> 0 < numberOfVariables p)
  /\ (currentState p = GET_ADDRESS -> previousState p = GET_ADDRESS ->
      0 < numberOfVariables p).

(** The value of a counted state. *)
Definition phase (host : Host) (base : Z) (counting : State) (p : ElfParser) : Z :=
  if decide (previousState p = counting /\ 0 < numberOfVariables p)
  then base + floorRatio25 host (gdbResponseCounter p) (numberOfVariables p)
  else base.

(** The value that [sendProgressStatusToClient] computes in the state of
    [p]. *)
Definition bound (host : Host) (p : ElfParser) : Z :=
  match currentState p with
  | START_GDB | SET_METHODS_OFF | SET_TYPEDEFS_OFF => 0
  | GET_VARIABLES_INFO => 10
  | GET_TYPE => 25
  | GET_SIZE => phase host 50 GET_SIZE p
  | GET_ADDRESS => phase host 75 GET_ADDRESS p
  | IDLE => 100
  end.

Definition increasing (zs : list Z) : Prop :=
  forall (i j : nat) (a b : Z),
    zs !! i = Some a -> zs !! j = Some b -> (i < j)%nat -> a < b.

(** The progress values handed out since the session began, after the
    values [old] of earlier sessions: either none yet, or the last value
    computed is [progressStatus] and at most the value of the state. *)
Definition reported (host : Host) (old : list JsNumber) (p : ElfParser) : Prop :=
  exists zs : list Z,
    progressValues (events p) = old ++ (JInt <$> zs)
    /\ Forall (fun z => 0 <= z <= 100) zs
    /\ increasing zs
    /\ ((zs = [] /\ previousState p <> GET_SIZE /\ previousState p <> GET_ADDRESS)
        \/ exists v, progressStatus p = JInt v
                     /\ v <= bound host p
                     /\ Forall (fun z => z <= v) zs).

(** A step that hands out no progress value and leaves what
    [sendProgressStatusToClient] remembers. *)
Definition unreported (p p' : ElfParser) : Prop :=
  previousState p' = previousState p
  /\ progressStatus p' = progressStatus p
  /\ progressCallback p' = progressCallback p
  /\ progressValues (events p') = progressValues (events p).

(** What a reply does to the state of a session: the collections stay
    consistent, the ratio is a number if the state is a counted one that
    has been seen, and the value of the state does not go down. *)
Definition advanced (host : Host) (p p' : ElfParser) : Prop :=
  consistent p' /\ ratioDefined p' /\ bound host p <= bound host p' /\ unreported p p'.

(** The invariant of a session whose progress callback is [cb]. *)
Definition inSession (host : Host) (cb : nat) (old : list JsNumber) (p : ElfParser)
  : Prop :=
  consistent p /\ progressCallback p = Some cb /\ reported host old p.

(** ** The listing of the variables *)

(** The text [p] occurs in [s]. *)
Definition occurs (p s : jstring) : Prop := exists a b, s = a ++ p ++ b.

(** The section of one file in the reply to [info variables]: the marker,
    the name of the file, a colon, the end of the line, and the
    declarations. *)
Definition fileSection (host : Host) (file : jstring * jstring) : jstring :=
  lit "File " ++ file.1 ++ (lit ":" ++ EOL host) ++ file.2.

(** A reply to [info variables]: a heading, the sections of the files, and
    the symbols without debugging information. *)
Definition listing (host : Host) (heading : jstring) (files : list (jstring * jstring))
    (tail : jstring) : jstring :=
  heading ++ concat (fileSection host <$> files) ++ lit "Non-debugging symbols:" ++ tail.

(** What is asked of the section of a file: no colon in the name, and
    neither of the two markers in the section after its own marker. *)
Definition plainSection (host : Host) (file : jstring * jstring) : Prop :=
  (":"%char ∉ file.1)
  /\ ~ occurs (lit "File ") (file.1 ++ (lit ":" ++ EOL host) ++ file.2)
  /\ ~ occurs (lit "Non-debugging symbols:") (file.1 ++ (lit ":" ++ EOL host) ++ file.2).

(** The entry that the section of a file gives. *)
Definition sectionEntry (expand : bool) (file : jstring * jstring)
  : jstring * list jstring :=
  (file.1, buildVarList file.2 [] expand).

(** ** The course of a session *)

(** The place of a state in the course of a session. *)
Definition stage (state : State) : nat :=
  match state with
  | START_GDB => 0
  | SET_METHODS_OFF => 1
  | SET_TYPEDEFS_OFF => 2
  | GET_VARIABLES_INFO => 3
  | GET_TYPE => 4
  | GET_SIZE => 5
  | GET_ADDRESS => 6
  | IDLE => 7
  end.

(** The commands written to the debugger, in order. *)
Definition commands (l : list Event) : list jstring :=
  omap (fun e => match e with StdinWrite command => Some command | _ => None end) l.

(** An event that the treatment of data may add for the parser [p]: a
    command, or a call of the progress callback of [p]. *)
Definition dataEvent (p : ElfParser) (e : Event) : Prop :=
  match e with
  | StdinWrite _ => True
  | ProgressCall cb _ => progressCallback p = Some cb
  | Spawn _ | ResultCall _ _ => False
  end.

(** The parameters of [readElf] and the process are those of [p]. *)
Definition settingsKept (p p' : ElfParser) : Prop :=
  callback p' = callback p
  /\ expandTableElements p' = expandTableElements p
  /\ progressCallback p' = progressCallback p
  /\ gdbProcess p' = gdbProcess p.

(** ** The result *)

(** Every entry of the list is at most the next one. *)
Definition ascending {A : Type} (compare : A -> A -> Z) (l : list A) : Prop :=
  forall (i : nat) (a b : A), l !! i = Some a -> l !! S i = Some b -> compare a b <= 0.

(** The entries are in the order of their names. *)
Definition sortedByName (host : Host) (l : list VariableInfo) : Prop :=
  ascending (fun a b => localeCompare host (varName a) (varName b)) l.

(** The entry [e] is the one of the element: its name, its kind, and its
    address as sixteen-based text of eight places at least. *)
Definition entryOfElement (element : Identifier) (e : VariableInfo) : Prop :=
  varName e = identifier element
  /\ typeValue element = Some (varType e)
  /\ exists a, address element = Some a /\ a <> []
               /\ varAddress e = lit "0x" ++ padStart0 8 (toString16 (Number a)).

(** The calls of the result callback and the processes started, in
    order. *)
Definition resultCalls (l : list Event) : list (nat * list VariableInfo) :=
  omap (fun e => match e with ResultCall cb v => Some (cb, v) | _ => None end) l.

Definition spawns (l : list Event) : list jstring :=
  omap (fun e => match e with Spawn elfFilename => Some elfFilename | _ => None end) l.

(** Two parsers that differ at most in what the progress reports use
    (the previous state, the counter of replies, the number of variables
    and the last value reported), in the buffer and in the calls of the
    progress callback. *)
Definition alike (p q : ElfParser) : Prop :=
  currentState p = currentState q
  /\ expandTableElements p = expandTableElements q
  /\ store p = store q
  /\ gdbVariablesInfo p = gdbVariablesInfo q
  /\ newGdbVariablesInfo p = newGdbVariablesInfo q
  /\ currentFilenameIdx p = currentFilenameIdx q
  /\ currentIdentifierIdx p = currentIdentifierIdx q
  /\ commands (events p) = commands (events q).

(** ** The types during a session *)

(** What holds of the types in each state: before the variables are
    loaded no new identifier is pending; while the types are asked for,
    the references point into the store and the elements before the
    cursor have their type; while the sizes are asked for, every element
    has its type. *)
Definition typesSettled (p : ElfParser) : Prop :=
  match currentState p with
  | START_GDB | SET_METHODS_OFF | SET_TYPEDEFS_OFF | GET_VARIABLES_INFO =>
      newGdbVariablesInfo p = []
  | GET_TYPE =>
      Forall (fun r => (r < length (store p))%nat) (allRefs (gdbVariablesInfo p))
      /\ Forall (fun r => (r < length (store p))%nat) (allRefs (newGdbVariablesInfo p))
      /\ Forall (fun r => waiting (store p) TYPE r = false)
           (refsBefore (gdbVariablesInfo p) (currentFilenameIdx p)
              (currentIdentifierIdx p))
  | GET_SIZE =>
      Forall (fun r => waiting (store p) TYPE r = false) (allRefs (gdbVariablesInfo p))
  | GET_ADDRESS | IDLE => True
  end.

(** The host with the exact value of the ratio, and the parser before any
    progress report: the treatment of a reply looks at neither. *)
Definition withExactRatio (host : Host) : Host :=
  mkHost (EOL host) (existsSync host) (regexInheritExec host) (fun c n => 25 * c / n)
    (localeCompare host).

Definition unreportedYet (p : ElfParser) : ElfParser :=
  set_numberOfVariables (Z.of_nat (length (allRefs (gdbVariablesInfo p))))
    (set_previousState IDLE p).

(** ** The requests *)

(** The command that asks for the type of an element: for the name of
    the element, or, when its type is a base class still to be looked up
    (a text that starts with [?]), for the class after the mark. *)
Definition typeRequest (element : Identifier) : jstring :=
  GDB_GET_TYPE_HEAD
  ++ match type element with
     | Some t => substringFrom t 1
     | None => identifier element
     end
  ++ GDB_GET_TYPE_TAIL.

(** ** The collections, for the statement about arrays *)

(** The elements [base[0]tail], [base[1]tail], ... that the expansion
    pushes for an array or for a member of the elements of an array, with
    the type and the kind of the entry they come from. *)
Definition pushedMembers (base tail : jstring) (count : nat) (t : option jstring)
    (k : option Z) : Store :=
  (fun i : nat =>
     mkIdentifier (elementText base (toString (JInt (Z.of_nat i))) ++ tail) t k None None)
    <$> seq O count.

(** What the statement about arrays asks of the element behind a
    reference.  With [None] it is a variable that is no array: no bracket
    in its identifier.  With [Some (base, size, tail)] it comes from the
    array [base] of [size] elements as the declaration list parser gives
    it when the arrays are to be expanded: [base[size - 1]] followed by
    [tail], which is empty for the array itself and the text after the
    bracket (a dot and a name) for a member of its elements; neither
    [base] nor [tail] holds a bracket.  The size is below 2^53, where the
    numbers of the engine are the integers ([parseInt], the subtraction
    and the conversion to text are exact there). *)
Definition described (shape : option (jstring * Z * jstring)) (element : Identifier)
  : Prop :=
  match shape with
  | None => ("["%char ∉ identifier element) /\ ("]"%char ∉ identifier element)
  | Some (base, size, tail) =>
      identifier element = elementText base (toString (JInt (size - 1))) ++ tail
      /\ ("["%char ∉ base) /\ ("]"%char ∉ base)
      /\ ("["%char ∉ tail) /\ ("]"%char ∉ tail)
      /\ 1 <= size < 2 ^ 53
  end.

(** The number of entries that the expansion adds for an array of [size]
    elements. *)
Definition addedCount (size : Z) : nat := Z.to_nat (Z.min (size - 1) 10000).

(** The entries that the expansion adds for the element behind [r]: none
    for a variable that is no array, and [base[0]tail], [base[1]tail], ...
    with the type and the kind of the element otherwise. *)
Definition siblings (s : Store) (shapes : nat -> option (jstring * Z * jstring))
    (r : nat) : Store :=
  match shapes r, s !! r with
  | Some (base, size, tail), Some element =>
      pushedMembers base tail (addedCount size) (type element) (typeValue element)
  | _, _ => []
  end.

(** The entries added for the references of a list, in the order of the
    list. *)
Definition added (s : Store) (shapes : nat -> option (jstring * Z * jstring))
    (l : list nat) : Store :=
  concat (siblings s shapes <$> l).

(** Whether a list holds the reference of an array. *)
Definition hasArray (shapes : nat -> option (jstring * Z * jstring)) (l : list nat)
  : bool :=
  existsb (fun r => match shapes r with Some _ => true | None => false end) l.

(** An element with the markers in its identifier, and the store with the
    markers put in behind the references [refs]. *)
Definition marked (element : Identifier) : Identifier :=
  set_identifier
    (replaceChar "]" (lit "x]") (replaceChar "[" (lit "[x") (identifier element)))
    element.

Definition withMarkers (s : Store) (refs : list nat) : Store :=
  foldl (fun s r => alter marked r s) s refs.

(** The collection after the expansion: every list is followed by the
    references of the entries added for it, which lie in the store from
    [start] on. *)
Fixpoint expandedInfo (s : Store) (shapes : nat -> option (jstring * Z * jstring))
    (start : nat) (v : TgdbVariablesInfo) : TgdbVariablesInfo :=
  match v with
  | [] => []
  | entry :: rest =>
      let n := length (added s shapes (identifiersList entry)) in
      mkVariableInfo (filename entry) (identifiersList entry ++ seq start n)
        :: expandedInfo s shapes (start + n) rest
  end.

(** ** Braces *)

(** The number of times the character [x] is in a text. *)
Fixpoint countChar (x : ascii) (s : jstring) : nat :=
  match s with
  | [] => O
  | c :: s' => (if Ascii.eqb c x then 1 else 0) + countChar x s'
  end.

(** Whether the braces of a text match, [depth] of them being open where
    the text begins: every closing brace has an open one before it, and
    none is left open at the end. *)
Fixpoint wellNested (depth : nat) (s : jstring) : bool :=
  match s with
  | [] => Nat.eqb depth O
  | c :: s' =>
      if Ascii.eqb c "{" then wellNested (S depth) s'
      else if Ascii.eqb c "}" then
        match depth with
        | O => false
        | S d => wellNested d s'
        end
      else wellNested depth s'
  end.

(** ** Declaration lists *)

(** A declaration of a list, for the statements about [buildVarList]: the
    text before its body and, when it has a body between braces, the body
    and the text after the closing brace. *)
Definition Declaration : Type := jstring * option (jstring * jstring).

(** The text of a declaration in the block, without the semicolon that
    closes it. *)
Definition declarationText (d : Declaration) : jstring :=
  match d.2 with
  | None => d.1
  | Some (body, post) => d.1 ++ "{"%char :: body ++ "}"%char :: post
  end.

(** The text that the identifier of a declaration is read from: the body
    is left out. *)
Definition declaratorText (d : Declaration) : jstring :=
  match d.2 with
  | None => d.1
  | Some (_, post) => d.1 ++ post
  end.

(** What is asked of a declaration: neither a semicolon nor an opening
    brace before the body, a body whose braces match, and no semicolon
    after it. *)
Definition wellFormed (d : Declaration) : Prop :=
  (";"%char ∉ d.1) /\ ("{"%char ∉ d.1)
  /\ match d.2 with
     | None => True
     | Some (body, post) => wellNested O body = true /\ (";"%char ∉ post)
     end.

(** The block of a list of declarations, each closed by a semicolon. *)
Definition blockOf (ds : list Declaration) : jstring :=
  concat ((fun d => declarationText d ++ [";"%char]) <$> ds).

(** The identifiers that a declarator gives to the list: the ones that
    [extractIdentifiers] returns, and none when it returns the empty
    identifier of a rejected declarator. *)
Definition contribution (text root : jstring) (expand : bool) : list jstring :=
  if decide (extractIdentifiers text root expand = [ [] ]) then []
  else extractIdentifiers text root expand.

End Spec.



(** * Facts about the primitives *)

Import JS Decoder Controller Spec.

Lemma startsWith_spec (s p : jstring) :
  startsWith s p = true <-> exists r, s = p ++ r.
Proof.
  revert s; induction p as [|a p IH]; intros s; simpl.
  - split; [intros _; by exists s | done].
  - destruct s as [|b s]; [split; [done | by intros [r Hr]]|].
    rewrite andb_true_iff, Ascii.eqb_eq, IH. split.
    + intros [-> [r ->]]. by exists r.
    + intros [r Hr]. injection Hr as -> ->. split; [done | by exists r].
Qed.

Lemma startsWith_nil (s : jstring) : startsWith s [] = true.
Proof. by destruct s. Qed.

Lemma startsWith_false_short (s p : jstring) :
  (length s < length p)%nat -> startsWith s p = false.
Proof.
  intros Hlen. destruct (startsWith s p) eqn:E; [|done].
  apply startsWith_spec in E as [r ->]. rewrite length_app in Hlen. lia.
Qed.

Lemma startsWith_app_long (s t p : jstring) :
  (length p <= length s)%nat -> startsWith (s ++ t) p = startsWith s p.
Proof.
  revert s; induction p as [|a p IH]; intros s Hlen; simpl.
  - by destruct s, t.
  - destruct s as [|b s]; simpl in *; [lia|].
    rewrite IH by lia. done.
Qed.

Lemma startsWith_app_l (p r : jstring) : startsWith (p ++ r) p = true.
Proof. apply startsWith_spec. by exists r. Qed.

(** [find] returns the offset of an occurrence, and nothing starts before
    it. *)
Lemma find_Some (p s : jstring) (i : nat) :
  find p s = Some i ->
  startsWith (drop i s) p = true /\ (i + length p <= length s)%nat
  /\ forall j, (j < i)%nat -> startsWith (drop j s) p = false.
Proof.
  revert i; induction s as [|c s IH]; intros i; simpl.
  - destruct (startsWith [] p) eqn:E; [|done].
    intros [= <-]. simpl. split; [done|]. split; [|lia].
    apply startsWith_spec in E as [r Hr]. by destruct p.
  - destruct (startsWith (c :: s) p) eqn:E.
    + intros [= <-]. simpl. split; [done|]. split; [|lia].
      apply startsWith_spec in E as [r Hr].
      apply (f_equal length) in Hr. rewrite length_app in Hr. simpl in Hr. lia.
    + destruct (find p s) as [k|] eqn:Ek; [|done]. simpl.
      intros [= <-]. destruct (IH k eq_refl) as (H1 & H2 & H3).
      simpl. split; [done|]. split; [lia|].
      intros [|j] Hj; simpl; [done|]. apply H3. lia.
Qed.

Lemma find_None (p s : jstring) :
  find p s = None -> forall j, startsWith (drop j s) p = false.
Proof.
  induction s as [|c s IH]; simpl.
  - destruct (startsWith [] p) eqn:E; [done|]. intros _ j. by rewrite drop_nil.
  - destruct (startsWith (c :: s) p) eqn:E; [done|].
    destruct (find p s) eqn:Ek; [done|]. intros _ [|j]; simpl; [done|].
    by apply IH.
Qed.

(** The offset of the first occurrence is determined by these properties. *)
Lemma find_first (p s : jstring) (i : nat) :
  startsWith (drop i s) p = true ->
  (i <= length s)%nat ->
  (forall j, (j < i)%nat -> startsWith (drop j s) p = false) ->
  find p s = Some i.
Proof.
  intros H1 Hle H2. destruct (find p s) as [k|] eqn:E.
  - apply find_Some in E as (K1 & K2 & K3).
    destruct (Nat.lt_trichotomy i k) as [Hlt | [-> | Hgt]]; [|done|].
    + rewrite K3 in H1 by done. done.
    + rewrite H2 in K1 by done. done.
  - rewrite (find_None _ _ E) in H1. done.
Qed.

Lemma find_occurrence (p pre post : jstring) :
  exists i, find p (pre ++ p ++ post) = Some i /\ (i <= length pre)%nat.
Proof.
  destruct (find p (pre ++ p ++ post)) as [k|] eqn:E.
  - exists k. split; [done|]. apply find_Some in E as (K1 & K2 & K3).
    destruct (decide (k <= length pre)%nat); [done|].
    rewrite K3 in K1; [done|]. 
    specialize (K3 (length pre)). rewrite drop_app_length, startsWith_app_l in K3.
    exfalso. assert (true = false) by (apply K3; lia). done.
  - pose proof (find_None _ _ E (length pre)) as H.
    by rewrite drop_app_length, startsWith_app_l in H.
Qed.

(** An occurrence of [p] inside [s] stays the first one when text is
    appended to [s]. *)
Lemma find_app (p s t : jstring) (i : nat) :
  find p s = Some i -> find p (s ++ t) = Some i.
Proof.
  intros E. apply find_Some in E as (K1 & K2 & K3).
  apply find_first.
  - rewrite drop_app_le by lia. rewrite startsWith_app_long; [done|].
    rewrite length_drop. lia.
  - rewrite length_app. lia.
  - intros j Hj. rewrite drop_app_le by lia.
    rewrite startsWith_app_long; [by apply K3|]. rewrite length_drop. lia.
Qed.

Lemma indexOf_found (s p : jstring) :
  indexOf s p <> -1 ->
  exists i : nat, find p s = Some i /\ indexOf s p = Z.of_nat i.
Proof.
  unfold indexOf. destruct (find p s) as [i|]; [|done]. intros _. by exists i.
Qed.

Lemma indexOf_none (s p : jstring) : indexOf s p = -1 <-> find p s = None.
Proof. unfold indexOf. destruct (find p s); split; (done || lia). Qed.

(** [indexOf] finds [p] exactly when [p] occurs in [s]. *)
Lemma indexOf_occurs (s p : jstring) :
  indexOf s p <> -1 <-> exists pre post, s = pre ++ p ++ post.
Proof.
  split.
  - intros H. apply indexOf_found in H as (i & E & _).
    apply find_Some in E as (K1 & K2 & _).
    apply startsWith_spec in K1 as [r Hr].
    exists (take i s), r. by rewrite <- Hr, take_drop.
  - intros (pre & post & ->).
    destruct (find_occurrence p pre post) as (i & E & _).
    unfold indexOf. rewrite E. lia.
Qed.
(** * Response framing *)

Lemma len_GDB_PROMPT : len GDB_PROMPT = 6.
Proof. reflexivity. Qed.

Lemma slice_0_take (s : jstring) (n : nat) :
  slice s 0 (Z.of_nat n) = take n s.
Proof.
  unfold slice, sliceIdx, len.
  destruct (Z.ltb_spec (Z.of_nat n) 0) as [?|_]; [lia|].
  change (0 <? 0) with false. cbv iota.
  replace (Z.to_nat (0 `min` Z.of_nat (length s))) with O by lia.
  rewrite Nat.sub_0_r, drop_0.
  destruct (decide (n <= length s)%nat).
  - f_equal. lia.
  - rewrite !take_ge; [done | lia | lia].
Qed.

Lemma sliceFrom_drop (s : jstring) (n : nat) :
  sliceFrom s (Z.of_nat n) = drop n s.
Proof.
  unfold sliceFrom, sliceIdx, len.
  destruct (Z.ltb_spec (Z.of_nat n) 0) as [?|_]; [lia|].
  destruct (decide (n <= length s)%nat).
  - f_equal. lia.
  - rewrite !drop_ge; [done | lia | lia].
Qed.

Section Framing.
Context {T : Type} (handle : T -> jstring -> option T).

(** One round of the loop when a prompt is in the buffer, and when none
    is. *)
Lemma readResponses_found (k i : nat) (buf : jstring) (t : T) :
  find GDB_PROMPT buf = Some i ->
  readResponses handle (S k) buf t =
    match handle t (take (i + 6) buf) with
    | Some t1 => readResponses handle k (drop (i + 6) buf) t1
    | None => None
    end.
Proof.
  intros E. cbn [readResponses]. unfold indexOf. rewrite E, len_GDB_PROMPT.
  replace (Z.of_nat i + 6) with (Z.of_nat (i + 6)) by lia.
  rewrite slice_0_take, sliceFrom_drop.
  destruct (decide (buf <> [])) as [_|Hn].
  - destruct (decide (Z.of_nat i = -1)); [exfalso; lia | done].
  - destruct buf; [|by destruct Hn]. by vm_compute in E.
Qed.

Lemma readResponses_none (k : nat) (buf : jstring) (t : T) :
  find GDB_PROMPT buf = None ->
  readResponses handle (S k) buf t = Some (buf, t).
Proof.
  intros E. cbn [readResponses]. unfold indexOf. rewrite E.
  destruct (decide (buf <> [])); [|done]. by destruct (decide (-1 = -1)).
Qed.

(** The loop needs at most one round per character: more fuel changes
    nothing. *)
Lemma readResponses_fuel (fuel1 fuel2 : nat) (buf : jstring) (t : T) :
  (length buf < fuel1)%nat -> (length buf < fuel2)%nat ->
  readResponses handle fuel1 buf t = readResponses handle fuel2 buf t.
Proof.
  revert fuel2 buf t; induction fuel1 as [|k IH]; intros fuel2 buf t H1 H2; [lia|].
  destruct fuel2 as [|k2]; [lia|].
  destruct (find GDB_PROMPT buf) as [i|] eqn:E.
  - rewrite !(readResponses_found _ i) by done.
    destruct (handle t (take (i + 6) buf)); [|done].
    apply find_Some in E as (_ & E & _). change (length GDB_PROMPT) with 6%nat in E.
    apply IH; rewrite length_drop; lia.
  - by rewrite !readResponses_none.
Qed.

(** What is left in the buffer holds no prompt. *)
Lemma readResponses_rest (fuel : nat) (buf rest : jstring) (t t1 : T) :
  readResponses handle fuel buf t = Some (rest, t1) ->
  find GDB_PROMPT rest = None.
Proof.
  revert buf t; induction fuel as [|k IH]; intros buf t; [done|].
  destruct (find GDB_PROMPT buf) as [i|] eqn:E.
  - rewrite (readResponses_found _ i) by done.
    destruct (handle t (take (i + 6) buf)); [|done]. apply IH.
  - rewrite readResponses_none by done. by intros [= <- <-].
Qed.

(** Treating [buf ++ data] is treating [buf], then what is left of it
    followed by [data]. *)
Lemma readResponses_app (n : nat) :
  forall (buf data : jstring) (t : T) (fuel1 fuel2 : nat),
  (length buf < n)%nat ->
  (length buf < fuel1)%nat -> (length (buf ++ data) < fuel2)%nat ->
  readResponses handle fuel2 (buf ++ data) t =
    match readResponses handle fuel1 buf t with
    | Some (rest, t1) => readResponses handle (S (length (rest ++ data))) (rest ++ data) t1
    | None => None
    end.
Proof.
  induction n as [|n IH]; intros buf data t fuel1 fuel2 Hn H1 H2; [lia|].
  destruct fuel1 as [|k1]; [lia|]. destruct fuel2 as [|k2]; [lia|].
  rewrite length_app in H2.
  destruct (find GDB_PROMPT buf) as [i|] eqn:E.
  - rewrite (readResponses_found k1 i buf) by done.
    rewrite (readResponses_found k2 i (buf ++ data)) by (by apply find_app).
    apply find_Some in E as (_ & E & _). change (length GDB_PROMPT) with 6%nat in E.
    rewrite take_app_le, drop_app_le by lia.
    destruct (handle t (take (i + 6) buf)); [|done].
    apply IH; rewrite ?length_app, ?length_drop; lia.
  - rewrite (readResponses_none k1) by done.
    apply readResponses_fuel; rewrite length_app; lia.
Qed.

(** [receive] is the loop run on the buffer followed by the new data:
    the test for a prompt up front changes nothing. *)
Lemma receive_readResponses (buf data : jstring) (t : T) :
  receive handle buf t data =
    readResponses handle (S (length (buf ++ data))) (buf ++ data) t.
Proof.
  unfold receive, includes.
  destruct (Z.eqb_spec (indexOf (buf ++ data) GDB_PROMPT) (-1)) as [E|E];
    cbn [negb]; [|done].
  apply indexOf_none in E. by rewrite readResponses_none.
Qed.

Lemma receiveAll_readResponses (chunks : list jstring) :
  forall (buf : jstring) (t : T),
  find GDB_PROMPT buf = None ->
  receiveAll handle buf t chunks =
    readResponses handle (S (length (buf ++ concat chunks))) (buf ++ concat chunks) t.
Proof.
  induction chunks as [|data chunks IH]; intros buf t Hbuf; cbn [receiveAll concat].
  - rewrite app_nil_r. by rewrite readResponses_none.
  - rewrite receive_readResponses.
    rewrite (app_assoc buf data).
    rewrite (readResponses_app (S (length (buf ++ data))) (buf ++ data) (concat chunks) t
               (S (length (buf ++ data)))) by lia.
    destruct (readResponses handle (S (length (buf ++ data))) (buf ++ data) t)
      as [[rest t1]|] eqn:E; [|done].
    apply IH. by eapply readResponses_rest.
Qed.

End Framing.

(** With a treatment that always returns, the loop returns. *)
Lemma readResponses_total {T : Type} (handle : T -> jstring -> T) (fuel : nat) :
  forall (buf : jstring) (t : T),
  (length buf < fuel)%nat ->
  exists rest t1,
    readResponses (fun x r => Some (handle x r)) fuel buf t = Some (rest, t1).
Proof.
  induction fuel as [|k IH]; intros buf t Hlen; [lia|].
  destruct (find GDB_PROMPT buf) as [i|] eqn:E.
  - rewrite (readResponses_found _ k i) by done.
    apply find_Some in E as (_ & E & _). change (length GDB_PROMPT) with 6%nat in E.
    apply IH. rewrite length_drop. lia.
  - rewrite readResponses_none by done. by exists buf, t.
Qed.

Lemma readResponses_keep (fuel : nat) :
  forall (buf : jstring) (seen : list jstring),
  (length buf < fuel)%nat ->
  exists responses rest,
    readResponses keepResponse fuel buf seen = Some (rest, seen ++ responses)
    /\ buf = concat responses ++ rest
    /\ Forall completeResponse responses
    /\ find GDB_PROMPT rest = None.
Proof.
  induction fuel as [|k IH]; intros buf seen Hlen; [lia|].
  destruct (find GDB_PROMPT buf) as [i|] eqn:E.
  - rewrite (readResponses_found _ k i) by done. unfold keepResponse at 1.
    pose proof E as E'.
    apply find_Some in E as (E1 & E2 & E3). change (length GDB_PROMPT) with 6%nat in E2.
    destruct (IH (drop (i + 6) buf) (seen ++ [take (i + 6) buf])) as (rs & rest & R1 & R2 & R3 & R4).
    { rewrite length_drop. lia. }
    exists (take (i + 6) buf :: rs), rest. split; [|split; [|split]]; [| | |done].
    + rewrite R1. by rewrite <- app_assoc.
    + simpl. rewrite <- app_assoc, <- R2. by rewrite take_drop.
    + constructor; [|done]. exists (take i buf).
      apply startsWith_spec in E1 as [r Hr].
      assert (Hbuf : buf = take i buf ++ GDB_PROMPT ++ r) by (by rewrite <- Hr, take_drop).
      assert (Hi : length (take i buf) = i) by (rewrite length_take; lia).
      assert (Hfr : take (i + 6) buf = take i buf ++ GDB_PROMPT).
      { rewrite Hbuf at 1. rewrite take_app_ge by lia. f_equal.
        rewrite Hi. replace (i + 6 - i)%nat with 6%nat by lia.
        by rewrite take_app_length'. }
      split; [done|]. rewrite Hi. apply find_first.
      * rewrite Hfr. rewrite <- Hi at 1. by rewrite drop_app_length.
      * rewrite length_take. lia.
      * intros j Hj. specialize (E3 j Hj).
        rewrite <- (take_drop (i + 6) buf) in E3.
        rewrite drop_app_le in E3 by (rewrite length_take; lia).
        rewrite startsWith_app_long in E3; [done|].
        rewrite length_drop, length_take. change (length GDB_PROMPT) with 6%nat. lia.
  - rewrite readResponses_none by done. exists [], buf.
    by rewrite app_nil_r.
Qed.

Lemma includes_false (s p : jstring) : find p s = None -> includes s p = false.
Proof. intros E. unfold includes, indexOf. by rewrite E. Qed.

(** C7. Response framing does not depend on how the output of the debugger
    is cut into chunks: feeding the chunks one by one hands the same replies,
    in the same order, to the treatment as feeding their concatenation at
    once, and ends with the same unconsumed tail in the buffer; the tail
    holds no prompt.  With the treatment that keeps the replies, the replies
    followed by the tail are the text that was fed, and every reply ends at
    its only prompt. *)
Theorem framing_fragmentation_invariant :
  (forall (T : Type) (handle : T -> jstring -> T) (t : T) (chunks : list jstring),
     exists (rest : jstring) (t1 : T),
       receiveAll (fun x r => Some (handle x r)) [] t chunks = Some (rest, t1)
       /\ receive (fun x r => Some (handle x r)) [] t (concat chunks) = Some (rest, t1)
       /\ includes rest GDB_PROMPT = false)
  /\ (forall chunks : list jstring,
        exists (responses : list jstring) (rest : jstring),
          receiveAll keepResponse [] [] chunks = Some (rest, responses)
          /\ concat chunks = concat responses ++ rest
          /\ Forall completeResponse responses).
Proof.
  split.
  - intros T handle t chunks.
    rewrite receiveAll_readResponses by done. rewrite receive_readResponses.
    destruct (readResponses_total handle (S (length ([] ++ concat chunks)))
                ([] ++ concat chunks) t) as (rest & t1 & E); [lia|].
    exists rest, t1. split; [done|]. split; [done|].
    apply includes_false. by eapply readResponses_rest.
  - intros chunks. rewrite receiveAll_readResponses by done.
    destruct (readResponses_keep (S (length ([] ++ concat chunks)))
                ([] ++ concat chunks) []) as (rs & rest & R1 & R2 & R3 & _); [lia|].
    by exists rs, rest.
Qed.

(** * The recursion guard of classes *)

Lemma checkClassRecursion_occurs (classHierarchy className : jstring) :
  checkClassRecursion classHierarchy className = true
  <-> exists pre post, classHierarchy = pre ++ className ++ post.
Proof.
  unfold checkClassRecursion. rewrite bool_decide_eq_true. apply indexOf_occurs.
Qed.

(** A reply for a class whose name is found in the hierarchy is left
    alone. *)
Lemma extractType_recursive (host : Host) (s : Store)
    (variablesInfo newVariablesInfo : TgdbVariablesInfo)
    (fileName expr rootIdentifier : jstring) (rootHierarchy : option jstring)
    (bExpandTableElements : bool) :
  startsWith (removeStorageClassSpecifier (trim expr)) (lit "class ") = true ->
  checkClassRecursion (orEmpty rootHierarchy)
    (classNameOf (removeStorageClassSpecifier (trim expr))) = true ->
  extractType host s variablesInfo newVariablesInfo fileName expr rootIdentifier
    rootHierarchy bExpandTableElements
  = ([], s, variablesInfo, newVariablesInfo).
Proof.
  intros Hclass Hrec. unfold extractType.
  rewrite Hclass, Hrec, orb_true_r. cbn [andb].
  by destruct (decide (indexOf _ _ = -1)).
Qed.

(** C4. When the class name read off a class reply already occurs in the
    class hierarchy passed in, [extractType] returns the empty text as the
    type and leaves the store, the variable collection and the collection of
    pending members as they were; the element that gets this type is not
    asked about again. *)
Theorem extractType_cycle_guard (host : Host) (s : Store)
    (variablesInfo newVariablesInfo : TgdbVariablesInfo)
    (fileName expr rootIdentifier : jstring) (rootHierarchy : option jstring)
    (bExpandTableElements : bool) (element : Identifier) :
  startsWith (removeStorageClassSpecifier (trim expr)) (lit "class ") = true ->
  checkClassRecursion (orEmpty rootHierarchy)
    (classNameOf (removeStorageClassSpecifier (trim expr))) = true ->
  let result :=
    extractType host s variablesInfo newVariablesInfo fileName expr rootIdentifier
      rootHierarchy bExpandTableElements in
  result = ([], s, variablesInfo, newVariablesInfo)
  /\ awaits TYPE (set_type result.1.1.1 element) = false
  /\ typeCommand (set_type result.1.1.1 element) = [].
Proof.
  intros Hclass Hrec result. subst result.
  rewrite extractType_recursive by done. done.
Qed.

Lemma extractType_cycle_guard_witness :
  let expr := lines "class Node {|    int value;|    static Node root;|}" in
  let element := mkIdentifier (lit "list.root") None None None (Some (lit ".Node")) in
  let variablesInfo := [mkVariableInfo (lit "main.cpp") [O]] in
  extractType sampleHost [element] variablesInfo [] (lit "main.cpp") expr
    (lit "list.root") (Some (lit ".Node")) false
  = ([], [element], variablesInfo, []).
Proof.
  intros expr element variablesInfo.
  apply (extractType_cycle_guard sampleHost [element] variablesInfo []
           (lit "main.cpp") expr (lit "list.root") (Some (lit ".Node")) false element);
    vm_compute; reflexivity.
Defined.

(** C10. [checkClassRecursion] answers [true] exactly when the class name
    occurs somewhere in the hierarchy text, as any substring; so a name
    that is part of the name of an ancestor counts as recursive and the
    class is left unexpanded, and the empty name is always recursive. *)
Theorem checkClassRecursion_substring :
  (forall classHierarchy className : jstring,
     checkClassRecursion classHierarchy className = true
     <-> exists pre post, classHierarchy = pre ++ className ++ post)
  /\ checkClassRecursion (lit ".Foobar") (lit "Foo") = true
  /\ (forall classHierarchy : jstring, checkClassRecursion classHierarchy [] = true)
  /\ (forall (host : Host) (s : Store) (variablesInfo newVariablesInfo : TgdbVariablesInfo)
        (fileName expr rootIdentifier : jstring) (rootHierarchy : option jstring)
        (bExpandTableElements : bool) (pre post : jstring),
        startsWith (removeStorageClassSpecifier (trim expr)) (lit "class ") = true ->
        orEmpty rootHierarchy
          = pre ++ classNameOf (removeStorageClassSpecifier (trim expr)) ++ post ->
        extractType host s variablesInfo newVariablesInfo fileName expr rootIdentifier
          rootHierarchy bExpandTableElements
        = ([], s, variablesInfo, newVariablesInfo)).
Proof.
  split; [exact checkClassRecursion_occurs|].
  split; [reflexivity|].
  split.
  - intros h. apply checkClassRecursion_occurs. by exists [], h.
  - intros host s v n fileName expr root hierarchy expand pre post Hclass Hocc.
    apply extractType_recursive; [done|].
    apply checkClassRecursion_occurs. by exists pre, post.
Qed.

Lemma checkClassRecursion_substring_witness :
  let expr := lines "class Foo {|    int value;|}" in
  extractType sampleHost [] [] [] (lit "main.cpp") expr (lit "bar.foo")
    (Some (lit ".Foobar")) false
  = ([], [], [], []).
Proof.
  intros expr.
  apply (proj2 (proj2 (proj2 checkClassRecursion_substring)) sampleHost [] [] []
           (lit "main.cpp") expr (lit "bar.foo") (Some (lit ".Foobar")) false
           (lit ".") (lit "bar"));
    vm_compute; reflexivity.
Defined.

(** * The entry point and the result *)

(** C6. When the file does not exist, [readElf] returns the status for a
    file that is not found, calls the result callback once, with the empty
    list, and starts no debugger: the call of the callback is the only
    event, and the process and the state of the parser stay as they
    were. *)
Theorem readElf_missing_file (host : Host) (elfFilename : jstring) (cb : nat)
    (expand : bool) (progressCb : option nat) (p : ElfParser) :
  existsSync host elfFilename = false ->
  let result := readElf host elfFilename cb expand progressCb p in
  result.1 = ELFPARSER_ELFFILENAME_NOT_FOUND
  /\ events result.2 = events p ++ [ResultCall cb []]
  /\ gdbProcess result.2 = gdbProcess p
  /\ currentState result.2 = currentState p.
Proof.
  intros Hmissing. unfold readElf. rewrite Hmissing. cbn [negb].
  destruct (decide (ELFPARSER_ELFFILENAME_NOT_FOUND <> ELFPARSER_OK)) as [_|Hn];
    [|by destruct Hn].
  done.
Qed.

Lemma readElf_missing_file_witness :
  let host := mkHost LF (fun _ => false) (fun _ => []) (fun c n => 25 * c / n)
                codeUnitCompare in
  let result := readElf host (lit "/nonexistent") 1%nat false None new in
  result.1 = ELFPARSER_ELFFILENAME_NOT_FOUND
  /\ events result.2 = [ResultCall 1%nat []]
  /\ gdbProcess result.2 = None
  /\ currentState result.2 = IDLE.
Proof.
  intros host.
  apply (readElf_missing_file host (lit "/nonexistent") 1%nat false None new).
  reflexivity.
Defined.

(** C5, as the code has it.  A call of [readElf] on a parser that is not
    idle returns the status for a parsing that is ongoing and calls the new
    callback once with the empty list, without starting a debugger; but the
    callback, the array flag and the progress callback of the call have
    replaced the ones stored by the session in progress, whose result will
    go to the new callback. *)
Theorem readElf_busy_overwrites_parameters (host : Host) (elfFilename : jstring)
    (cb : nat) (expand : bool) (progressCb : option nat) (p : ElfParser) :
  existsSync host elfFilename = true ->
  currentState p <> IDLE ->
  let result := readElf host elfFilename cb expand progressCb p in
  result.1 = ELFPARSER_PARSING_ONGOING
  /\ events result.2 = events p ++ [ResultCall cb []]
  /\ currentState result.2 = currentState p
  /\ callback result.2 = Some cb
  /\ expandTableElements result.2 = expand
  /\ progressCallback result.2 = progressCb
  /\ events (sendVariablesInfoToClient host result.2)
     = events result.2 ++ [ResultCall cb (resultList host p)].
Proof.
  intros Hexists Hbusy. unfold readElf. rewrite Hexists. cbn [negb].
  destruct (decide (currentState (set_parameters cb expand progressCb p) <> IDLE))
    as [_|Hn]; [|by destruct Hn].
  destruct (decide (ELFPARSER_PARSING_ONGOING <> ELFPARSER_OK)) as [_|Hn];
    [|by destruct Hn].
  done.
Qed.

Lemma readElf_busy_overwrites_parameters_witness :
  let inflight := (readElf sampleHost (lit "first.elf") 1%nat false (Some 2%nat) new).2 in
  let result := readElf sampleHost (lit "second.elf") 3%nat true None inflight in
  (callback inflight = Some 1%nat /\ expandTableElements inflight = false
   /\ progressCallback inflight = Some 2%nat)
  /\ result.1 = ELFPARSER_PARSING_ONGOING
  /\ callback result.2 = Some 3%nat
  /\ expandTableElements result.2 = true
  /\ progressCallback result.2 = None.
Proof.
  intros inflight result. split; [by vm_compute|].
  destruct (readElf_busy_overwrites_parameters sampleHost (lit "second.elf") 3%nat true
              None inflight) as (H1 & _ & _ & H4 & H5 & H6 & _);
    [reflexivity | by vm_compute | done].
Defined.

(** C1, as the code has it.  A session on a program with one C++ [bool]
    variable: the debugger names the type [bool], which [computeTypeValue]
    does not know, and the result handed to the callback when the debugger
    closes holds the variable with the kind [-1]. *)
Theorem result_keeps_unexpected_type :
  let chunks :=
    lines <$>
      [ "GNU gdb (GNU Arm Embedded Toolchain)|(gdb) "; "(gdb) "; "(gdb) ";
        "All defined variables:||File main.cpp:|12:	bool ready;||(gdb) ";
        "type = bool|(gdb) "; "(gdb) ";
        "$1 = 1|(gdb) "; "(gdb) ";
        "$2 = 0x20000000|(gdb) "; "(gdb) " ]%string in
  let started := (readElf sampleHost (lit "app.elf") 1%nat false None new).2 in
  let closed := sendVariablesInfoToClient sampleHost (feed sampleHost O started chunks) in
  computeTypeValue (lit "bool") (lit "$1 = 1") = -1
  /\ currentState closed = IDLE
  /\ last (events closed)
     = Some (ResultCall 1%nat
               [mkVariable (lit "ready") (lit "0x20000000") (-1)]).
Proof. vm_compute. done. Qed.

(** * Storage class specifiers and the classification of types *)

Lemma substringFrom_startsWith (s m : jstring) :
  startsWith s m = true -> s = m ++ substringFrom s (len m).
Proof.
  intros H. apply startsWith_spec in H as [r ->].
  unfold substringFrom, clamp, len. rewrite length_app.
  replace (Z.to_nat _) with (length m) by lia.
  by rewrite drop_app_length.
Qed.

(** One pass strips a run of markers; it reports nothing found exactly when
    no marker starts the text. *)
Lemma stripMarkers_run (markers : list jstring) :
  forall (x : jstring) (f : bool),
  exists ms,
    Forall (fun m => m ∈ markers) ms
    /\ x = concat ms ++ (foldl stripMarker (x, f) markers).1
    /\ ((foldl stripMarker (x, f) markers).2 = false ->
        f = false /\ ms = [] /\ forall m, m ∈ markers -> startsWith x m = false)
    /\ ((foldl stripMarker (x, f) markers).2 = true -> f = true \/ ms <> []).
Proof.
  induction markers as [|m rest IH]; intros x f; cbn [foldl].
  - exists []. split; [done|]. split; [done|]. split; [|by left].
    simpl. intros ->. split; [done|]. split; [done|]. intros m Hm. by apply elem_of_nil in Hm.
  - change (stripMarker (x, f) m)
      with (if startsWith x m then (substringFrom x (len m), true) else (x, f)).
    destruct (startsWith x m) eqn:E.
    + destruct (IH (substringFrom x (len m)) true) as (ms & H1 & H2 & H3 & H4).
      exists (m :: ms). split; [|split; [|split]].
      * constructor; [apply list_elem_of_here|].
        eapply Forall_impl; [exact H1|]. intros ? ?. by apply list_elem_of_further.
      * cbn [concat]. rewrite <- app_assoc, <- H2. by apply substringFrom_startsWith.
      * intros Hf. by destruct (H3 Hf).
      * intros _. by right.
    + destruct (IH x f) as (ms & H1 & H2 & H3 & H4).
      exists ms. split; [|split; [|split]]; [| done | | done].
      * eapply Forall_impl; [exact H1|]. intros ? ?. by apply list_elem_of_further.
      * intros Hf. destruct (H3 Hf) as (? & ? & Hno). split; [done|]. split; [done|].
        intros m' Hm'. apply elem_of_cons in Hm' as [-> | Hm']; [done | by apply Hno].
Qed.

(** The loop ends within the fuel, on a text that no marker starts, and has
    removed a run of markers; [width] is a lower bound on their lengths. *)
Lemma stripMarkersLoop_run (markers : list jstring) (fuel : nat) :
  Forall (fun m => (0 < length m)%nat) markers ->
  forall s : jstring,
  (length s < fuel)%nat ->
  exists t ms,
    stripMarkersLoop markers fuel s = Some t
    /\ Forall (fun m => m ∈ markers) ms
    /\ s = concat ms ++ t
    /\ forall m, m ∈ markers -> startsWith t m = false.
Proof.
  intros Hpos. induction fuel as [|k IH]; intros s Hlen; [lia|].
  cbn [stripMarkersLoop]. unfold stripMarkers.
  destruct (stripMarkers_run markers s false) as (ms & H1 & H2 & H3 & H4).
  destruct (foldl stripMarker (s, false) markers) as [t found]. cbn [fst snd] in *.
  destruct found.
  - destruct (H4 eq_refl) as [? | Hne]; [done|].
    destruct ms as [|m ms]; [done|].
    assert (0 < length m)%nat.
    { rewrite Forall_forall in Hpos. apply Hpos. by inversion H1. }
    destruct (IH t) as (t' & ms' & K1 & K2 & K3 & K4).
    { apply (f_equal length) in H2. cbn [concat] in H2. rewrite !length_app in H2. lia. }
    exists t', ((m :: ms) ++ ms'). split; [done|]. split; [by apply Forall_app|].
    split; [|done]. rewrite concat_app, <- app_assoc, <- K3. done.
  - destruct (H3 eq_refl) as (_ & -> & Hno). simpl in H2. subst s.
    by exists t, [].
Qed.

(** Two ways to cut a text into a run of storage class specifiers and a
    rest that none starts give the same rest. *)
Lemma storageMarker_cases (m : jstring) :
  m ∈ storageMarkers ->
  m = lit "extern " \/ m = lit "static " \/ m = lit "volatile " \/ m = lit "const ".
Proof.
  unfold storageMarkers. rewrite !elem_of_cons, elem_of_nil. tauto.
Qed.

Lemma storageMarker_prefix_free (m m' x y : jstring) :
  m ∈ storageMarkers -> m' ∈ storageMarkers -> m ++ x = m' ++ y -> m = m'.
Proof.
  intros Hm Hm' E.
  apply storageMarker_cases in Hm as [-> | [-> | [-> | ->]]];
    apply storageMarker_cases in Hm' as [-> | [-> | [-> | ->]]];
    first [reflexivity | discriminate E].
Qed.

Lemma storage_run_unique (ms : list jstring) :
  forall (ms' : list jstring) (t t' : jstring),
  Forall (fun m => m ∈ storageMarkers) ms ->
  Forall (fun m => m ∈ storageMarkers) ms' ->
  noStorageMarker t -> noStorageMarker t' ->
  concat ms ++ t = concat ms' ++ t' -> t = t'.
Proof.
  induction ms as [|m ms IH]; intros ms' t t' H H' Ht Ht' E.
  - destruct ms' as [|m' ms']; [done|].
    apply Forall_cons in H' as [Hm' _]. simpl in E.
    specialize (Ht m' Hm'). rewrite E, <- app_assoc, startsWith_app_l in Ht. done.
  - apply Forall_cons in H as [Hm Hms].
    destruct ms' as [|m' ms'].
    + simpl in E. specialize (Ht' m Hm).
      rewrite <- E, <- app_assoc, startsWith_app_l in Ht'. done.
    + apply Forall_cons in H' as [Hm' Hms']. cbn [concat] in E.
      rewrite <- !app_assoc in E.
      pose proof (storageMarker_prefix_free _ _ _ _ Hm Hm' E) as <-.
      apply app_inv_head in E. by eapply IH.
Qed.

(** [removeStorageClassSpecifier] cuts the specifiers off the front, in any
    order and number. *)
Lemma removeStorageClassSpecifier_run (expr : jstring) :
  exists ms,
    Forall (fun m => m ∈ storageMarkers) ms
    /\ expr = concat ms ++ removeStorageClassSpecifier expr
    /\ noStorageMarker (removeStorageClassSpecifier expr).
Proof.
  unfold removeStorageClassSpecifier.
  destruct (stripMarkersLoop_run storageMarkers (S (length expr))) with (s := expr)
    as (t & ms & E & H1 & H2 & H3); [by repeat constructor | lia |].
  rewrite E. by exists ms.
Qed.

Lemma removeStorageClassSpecifier_strips (qualifiers : list jstring) (t : jstring) :
  Forall (fun m => m ∈ storageMarkers) qualifiers ->
  noStorageMarker t ->
  removeStorageClassSpecifier (concat qualifiers ++ t) = t.
Proof.
  intros Hq Ht.
  destruct (removeStorageClassSpecifier_run (concat qualifiers ++ t)) as (ms & H1 & H2 & H3).
  symmetry. by eapply (storage_run_unique qualifiers ms).
Qed.

(** [trim] keeps a text that neither starts nor ends with white space. *)
Lemma trim_id (s : jstring) :
  (forall c, head s = Some c -> isWhiteSpace c = false) ->
  (forall c, last s = Some c -> isWhiteSpace c = false) ->
  trim s = s.
Proof.
  intros Hhead Hlast. unfold trim, trimEnd.
  assert (E : trimStart s = s).
  { destruct s as [|c s]; [done|]. simpl. by rewrite (Hhead c). }
  rewrite E.
  destruct (reverse s) as [|c r] eqn:Er.
  - by rewrite <- (reverse_involutive s), Er.
  - simpl. rewrite (Hlast c).
    + by rewrite <- Er, reverse_involutive.
    + rewrite <- (reverse_involutive s), Er, reverse_cons. by rewrite last_snoc.
Qed.

Lemma elem_of_trimStart (c : ascii) (s : jstring) :
  c ∈ s -> isWhiteSpace c = false -> c ∈ trimStart s.
Proof.
  intros Hin Hc. induction s as [|x s IH]; [done|]. simpl.
  destruct (isWhiteSpace x) eqn:Ex; [|done].
  apply IH. apply elem_of_cons in Hin as [-> | Hin]; [congruence | done].
Qed.

Lemma elem_of_trim (c : ascii) (s : jstring) :
  c ∈ s -> isWhiteSpace c = false -> c ∈ trim s.
Proof.
  intros Hin Hc. unfold trim, trimEnd.
  apply elem_of_reverse, elem_of_trimStart; [|done].
  by apply elem_of_reverse, elem_of_trimStart.
Qed.

Lemma findLast_char (c : ascii) (s : jstring) :
  c ∈ s -> findLast [c] s <> None.
Proof.
  induction s as [|x s IH]; intros Hin; [by apply elem_of_nil in Hin|].
  cbn [findLast]. destruct (findLast [c] s) eqn:E; [done|].
  apply elem_of_cons in Hin as [-> | Hin]; [|by destruct (IH Hin)].
  simpl. by rewrite Ascii.eqb_refl.
Qed.

Lemma lastIndexOf_char (c : ascii) (s : jstring) :
  c ∈ s -> lastIndexOf s [c] <> -1.
Proof.
  intros Hin. unfold lastIndexOf.
  pose proof (findLast_char c s Hin). destruct (findLast [c] s); [lia | done].
Qed.

Lemma storage_run_no_star (ms : list jstring) :
  Forall (fun m => m ∈ storageMarkers) ms -> "*"%char ∉ concat ms.
Proof.
  induction 1 as [|m ms Hm _ IH]; simpl; [by intros ?%elem_of_nil|].
  rewrite elem_of_app. intros [Hin | Hin]; [|done].
  apply storageMarker_cases in Hm as [-> | [-> | [-> | ->]]];
    vm_compute in Hin; by repeat (apply elem_of_cons in Hin as [? | Hin]; [done|]);
    apply elem_of_nil in Hin.
Qed.

(** A text with a [*] in it takes the pointer branch of
    [computeTypeValue]. *)
Lemma pointer_text (expr : jstring) :
  "*"%char ∈ expr ->
  lastIndexOf (removeStorageClassSpecifier (trim expr)) (lit "*") <> -1.
Proof.
  intros Hin. apply lastIndexOf_char.
  destruct (removeStorageClassSpecifier_run (trim expr)) as (ms & H1 & H2 & _).
  pose proof (elem_of_trim _ _ Hin eq_refl) as Ht.
  rewrite H2 in Ht. apply elem_of_app in Ht as [Ht | Ht]; [|done].
  by destruct (storage_run_no_star ms H1).
Qed.

(** The text that [computeTypeValue] classifies when specifiers precede a
    spelling [t] that starts and ends with a letter. *)
Lemma stripped_spelling (qualifiers : list jstring) (t : jstring) :
  Forall (fun m => m ∈ storageMarkers) qualifiers ->
  noStorageMarker t ->
  (forall c, head t = Some c -> isWhiteSpace c = false) ->
  (forall c, last t = Some c -> isWhiteSpace c = false) ->
  t <> [] ->
  removeStorageClassSpecifier (trim (concat qualifiers ++ t)) = t.
Proof.
  intros Hq Ht Hhead Hlast Hne.
  rewrite trim_id; [by apply removeStorageClassSpecifier_strips | |].
  - destruct Hq as [|m ms Hm _]; [done|].
    intros c. apply storageMarker_cases in Hm as [-> | [-> | [-> | ->]]];
      by intros [= <-].
  - intros c. rewrite last_app. destruct (last t) eqn:E; [by intros [= <-]; apply Hlast|].
    apply last_None in E. done.
Qed.

Lemma noStorageMarker_computed (t : jstring) :
  forallb (fun m => negb (startsWith t m)) storageMarkers = true -> noStorageMarker t.
Proof.
  intros H m Hm. rewrite forallb_forall in H.
  apply negb_true_iff, H. by apply list_elem_of_In.
Qed.

Local Ltac spelling :=
  lazymatch goal with
  | |- removeStorageClassSpecifier (trim (concat ?q ++ ?t)) = ?t =>
      apply stripped_spelling;
      [ assumption
      | by apply noStorageMarker_computed
      | by intros ? [= <-]
      | by intros ? [= <-]
      | done ]
  end.

(** C2. The classification table of [computeTypeValue], whatever storage
    class specifiers precede the spelling: [unsigned char] measured at 1 is
    unsigned 8 bits, [int] measured at 2 is signed 16 bits, [int] measured
    at 4 is signed 32 bits, [double] measured at 8 is a double; and a type
    text with a [*] in it is classified by the measured size alone, 4 giving
    unsigned 32 bits, 1 unsigned 8 bits and everything else unsigned 16
    bits. *)
Theorem computeTypeValue_table :
  (forall (qualifiers : list jstring) (size : jstring),
     Forall (fun m => m ∈ storageMarkers) qualifiers ->
     (measuredSize size = lit "1" ->
      computeTypeValue (concat qualifiers ++ lit "unsigned char") size
      = TYPE_VALUE.UNSIGNED_8)
     /\ (measuredSize size = lit "2" ->
         computeTypeValue (concat qualifiers ++ lit "int") size = TYPE_VALUE.SIGNED_16)
     /\ (measuredSize size = lit "4" ->
         computeTypeValue (concat qualifiers ++ lit "int") size = TYPE_VALUE.SIGNED_32)
     /\ (measuredSize size = lit "8" ->
         computeTypeValue (concat qualifiers ++ lit "double") size = TYPE_VALUE.DOUBLE))
  /\ (forall expr size : jstring,
        "*"%char ∈ expr ->
        computeTypeValue expr size
        = if decide (measuredSize size = lit "4") then TYPE_VALUE.UNSIGNED_32
          else if decide (measuredSize size = lit "1") then TYPE_VALUE.UNSIGNED_8
          else TYPE_VALUE.UNSIGNED_16).
Proof.
  split.
  - intros qualifiers size Hq.
    repeat split; intros Hsize; unfold computeTypeValue; rewrite Hsize.
    + replace (removeStorageClassSpecifier _) with (lit "unsigned char") by (symmetry; spelling).
      reflexivity.
    + replace (removeStorageClassSpecifier _) with (lit "int") by (symmetry; spelling).
      reflexivity.
    + replace (removeStorageClassSpecifier _) with (lit "int") by (symmetry; spelling).
      reflexivity.
    + replace (removeStorageClassSpecifier _) with (lit "double") by (symmetry; spelling).
      reflexivity.
  - intros expr size Hstar. unfold computeTypeValue.
    destruct (decide (lastIndexOf _ (lit "*") <> -1)) as [_|Hn];
      [|by destruct Hn; apply pointer_text].
    destruct (decide (measuredSize size = lit "4")) as [E4|E4]; [done|].
    by destruct (decide (measuredSize size = lit "1")).
Qed.

Lemma computeTypeValue_table_witness :
  computeTypeValue (lit "static const unsigned char") (lit "$1 = 1") = TYPE_VALUE.UNSIGNED_8
  /\ computeTypeValue (lit "volatile int") (lit "$2 = 2") = TYPE_VALUE.SIGNED_16
  /\ computeTypeValue (lit "int") (lit "$3 = 4") = TYPE_VALUE.SIGNED_32
  /\ computeTypeValue (lit "extern double") (lit "$4 = 8") = TYPE_VALUE.DOUBLE
  /\ computeTypeValue (lit "char *") (lit "$5 = 4") = TYPE_VALUE.UNSIGNED_32
  /\ computeTypeValue (lit "struct node *") (lit "$6 = 2") = TYPE_VALUE.UNSIGNED_16.
Proof.
  destruct computeTypeValue_table as [Htable Hpointer].
  assert (Hin : forall m, In m storageMarkers -> m ∈ storageMarkers)
    by (intros m; apply list_elem_of_In).
  split; [|split; [|split; [|split; [|split]]]].
  - refine (proj1 (Htable [lit "static "; lit "const "] (lit "$1 = 1") _) eq_refl).
    repeat constructor; apply Hin; vm_compute; tauto.
  - refine (proj1 (proj2 (Htable [lit "volatile "] (lit "$2 = 2") _)) eq_refl).
    repeat constructor; apply Hin; vm_compute; tauto.
  - refine (proj1 (proj2 (proj2 (Htable [] (lit "$3 = 4") _))) eq_refl).
    constructor.
  - refine (proj2 (proj2 (proj2 (Htable [lit "extern "] (lit "$4 = 8") _))) eq_refl).
    repeat constructor; apply Hin; vm_compute; tauto.
  - rewrite (Hpointer (lit "char *") (lit "$5 = 4")); [reflexivity|].
    apply list_elem_of_In. vm_compute. tauto.
  - rewrite (Hpointer (lit "struct node *") (lit "$6 = 2")); [reflexivity|].
    apply list_elem_of_In. vm_compute. tauto.
Defined.

(** * Declarations: what the identifier extractor rejects *)

(** Searching for one character. *)
Lemma find_char_cons (x c : ascii) (s : jstring) :
  find [x] (c :: s) = if Ascii.eqb x c then Some O else S <$> find [x] s.
Proof.
  cbn [find startsWith]. by destruct (Ascii.eqb x c).
Qed.

Lemma find_char_None (x : ascii) (s : jstring) :
  find [x] s = None <-> x ∉ s.
Proof.
  induction s as [|c s IH].
  - split; [intros _ ?%elem_of_nil | ]; done.
  - rewrite find_char_cons, not_elem_of_cons.
    destruct (Ascii.eqb_spec x c) as [->|Hne].
    + split; [done | by intros [? _]].
    + destruct (find [x] s); simpl; [split; [done | intros [_ H]; by apply IH in H]|].
      split; [intros _; split; [done | by apply IH] | done].
Qed.

Lemma find_char_Some (x : ascii) (s : jstring) (i : nat) :
  find [x] s = Some i ->
  s = take i s ++ x :: drop (S i) s /\ x ∉ take i s.
Proof.
  revert i; induction s as [|c s IH]; intros i; [done|].
  rewrite find_char_cons. destruct (Ascii.eqb_spec x c) as [->|Hne].
  - intros [= <-]. simpl. split; [by rewrite drop_0 | by intros ?%elem_of_nil].
  - destruct (find [x] s) as [k|] eqn:E; [|done]. intros [= <-].
    destruct (IH k eq_refl) as [H1 H2]. simpl. split; [by rewrite <- H1|].
    by apply not_elem_of_cons.
Qed.

Lemma findLast_char_None (x : ascii) (s : jstring) :
  x ∉ s -> findLast [x] s = None.
Proof.
  induction s as [|c s IH]; intros Hx; [done|].
  apply not_elem_of_cons in Hx as [Hne Hx]. cbn [findLast]. rewrite IH by done.
  simpl. by destruct (Ascii.eqb_spec x c).
Qed.

Lemma indexOf_char_absent (x : ascii) (s : jstring) :
  x ∉ s -> indexOf s [x] = -1.
Proof. intros H. apply indexOf_none. by apply find_char_None. Qed.

Lemma lastIndexOf_char_absent (x : ascii) (s : jstring) :
  x ∉ s -> lastIndexOf s [x] = -1.
Proof. intros H. unfold lastIndexOf. by rewrite findLast_char_None. Qed.

Section Kept.
Context (x : ascii) (Hx : kept x).

Let occ (s : jstring) : jstring := filter (fun c => c = x) s.

Lemma occ_cons_other (c : ascii) (s : jstring) : c <> x -> occ (c :: s) = occ s.
Proof. intros H. unfold occ. by rewrite filter_cons_False. Qed.

Lemma occ_drop (n : nat) (s : jstring) :
  Forall (fun c => c <> x) (take n s) -> occ (drop n s) = occ s.
Proof.
  revert s; induction n as [|n IH]; intros s H; [done|].
  destruct s as [|c s]; [done|]. simpl in *.
  apply Forall_cons in H as [Hc H]. rewrite occ_cons_other by done. by apply IH.
Qed.

Lemma spaceRun_other (s : jstring) :
  Forall (fun c => c <> x) (take (spaceRun s) s).
Proof.
  induction s as [|c s IH]; simpl; [done|].
  destruct (isWhiteSpace c) eqn:E; simpl; [|done].
  constructor; [|done]. intros ->. destruct Hx as [Hw _]. congruence.
Qed.

Lemma digitRun_other (s : jstring) :
  Forall (fun c => c <> x) (take (digitRun s) s).
Proof.
  induction s as [|c s IH]; simpl; [done|].
  destruct (isDigit c) eqn:E; simpl; [|done].
  constructor; [|done]. intros ->. destruct Hx as (_ & Hd & _). congruence.
Qed.

Lemma keyword_other (kw : jstring) :
  kw ⊆ lit "public:private:protected:" -> Forall (fun c => c <> x) kw.
Proof.
  intros Hsub. apply Forall_forall. intros c Hc ->.
  destruct Hx as (_ & _ & Hk). by apply Hk, Hsub.
Qed.

Lemma take_run_keyword (w : nat) (s kw : jstring) :
  startsWith (drop w s) kw = true ->
  Forall (fun c => c <> x) (take w s) ->
  kw ⊆ lit "public:private:protected:" ->
  Forall (fun c => c <> x) (take (w + length kw) s).
Proof.
  intros Hkw Hw Hsub. apply startsWith_spec in Hkw as [r Hr].
  destruct (decide (w <= length s)%nat) as [Hle|Hgt].
  - rewrite <- (take_drop w s) at 1. rewrite Hr.
    rewrite take_app_ge by (rewrite length_take; lia).
    rewrite length_take. replace (w + length kw - w `min` length s)%nat with (length kw) by lia.
    rewrite take_app_length. apply Forall_app. split; [done|].
    by apply keyword_other.
  - rewrite take_ge in Hw |- * by lia. done.
Qed.

Lemma accessMatch_other (s : jstring) (n : nat) :
  accessMatch s = Some n -> Forall (fun c => c <> x) (take n s).
Proof.
  unfold accessMatch.
  destruct (startsWith (drop (spaceRun s) s) (lit "public:")) eqn:E1;
    [intros [= <-]; apply (take_run_keyword _ _ (lit "public:"));
       [done | apply spaceRun_other |];
     intros c Hc; apply list_elem_of_In in Hc; apply list_elem_of_In;
     vm_compute in Hc |- *; tauto |].
  destruct (startsWith (drop (spaceRun s) s) (lit "private:")) eqn:E2;
    [intros [= <-]; apply (take_run_keyword _ _ (lit "private:"));
       [done | apply spaceRun_other |];
     intros c Hc; apply list_elem_of_In in Hc; apply list_elem_of_In;
     vm_compute in Hc |- *; tauto |].
  destruct (startsWith (drop (spaceRun s) s) (lit "protected:")) eqn:E3;
    [intros [= <-]; apply (take_run_keyword _ _ (lit "protected:"));
       [done | apply spaceRun_other |];
     intros c Hc; apply list_elem_of_In in Hc; apply list_elem_of_In;
     vm_compute in Hc |- *; tauto |].
  done.
Qed.

Lemma stripAccess_occ (s : jstring) :
  forall skip : nat,
  Forall (fun c => c <> x) (take skip s) ->
  occ (stripAccess skip s) = occ s.
Proof.
  induction s as [|c s IH]; intros skip Hskip; [by destruct skip|].
  destruct skip as [|k].
  - cbn [stripAccess]. destruct (accessMatch (c :: s)) as [[|k]|] eqn:E.
    + unfold occ. rewrite !filter_cons. destruct (decide (c = x)); [f_equal|]; by apply (IH O).
    + apply accessMatch_other in E. simpl in E. apply Forall_cons in E as [Hc E].
      rewrite occ_cons_other by done. by apply IH.
    + unfold occ. rewrite !filter_cons. destruct (decide (c = x)); [f_equal|]; by apply (IH O).
  - simpl in Hskip. apply Forall_cons in Hskip as [Hc Hskip].
    cbn [stripAccess]. rewrite occ_cons_other by done. by apply IH.
Qed.

Lemma stripLineNumber_occ (s : jstring) : occ (stripLineNumber s) = occ s.
Proof.
  induction s as [|c s IH]; [done|]. cbn [stripLineNumber].
  destruct (lineNumberMatch (c :: s)) as [n|] eqn:E.
  - unfold lineNumberMatch in E.
    destruct (decide _) as [[Hd Hcolon]|_]; [|done]. injection E as <-.
    apply occ_drop. rewrite (take_S_r _ _ ":"%char).
    + apply Forall_app. split; [apply (digitRun_other (c :: s))|].
      constructor; [|done]. intros <-. destruct Hx as (_ & _ & Hk).
      apply Hk. apply list_elem_of_In. vm_compute. tauto.
    + by rewrite lookup_drop, Nat.add_0_r in Hcolon.
  - unfold occ. rewrite !filter_cons. destruct (decide (c = x)); [f_equal|]; apply IH.
Qed.

Lemma trimStart_occ (s : jstring) : occ (trimStart s) = occ s.
Proof.
  induction s as [|c s IH]; [done|]. simpl.
  destruct (isWhiteSpace c) eqn:E; [|done].
  rewrite occ_cons_other; [done|]. intros ->. destruct Hx as [Hw _]. congruence.
Qed.

Lemma trim_occ (s : jstring) : occ (trim s) = occ s.
Proof.
  unfold trim, trimEnd, occ.
  rewrite filter_reverse. fold (occ (trimStart (reverse (trimStart s)))).
  rewrite trimStart_occ. unfold occ. rewrite filter_reverse, reverse_involutive.
  apply trimStart_occ.
Qed.

(** The cleaning of a declarator keeps every occurrence of [x]. *)
Lemma cleanDeclarator_occ (expr : jstring) :
  filter (fun c => c = x) (cleanDeclarator expr) = filter (fun c => c = x) expr.
Proof.
  unfold cleanDeclarator. fold (occ (trim (stripLineNumber (stripAccess 0 expr)))).
  rewrite trim_occ, stripLineNumber_occ. by apply stripAccess_occ.
Qed.

Lemma cleanDeclarator_absent (expr : jstring) :
  x ∉ expr -> x ∉ cleanDeclarator expr.
Proof.
  intros Hno Hin.
  assert (H : x ∈ filter (fun c => c = x) (cleanDeclarator expr))
    by (by apply list_elem_of_filter).
  rewrite cleanDeclarator_occ in H. apply list_elem_of_filter in H as [_ H]. done.
Qed.

End Kept.

Lemma kept_bracket : kept "["%char.
Proof.
  repeat split; try reflexivity. intros H. apply list_elem_of_In in H.
  vm_compute in H. intuition discriminate.
Qed.

Lemma kept_star : kept "*"%char.
Proof.
  repeat split; try reflexivity. intros H. apply list_elem_of_In in H.
  vm_compute in H. intuition discriminate.
Qed.

Lemma len_app (a b : jstring) : len (a ++ b) = len a + len b.
Proof. unfold len. rewrite length_app. lia. Qed.

Lemma len_nonneg (a : jstring) : 0 <= len a.
Proof. unfold len. lia. Qed.

(** Positions that are inside the text. *)
Lemma substringFrom_drop (s : jstring) (n : nat) :
  substringFrom s (Z.of_nat n) = drop n s.
Proof.
  unfold substringFrom, clamp, len.
  destruct (decide (n <= length s)%nat).
  - f_equal. lia.
  - rewrite !drop_ge; [done | lia | lia].
Qed.

Lemma substringFrom_0 (s : jstring) : substringFrom s 0 = s.
Proof. apply (substringFrom_drop s 0). Qed.

Lemma substring_0_take (s : jstring) (n : nat) :
  substring s 0 (Z.of_nat n) = take n s.
Proof.
  unfold substring, clamp, len.
  replace (Z.to_nat ((0 `max` 0) `min` Z.of_nat (length s))) with O by lia.
  rewrite Nat.max_0_l, Nat.min_0_l, Nat.sub_0_r, drop_0.
  destruct (decide (n <= length s)%nat).
  - f_equal. lia.
  - rewrite !take_ge; [done | lia | lia].
Qed.

Lemma indexOfFrom_0 (s p : jstring) : indexOfFrom s p 0 = indexOf s p.
Proof.
  unfold indexOfFrom, indexOf, clamp, len.
  replace (Z.to_nat ((0 `max` 0) `min` Z.of_nat (length s))) with O by lia.
  rewrite drop_0. by destruct (find p s).
Qed.

Lemma indexOfFrom_range (s p : jstring) (from : Z) :
  indexOfFrom s p from = -1 \/ 0 <= indexOfFrom s p from.
Proof. unfold indexOfFrom. destruct (find p _); lia. Qed.

(** The first [x] of a text that has none before a given place. *)
Lemma find_char_app (x : ascii) (d rest : jstring) :
  x ∉ d -> find [x] (d ++ rest) = (fun j => (length d + j)%nat) <$> find [x] rest.
Proof.
  induction d as [|c d IH]; intros Hx.
  - rewrite app_nil_l. by destruct (find [x] rest).
  - apply not_elem_of_cons in Hx as [Hne Hx]. rewrite <- app_comm_cons, find_char_cons.
    destruct (Ascii.eqb_spec x c); [done|]. rewrite IH by done.
    by destruct (find [x] rest).
Qed.

Lemma filter_absent (x : ascii) (s : jstring) :
  x ∉ s -> filter (fun c => c = x) s = [].
Proof.
  induction s as [|c s IH]; intros Hx; [done|].
  apply not_elem_of_cons in Hx as [Hne Hx]. rewrite filter_cons_False by done. by apply IH.
Qed.

(** More than one [[]: no identifier. *)
Lemma extractIdentifiers_multidimensional (expr rootIdentifier : jstring)
    (bExpandTableElements : bool) (a b c : jstring) :
  expr = a ++ "["%char :: b ++ "["%char :: c ->
  extractIdentifiers expr rootIdentifier bExpandTableElements = [ [] ].
Proof.
  intros Hexpr. unfold extractIdentifiers.
  set (tmpStr := cleanDeclarator expr).
  assert (Hocc : (2 <= length (filter (fun c => c = "["%char) tmpStr))%nat).
  { unfold tmpStr. rewrite (cleanDeclarator_occ _ kept_bracket), Hexpr.
    rewrite filter_app, filter_cons_True by done.
    rewrite filter_app, filter_cons_True by done.
    rewrite length_app. simpl. rewrite length_app. simpl. lia. }
  change (lit "[") with ["["%char].
  destruct (find ["["%char] tmpStr) as [i|] eqn:E.
  - apply find_char_Some in E as E'. destruct E' as [Hsplit Hbefore].
    assert (Hi : indexOf tmpStr ["["%char] = Z.of_nat i) by (unfold indexOf; by rewrite E).
    rewrite !Hi.
    destruct (decide (Z.of_nat i <> -1)) as [_|Hn]; [|exfalso; lia].
    replace (Z.of_nat i + 1) with (Z.of_nat (S i)) by lia.
    rewrite substringFrom_drop.
    destruct (decide (indexOf (drop (S i) tmpStr) ["["%char] <> -1)) as [_|Hn]; [done|].
    exfalso. apply dec_stable in Hn. apply indexOf_none, find_char_None in Hn.
    rewrite Hsplit, filter_app, filter_cons_True in Hocc by done.
    rewrite (filter_absent _ _ Hbefore), (filter_absent _ _ Hn) in Hocc.
    simpl in Hocc. lia.
  - apply find_char_None in E. rewrite (filter_absent _ _ E) in Hocc. simpl in Hocc. lia.
Qed.

(** No [[], no [*], and the mark of a bit field: no identifier. *)
Lemma extractIdentifiers_bitfield (expr rootIdentifier : jstring)
    (bExpandTableElements : bool) :
  "["%char ∉ expr -> "*"%char ∉ expr ->
  indexOf (cleanDeclarator expr) (lit " : ") <> -1 ->
  extractIdentifiers expr rootIdentifier bExpandTableElements = [ [] ].
Proof.
  intros Hbracket Hstar Hmark. unfold extractIdentifiers.
  change (lit "[") with ["["%char]. change (lit "*") with ["*"%char].
  rewrite (indexOf_char_absent "[")
    by (apply cleanDeclarator_absent; [apply kept_bracket | done]).
  destruct (decide (-1 <> -1)) as [?|_]; [done|].
  rewrite (lastIndexOf_char_absent "*" (cleanDeclarator expr))
    by (apply cleanDeclarator_absent; [apply kept_star | done]).
  destruct (decide (-1 <> -1)) as [?|_]; [done|].
  by destruct (decide (indexOf (cleanDeclarator expr) (lit " : ") <> -1)).
Qed.

(** The loop of [buildVarList] needs at most one round per character of the
    block that is not yet read. *)
Lemma buildVarListBody_next (fileBlock root : jstring) (expand : bool)
    (startIdx startIdx1 : Z) (l l1 : list jstring) :
  buildVarListBody fileBlock root expand startIdx l = Next (startIdx1, l1) ->
  startIdx < startIdx1.
Proof.
  unfold buildVarListBody.
  destruct (decide (_ = -1)); [done|].
  set (endIdx := indexOfFrom _ _ _).
  assert (endIdx = -1 \/ 0 <= endIdx) by apply indexOfFrom_range.
  destruct (decide (endIdx = -1)) as [|Hne]; [done|].
  intros Heq.
  apply (f_equal (fun r => match r with Next (i, _) => i | Exit _ => startIdx1 end)) in Heq.
  change (startIdx + endIdx + 1 = startIdx1) in Heq. lia.
Qed.

Lemma buildVarListLoop_fuel (fuel1 : nat) :
  forall (fuel2 : nat) (fileBlock root : jstring) (expand : bool) (startIdx : Z)
         (l : list jstring),
  (Z.to_nat (len fileBlock - startIdx) < fuel1)%nat ->
  (Z.to_nat (len fileBlock - startIdx) < fuel2)%nat ->
  buildVarListLoop fuel1 fileBlock root expand startIdx l
  = buildVarListLoop fuel2 fileBlock root expand startIdx l.
Proof.
  induction fuel1 as [|k IH]; intros fuel2 fileBlock root expand startIdx l H1 H2; [lia|].
  destruct fuel2 as [|k2]; [lia|]. cbn [buildVarListLoop].
  destruct (decide (startIdx < len fileBlock)); [|done].
  destruct (buildVarListBody fileBlock root expand startIdx l) as [[i l1]|r] eqn:E; [|done].
  apply buildVarListBody_next in E. apply IH; lia.
Qed.

Lemma buildVarListLoop_total (fuel : nat) :
  forall (fileBlock root : jstring) (expand : bool) (startIdx : Z) (l : list jstring),
  (Z.to_nat (len fileBlock - startIdx) < fuel)%nat ->
  is_Some (buildVarListLoop fuel fileBlock root expand startIdx l).
Proof.
  induction fuel as [|k IH]; intros fileBlock root expand startIdx l H; [lia|].
  cbn [buildVarListLoop].
  destruct (decide (startIdx < len fileBlock)); [|done].
  destruct (buildVarListBody fileBlock root expand startIdx l) as [[i l1]|r] eqn:E; [|done].
  apply buildVarListBody_next in E. apply IH; lia.
Qed.

(** The identifiers found so far are only added to. *)
Lemma buildVarListBody_acc (fileBlock root : jstring) (expand : bool) (startIdx : Z)
    (l0 l : list jstring) :
  buildVarListBody fileBlock root expand startIdx (l0 ++ l)
  = match buildVarListBody fileBlock root expand startIdx l with
    | Next (i, l1) => Next (i, l0 ++ l1)
    | Exit r => Exit (l0 ++ r)
    end.
Proof.
  unfold buildVarListBody.
  destruct (decide (_ = -1)); [done|].
  destruct (decide (_ = -1)); [done|].
  destruct (decide (head _ <> Some [])); [|done]. by rewrite app_assoc.
Qed.

Lemma buildVarListLoop_acc (fuel : nat) :
  forall (fileBlock root : jstring) (expand : bool) (startIdx : Z) (l0 l : list jstring),
  buildVarListLoop fuel fileBlock root expand startIdx (l0 ++ l)
  = (fun r => l0 ++ r) <$> buildVarListLoop fuel fileBlock root expand startIdx l.
Proof.
  induction fuel as [|k IH]; intros fileBlock root expand startIdx l0 l; [done|].
  cbn [buildVarListLoop].
  destruct (decide (startIdx < len fileBlock)); [|done].
  rewrite buildVarListBody_acc.
  destruct (buildVarListBody fileBlock root expand startIdx l) as [[i l']|r]; [|done].
  apply IH.
Qed.

(** The loop only looks at the block from [startIdx] on. *)
Lemma buildVarListBody_shift (pre fileBlock root : jstring) (expand : bool) (n : nat)
    (l : list jstring) :
  buildVarListBody (pre ++ fileBlock) root expand (len pre + Z.of_nat n) l
  = match buildVarListBody fileBlock root expand (Z.of_nat n) l with
    | Next (i, l1) => Next (len pre + i, l1)
    | Exit r => Exit r
    end.
Proof.
  unfold buildVarListBody.
  replace (len pre + Z.of_nat n) with (Z.of_nat (length pre + n)) by (unfold len; lia).
  rewrite !substringFrom_drop, drop_app_add'; [|done].
  destruct (decide (_ = -1)); [done|].
  destruct (decide (_ = -1)); [done|].
  f_equal. f_equal. unfold len. lia.
Qed.

Lemma buildVarListLoop_shift (fuel : nat) :
  forall (pre fileBlock root : jstring) (expand : bool) (n : nat) (l : list jstring),
  buildVarListLoop fuel (pre ++ fileBlock) root expand (len pre + Z.of_nat n) l
  = buildVarListLoop fuel fileBlock root expand (Z.of_nat n) l.
Proof.
  induction fuel as [|k IH]; intros pre fileBlock root expand n l; [done|].
  cbn [buildVarListLoop]. rewrite buildVarListBody_shift, len_app.
  destruct (decide (len pre + Z.of_nat n < len pre + len fileBlock))
    as [Hlt|Hge]; destruct (decide (Z.of_nat n < len fileBlock));
    try (exfalso; lia); [|done].
  destruct (buildVarListBody fileBlock root expand (Z.of_nat n) l) as [[i l1]|r] eqn:E;
    [|done].
  apply buildVarListBody_next in E.
  replace i with (Z.of_nat (Z.to_nat i)) by lia. apply IH.
Qed.

(** A declaration without braces in front of a block: its identifiers, if
    it has any, come first, and the parse goes on with the rest of the
    block. *)
Lemma buildVarList_declaration (d rest root : jstring) (expand : bool) :
  ";"%char ∉ d -> "{"%char ∉ d ->
  buildVarList (d ++ ";"%char :: rest) root expand
  = (if decide (head (extractIdentifiers d root expand) <> Some [])
     then extractIdentifiers d root expand else [])
    ++ buildVarList rest root expand.
Proof.
  intros Hsemi Hbrace. unfold buildVarList.
  set (block := d ++ ";"%char :: rest).
  destruct (buildVarListLoop_total (S (length rest)) rest root expand 0 []) as [r Hr].
  { unfold len. lia. }
  rewrite Hr.
  cbn [buildVarListLoop].
  assert (Hlen : length block = (length d + S (length rest))%nat)
    by (unfold block; by rewrite length_app).
  destruct (decide (0 < len block)) as [_|Hn]; [|unfold len in Hn; lia].
  assert (Hbody : buildVarListBody block root expand 0 []
                  = Next (len d + 1,
                          if decide (head (extractIdentifiers d root expand) <> Some [])
                          then extractIdentifiers d root expand else [])).
  { unfold buildVarListBody. rewrite !substringFrom_0.
    change (lit ";") with [";"%char]. change (lit "{") with ["{"%char].
    assert (Es : indexOf block [";"%char] = len d).
    { unfold indexOf, block. rewrite find_char_app by done. rewrite find_char_cons.
      simpl. unfold len. lia. }
    assert (Eb : indexOf block ["{"%char] = -1 \/ len d < indexOf block ["{"%char]).
    { unfold indexOf, block. rewrite find_char_app by done. rewrite find_char_cons.
      simpl. destruct (find ["{"%char] rest); simpl; [right; unfold len; lia | by left]. }
    rewrite Es.
    destruct (decide (indexOf block ["{"%char] <> -1 /\ indexOf block ["{"%char] < len d))
      as [[? ?]|_]; [lia|].
    destruct (decide (0 = -1)) as [?|_]; [done|].
    rewrite indexOfFrom_0, Es.
    destruct (decide (len d = -1)) as [?|_]; [unfold len in *; lia|].
    destruct (decide (0 <> 0)) as [?|_]; [done|].
    unfold len. rewrite substring_0_take. unfold block.
    rewrite !(take_app_length d). done. }
  rewrite Hbody.
  replace (len d + 1) with (len (d ++ [";"%char]) + Z.of_nat 0)
    by (unfold len; rewrite length_app; simpl; lia).
  unfold block. rewrite (cons_middle _ d rest), app_assoc.
  rewrite buildVarListLoop_shift. rewrite <- (app_nil_r (if decide _ then _ else _)) at 1.
  rewrite buildVarListLoop_acc.
  rewrite (buildVarListLoop_fuel _ (S (length rest))).
  - change (Z.of_nat 0) with 0. by rewrite Hr.
  - rewrite length_app, length_app. simpl. unfold len. lia.
  - unfold len. lia.
Qed.
(** * More of the decoder and of the parser *)

(** A character that a text does not hold, by running over the text. *)
Lemma absent_char (x : ascii) (s : jstring) :
  forallb (fun c => negb (Ascii.eqb c x)) s = true -> x ∉ s.
Proof.
  intros H Hin%list_elem_of_In. rewrite forallb_forall in H. specialize (H x Hin).
  by rewrite Ascii.eqb_refl in H.
Qed.

(** ** Bit fields *)

(** A text in which every colon follows a space holds no access keyword
    and no line number, so the two replacements leave it as it is. *)
Lemma digitRun_digit (s : jstring) :
  forall i : nat, (i < digitRun s)%nat -> exists c, s !! i = Some c /\ isDigit c = true.
Proof.
  induction s as [|c s IH]; intros i Hi; cbn [digitRun] in Hi; [lia|].
  destruct (isDigit c) eqn:E; [|lia]. destruct i as [|i].
  - by exists c.
  - apply IH. lia.
Qed.

Lemma accessMatch_spaced (s : jstring) :
  (forall i : nat, s !! S i = Some ":"%char -> s !! i = Some " "%char) ->
  accessMatch s = None.
Proof.
  intros Hs. unfold accessMatch.
  assert (Hkw : forall (kw : jstring) (x : ascii) (j : nat),
            kw !! j = Some x -> kw !! S j = Some ":"%char -> x <> " "%char ->
            startsWith (drop (spaceRun s) s) kw = false).
  { intros kw x j Hx Hcolon Hne.
    destruct (startsWith (drop (spaceRun s) s) kw) eqn:E; [|done].
    apply startsWith_spec in E as [r Hr].
    assert (Hat : forall k y, kw !! k = Some y -> s !! (spaceRun s + k)%nat = Some y).
    { intros k y Hk. rewrite <- lookup_drop, Hr. by apply lookup_app_l_Some. }
    apply Hat in Hx, Hcolon. rewrite Nat.add_succ_r in Hcolon.
    apply Hs in Hcolon. congruence. }
  rewrite (Hkw (lit "public:") "c"%char 5%nat), (Hkw (lit "private:") "e"%char 6%nat),
    (Hkw (lit "protected:") "d"%char 8%nat) by done.
  done.
Qed.

Lemma lineNumberMatch_spaced (s : jstring) :
  (forall i : nat, s !! S i = Some ":"%char -> s !! i = Some " "%char) ->
  lineNumberMatch s = None.
Proof.
  intros Hs. unfold lineNumberMatch.
  destruct (decide _) as [[Hd Hcolon]|_]; [|done]. exfalso.
  rewrite lookup_drop, Nat.add_0_r in Hcolon.
  destruct (digitRun s) as [|d] eqn:E; [done|].
  apply Hs in Hcolon. destruct (digitRun_digit s d) as (c & Hc & Hdigit); [lia|].
  rewrite Hcolon in Hc. injection Hc as <-. by vm_compute in Hdigit.
Qed.

Lemma stripAccess_spaced (s : jstring) :
  (forall i : nat, s !! S i = Some ":"%char -> s !! i = Some " "%char) ->
  stripAccess O s = s.
Proof.
  induction s as [|c s IH]; intros Hs; [done|]. cbn [stripAccess].
  rewrite accessMatch_spaced by done. f_equal. apply IH. intros i. apply (Hs (S i)).
Qed.

Lemma stripLineNumber_spaced (s : jstring) :
  (forall i : nat, s !! S i = Some ":"%char -> s !! i = Some " "%char) ->
  stripLineNumber s = s.
Proof.
  induction s as [|c s IH]; intros Hs; [done|]. cbn [stripLineNumber].
  rewrite lineNumberMatch_spaced by done. f_equal. apply IH. intros i. apply (Hs (S i)).
Qed.

Lemma trimStart_app (a b : jstring) :
  (exists c, c ∈ a /\ isWhiteSpace c = false) -> trimStart (a ++ b) = trimStart a ++ b.
Proof.
  intros (c & Hin & Hc). induction a as [|x a IH]; [by apply elem_of_nil in Hin|].
  rewrite <- app_comm_cons. cbn [trimStart].
  destruct (isWhiteSpace x) eqn:E; [|done].
  apply IH. apply elem_of_cons in Hin as [->|Hin]; [congruence | done].
Qed.

Lemma trimEnd_app (a b : jstring) :
  (exists c, c ∈ b /\ isWhiteSpace c = false) -> trimEnd (a ++ b) = a ++ trimEnd b.
Proof.
  intros (c & Hin & Hc). unfold trimEnd. rewrite reverse_app, trimStart_app.
  - by rewrite reverse_app, reverse_involutive.
  - exists c. split; [|done]. by apply elem_of_reverse.
Qed.

(** The declarator of a bit field, [pre : post] with no other colon and
    something other than blanks on both sides: the cleaning only trims its
    ends. *)
Lemma cleanDeclarator_bitfield (pre post : jstring) :
  ":"%char ∉ pre -> ":"%char ∉ post ->
  (exists c, c ∈ pre /\ isWhiteSpace c = false) ->
  (exists c, c ∈ post /\ isWhiteSpace c = false) ->
  cleanDeclarator (pre ++ lit " : " ++ post) = trimStart pre ++ lit " : " ++ trimEnd post.
Proof.
  intros Hpre Hpost Hleft Hright.
  assert (Hs : forall i : nat,
            (pre ++ lit " : " ++ post) !! S i = Some ":"%char ->
            (pre ++ lit " : " ++ post) !! i = Some " "%char).
  { intros i Hi. destruct (decide (S i < length pre)%nat).
    - rewrite lookup_app_l in Hi by done. by apply list_elem_of_lookup_2 in Hi.
    - rewrite lookup_app_r in Hi by lia.
      destruct (S i - length pre)%nat as [|[|[|k]]] eqn:Ek; try done.
      + rewrite lookup_app_r by lia. by replace (i - length pre)%nat with O by lia.
      + cbn in Hi. by apply list_elem_of_lookup_2 in Hi. }
  unfold cleanDeclarator. rewrite stripAccess_spaced, stripLineNumber_spaced by done.
  unfold trim. rewrite trimStart_app by done.
  rewrite (app_assoc (trimStart pre)), trimEnd_app by done. by rewrite <- app_assoc.
Qed.

(** * Numbers as text *)

Lemma uintChars_digits (d : Decimal.uint) : Forall (fun c => isDigit c = true) (uintChars d).
Proof. induction d; simpl; by constructor. Qed.

Local Ltac digit_step IH :=
  cbn [uintChars decimalValue]; rewrite <- app_comm_cons; cbn [readDigits];
  match goal with
  | |- context [isDigit ?c] => change (isDigit c) with true
  end;
  cbv iota; rewrite IH by (by auto); f_equal; f_equal;
  unfold digitValue; simpl; lia.

Lemma readDigits_uintChars (d : Decimal.uint) :
  forall (rest : jstring) (seen : bool) (acc : Z),
  (forall c, head rest = Some c -> isDigit c = false) ->
  d <> Decimal.Nil \/ seen = true ->
  readDigits (uintChars d ++ rest) seen acc = Some (decimalValue d acc).
Proof.
  assert (Hrest : forall (rest : jstring) (acc : Z),
            (forall c, head rest = Some c -> isDigit c = false) ->
            readDigits rest true acc = Some acc).
  { intros [|c rest] acc H; [done|]. simpl. by rewrite (H c). }
  induction d as [|d IH|d IH|d IH|d IH|d IH|d IH|d IH|d IH|d IH|d IH];
    intros rest seen acc Hr Hd.
  - destruct Hd as [?| ->]; [done|]. by apply Hrest.
  - digit_step IH.
  - digit_step IH.
  - digit_step IH.
  - digit_step IH.
  - digit_step IH.
  - digit_step IH.
  - digit_step IH.
  - digit_step IH.
  - digit_step IH.
  - digit_step IH.
Qed.

Lemma decimalValue_acc (d : Decimal.uint) (acc : positive) :
  decimalValue d (Z.pos acc) = Z.pos (Pos.of_uint_acc d acc).
Proof.
  revert acc; induction d; intros acc; cbn [decimalValue Pos.of_uint_acc]; [done|..];
    match goal with
    | |- decimalValue _ ?z = Z.pos (Pos.of_uint_acc _ ?p) =>
        replace z with (Z.pos p) by lia
    end; apply IHd.
Qed.

Lemma decimalValue_of_uint (d : Decimal.uint) :
  decimalValue d 0 = Z.of_N (Pos.of_uint d).
Proof.
  induction d; cbn [decimalValue Pos.of_uint]; [done | by rewrite <- IHd |..];
    match goal with
    | |- decimalValue _ ?z = Z.of_N (Npos (Pos.of_uint_acc _ ?p)) =>
        change z with (Z.pos p)
    end; apply decimalValue_acc.
Qed.

Lemma N_to_uint_nonnil (n : N) : N.to_uint n <> Decimal.Nil.
Proof. destruct n; [done|]. apply DecimalPos.Unsigned.to_uint_nonnil. Qed.

(** The decimal text of a natural number: digits only, at least one, and
    [parseInt] reads the number back. *)
Lemma toString_nat (n : Z) :
  0 <= n -> toString (JInt n) = uintChars (N.to_uint (Z.to_N n)).
Proof.
  intros Hn. unfold toString. destruct (Z.ltb_spec n 0); [lia|].
  simpl. f_equal. f_equal. lia.
Qed.

Lemma toString_digits (n : Z) :
  0 <= n -> Forall (fun c => isDigit c = true) (toString (JInt n)).
Proof. intros Hn. rewrite toString_nat by done. apply uintChars_digits. Qed.

Lemma toString_first (n : Z) :
  0 <= n -> exists c s, toString (JInt n) = c :: s /\ isDigit c = true.
Proof.
  intros Hn. pose proof (toString_digits n Hn) as Hd.
  rewrite toString_nat in * by done.
  pose proof (N_to_uint_nonnil (Z.to_N n)) as Hnil.
  destruct (N.to_uint (Z.to_N n)); try done; simpl in *;
    apply Forall_cons in Hd as [Hc _]; by eexists _, _.
Qed.

Lemma parseInt10_toString (n : Z) :
  0 <= n -> parseInt10 (toString (JInt n)) = JInt n.
Proof.
  intros Hn. destruct (toString_first n Hn) as (c & s & E & Hc).
  unfold parseInt10. rewrite E.
  assert (Hw : isWhiteSpace c = false).
  { clear E. revert Hc. unfold isDigit, isWhiteSpace. cbv zeta.
    generalize (N_of_ascii c). intros m. 
    rewrite !andb_true_iff, !orb_false_iff, !andb_false_iff.
    rewrite !N.leb_le, !N.leb_gt, !N.eqb_neq. lia. }
  cbn [trimStart]. rewrite Hw.
  assert (Hm : Ascii.eqb c "-" = false /\ Ascii.eqb c "+" = false).
  { split; apply Ascii.eqb_neq; intros ->; done. }
  destruct Hm as [-> ->]. rewrite <- E, toString_nat by done.
  rewrite <- (app_nil_r (uintChars _)).
  rewrite readDigits_uintChars; [| done | left; apply N_to_uint_nonnil].
  rewrite decimalValue_of_uint.
  change (Pos.of_uint ?d) with (N.of_uint d).
  rewrite DecimalN.Unsigned.of_to. f_equal. lia.
Qed.

(** * Array declarators *)

Lemma accessMatch_colon (s : jstring) (n : nat) :
  accessMatch s = Some n -> ":"%char ∈ s.
Proof.
  unfold accessMatch. intros H.
  assert (Hkw : exists kw r, drop (spaceRun s) s = kw ++ r /\ ":"%char ∈ kw).
  { destruct (startsWith (drop (spaceRun s) s) (lit "public:")) eqn:E1.
    { apply startsWith_spec in E1 as [r Hr]. exists (lit "public:"), r.
      split; [done|]. apply list_elem_of_In. vm_compute. tauto. }
    destruct (startsWith (drop (spaceRun s) s) (lit "private:")) eqn:E2.
    { apply startsWith_spec in E2 as [r Hr]. exists (lit "private:"), r.
      split; [done|]. apply list_elem_of_In. vm_compute. tauto. }
    destruct (startsWith (drop (spaceRun s) s) (lit "protected:")) eqn:E3; [|done].
    apply startsWith_spec in E3 as [r Hr]. exists (lit "protected:"), r.
    split; [done|]. apply list_elem_of_In. vm_compute. tauto. }
  destruct Hkw as (kw & r & Hd & Hin).
  rewrite <- (take_drop (spaceRun s) s), Hd, !elem_of_app. auto.
Qed.

Lemma stripAccess_no_colon (s : jstring) :
  ":"%char ∉ s -> stripAccess O s = s.
Proof.
  induction s as [|c s IH]; intros Hno; [done|]. cbn [stripAccess].
  destruct (accessMatch (c :: s)) as [n|] eqn:E.
  - by apply accessMatch_colon in E.
  - f_equal. apply IH. by apply not_elem_of_cons in Hno as [_ ?].
Qed.

Lemma stripLineNumber_no_colon (s : jstring) :
  ":"%char ∉ s -> stripLineNumber s = s.
Proof.
  induction s as [|c s IH]; intros Hno; [done|]. cbn [stripLineNumber].
  destruct (lineNumberMatch (c :: s)) as [n|] eqn:E.
  - unfold lineNumberMatch in E. destruct (decide _) as [[_ Hc]|_]; [|done].
    rewrite lookup_drop in Hc. apply list_elem_of_lookup_2 in Hc. done.
  - f_equal. apply IH. by apply not_elem_of_cons in Hno as [_ ?].
Qed.

Lemma cleanDeclarator_id (s : jstring) :
  ":"%char ∉ s ->
  (forall c, head s = Some c -> isWhiteSpace c = false) ->
  (forall c, last s = Some c -> isWhiteSpace c = false) ->
  cleanDeclarator s = s.
Proof.
  intros Hno Hh Hl. unfold cleanDeclarator.
  rewrite stripAccess_no_colon, stripLineNumber_no_colon by done.
  by apply trim_id.
Qed.

(** The last occurrence. *)
Lemma findLast_short (p s : jstring) :
  (length s < length p)%nat -> findLast p s = None.
Proof.
  induction s as [|c s IH]; intros Hlen; cbn [findLast].
  - by rewrite startsWith_false_short.
  - rewrite IH by (simpl in Hlen; lia). by rewrite startsWith_false_short.
Qed.

Lemma findLast_app_end (p pre : jstring) :
  p <> [] -> findLast p (pre ++ p) = Some (length pre).
Proof.
  intros Hp. induction pre as [|c pre IH].
  - destruct p as [|c p]; [done|]. rewrite app_nil_l. cbn [findLast].
    rewrite findLast_short by (simpl; lia).
    by rewrite <- (app_nil_r (c :: p)) at 1; rewrite startsWith_app_l.
  - rewrite <- app_comm_cons. cbn [findLast]. by rewrite IH.
Qed.

Lemma findLast_head_absent (x : ascii) (q s : jstring) :
  x ∉ s -> findLast (x :: q) s = None.
Proof.
  induction s as [|c s IH]; intros Hx; [done|].
  apply not_elem_of_cons in Hx as [Hne Hx]. cbn [findLast]. rewrite IH by done.
  cbn [startsWith]. by destruct (Ascii.eqb_spec x c).
Qed.

(** When the first character of [p] occurs once in the text, [p] can only
    be there. *)
Lemma findLast_head_once (x : ascii) (q pre post : jstring) :
  x ∉ pre -> x ∉ post ->
  findLast (x :: q) (pre ++ x :: post)
  = if startsWith post q then Some (length pre) else None.
Proof.
  intros Hpre Hpost. induction pre as [|c pre IH].
  - rewrite app_nil_l. cbn [findLast]. rewrite findLast_head_absent by done.
    cbn [startsWith]. by rewrite Ascii.eqb_refl.
  - apply not_elem_of_cons in Hpre as [Hne Hpre].
    rewrite <- app_comm_cons. cbn [findLast]. rewrite IH by done.
    destruct (startsWith post q); [done|].
    cbn [startsWith]. by destruct (Ascii.eqb_spec x c).
Qed.

Lemma findLast_char_app (x : ascii) (pre post : jstring) :
  x ∉ post -> findLast [x] (pre ++ x :: post) = Some (length pre).
Proof.
  intros Hpost. induction pre as [|c pre IH].
  - rewrite app_nil_l. cbn [findLast]. rewrite findLast_char_None by done.
    cbn [startsWith]. by rewrite Ascii.eqb_refl.
  - rewrite <- app_comm_cons. cbn [findLast]. by rewrite IH.
Qed.

(** Pieces of a text. *)
Lemma substring_middle (a b c : jstring) :
  substring (a ++ b ++ c) (len a) (len a + len b) = b.
Proof.
  unfold substring, clamp. rewrite !len_app.
  pose proof (len_nonneg a). pose proof (len_nonneg b). pose proof (len_nonneg c).
  replace (Z.to_nat ((len a `max` 0) `min` (len a + (len b + len c)))) with (length a)
    by (unfold len in *; lia).
  replace (Z.to_nat (((len a + len b) `max` 0) `min` (len a + (len b + len c))))
    with (length a + length b)%nat by (unfold len in *; lia).
  replace (length a `max` (length a + length b) - length a `min` (length a + length b))%nat
    with (length b) by lia.
  replace (length a `min` (length a + length b))%nat with (length a) by lia.
  by rewrite drop_app_length, take_app_length.
Qed.

Lemma substring_between (a b c : jstring) (i j : Z) :
  i = len a -> j = len a + len b -> substring (a ++ b ++ c) i j = b.
Proof. intros -> ->. apply substring_middle. Qed.

Lemma substringFrom_app (a b : jstring) (i : Z) :
  i = len a -> substringFrom (a ++ b) i = b.
Proof. intros ->. unfold len. by rewrite substringFrom_drop, drop_app_length. Qed.

Lemma len_cons (c : ascii) (s : jstring) : len (c :: s) = 1 + len s.
Proof. unfold len. simpl. lia. Qed.

Lemma len_nil : len [] = 0.
Proof. done. Qed.

(** Lengths of texts put together, for [lia]. *)
Local Ltac lens :=
  repeat first [rewrite len_app | rewrite len_cons | rewrite len_nil];
  repeat match goal with
         | |- context [len ?s] =>
             lazymatch goal with
             | _ : 0 <= len s |- _ => fail
             | _ => pose proof (len_nonneg s)
             end
         end;
  lia.

Lemma digits_no (x : ascii) (s : jstring) :
  Forall (fun c => isDigit c = true) s -> isDigit x = false -> x ∉ s.
Proof.
  intros Hd Hx Hin. rewrite Forall_forall in Hd. specialize (Hd x Hin). congruence.
Qed.

Lemma nameChars_no (x : ascii) (s : jstring) :
  Forall nameChar s -> ~ nameChar x -> x ∉ s.
Proof. intros Hn Hx Hin. rewrite Forall_forall in Hn. by apply Hx, Hn. Qed.

Lemma not_nameChar_space : ~ nameChar " "%char.
Proof. by intros [? _]. Qed.

Lemma not_nameChar_open : ~ nameChar "["%char.
Proof. by intros (_ & ? & _). Qed.

Lemma not_nameChar_close : ~ nameChar "]"%char.
Proof. by intros (_ & _ & ? & _). Qed.

Lemma not_nameChar_star : ~ nameChar "*"%char.
Proof. by intros (_ & _ & _ & ? & _). Qed.

Lemma not_nameChar_colon : ~ nameChar ":"%char.
Proof. by intros (_ & _ & _ & _ & ?). Qed.

Lemma trim_name (name : jstring) : Forall nameChar name -> trim name = name.
Proof.
  intros Hn. rewrite Forall_forall in Hn.
  apply trim_id; intros c Hc; apply Hn.
  - destruct name; [done|]. injection Hc as ->. apply list_elem_of_here.
  - apply last_Some in Hc as [l' ->]. apply elem_of_app. right. apply list_elem_of_here.
Qed.

(** Closes a goal [x ∉ s] for a text [s] put together from names, numbers
    and literals. *)
Local Ltac absent :=
  repeat first [rewrite elem_of_app | rewrite elem_of_cons | rewrite elem_of_nil];
  let H := fresh in
  intros H;
  repeat match type of H with _ \/ _ => destruct H as [H|H] end;
  first
    [ done
    | refine (nameChars_no _ _ _ _ H);
      [ eassumption
      | first [ apply not_nameChar_space | apply not_nameChar_open
              | apply not_nameChar_close | apply not_nameChar_star
              | apply not_nameChar_colon ] ]
    | refine (digits_no _ _ _ _ H); [eassumption | reflexivity]
    | apply list_elem_of_In in H; vm_compute in H; intuition discriminate ].

(** The identifier that [extractIdentifiers] gives for the declaration
    [ty name[size]] of an array. *)
Lemma extractIdentifiers_array (ty name root : jstring) (size : Z) (expand : bool) :
  (exists c ty', ty = c :: ty' /\ isWhiteSpace c = false) ->
  ":"%char ∉ ty -> "["%char ∉ ty ->
  Forall nameChar name ->
  0 <= size ->
  extractIdentifiers (ty ++ " "%char :: name ++ "["%char :: toString (JInt size) ++ lit "]")
    root expand
  = [ root ++ name ++ lit "["
        ++ (if expand then toString (JInt (size - 1)) else lit "0") ++ lit "]" ].
Proof.
  intros (c0 & ty' & Hty & Hc0) Hcolon Hopen Hname Hsize.
  set (D := toString (JInt size)).
  assert (HD : Forall (fun c => isDigit c = true) D) by (by apply toString_digits).
  set (A := ty ++ " "%char :: name).
  set (decl := ty ++ " "%char :: name ++ "["%char :: D ++ lit "]").
  assert (Hdecl : decl = A ++ ["["%char] ++ D ++ lit "]")
    by (unfold decl, A; by rewrite <- app_assoc).
  assert (HAopen : "["%char ∉ A).
  { unfold A. absent. }
  unfold extractIdentifiers.
  assert (Hclean : cleanDeclarator decl = decl).
  { apply cleanDeclarator_id.
    - unfold decl. absent.
    - unfold decl. rewrite Hty. by intros c [= <-].
    - intros c. rewrite Hdecl. change (lit "]") with ["]"%char].
      rewrite !app_assoc, last_snoc. by intros [= <-]. }
  rewrite Hclean. change (lit "[") with ["["%char].
  assert (Hi : indexOf decl ["["%char] = len A).
  { unfold indexOf. rewrite Hdecl, find_char_app by done.
    change (["["%char] ++ D ++ lit "]") with ("["%char :: D ++ lit "]").
    rewrite find_char_cons, Ascii.eqb_refl. simpl. unfold len. lia. }
  rewrite !Hi.
  destruct (decide (len A <> -1)) as [_|Hn]; [|pose proof (len_nonneg A); exfalso; lia].
  assert (HlenA : len A = len ty + 1 + len name) by (unfold A; lens).
  assert (Htail : substringFrom decl (len A + 1) = D ++ lit "]").
  { rewrite Hdecl, app_assoc. apply substringFrom_app. lens. }
  rewrite Htail.
  rewrite (indexOf_char_absent "[") by absent.
  destruct (decide (-1 <> -1)) as [?|_]; [done|].
  assert (Hsp : lastIndexOfFrom decl (lit " ") (len A) = len ty).
  { unfold lastIndexOfFrom. change (lit " ") with [" "%char].
    replace (Z.to_nat (len A `max` 0) + length [" "%char])%nat with (length (A ++ ["["%char]))
      by (rewrite length_app; unfold len; simpl; lia).
    rewrite Hdecl, app_assoc, take_app_length. unfold A.
    rewrite <- app_assoc, <- app_comm_cons, findLast_char_app; [done|]. absent. }
  rewrite Hsp.
  assert (Hnm : substring decl (len ty + 1) (len A) = name).
  { unfold decl. rewrite (cons_middle " "%char ty), app_assoc.
    apply substring_between; lens. }
  rewrite Hnm, trim_name by done.
  change (lit "*") with ["*"%char].
  rewrite (lastIndexOf_char_absent "*") by absent.
  destruct (decide (-1 <> -1)) as [?|_]; [done|].
  assert (Hclose : indexOfFrom decl (lit "]") (len A) = len A + 1 + len D).
  { unfold indexOfFrom, clamp. change (lit "]") with ["]"%char].
    replace (Z.to_nat ((len A `max` 0) `min` len decl)) with (length A)
      by (rewrite Hdecl, len_app; unfold len; lia).
    rewrite Hdecl, drop_app_length.
    rewrite (app_assoc ["["%char] D), find_char_app by absent.
    change (lit "]") with ["]"%char].
    rewrite find_char_cons, Ascii.eqb_refl.
    cbn [fmap option_fmap option_map]. rewrite length_app. unfold len. simpl. lia. }
  rewrite Hclose.
  assert (Hsz : substring decl (len A + 1) (len A + 1 + len D) = D).
  { rewrite Hdecl, app_assoc. apply substring_between; lens. }
  rewrite Hsz. unfold D. rewrite parseInt10_toString by done. cbn [JS.pred].
  by destruct expand.
Qed.

(** * The expansion of arrays *)

Lemma replaceChar_app (c : ascii) (r a b : jstring) :
  replaceChar c r (a ++ b) = replaceChar c r a ++ replaceChar c r b.
Proof. unfold replaceChar. apply flat_map_app. Qed.

Lemma replaceChar_absent (c : ascii) (r s : jstring) :
  c ∉ s -> replaceChar c r s = s.
Proof.
  induction s as [|x s IH]; intros Hc; [done|].
  apply not_elem_of_cons in Hc as [Hne Hc]. unfold replaceChar in *. cbn [flat_map].
  destruct (Ascii.eqb_spec x c); [congruence|]. by rewrite IH.
Qed.

Lemma replaceChar_hit (c : ascii) (r s : jstring) :
  replaceChar c r (c :: s) = r ++ replaceChar c r s.
Proof. unfold replaceChar. cbn [flat_map]. by rewrite Ascii.eqb_refl. Qed.

Section OneArray.
Context (base : jstring) (n : Z).
Context (Hopen : "["%char ∉ base) (Hclose : "]"%char ∉ base) (Hn : 0 <= n).

Local Abbreviation D := (toString (JInt n)).

Local Ltac absent_marker :=
  repeat first [rewrite elem_of_app | rewrite elem_of_cons | rewrite elem_of_nil];
  let H := fresh in
  intros H;
  repeat match type of H with _ \/ _ => destruct H as [H|H] end;
  first
    [ done
    | refine (digits_no _ _ _ _ H); [by apply toString_digits | reflexivity]
    | apply list_elem_of_In in H; vm_compute in H; intuition discriminate ].

Lemma markers_added :
  replaceChar "]" (lit "x]") (replaceChar "[" (lit "[x") (elementText base D))
  = markedText base D.
Proof.
  unfold elementText, markedText. rewrite <- app_assoc. change (lit "[") with ["["%char].
  change (["["%char] ++ D ++ lit "]") with ("["%char :: D ++ lit "]").
  rewrite replaceChar_app, replaceChar_hit, (replaceChar_absent "[" _ base) by done.
  rewrite (replaceChar_absent "[" _ (D ++ lit "]")) by absent_marker.
  rewrite !replaceChar_app.
  rewrite (replaceChar_absent "]" _ base) by done.
  rewrite (replaceChar_absent "]" _ (lit "[x")) by absent_marker.
  rewrite (replaceChar_absent "]" _ D) by absent_marker.
  done.
Qed.

End OneArray.

Lemma expandElement_unmarked (s : Store) (l : list nat) (r : nat) (e : Identifier) :
  s !! r = Some e ->
  lastIndexOf (identifier e) (lit "[x") = -1 ->
  expandElement s l r = (s, l, false).
Proof.
  intros Hr Hid. unfold expandElement. rewrite Hr, Hid.
  by destruct (decide (-1 <> -1)).
Qed.

(** A pass over elements without marker changes nothing. *)
Lemma expandPass_settled (fuel : nat) :
  forall (s : Store) (l : list nat) (index : nat) (still : bool),
  (forall i r, (index <= i)%nat -> l !! i = Some r ->
     exists e, s !! r = Some e /\ lastIndexOf (identifier e) (lit "[x") = -1) ->
  (length l - index < fuel)%nat ->
  expandPass fuel s l index still = Some (s, l, still).
Proof.
  induction fuel as [|k IH]; intros s l index still Hall Hfuel; [lia|].
  cbn [expandPass]. destruct (l !! index) as [r|] eqn:E; [|done].
  destruct (Hall index r) as (e & He & Hid); [lia | done |].
  rewrite (expandElement_unmarked s l r e) by done.
  rewrite orb_false_r. apply IH.
  - intros i r' Hi. apply Hall. lia.
  - apply lookup_lt_Some in E. lia.
Qed.

Lemma omap_lookup_seq (pre s : Store) :
  omap (fun r => (pre ++ s) !! r) (seq (length pre) (length s)) = s.
Proof.
  revert pre; induction s as [|x s IH]; intros pre; [done|].
  cbn [length seq omap list_omap]. rewrite list_lookup_middle by done. f_equal.
  specialize (IH (pre ++ [x])). rewrite <- app_assoc, length_app in IH. simpl in IH.
  by rewrite Nat.add_1_r in IH.
Qed.
(** ** The members of the elements of an array *)

Lemma findLast_second_absent (a b : ascii) (s : jstring) :
  b ∉ s -> findLast [a; b] s = None.
Proof.
  induction s as [|c s IH]; intros Hb; [done|].
  apply not_elem_of_cons in Hb as [Hne Hb]. cbn [findLast]. rewrite IH by done.
  cbn [startsWith]. destruct s as [|d s]; [by rewrite andb_false_r|].
  apply not_elem_of_cons in Hb as [Hd _].
  destruct (Ascii.eqb_spec b d) as [?|_]; [done|]. by rewrite andb_false_r.
Qed.

(** A text of two characters whose second character is nowhere else. *)
Lemma findLast_pair (a b : ascii) (pre post : jstring) :
  a <> b -> b ∉ post ->
  findLast [a; b] (pre ++ a :: b :: post) = Some (length pre).
Proof.
  intros Hab Hpost. induction pre as [|c pre IH].
  - rewrite app_nil_l. cbn [findLast]. rewrite findLast_second_absent by done.
    cbn [startsWith]. rewrite !Ascii.eqb_refl.
    by destruct (Ascii.eqb_spec a b) as [?|_].
  - rewrite <- app_comm_cons. cbn [findLast]. by rewrite IH.
Qed.

Section OneMember.
Context (base tail : jstring) (n : Z).
Context (Hopen : "["%char ∉ base) (Hclose : "]"%char ∉ base).
Context (Htopen : "["%char ∉ tail) (Htclose : "]"%char ∉ tail) (Hn : 0 <= n).

Local Abbreviation D := (toString (JInt n)).

Local Ltac absent_marker :=
  repeat first [rewrite elem_of_app | rewrite elem_of_cons | rewrite elem_of_nil];
  let H := fresh in
  intros H;
  repeat match type of H with _ \/ _ => destruct H as [H|H] end;
  first
    [ done
    | refine (digits_no _ _ _ _ H); [by apply toString_digits | reflexivity]
    | apply list_elem_of_In in H; vm_compute in H; intuition discriminate ].

Lemma member_markers_added :
  replaceChar "]" (lit "x]")
    (replaceChar "[" (lit "[x") (elementText base D ++ tail))
  = markedText base D ++ tail.
Proof.
  rewrite !replaceChar_app, markers_added by done.
  rewrite (replaceChar_absent "[" _ tail) by done.
  by rewrite (replaceChar_absent "]" _ tail).
Qed.

Lemma member_start : lastIndexOf (markedText base D ++ tail) (lit "[x") = len base.
Proof.
  unfold lastIndexOf, markedText. change (lit "[x") with ("["%char :: lit "x").
  rewrite <- !app_assoc, <- app_comm_cons, findLast_head_once; [done | done | absent_marker].
Qed.

Lemma member_end :
  lastIndexOf (markedText base D ++ tail) (lit "x]") = len base + 2 + len D.
Proof.
  unfold lastIndexOf, markedText.
  change (lit "x]") with ["x"%char; "]"%char].
  replace ((base ++ lit "[x" ++ D ++ ["x"%char; "]"%char]) ++ tail)
    with ((base ++ lit "[x" ++ D) ++ "x"%char :: "]"%char :: tail)
    by (by rewrite <- !app_assoc).
  rewrite findLast_pair by done.
  rewrite !length_app. unfold len. simpl. lia.
Qed.

(** The text of a member of an element has no opening marker. *)
Lemma member_unmarked (i : Z) :
  0 <= i ->
  lastIndexOf (elementText base (toString (JInt i)) ++ tail) (lit "[x") = -1.
Proof.
  intros Hi. unfold lastIndexOf, elementText. rewrite <- !app_assoc.
  change (lit "[x") with ("["%char :: lit "x"). change (lit "[") with ["["%char].
  change (["["%char] ++ ?s) with ("["%char :: s).
  rewrite findLast_head_once; [| done | absent_marker].
  destruct (toString_first i Hi) as (c & s & -> & Hc).
  rewrite <- app_comm_cons. change (lit "x") with ["x"%char]. cbn [startsWith].
  destruct (Ascii.eqb_spec "x"%char c) as [<-|]; [by vm_compute in Hc | done].
Qed.

Lemma member_head :
  slice (markedText base D ++ tail) 0 (len base + 1) = base ++ lit "[".
Proof.
  replace (len base + 1) with (Z.of_nat (length (base ++ lit "[")))
    by (rewrite length_app; unfold len; simpl; lia).
  rewrite slice_0_take. unfold markedText.
  change (lit "[x") with (lit "[" ++ lit "x"). rewrite <- !app_assoc, app_assoc.
  apply take_app_length.
Qed.

Lemma member_size :
  substring (markedText base D ++ tail) (len base + 2) (len base + 2 + len D) = D.
Proof.
  unfold markedText. rewrite <- !app_assoc, app_assoc.
  apply substring_between; rewrite len_app; done.
Qed.

Lemma member_tail :
  sliceFrom (markedText base D ++ tail) (len base + 2 + len D + 1) = lit "]" ++ tail.
Proof.
  replace (len base + 2 + len D + 1)
    with (Z.of_nat (length (base ++ lit "[x" ++ D ++ lit "x")))
    by (rewrite !length_app; unfold len; simpl; lia).
  rewrite sliceFrom_drop. unfold markedText.
  change (lit "x]") with (lit "x" ++ lit "]").
  replace ((base ++ lit "[x" ++ D ++ lit "x" ++ lit "]") ++ tail)
    with ((base ++ lit "[x" ++ D ++ lit "x") ++ lit "]" ++ tail)
    by (by rewrite <- !app_assoc).
  apply drop_app_length.
Qed.

Lemma expandElement_member (s : Store) (l : list nat) (r : nat) (e : Identifier) :
  s !! r = Some e ->
  identifier e = markedText base D ++ tail ->
  expandElement s l r
  = (alter (set_identifier (elementText base D ++ tail)) r s
       ++ pushedMembers base tail (Z.to_nat (Z.min n 10000)) (type e) (typeValue e),
     l ++ seq (length s) (Z.to_nat (Z.min n 10000)), true).
Proof.
  intros Hr Hid. unfold expandElement. rewrite Hr, Hid.
  rewrite member_start, member_end.
  destruct (decide (len base <> -1)) as [_|Hneg];
    [|pose proof (len_nonneg base); exfalso; lia].
  rewrite member_head, member_size, member_tail, parseInt10_toString by done.
  cbn [mathMin]. rewrite length_alter. unfold pushedMembers, elementText.
  assert (Hassoc : forall x : jstring,
            ((base ++ lit "[") ++ x ++ lit "]") ++ tail
            = (base ++ lit "[") ++ x ++ lit "]" ++ tail)
    by (intros x; by rewrite <- !app_assoc).
  rewrite Hassoc.
  match goal with
  | |- (?a ++ ?m, _, _) = (_ ++ ?m', _, _) => assert (Em : m = m'); [|by rewrite Em]
  end.
  apply list_fmap_ext. intros _ i _. by rewrite Hassoc.
Qed.

End OneMember.
(** * The progress of a session *)

(** ** The scan of [storeAllElementsFromGdb] *)

Lemma allRefs_cons (entry : IGdbVariableInfo) (v : TgdbVariablesInfo) :
  allRefs (entry :: v) = identifiersList entry ++ allRefs v.
Proof. done. Qed.

Lemma allRefs_app (v w : TgdbVariablesInfo) : allRefs (v ++ w) = allRefs v ++ allRefs w.
Proof. unfold allRefs. by rewrite fmap_app, concat_app. Qed.

Lemma restOf_0 (files : TgdbVariablesInfo) : restOf files O = allRefs files.
Proof. by destruct files. Qed.

Lemma refs_split_files (files : TgdbVariablesInfo) (i : nat) :
  allRefs files = firstOf files i ++ restOf files i.
Proof.
  destruct files as [|entry rest]; [done|].
  cbn [firstOf restOf]. by rewrite allRefs_cons, app_assoc, take_drop.
Qed.

(** The cursor splits the references of a collection. *)
Lemma refs_split (v : TgdbVariablesInfo) (f i : nat) :
  allRefs v = refsBefore v f i ++ refsFrom v f i.
Proof.
  unfold refsBefore, refsFrom. rewrite <- app_assoc, <- refs_split_files, <- allRefs_app.
  by rewrite take_drop.
Qed.

Lemma length_refsFrom (v : TgdbVariablesInfo) (f i : nat) :
  (length (refsFrom v f i) <= length (allRefs v))%nat.
Proof. rewrite (refs_split v f i), length_app. lia. Qed.

Lemma refsBefore_0 (v : TgdbVariablesInfo) : refsBefore v O O = [].
Proof. unfold refsBefore. rewrite take_0, drop_0. by destruct v. Qed.

Lemma length_pending (s : Store) (info : InformationType) (l : list nat) :
  (length (pending s info l) <= length l)%nat.
Proof.
  induction l as [|r l IH]; [done|]. cbn [pending].
  destruct (waiting s info r); cbn [length]; lia.
Qed.

Lemma pending_skip (s : Store) (info : InformationType) (pre l : list nat) :
  Forall (fun r => waiting s info r = false) pre ->
  pending s info (pre ++ l) = pending s info l.
Proof.
  induction 1 as [|r pre Hr _ IH]; [done|].
  rewrite <- app_comm_cons. cbn [pending]. by rewrite Hr.
Qed.

Lemma scanIdentifiers_spec (s : Store) (info : InformationType) (l : list nat) :
  forall i : nat,
  match scanIdentifiers s info l i with
  | Some j =>
      exists pre r post,
        l = pre ++ r :: post /\ j = (i + length pre)%nat
        /\ Forall (fun x => waiting s info x = false) pre
        /\ waiting s info r = true
  | None => Forall (fun x => waiting s info x = false) l
  end.
Proof.
  induction l as [|r l IH]; intros i; cbn [scanIdentifiers]; [constructor|].
  change (from_option (awaits info) false (s !! r)) with (waiting s info r).
  destruct (waiting s info r) eqn:E.
  - exists [], r, l. cbn [length app]. split_and!; [done | lia | constructor | done].
  - specialize (IH (S i)). destruct (scanIdentifiers s info l (S i)) as [j|].
    + destruct IH as (pre & r' & post & -> & -> & Hpre & Hr').
      exists (r :: pre), r', post. cbn [length]. split_and!; [done | lia | by constructor | done].
    + by constructor.
Qed.

Lemma scanFiles_spec (s : Store) (info : InformationType) (files : TgdbVariablesInfo) :
  forall f i : nat,
  match scanFiles s info files f i with
  | Some (f', i') =>
      exists k entry pre r post,
        files !! k = Some entry /\ f' = (f + k)%nat
        /\ identifiersList entry !! i' = Some r
        /\ waiting s info r = true
        /\ Forall (fun x => waiting s info x = false) pre
        /\ restOf files i = pre ++ r :: post
        /\ restOf (drop k files) i' = r :: post
  | None => Forall (fun x => waiting s info x = false) (restOf files i)
  end.
Proof.
  induction files as [|entry rest IH]; intros f i; cbn [scanFiles]; [constructor|].
  pose proof (scanIdentifiers_spec s info (drop i (identifiersList entry)) i) as Hscan.
  destruct (scanIdentifiers s info (drop i (identifiersList entry)) i) as [j|].
  - destruct Hscan as (pre & r & post & Hl & -> & Hpre & Hr).
    exists O, entry, pre, (r : nat), (post ++ allRefs rest).
    assert (Hdrop : drop (i + length pre) (identifiersList entry) = r :: post).
    { rewrite <- drop_drop, Hl. apply drop_app_length. }
    split_and!; [done | lia | | done | done | |].
    + rewrite <- (Nat.add_0_r (i + length pre)), <- lookup_drop, Hdrop. done.
    + cbn [restOf]. by rewrite Hl, <- app_assoc.
    + rewrite drop_0. cbn [restOf]. by rewrite Hdrop.
  - specialize (IH (S f) O). destruct (scanFiles s info rest (S f) O) as [[f' i']|].
    + destruct IH as (k & entry' & pre & r & post & Hk & -> & Hi' & Hr & Hpre & Hrest & Hpost).
      exists (S k), entry', (drop i (identifiersList entry) ++ pre), r, post.
      split_and!; [done | lia | done | done | by apply Forall_app | | done].
      cbn [restOf]. by rewrite <- app_assoc, <- Hrest, restOf_0.
    + cbn [restOf]. apply Forall_app. split; [done|]. by rewrite <- restOf_0.
Qed.

Lemma computeNumberOfVariables_length (p : ElfParser) :
  computeNumberOfVariables p = Z.of_nat (length (allRefs (gdbVariablesInfo p))).
Proof.
  unfold computeNumberOfVariables.
  assert (H : forall (v : TgdbVariablesInfo) (n : Z),
             foldl (fun n entry => n + Z.of_nat (length (identifiersList entry))) n v
             = n + Z.of_nat (length (allRefs v))).
  { induction v as [|entry v IH]; intros n; cbn [foldl]; [simpl; lia|].
    rewrite IH, allRefs_cons, length_app. lia. }
  by rewrite H.
Qed.

(** The two outcomes of [storeAllElementsFromGdb]: it stops at the first
    element from the cursor on that lacks the information, or there is no
    such element. *)
Lemma storeAllElementsFromGdb_cases (host : Host) (gdbResponse : jstring)
    (info : InformationType) (p : ElfParser) :
  (exists f i entry r element pre post,
      gdbVariablesInfo p !! f = Some entry
      /\ identifiersList entry !! i = Some r
      /\ store p !! r = Some element
      /\ awaits info element = true
      /\ Forall (fun x => waiting (store p) info x = false) pre
      /\ refsFrom (gdbVariablesInfo p) (currentFilenameIdx p) (currentIdentifierIdx p)
         = pre ++ r :: post
      /\ refsFrom (gdbVariablesInfo p) f i = r :: post
      /\ storeAllElementsFromGdb host gdbResponse info p
         = (let p2 :=
              set_cursor f i
                (storeElement host gdbResponse info (filename entry) r element p) in
            set_gdbResponseCounter (gdbResponseCounter p2 + 1) p2, true))
  \/ (Forall (fun x => waiting (store p) info x = false)
        (refsFrom (gdbVariablesInfo p) (currentFilenameIdx p) (currentIdentifierIdx p))
      /\ storeAllElementsFromGdb host gdbResponse info p
         = (if decide (currentFilenameIdx p < length (gdbVariablesInfo p))%nat
            then set_cursor (currentFilenameIdx p) O p else p, false)).
Proof.
  unfold storeAllElementsFromGdb.
  pose proof (scanFiles_spec (store p) info
                (drop (currentFilenameIdx p) (gdbVariablesInfo p))
                (currentFilenameIdx p) (currentIdentifierIdx p)) as Hscan.
  destruct (scanFiles (store p) info (drop (currentFilenameIdx p) (gdbVariablesInfo p))
              (currentFilenameIdx p) (currentIdentifierIdx p)) as [[f i]|].
  - left. destruct Hscan as (k & entry & pre & r & post & Hk & -> & Hi & Hr & Hpre & Hrest & Hpost).
    rewrite lookup_drop in Hk. rewrite drop_drop in Hpost.
    unfold waiting in Hr. destruct (store p !! r) as [element|] eqn:Hs; [|done].
    exists (currentFilenameIdx p + k)%nat, i, entry, r, element, pre, post.
    rewrite Hk, Hi, Hs. by split_and!.
  - by right.
Qed.
Lemma expandPass_step (k : nat) (s : Store) (l : list nat) (index : nat) (still : bool) :
  expandPass (S k) s l index still
  = match l !! index with
    | None => Some (s, l, still)
    | Some r =>
        let '(s1, l1, detected) := expandElement s l r in
        expandPass k s1 l1 (S index) (still || detected)
    end.
Proof. done. Qed.

Lemma expandEntry_step (k : nat) (s : Store) (l : list nat) :
  expandEntry (S k) s l
  = match expandPass (S k) s l O false with
    | Some (s1, l1, true) => expandEntry k s1 l1
    | Some (s1, l1, false) => Some (s1, l1)
    | None => None
    end.
Proof. done. Qed.

Lemma expandPass_eq (k : nat) (s s' : Store) (l l' : list nat) (i i' : nat)
    (b b' : bool) :
  s = s' -> l = l' -> i = i' -> b = b' ->
  expandPass k s l i b = expandPass k s' l' i' b'.
Proof. by intros -> -> -> ->. Qed.

(** ** The markers *)

Lemma addMarkers_withMarkers (s : Store) (v : TgdbVariablesInfo) :
  addMarkers s v = withMarkers s (allRefs v).
Proof. reflexivity. Qed.

Lemma withMarkers_step (s : Store) (r : nat) (refs : list nat) :
  withMarkers s (r :: refs) = withMarkers (alter marked r s) refs.
Proof. reflexivity. Qed.

Lemma length_withMarkers (refs : list nat) :
  forall s : Store, length (withMarkers s refs) = length s.
Proof.
  induction refs as [|r refs IH]; intros s; [done|].
  by rewrite withMarkers_step, IH, length_alter.
Qed.

Lemma withMarkers_lookup_ne (refs : list nat) :
  forall (s : Store) (r : nat), r ∉ refs -> withMarkers s refs !! r = s !! r.
Proof.
  induction refs as [|x refs IH]; intros s r Hr; [done|].
  apply not_elem_of_cons in Hr as [Hne Hr].
  rewrite withMarkers_step, IH by done. apply list_lookup_alter_ne. congruence.
Qed.

(** The markers of an element that is behind one reference only are put
    in once. *)
Lemma withMarkers_cons (r : nat) (refs : list nat) :
  forall s : Store,
  r ∉ refs -> withMarkers s (r :: refs) = alter marked r (withMarkers s refs).
Proof.
  induction refs as [|x refs IH]; intros s Hr; [done|].
  apply not_elem_of_cons in Hr as [Hne Hr].
  rewrite !withMarkers_step, (list_alter_alter_ne marked marked s x r) by congruence.
  rewrite <- (withMarkers_step (alter marked x s) r refs). by rewrite IH.
Qed.

Lemma withMarkers_first (s : Store) (refs : list nat) (r : nat) (e : Identifier) :
  s !! r = Some e -> r ∉ refs -> withMarkers s (r :: refs) !! r = Some (marked e).
Proof.
  intros Hs Hr.
  by rewrite withMarkers_cons, list_lookup_alter_eq, withMarkers_lookup_ne, Hs.
Qed.

Lemma marked_plain (e : Identifier) :
  "["%char ∉ identifier e -> "]"%char ∉ identifier e -> marked e = e.
Proof.
  intros Hopen Hclose. unfold marked.
  rewrite (replaceChar_absent "[") by done. rewrite replaceChar_absent by done.
  by destruct e.
Qed.

Lemma alter_same {A : Type} (f : A -> A) (l : list A) (i : nat) (x : A) :
  l !! i = Some x -> f x = x -> alter f i l = l.
Proof.
  intros Hl Hf. apply list_eq. intros j. rewrite list_lookup_alter.
  destruct (decide (i = j)) as [<-|]; [|done]. rewrite Hl. cbn. by rewrite Hf.
Qed.

(** Nothing is put into the identifier of a variable that is no array. *)
Lemma withMarkers_plain (s : Store) (refs : list nat) (r : nat) (e : Identifier) :
  s !! r = Some e -> described None e -> r ∉ refs ->
  withMarkers s (r :: refs) = withMarkers s refs.
Proof.
  intros Hs [Hopen Hclose] Hr. rewrite withMarkers_cons by done.
  apply (alter_same _ _ _ e); [by rewrite withMarkers_lookup_ne | by apply marked_plain].
Qed.

(** The expansion takes the markers of an array out again. *)
Lemma withMarkers_unmarked (s : Store) (refs : list nat) (r : nat) (e : Identifier) :
  s !! r = Some e -> r ∉ refs ->
  alter (set_identifier (identifier e)) r (withMarkers s (r :: refs))
  = withMarkers s refs.
Proof.
  intros Hs Hr. rewrite withMarkers_cons, list_alter_alter_eq by done.
  apply (alter_same _ _ _ e); [by rewrite withMarkers_lookup_ne | by destruct e].
Qed.

(** ** The lists *)

Lemma elem_of_concat {A : Type} (x : A) (ls : list (list A)) :
  x ∈ concat ls <-> exists l, x ∈ l /\ l ∈ ls.
Proof.
  induction ls as [|k ls IH]; cbn [concat].
  - split; [by intros ?%elem_of_nil | by intros (l & _ & ?%elem_of_nil)].
  - rewrite elem_of_app, IH. split.
    + intros [H|(l & H1 & H2)]; [exists k | exists l]; split; try done;
        [apply list_elem_of_here | by apply list_elem_of_further].
    + intros (l & H1 & [->|H2]%elem_of_cons); [by left | right; by exists l].
Qed.

Lemma added_app (s : Store) (shapes : nat -> option (jstring * Z * jstring)) (l k : list nat) :
  added s shapes (l ++ k) = added s shapes l ++ added s shapes k.
Proof. unfold added. by rewrite fmap_app, concat_app. Qed.

Lemma length_pushedMembers (base tail : jstring) (count : nat) (t : option jstring)
    (k : option Z) :
  length (pushedMembers base tail count t k) = count.
Proof. unfold pushedMembers. by rewrite length_fmap, length_seq. Qed.

Lemma omap_lookup_old (s extra : Store) (l : list nat) :
  Forall (fun r => (r < length s)%nat) l ->
  omap (fun r => (s ++ extra) !! r) l = omap (fun r => s !! r) l.
Proof.
  induction l as [|r l IH]; intros Hl; [done|].
  apply Forall_cons in Hl as [Hr Hl]. cbn [omap list_omap].
  by rewrite lookup_app_l, IH.
Qed.

Lemma omap_lookup_segment (s post : Store) :
  forall pre : Store,
  omap (fun r => (pre ++ s ++ post) !! r) (seq (length pre) (length s)) = s.
Proof.
  induction s as [|x s IH]; intros pre; [done|].
  cbn [length seq omap list_omap]. rewrite <- app_comm_cons.
  rewrite list_lookup_middle by done. f_equal.
  specialize (IH (pre ++ [x])). rewrite <- app_assoc, length_app in IH. simpl in IH.
  by rewrite Nat.add_1_r in IH.
Qed.

Lemma expandedInfo_lookup (s : Store) (shapes : nat -> option (jstring * Z * jstring)) :
  forall (v : TgdbVariablesInfo) (start f : nat) (entry : IGdbVariableInfo),
  v !! f = Some entry ->
  expandedInfo s shapes start v !! f
  = Some (mkVariableInfo (filename entry)
            (identifiersList entry
             ++ seq (start + length (added s shapes (allRefs (take f v))))
                  (length (added s shapes (identifiersList entry))))).
Proof.
  induction v as [|first v IH]; intros start f entry Hf; [done|].
  destruct f as [|f].
  - injection Hf as ->. cbn [expandedInfo lookup list_lookup take]. cbv zeta.
    change (allRefs []) with (@nil nat). change (added s shapes []) with (@nil Identifier).
    cbn [length]. by rewrite Nat.add_0_r.
  - cbn [expandedInfo lookup list_lookup take]. cbv zeta.
    change ((first :: v) !! S f) with (v !! f) in Hf.
    rewrite (IH _ _ _ Hf). rewrite allRefs_cons, added_app, length_app.
    by rewrite Nat.add_assoc.
Qed.

Lemma length_expandedInfo (s : Store) (shapes : nat -> option (jstring * Z * jstring)) :
  forall (v : TgdbVariablesInfo) (start : nat),
  length (expandedInfo s shapes start v) = length v.
Proof. induction v as [|entry v IH]; intros start; [done|]. cbn. by rewrite IH. Qed.

(** ** The passes over a list of variables and arrays *)

Section Flat.
Context (s0 : Store) (shapes : nat -> option (jstring * Z * jstring)).

Local Ltac same_list :=
  repeat first [rewrite <- app_assoc | rewrite <- app_comm_cons | progress cbn [app]];
  try done.

Local Abbreviation known :=
  (fun r : nat => exists e, s0 !! r = Some e /\ described (shapes r) e).

Lemma known_unmarked (r : nat) (e : Identifier) :
  s0 !! r = Some e -> described (shapes r) e ->
  lastIndexOf (identifier e) (lit "[x") = -1.
Proof.
  intros He. destruct (shapes r) as [[[base size] tail]|].
  - intros (-> & Hopen & Hclose & Htopen & Htclose & Hsize).
    apply member_unmarked; (done || lia).
  - intros [Hopen Hclose]. unfold lastIndexOf.
    by rewrite (findLast_head_absent "[" (lit "x")).
Qed.

Lemma added_unmarked (l : list nat) (e : Identifier) :
  Forall known l -> e ∈ added s0 shapes l ->
  lastIndexOf (identifier e) (lit "[x") = -1.
Proof.
  intros Hl He. unfold added in He. apply elem_of_concat in He as (block & He & Hblock).
  apply list_elem_of_fmap in Hblock as (r & -> & Hr).
  rewrite Forall_forall in Hl. destruct (Hl r Hr) as (x & Hx & Hshape).
  unfold siblings in He. rewrite Hx in He.
  destruct (shapes r) as [[[base size] tail]|]; [|by apply elem_of_nil in He].
  destruct Hshape as (_ & Hopen & _ & Htopen & _ & _).
  unfold pushedMembers in He. apply list_elem_of_fmap in He as (i & -> & _).
  apply member_unmarked; (done || lia).
Qed.

(** The part of a pass that goes over the references the list had when
    the pass began: the markers of their elements are taken out, and for
    every array among them the new entries are put at the end of the store
    and their references at the end of the list. *)
Lemma expandPass_original (k : nat) :
  forall (rest done ext : list nat) (P : Store) (later : list nat) (still : bool),
  NoDup (rest ++ later) ->
  Forall known rest ->
  expandPass (length rest + k) (withMarkers s0 (rest ++ later) ++ P)
    (done ++ rest ++ ext) (length done) still
  = expandPass k (withMarkers s0 later ++ P ++ added s0 shapes rest)
      (done ++ rest ++ ext
       ++ seq (length s0 + length P) (length (added s0 shapes rest)))
      (length done + length rest) (still || hasArray shapes rest).
Proof.
  induction rest as [|r rest IH]; intros done ext P later still Hdup Hknown.
  - change (added s0 shapes []) with (@nil Identifier).
    cbn [app length Nat.add hasArray existsb seq].
    by rewrite !app_nil_r, Nat.add_0_r, orb_false_r.
  - rewrite <- app_comm_cons in Hdup. apply NoDup_cons in Hdup as [Hr Hdup].
    apply Forall_cons in Hknown as [(e & He & Hshape) Hknown].
    assert (Hlt : (r < length (withMarkers s0 (r :: rest ++ later)))%nat).
    { rewrite length_withMarkers. by eapply lookup_lt_Some. }
    rewrite <- !app_comm_cons. cbn [length Nat.add]. rewrite expandPass_step.
    rewrite (list_lookup_middle done (rest ++ ext) r (length done)) by done.
    destruct (shapes r) as [[[base size] tail]|] eqn:Eshape.
    + destruct Hshape as (Hid & Hopen & Hclose & Htopen & Htclose & Hsize).
      rewrite (expandElement_member base tail (size - 1) Hopen Htopen Htclose ltac:(lia)
                 _ _ r (marked e)).
      2:{ rewrite lookup_app_l by done. by apply withMarkers_first. }
      2:{ unfold marked. cbn [identifier set_identifier]. rewrite Hid.
          apply member_markers_added; (done || lia). }
      cbv beta iota zeta.
      rewrite alter_app_l by done. rewrite <- Hid, withMarkers_unmarked by done.
      set (pushed := pushedMembers base tail (Z.to_nat (Z.min (size - 1) 10000))
                       (type (marked e)) (typeValue (marked e))).
      assert (Hsib : siblings s0 shapes r = pushed).
      { unfold siblings. by rewrite Eshape, He. }
      assert (Hcount : Z.to_nat (Z.min (size - 1) 10000) = length pushed)
        by (unfold pushed; by rewrite length_pushedMembers).
      rewrite Hcount, !length_app, length_withMarkers.
      transitivity
        (expandPass (length rest + k)
           (withMarkers s0 (rest ++ later) ++ (P ++ pushed))
           ((done ++ [r]) ++ rest ++ (ext ++ seq (length s0 + length P) (length pushed)))
           (length (done ++ [r])) (still || true)).
      { apply expandPass_eq.
        - same_list.
        - same_list.
        - rewrite length_app. simpl. lia.
        - done. }
      rewrite IH by done.
      assert (Hadded : added s0 shapes (r :: rest) = pushed ++ added s0 shapes rest).
      { unfold added. cbn [fmap list_fmap concat]. by rewrite Hsib. }
      rewrite Hadded. apply expandPass_eq.
      * same_list.
      * rewrite !length_app, seq_app, Nat.add_assoc. same_list.
      * rewrite length_app. simpl. lia.
      * cbn [hasArray existsb]. rewrite Eshape. by destruct still.
    + rewrite (withMarkers_plain s0 (rest ++ later) r e) by done.
      rewrite (expandElement_unmarked _ _ r e).
      2:{ rewrite lookup_app_l by (by rewrite <- (withMarkers_plain s0 _ r e)).
          by rewrite withMarkers_lookup_ne. }
      2:{ apply (known_unmarked r); [done | by rewrite Eshape]. }
      cbv beta iota zeta.
      transitivity
        (expandPass (length rest + k)
           (withMarkers s0 (rest ++ later) ++ P)
           ((done ++ [r]) ++ rest ++ ext)
           (length (done ++ [r])) (still || false)).
      { apply expandPass_eq.
        - done.
        - same_list.
        - rewrite length_app. simpl. lia.
        - done. }
      rewrite IH by done.
      assert (Hadded : added s0 shapes (r :: rest) = added s0 shapes rest).
      { unfold added. cbn [fmap list_fmap concat]. unfold siblings at 1.
        by rewrite Eshape. }
      rewrite Hadded. apply expandPass_eq.
      * done.
      * same_list.
      * rewrite length_app. simpl. lia.
      * cbn [hasArray existsb]. rewrite Eshape. by destruct still.
Qed.

(** The [while] loop over the list of one entry. *)
Lemma expandEntry_flat (fuel : nat) (l later : list nat) (P : Store) :
  NoDup (l ++ later) ->
  Forall known l ->
  (length l + length (added s0 shapes l) + 2 <= fuel)%nat ->
  expandEntry fuel (withMarkers s0 (l ++ later) ++ P) l
  = Some (withMarkers s0 later ++ P ++ added s0 shapes l,
          l ++ seq (length s0 + length P) (length (added s0 shapes l))).
Proof.
  intros Hdup Hknown Hfuel.
  set (news := added s0 shapes l) in *.
  set (S' := withMarkers s0 later ++ P ++ news).
  set (l' := l ++ seq (length s0 + length P) (length news)).
  assert (Hnew : forall i r, (length l <= i)%nat -> l' !! i = Some r ->
            exists e, S' !! r = Some e /\ lastIndexOf (identifier e) (lit "[x") = -1).
  { intros i r Hi Hr. unfold l' in Hr. rewrite lookup_app_r in Hr by done.
    apply lookup_seq in Hr as [-> Hlt].
    destruct (lookup_lt_is_Some_2 news (i - length l)) as [e He]; [done|].
    exists e. split.
    - unfold S'. rewrite app_assoc, lookup_app_r
        by (rewrite length_app, length_withMarkers; lia).
      rewrite length_app, length_withMarkers. rewrite <- He. f_equal. lia.
    - apply (added_unmarked l); [done|]. by eapply list_elem_of_lookup_2. }
  assert (Hold : forall i r, (i < length l)%nat -> l' !! i = Some r ->
            exists e, S' !! r = Some e /\ lastIndexOf (identifier e) (lit "[x") = -1).
  { intros i r Hi Hr. unfold l' in Hr. rewrite lookup_app_l in Hr by done.
    rewrite Forall_forall in Hknown.
    assert (Hin : r ∈ l) by (by eapply list_elem_of_lookup_2).
    destruct (Hknown r Hin) as (e & He & Hshape).
    exists e. split; [|by apply (known_unmarked r)].
    unfold S'. rewrite lookup_app_l
      by (rewrite length_withMarkers; by eapply lookup_lt_Some).
    rewrite withMarkers_lookup_ne; [done|].
    apply NoDup_app in Hdup as (_ & Hdis & _). by apply Hdis. }
  assert (Hlen : length l' = (length l + length news)%nat)
    by (unfold l'; by rewrite length_app, length_seq).
  destruct fuel as [|[|fuel]]; [lia | lia |].
  assert (Hpass : expandPass (S (S fuel)) (withMarkers s0 (l ++ later) ++ P) l O false
                  = Some (S', l', hasArray shapes l)).
  { pose proof (expandPass_original (S (S fuel) - length l) l [] [] P later false
                  Hdup Hknown) as H.
    rewrite !app_nil_l, (app_nil_r l) in H. cbn [length Nat.add orb] in H.
    replace (length l + (S (S fuel) - length l))%nat with (S (S fuel)) in H by lia.
    rewrite H. fold news. fold l'. fold S'.
    apply expandPass_settled.
    - intros i r Hi Hr. by apply (Hnew i r).
    - rewrite Hlen. lia. }
  rewrite expandEntry_step, Hpass.
  destruct (hasArray shapes l); [|done].
  rewrite expandEntry_step, expandPass_settled; [done | |].
  - intros i r _ Hr. destruct (decide (i < length l)%nat).
    + by apply (Hold i r).
    + apply (Hnew i r); [lia | done].
  - rewrite Hlen. lia.
Qed.

(** The loop over the entries. *)
Lemma expandEntries_flat (fuel : nat) :
  forall (v : TgdbVariablesInfo) (P : Store),
  NoDup (allRefs v) ->
  Forall known (allRefs v) ->
  Forall (fun entry =>
            (length (identifiersList entry)
             + length (added s0 shapes (identifiersList entry)) + 2 <= fuel)%nat) v ->
  expandEntries fuel (withMarkers s0 (allRefs v) ++ P) v
  = Some (s0 ++ P ++ added s0 shapes (allRefs v),
          expandedInfo s0 shapes (length s0 + length P) v).
Proof.
  induction v as [|entry v IH]; intros P Hdup Hknown Hfuel.
  - cbn [expandEntries expandedInfo]. change (allRefs []) with (@nil nat).
    change (added s0 shapes []) with (@nil Identifier). by rewrite app_nil_r.
  - rewrite allRefs_cons in *. apply Forall_app in Hknown as [Hl Hv].
    apply Forall_cons in Hfuel as [Hentry Hfuel].
    cbn [expandEntries]. rewrite expandEntry_flat by done.
    rewrite (IH (P ++ added s0 shapes (identifiersList entry))); [| | done | done].
    2:{ by apply NoDup_app in Hdup as (_ & _ & ?). }
    cbn [expandedInfo]. cbv zeta. rewrite added_app, length_app, <- !app_assoc.
    by rewrite Nat.add_assoc.
Qed.

End Flat.

(** [postProcessArraysInfo] on a collection of variables and arrays, each
    behind one reference: the store gets the entries added for the arrays
    at its end, and every list the references to the ones added for its
    arrays. *)
Lemma postProcess_flat (p : ElfParser) (shapes : nat -> option (jstring * Z * jstring))
    (fuel : nat) :
  expandTableElements p = true ->
  NoDup (allRefs (gdbVariablesInfo p)) ->
  (forall r, r ∈ allRefs (gdbVariablesInfo p) ->
     exists element, store p !! r = Some element /\ described (shapes r) element) ->
  (forall entry, entry ∈ gdbVariablesInfo p ->
     (length (identifiersList entry)
      + length (added (store p) shapes (identifiersList entry)) + 2 <= fuel)%nat) ->
  postProcessArraysInfo fuel p
  = Some (set_variables
            (store p ++ added (store p) shapes (allRefs (gdbVariablesInfo p)))
            (expandedInfo (store p) shapes (length (store p)) (gdbVariablesInfo p))
            (newGdbVariablesInfo p) p).
Proof.
  intros Hflag Hdup Hknown Hfuel. unfold postProcessArraysInfo. rewrite Hflag.
  rewrite addMarkers_withMarkers.
  rewrite <- (app_nil_r (withMarkers _ _)).
  rewrite (expandEntries_flat (store p) shapes fuel (gdbVariablesInfo p) []);
    [| done | by apply Forall_forall | by apply Forall_forall].
  cbn [app length]. by rewrite Nat.add_0_r.
Qed.

(** The elements of one list after the expansion: the ones it had, as
    they were, and then the entries added for its arrays. *)
Lemma postProcess_flat_entry (p p' : ElfParser) (shapes : nat -> option (jstring * Z * jstring))
    (f : nat) (entry : IGdbVariableInfo) :
  (forall r, r ∈ allRefs (gdbVariablesInfo p) ->
     exists element, store p !! r = Some element /\ described (shapes r) element) ->
  store p' = store p ++ added (store p) shapes (allRefs (gdbVariablesInfo p)) ->
  gdbVariablesInfo p'
  = expandedInfo (store p) shapes (length (store p)) (gdbVariablesInfo p) ->
  gdbVariablesInfo p !! f = Some entry ->
  exists entry',
    gdbVariablesInfo p' !! f = Some entry'
    /\ filename entry' = filename entry
    /\ omap (fun r => store p' !! r) (identifiersList entry')
       = omap (fun r => store p !! r) (identifiersList entry)
         ++ concat (siblings (store p) shapes <$> identifiersList entry).
Proof.
  intros Hknown Hstore Hinfo Hf.
  eexists. split; [rewrite Hinfo; by apply expandedInfo_lookup|].
  split; [done|]. cbn [identifiersList]. rewrite omap_app, Hstore. f_equal.
  - apply omap_lookup_old. apply Forall_forall. intros r Hr.
    destruct (Hknown r) as (e & He & _); [|by eapply lookup_lt_Some].
    unfold allRefs. apply elem_of_concat. exists (identifiersList entry).
    split; [done|]. apply list_elem_of_fmap. exists entry. split; [done|].
    by eapply list_elem_of_lookup_2.
  - assert (Hsplit : allRefs (gdbVariablesInfo p)
                     = allRefs (take f (gdbVariablesInfo p))
                       ++ identifiersList entry
                       ++ allRefs (drop (S f) (gdbVariablesInfo p))).
    { rewrite <- (take_drop_middle _ _ _ Hf) at 1.
      by rewrite allRefs_app, allRefs_cons. }
    rewrite Hsplit, !added_app, app_assoc, <- length_app.
    apply (omap_lookup_segment (added (store p) shapes (identifiersList entry))).
Qed.



(** ** What [extractType] does to the collections *)

Lemma lastIndexOfRoot_some (s : Store) (root : jstring) (l : list nat) :
  forall idx a : nat,
  exists j, lastIndexOfRoot s root l idx (Some a) = Some j /\ (j = a \/ (idx <= j)%nat).
Proof.
  induction l as [|r l IH]; intros idx a; cbn [lastIndexOfRoot].
  - exists a. by split; [|left].
  - destruct (s !! r) as [item|]; [destruct (decide (identifier item = root))|].
    + destruct (IH (S idx) idx) as (j & -> & Hj). exists j. split; [done|]. right. lia.
    + destruct (IH (S idx) a) as (j & -> & Hj). exists j. split; [done|]. lia.
    + destruct (IH (S idx) a) as (j & -> & Hj). exists j. split; [done|]. lia.
Qed.

(** The index that [extractType] removes is the last one with the
    identifier: no index with the identifier comes after it. *)
Lemma lastIndexOfRoot_last (s : Store) (root : jstring) (l : list nat) :
  forall (idx : nat) (acc : option nat) (k r : nat) (item : Identifier),
  l !! k = Some r -> s !! r = Some item -> identifier item = root ->
  exists j, lastIndexOfRoot s root l idx acc = Some j /\ (idx + k <= j)%nat.
Proof.
  induction l as [|r0 l IH]; intros idx acc k r item Hk Hr Hid; [done|].
  cbn [lastIndexOfRoot]. destruct k as [|k].
  - injection Hk as ->. rewrite Hr.
    destruct (decide (identifier item = root)) as [_|]; [|done].
    destruct (lastIndexOfRoot_some s root l (S idx) idx) as (j & -> & Hj).
    exists j. split; [done|]. lia.
  - destruct (IH (S idx)
                (match s !! r0 with
                 | Some item0 =>
                     if decide (identifier item0 = root) then Some idx else acc
                 | None => acc
                 end) k r item Hk Hr Hid) as (j & -> & Hj).
    exists j. split; [done|]. lia.
Qed.

Lemma refsBefore_here (entry : IGdbVariableInfo) (rest : TgdbVariablesInfo) (i : nat) :
  refsBefore (entry :: rest) O i = take i (identifiersList entry).
Proof. done. Qed.

Lemma refsBefore_later (entry : IGdbVariableInfo) (rest : TgdbVariablesInfo) (f i : nat) :
  refsBefore (entry :: rest) (S f) i = identifiersList entry ++ refsBefore rest f i.
Proof. unfold refsBefore. cbn [take drop]. by rewrite allRefs_cons, app_assoc. Qed.

Lemma removeRootIdentifier_all (P : nat -> Prop) (s : Store) (file root : jstring)
    (v : TgdbVariablesInfo) :
  Forall P (allRefs v) -> Forall P (allRefs (removeRootIdentifier s file root v)).
Proof.
  induction v as [|entry rest IH]; [done|]. cbn [removeRootIdentifier].
  rewrite allRefs_cons, Forall_app. intros [He Hrest].
  destruct (decide (filename entry = file)).
  - destruct (lastIndexOfRoot s root (identifiersList entry) O None) as [j|].
    + rewrite allRefs_cons, Forall_app. cbn [identifiersList]. split; [|done].
      by apply Forall_delete.
    + rewrite allRefs_cons, Forall_app. done.
  - rewrite allRefs_cons, Forall_app. auto.
Qed.

(** Removing the entry of a structure takes nothing away from before the
    place where the structure was found, and brings nothing there. *)
Lemma removeRootIdentifier_before (P : nat -> Prop) (s : Store) (root : jstring)
    (v : TgdbVariablesInfo) :
  forall (f i : nat) (entry : IGdbVariableInfo) (r : nat) (item : Identifier),
  v !! f = Some entry ->
  identifiersList entry !! i = Some r ->
  s !! r = Some item -> identifier item = root ->
  Forall P (refsBefore v f i) ->
  Forall P (refsBefore (removeRootIdentifier s (filename entry) root v) f i).
Proof.
  induction v as [|entry0 rest IH]; intros f i entry r item Hf Hi Hr Hid; [done|].
  cbn [removeRootIdentifier]. destruct f as [|f].
  - injection Hf as ->. destruct (decide (filename entry = filename entry)) as [_|]; [|done].
    destruct (lastIndexOfRoot_last s root (identifiersList entry) O None i r item Hi Hr Hid)
      as (j & -> & Hj).
    rewrite !refsBefore_here. cbn [identifiersList].
    replace (take i (delete j (identifiersList entry))) with (take i (identifiersList entry));
      [done|].
    apply list_eq. intros k. destruct (decide (k < i)%nat).
    + rewrite !lookup_take_lt by done. by rewrite list_lookup_delete_lt by lia.
    + by rewrite !lookup_take_ge by lia.
  - cbn [lookup list_lookup] in Hf.
    rewrite refsBefore_later, Forall_app. intros [He Hrest].
    destruct (decide (filename entry0 = filename entry)).
    + destruct (lastIndexOfRoot s root (identifiersList entry0) O None) as [j|].
      * rewrite refsBefore_later, Forall_app. cbn [identifiersList].
        split; [by apply Forall_delete | done].
      * rewrite refsBefore_later, Forall_app. done.
    + rewrite refsBefore_later, Forall_app. split; [done|]. by eapply IH.
Qed.

Lemma pushIdentifiers_all (P : nat -> Prop) (refs : list nat) (n : TgdbVariablesInfo) :
  forall position : nat,
  Forall P (allRefs n) -> Forall P refs ->
  Forall P (allRefs (alter (pushIdentifiers refs) position n)).
Proof.
  induction n as [|entry rest IH]; intros position Hn Hrefs; [done|].
  rewrite allRefs_cons, Forall_app in Hn. destruct Hn as [He Hrest].
  destruct position as [|position]; cbn [alter list_alter].
  - rewrite allRefs_cons, !Forall_app. cbn [pushIdentifiers identifiersList].
    by rewrite Forall_app.
  - change (list_alter (pushIdentifiers refs) position rest)
      with (alter (pushIdentifiers refs) position rest).
    rewrite allRefs_cons, Forall_app. split; [done|]. by apply IH.
Qed.

Lemma refs_extend (s added : Store) (l : list nat) :
  Forall (fun r => (r < length s)%nat) l ->
  Forall (fun r => (r < length (s ++ added))%nat) l.
Proof. intros H. eapply Forall_impl; [exact H|]. intros r. rewrite length_app. lia. Qed.

Lemma refs_fresh (s added : Store) :
  Forall (fun r => (r < length (s ++ added))%nat) (seq (length s) (length added)).
Proof.
  apply Forall_forall. intros r Hr%elem_of_seq. rewrite length_app. lia.
Qed.

(** [extractType] only adds objects to the store, takes at most the entry
    of the structure out of the collection, and puts references to new
    objects in the new collection. *)
Lemma extractType_effect (host : Host) (s : Store) (v n : TgdbVariablesInfo)
    (file expr root : jstring) (hierarchy : option jstring) (expand : bool) :
  let result := extractType host s v n file expr root hierarchy expand in
  (exists added, result.1.1.2 = s ++ added)
  /\ (result.1.2 = v \/ result.1.2 = removeRootIdentifier s file root v)
  /\ (Forall (fun r => (r < length s)%nat) (allRefs n) ->
      Forall (fun r => (r < length result.1.1.2)%nat) (allRefs result.2)).
Proof.
  assert (Hsame : forall t : jstring,
            (exists added, (t, s, v, n).1.1.2 = s ++ added)
            /\ ((t, s, v, n).1.2 = v \/ (t, s, v, n).1.2 = removeRootIdentifier s file root v)
            /\ (Forall (fun r => (r < length s)%nat) (allRefs n) ->
                Forall (fun r => (r < length (t, s, v, n).1.1.2)%nat)
                  (allRefs (t, s, v, n).2))).
  { intros t. cbn [fst snd]. split; [exists []; by rewrite app_nil_r|]. split; [by left | done]. }
  unfold extractType. cbv zeta.
  destruct (startsWith _ (lit "struct ") || startsWith _ (lit "union ")
            || startsWith _ (lit "class ")); [|apply Hsame].
  destruct (decide (indexOf _ (lit "{") = -1)); [apply Hsame|].
  destruct (startsWith _ (lit "class ") && checkClassRecursion _ _); [apply Hsame|].
  destruct (decide (getMatchingClosingBrace _ = -1)); [apply Hsame|].
  destruct (decide (indexOfFrom _ (lit "*") _ = -1)); [|apply Hsame].
  destruct (findFilename file n) as [position|]; cbn [fst snd].
  - split; [by eexists|]. split; [by right|]. intros Hn.
    apply pushIdentifiers_all; [by apply refs_extend | apply refs_fresh].
  - split; [by eexists|]. split; [by right|]. intros Hn.
    apply pushIdentifiers_all; [|apply refs_fresh].
    rewrite allRefs_app, Forall_app. split; [by apply refs_extend | constructor].
Qed.

(** ** The other changes of the collections *)

Lemma mergeEntry_all (P : nat -> Prop) (newEntry : IGdbVariableInfo)
    (v : TgdbVariablesInfo) :
  Forall P (allRefs v) -> Forall P (identifiersList newEntry) ->
  Forall P (allRefs (mergeEntry v newEntry)).
Proof.
  intros Hv Hnew. induction v as [|entry rest IH]; [done|].
  rewrite allRefs_cons, Forall_app in Hv. destruct Hv as [He Hrest].
  unfold mergeEntry in *. cbn [fmap list_fmap]. rewrite allRefs_cons, Forall_app.
  split; [|by apply IH].
  destruct (decide (filename newEntry = filename entry)); [|done].
  cbn [pushIdentifiers identifiersList]. by apply Forall_app.
Qed.

Lemma mergeEntries_all (P : nat -> Prop) (n : TgdbVariablesInfo) :
  forall v : TgdbVariablesInfo,
  Forall P (allRefs v) -> Forall P (allRefs n) ->
  Forall P (allRefs (foldl mergeEntry v n)).
Proof.
  induction n as [|newEntry rest IH]; intros v Hv Hn; [done|].
  rewrite allRefs_cons, Forall_app in Hn. destruct Hn as [Hnew Hrest].
  cbn [foldl]. apply IH; [|done]. by apply mergeEntry_all.
Qed.

Lemma loadFiles_all (parsed : list (jstring * list jstring)) :
  forall acc : Store * TgdbVariablesInfo,
  Forall (fun r => (r < length acc.1)%nat) (allRefs acc.2) ->
  Forall (fun r => (r < length (foldl loadFile acc parsed).1)%nat)
    (allRefs (foldl loadFile acc parsed).2).
Proof.
  induction parsed as [|file rest IH]; intros acc Hacc; [done|].
  cbn [foldl]. apply IH. unfold loadFile. cbn [fst snd].
  rewrite allRefs_app, Forall_app. split; [by apply refs_extend|].
  unfold allRefs. cbn [fmap list_fmap concat identifiersList]. rewrite app_nil_r.
  apply refs_fresh.
Qed.
(** ** The fields after each step *)

Local Ltac fields :=
  cbn [currentState previousState callback expandTableElements progressCallback
       gdbProcess dataBuffer store gdbVariablesInfo newGdbVariablesInfo
       gdbResponseCounter numberOfVariables progressStatus currentFilenameIdx
       currentIdentifierIdx events set_currentState set_previousState set_parameters
       set_gdbProcess set_dataBuffer set_variables set_gdbResponseCounter
       set_numberOfVariables set_progressStatus set_cursor emit sendCommandToGdb
       mergeNewVariables] in *.

Lemma progressValues_app (l k : list Event) :
  progressValues (l ++ k) = progressValues l ++ progressValues k.
Proof. unfold progressValues. induction l as [|[] l IH]; cbn; by rewrite ?IH. Qed.

Lemma progressValues_writes {A : Type} (f : A -> jstring) (l : list A) :
  progressValues ((fun x => StdinWrite (f x)) <$> l) = [].
Proof. by induction l. Qed.

Lemma progressValues_typeCommands (l : list Identifier) :
  progressValues (concat (typeCommand <$> l)) = [].
Proof.
  induction l as [|element l IH]; [done|].
  cbn [fmap list_fmap concat]. rewrite progressValues_app, IH, app_nil_r.
  unfold typeCommand. destruct (type element) as [t|]; [|done].
  by destruct (firstCharIs t "?").
Qed.

Lemma requestAllElementsToGdb_fields (info : InformationType) (p : ElfParser) :
  let p' := requestAllElementsToGdb info p in
  currentState p'
  = match info with
    | SIZE => GET_SIZE
    | ADDRESS => GET_ADDRESS
    | _ => currentState p
    end
  /\ store p' = store p
  /\ gdbVariablesInfo p' = gdbVariablesInfo p
  /\ newGdbVariablesInfo p' = newGdbVariablesInfo p
  /\ gdbResponseCounter p' = gdbResponseCounter p
  /\ numberOfVariables p' = Z.of_nat (length (allRefs (gdbVariablesInfo p)))
  /\ currentFilenameIdx p' = O
  /\ currentIdentifierIdx p' = O
  /\ unreported p p'.
Proof.
  unfold unreported, requestAllElementsToGdb. cbv zeta.
  rewrite computeNumberOfVariables_length.
  destruct info; fields; split_and!; try done.
  - by rewrite progressValues_app, progressValues_app, progressValues_typeCommands, !app_nil_r.
  - by rewrite progressValues_app, progressValues_app, progressValues_writes, !app_nil_r.
  - by rewrite progressValues_app, progressValues_app, progressValues_writes, !app_nil_r.
Qed.

Lemma storeElement_TYPE (host : Host) (gdbResponse file : jstring) (r : nat)
    (element : Identifier) (p : ElfParser) :
  storeElement host gdbResponse TYPE file r element p
  = let result :=
      extractType host (store p) (gdbVariablesInfo p) (newGdbVariablesInfo p) file
        (replyBody gdbResponse (len GDB_RESP_TYPE_HEAD)) (identifier element)
        (classHierarchy element) (expandTableElements p) in
    set_variables (alter (set_type result.1.1.1) r result.1.1.2) result.1.2 result.2 p.
Proof.
  unfold storeElement. cbv zeta.
  by destruct (extractType _ _ _ _ _ _ _ _ _) as [[[t s] v] n].
Qed.

Lemma postProcessArraysInfo_fields (fuel : nat) (p p' : ElfParser) :
  postProcessArraysInfo fuel p = Some p' ->
  currentState p' = currentState p
  /\ gdbResponseCounter p' = gdbResponseCounter p
  /\ unreported p p'.
Proof.
  unfold postProcessArraysInfo, unreported. destruct (expandTableElements p).
  - destruct (expandEntries _ _ _) as [[s v]|]; [|done]. by intros [= <-].
  - by intros [= <-].
Qed.

Lemma waiting_alter_ne (s : Store) (g : Identifier -> Identifier) (info : InformationType)
    (r x : nat) :
  r <> x -> waiting (alter g r s) info x = waiting s info x.
Proof. intros Hne. unfold waiting. by rewrite list_lookup_alter_ne. Qed.

Lemma waiting_alter (s : Store) (g : Identifier -> Identifier) (info : InformationType)
    (r x : nat) :
  (forall element, awaits info (g element) = awaits info element) ->
  waiting (alter g r s) info x = waiting s info x.
Proof.
  intros Hg. destruct (decide (r = x)) as [->|]; [|by apply waiting_alter_ne].
  unfold waiting. rewrite list_lookup_alter. destruct (decide (x = x)); [|done].
  destruct (s !! x) as [element|]; [|done]. apply Hg.
Qed.

Lemma waiting_extend (s added : Store) (info : InformationType) (x : nat) :
  (x < length s)%nat -> waiting (s ++ added) info x = waiting s info x.
Proof. intros Hx. unfold waiting. by rewrite lookup_app_l. Qed.

Lemma storeElement_fields (host : Host) (gdbResponse file : jstring)
    (info : InformationType) (r : nat) (element : Identifier) (p : ElfParser) :
  let p' := storeElement host gdbResponse info file r element p in
  currentState p' = currentState p
  /\ gdbResponseCounter p' = gdbResponseCounter p
  /\ numberOfVariables p' = numberOfVariables p
  /\ unreported p p'.
Proof.
  unfold unreported. destruct info.
  - done.
  - by rewrite storeElement_TYPE.
  - unfold storeElement. by destruct (type element).
  - done.
Qed.

Lemma loadVariables_eq (parsed : list (jstring * list jstring)) (p : ElfParser) :
  loadVariables parsed p
  = set_variables (foldl loadFile (store p, []) parsed).1
      (foldl loadFile (store p, []) parsed).2 (newGdbVariablesInfo p) p.
Proof. unfold loadVariables. by destruct (foldl loadFile (store p, []) parsed). Qed.

(** A counted reply: the element found has the information afterwards. *)
Lemma counted_found (info : InformationType) (p p' : ElfParser) (f i r : nat)
    (pre post : list nat) :
  counted info p ->
  Forall (fun x => waiting (store p) info x = false) pre ->
  refsFrom (gdbVariablesInfo p) (currentFilenameIdx p) (currentIdentifierIdx p)
  = pre ++ r :: post ->
  waiting (store p) info r = true ->
  refsFrom (gdbVariablesInfo p) f i = r :: post ->
  gdbVariablesInfo p' = gdbVariablesInfo p ->
  numberOfVariables p' = numberOfVariables p ->
  gdbResponseCounter p' = gdbResponseCounter p + 1 ->
  currentFilenameIdx p' = f -> currentIdentifierIdx p' = i ->
  waiting (store p') info r = false ->
  counted info p'.
Proof.
  unfold counted. intros [Hc Hle] Hpre Hfrom Hr Hpost Hv HN Hc' Hf Hi Hr'.
  rewrite Hv, HN, Hc', Hf, Hi, Hpost. cbn [pending]. rewrite Hr'.
  rewrite Hfrom, pending_skip in Hle by done. cbn [pending] in Hle. rewrite Hr in Hle.
  cbn [length] in Hle. pose proof (length_pending (store p') info post). lia.
Qed.

Lemma counted_reset (info : InformationType) (p : ElfParser) :
  numberOfVariables p = Z.of_nat (length (allRefs (gdbVariablesInfo p))) ->
  gdbResponseCounter p = 0 ->
  counted info p.
Proof.
  intros HN Hc. unfold counted. rewrite HN, Hc. split; [done|].
  pose proof (length_pending (store p) info
                (refsFrom (gdbVariablesInfo p) (currentFilenameIdx p)
                   (currentIdentifierIdx p))).
  pose proof (length_refsFrom (gdbVariablesInfo p) (currentFilenameIdx p)
                (currentIdentifierIdx p)).
  lia.
Qed.

Lemma counted_range (info : InformationType) (p : ElfParser) :
  counted info p -> 0 <= gdbResponseCounter p <= numberOfVariables p.
Proof. unfold counted. lia. Qed.
(** ** One reply *)

Section Progress.
Context (host : Host).
Hypothesis ratio_range :
  forall c n : Z, 0 <= c -> c <= n -> 0 < n -> 0 <= floorRatio25 host c n <= 25.
Hypothesis ratio_monotone :
  forall c c' n : Z,
    0 <= c -> c <= c' -> c' <= n -> floorRatio25 host c n <= floorRatio25 host c' n.

Lemma advanced_refl (p : ElfParser) :
  consistent p -> currentState p = IDLE -> advanced host p p.
Proof.
  intros Hcons Hcur. unfold advanced, ratioDefined, unreported.
  split_and!; try done; rewrite Hcur; done.
Qed.

Lemma advanced_command (p : ElfParser) (next : State) (command : jstring) :
  consistent p ->
  (currentState p = START_GDB /\ next = SET_METHODS_OFF)
  \/ (currentState p = SET_METHODS_OFF /\ next = SET_TYPEDEFS_OFF)
  \/ (currentState p = SET_TYPEDEFS_OFF /\ next = GET_VARIABLES_INFO) ->
  advanced host p (sendCommandToGdb command (set_currentState next p)).
Proof.
  intros [Hord Hst] Hcase.
  unfold advanced, consistent, ordered, ratioDefined, bound, unreported in *. fields.
  rewrite progressValues_app, app_nil_r.
  destruct Hcase as [[Hcur ->]|[[Hcur ->]|[Hcur ->]]]; rewrite Hcur in *;
    split_and!; try done; intuition congruence.
Qed.

Lemma advanced_variables (p : ElfParser) (parsed : list (jstring * list jstring)) :
  consistent p -> currentState p = GET_VARIABLES_INFO ->
  advanced host p
    (let p1 := loadVariables parsed p in
     if decide (length (gdbVariablesInfo p1) = O)
     then sendCommandToGdb GDB_QUIT (set_currentState IDLE p1)
     else set_currentState GET_TYPE (requestAllElementsToGdb TYPE p1)).
Proof.
  intros [Hord Hst] Hcur. rewrite Hcur in Hst. cbv zeta. rewrite loadVariables_eq.
  set (loaded := foldl loadFile (store p, []) parsed).
  destruct (decide _) as [_|_].
  - unfold advanced, consistent, ordered, ratioDefined, bound, unreported in *. fields.
    rewrite progressValues_app, app_nil_r, Hcur in *.
    split_and!; try done; intuition congruence.
  - destruct (requestAllElementsToGdb_fields TYPE
                (set_variables loaded.1 loaded.2 (newGdbVariablesInfo p) p))
      as (_ & Hs & Hv & Hn & _ & _ & Hf & Hi & Hprev & Hstatus & Hcb & Hevents).
    unfold advanced, consistent, ordered, ratioDefined, bound, unreported in *. fields.
    rewrite Hs, Hv, Hn, Hf, Hi, Hprev, Hstatus, Hcb, Hevents, Hcur, Hst, refsBefore_0 in *.
    split_and!; try done; try (intuition congruence).
    apply (loadFiles_all parsed (store p, [])). constructor.
Qed.

Lemma advanced_type (p : ElfParser) (gdbResponse : jstring) :
  consistent p -> currentState p = GET_TYPE ->
  advanced host p
    (let '(p1, identifierFound) := storeAllElementsFromGdb host gdbResponse TYPE p in
     if identifierFound then p1
     else if decide (length (newGdbVariablesInfo p1) ≠ O)
     then requestAllElementsToGdb TYPE (mergeNewVariables p1)
     else set_currentState GET_SIZE (requestAllElementsToGdb SIZE p1)).
Proof.
  intros [Hord Hst] Hcur. rewrite Hcur in Hst. destruct Hst as (Hv & Hn & Hbefore).
  destruct (storeAllElementsFromGdb_cases host gdbResponse TYPE p)
    as [(f & i & entry & r & element & pre & post & Hf & Hi & Hr & Haw & Hpre & Hfrom
         & Hpost & ->)|[Hrest ->]].
  - cbv zeta. rewrite storeElement_TYPE. cbv zeta.
    destruct (extractType_effect host (store p) (gdbVariablesInfo p)
                (newGdbVariablesInfo p) (filename entry)
                (replyBody gdbResponse (len GDB_RESP_TYPE_HEAD)) (identifier element)
                (classHierarchy element) (expandTableElements p))
      as ([added Hs'] & Hv' & Hn').
    set (result := extractType _ _ _ _ _ _ _ _ _) in *.
    assert (Hwait : waiting (store p) TYPE r = true) by (unfold waiting; by rewrite Hr).
    pose proof (refs_split (gdbVariablesInfo p) (currentFilenameIdx p)
                  (currentIdentifierIdx p)) as Hsplit.
    pose proof (refs_split (gdbVariablesInfo p) f i) as Hsplit'.
    rewrite Hfrom in Hsplit. rewrite Hpost in Hsplit'.
    assert (Hhere : refsBefore (gdbVariablesInfo p) f i
                    = refsBefore (gdbVariablesInfo p) (currentFilenameIdx p)
                        (currentIdentifierIdx p) ++ pre).
    { apply (app_inv_tail (r :: post)). by rewrite <- app_assoc, <- Hsplit, <- Hsplit'. }
    assert (Hall : Forall (fun x => waiting (alter (set_type result.1.1.1) r result.1.1.2)
                                      TYPE x = false)
                     (refsBefore (gdbVariablesInfo p) f i)).
    { apply Forall_forall. intros x Hx.
      assert (Hx' : waiting (store p) TYPE x = false).
      { rewrite Hhere in Hx. apply elem_of_app in Hx as [Hx|Hx].
        - by apply (proj1 (Forall_forall _ _) Hbefore).
        - by apply (proj1 (Forall_forall _ _) Hpre). }
      assert (Hvalid : (x < length (store p))%nat).
      { apply (proj1 (Forall_forall _ _) Hv). rewrite Hsplit'. apply elem_of_app. by left. }
      rewrite Hs', waiting_alter_ne, waiting_extend by (done || congruence). done. }
    assert (Hv'' : Forall (fun x => (x < length (store p ++ added))%nat)
                     (allRefs result.1.2)).
    { destruct Hv' as [->| ->]; [|apply removeRootIdentifier_all]; by apply refs_extend. }
    unfold advanced, consistent, ordered, ratioDefined, bound, unreported in *. fields.
    rewrite Hcur in *. rewrite length_alter. rewrite Hs' in Hn'.
    split_and!; try done; try (intuition congruence).
    + by rewrite Hs'.
    + by rewrite Hs'; apply Hn'.
    + destruct Hv' as [->| ->]; [done|].
      by apply (removeRootIdentifier_before _ (store p) (identifier element)
                  (gdbVariablesInfo p) f i entry r element).
  - assert (Htyped : Forall (fun x => waiting (store p) TYPE x = false)
                       (allRefs (gdbVariablesInfo p))).
    { rewrite (refs_split _ (currentFilenameIdx p) (currentIdentifierIdx p)).
      by apply Forall_app. }
    destruct (decide (currentFilenameIdx p < length (gdbVariablesInfo p))%nat) as [_|_].
    + cbv iota. fields.
      destruct (decide (length (newGdbVariablesInfo p) ≠ O)) as [_|_].
      * destruct (requestAllElementsToGdb_fields TYPE
                    (mergeNewVariables (set_cursor (currentFilenameIdx p) O p)))
          as (Hcur' & Hs & Hv' & Hn' & _ & _ & Hf & Hi & Hprev & Hstatus & Hcb & Hevents).
        unfold advanced, consistent, ordered, ratioDefined, bound, unreported in *. fields.
        rewrite Hcur', Hs, Hv', Hn', Hf, Hi, Hprev, Hstatus, Hcb, Hevents, Hcur,
          refsBefore_0 in *.
        split_and!; try done; try (intuition congruence).
        by apply mergeEntries_all.
      * destruct (requestAllElementsToGdb_fields SIZE
                    (set_cursor (currentFilenameIdx p) O p))
          as (_ & Hs & Hv' & Hn' & _ & HN & Hf & Hi & Hprev & Hstatus & Hcb & Hevents).
        unfold advanced, consistent, ordered, ratioDefined, bound, phase, unreported in *.
        fields.
        rewrite Hs, Hv', HN, Hprev, Hstatus, Hcb, Hevents, Hcur in *.
        destruct (decide (previousState p = GET_SIZE /\ _)) as [[Hprev' _]|_];
          [intuition congruence|].
        split_and!; try done; try (intuition congruence).
    + cbv iota. fields.
      destruct (decide (length (newGdbVariablesInfo p) ≠ O)) as [_|_].
      * destruct (requestAllElementsToGdb_fields TYPE (mergeNewVariables p))
          as (Hcur' & Hs & Hv' & Hn' & _ & _ & Hf & Hi & Hprev & Hstatus & Hcb & Hevents).
        unfold advanced, consistent, ordered, ratioDefined, bound, unreported in *. fields.
        rewrite Hcur', Hs, Hv', Hn', Hf, Hi, Hprev, Hstatus, Hcb, Hevents, Hcur,
          refsBefore_0 in *.
        split_and!; try done; try (intuition congruence).
        by apply mergeEntries_all.
      * destruct (requestAllElementsToGdb_fields SIZE p)
          as (_ & Hs & Hv' & Hn' & _ & HN & Hf & Hi & Hprev & Hstatus & Hcb & Hevents).
        unfold advanced, consistent, ordered, ratioDefined, bound, phase, unreported in *.
        fields.
        rewrite Hs, Hv', HN, Hprev, Hstatus, Hcb, Hevents, Hcur in *.
        destruct (decide (previousState p = GET_SIZE /\ _)) as [[Hprev' _]|_];
          [intuition congruence|].
        split_and!; try done; try (intuition congruence).
Qed.

Lemma phase_range (info : InformationType) (base : Z) (counting : State)
    (p : ElfParser) :
  (previousState p = counting -> counted info p) ->
  base <= phase host base counting p <= base + 25.
Proof.
  intros Hcounted. unfold phase.
  destruct (decide (previousState p = counting /\ 0 < numberOfVariables p))
    as [[Hprev HN]|_]; [|lia].
  destruct (counted_range info p (Hcounted Hprev)) as [Hc Hle].
  pose proof (ratio_range _ _ Hc Hle HN). lia.
Qed.

Lemma phase_found (info : InformationType) (base : Z) (counting : State)
    (p p' : ElfParser) :
  previousState p' = previousState p ->
  numberOfVariables p' = numberOfVariables p ->
  gdbResponseCounter p' = gdbResponseCounter p + 1 ->
  (previousState p = counting -> counted info p /\ counted info p') ->
  phase host base counting p <= phase host base counting p'.
Proof.
  intros Hprev HN Hc Hcounted. unfold phase. rewrite Hprev, HN, Hc.
  destruct (decide (previousState p = counting /\ 0 < numberOfVariables p))
    as [[Hprev' HN']|_]; [|lia].
  destruct (Hcounted Hprev') as [H1 H2].
  apply counted_range in H1, H2. rewrite HN, Hc in H2.
  pose proof (ratio_monotone (gdbResponseCounter p) (gdbResponseCounter p + 1)
                (numberOfVariables p)). lia.
Qed.

Lemma advanced_size (p p' : ElfParser) (gdbResponse : jstring) (fuel : nat) :
  consistent p -> currentState p = GET_SIZE ->
  (let '(p1, identifierFound) := storeAllElementsFromGdb host gdbResponse SIZE p in
   if identifierFound then Some p1
   else
     match postProcessArraysInfo fuel p1 with
     | Some p2 => Some (set_currentState GET_ADDRESS (requestAllElementsToGdb ADDRESS p2))
     | None => None
     end) = Some p' ->
  advanced host p p'.
Proof.
  intros [Hord Hst] Hcur. rewrite Hcur in Hst. destruct Hst as (Htyped & HN & Hcounted).
  destruct (storeAllElementsFromGdb_cases host gdbResponse SIZE p)
    as [(f & i & entry & r & element & pre & post & Hf & Hi & Hr & Haw & Hpre & Hfrom
         & Hpost & ->)|[Hrest ->]].
  - cbv zeta. intros [= <-].
    assert (Hwait : waiting (store p) SIZE r = true) by (unfold waiting; by rewrite Hr).
    assert (Hin : r ∈ allRefs (gdbVariablesInfo p)).
    { rewrite (refs_split _ f i), Hpost. apply elem_of_app. right. apply list_elem_of_here. }
    pose proof (proj1 (Forall_forall _ _) Htyped r Hin) as Hty.
    unfold waiting in Hty. rewrite Hr in Hty. cbn [from_option awaits] in Hty.
    unfold storeElement. destruct (type element) as [t|] eqn:Et; [|done].
    set (s' := alter _ r (store p)).
    assert (Hdone : waiting s' SIZE r = false).
    { unfold waiting, s'. rewrite list_lookup_alter. destruct (decide (r = r)); [|done].
      by rewrite Hr. }
    assert (Hcounted' :
      previousState p = GET_SIZE ->
      counted SIZE p
      /\ counted SIZE
           (set_gdbResponseCounter (gdbResponseCounter p + 1)
              (set_cursor f i
                 (set_variables s' (gdbVariablesInfo p) (newGdbVariablesInfo p) p)))).
    { intros Hprev. split; [by apply Hcounted|].
      by apply (counted_found SIZE p _ f i r pre post (Hcounted Hprev)). }
    unfold advanced. split_and!.
    + unfold consistent, ordered in *. fields. rewrite Hcur.
      split_and!; try done; try (intuition congruence).
      eapply Forall_impl; [exact Htyped|]. intros x Hx. cbv beta in *.
      unfold s'. by rewrite waiting_alter.
    + unfold ratioDefined. fields. split; [|congruence]. intros _ Hprev.
      destruct (Hcounted' Hprev) as [H1 H2]. apply counted_range in H1, H2.
      revert H2. fields. lia.
    + unfold bound. fields. rewrite Hcur. by apply (phase_found SIZE).
    + by unfold unreported.
  - assert (Hq : forall q : ElfParser,
              q = set_cursor (currentFilenameIdx p) O p \/ q = p ->
              match postProcessArraysInfo fuel q with
              | Some p2 =>
                  Some (set_currentState GET_ADDRESS (requestAllElementsToGdb ADDRESS p2))
              | None => None
              end = Some p' ->
              advanced host p p').
    { intros q Hq. destruct (postProcessArraysInfo fuel q) as [p2|] eqn:Epost; [|done].
      intros [= <-].
      destruct (postProcessArraysInfo_fields fuel q p2 Epost)
        as (_ & _ & Hprev2 & Hstatus2 & Hcb2 & Hevents2).
      destruct (requestAllElementsToGdb_fields ADDRESS p2)
        as (_ & Hs & Hv' & Hn' & _ & HN' & _ & _ & Hprev & Hstatus & Hcb & Hevents).
      assert (Hprevq : previousState q = previousState p) by (by destruct Hq as [->| ->]).
      assert (Hstatusq : progressStatus q = progressStatus p) by (by destruct Hq as [->| ->]).
      assert (Hcbq : progressCallback q = progressCallback p) by (by destruct Hq as [->| ->]).
      assert (Heventsq : events q = events p) by (by destruct Hq as [->| ->]).
      pose proof (phase_range SIZE 50 GET_SIZE p Hcounted) as Hphase.
      unfold advanced, consistent, ordered, ratioDefined, bound, unreported in *. fields.
      rewrite Hv', HN', Hprev, Hstatus, Hcb, Hevents, Hprev2, Hstatus2, Hcb2, Hevents2,
        Hprevq, Hstatusq, Hcbq, Heventsq, Hcur in *.
      assert (Hnot : previousState p <> GET_ADDRESS) by (intuition congruence).
      unfold phase at 2. fields. rewrite Hprev.
      destruct (decide (previousState p = GET_ADDRESS /\ _)) as [[? _]|_]; [done|].
      split_and!; try done; try lia; try (intuition congruence). }
    destruct (decide (currentFilenameIdx p < length (gdbVariablesInfo p))%nat) as [_|_];
      cbv iota; apply Hq; auto.
Qed.

Lemma advanced_address (p : ElfParser) (gdbResponse : jstring) :
  consistent p -> currentState p = GET_ADDRESS ->
  advanced host p
    (let '(p1, identifierFound) := storeAllElementsFromGdb host gdbResponse ADDRESS p in
     if identifierFound then p1
     else sendCommandToGdb GDB_QUIT (set_currentState IDLE p1)).
Proof.
  intros [Hord Hst] Hcur. rewrite Hcur in Hst. destruct Hst as (HN & Hcounted).
  destruct (storeAllElementsFromGdb_cases host gdbResponse ADDRESS p)
    as [(f & i & entry & r & element & pre & post & Hf & Hi & Hr & Haw & Hpre & Hfrom
         & Hpost & ->)|[Hrest ->]].
  - cbv zeta.
    assert (Hwait : waiting (store p) ADDRESS r = true) by (unfold waiting; by rewrite Hr).
    unfold storeElement.
    set (s' := alter _ r (store p)).
    assert (Hdone : waiting s' ADDRESS r = false).
    { unfold waiting, s'. rewrite list_lookup_alter. destruct (decide (r = r)); [|done].
      by rewrite Hr. }
    assert (Hcounted' :
      previousState p = GET_ADDRESS ->
      counted ADDRESS p
      /\ counted ADDRESS
           (set_gdbResponseCounter (gdbResponseCounter p + 1)
              (set_cursor f i
                 (set_variables s' (gdbVariablesInfo p) (newGdbVariablesInfo p) p)))).
    { intros Hprev. split; [by apply Hcounted|].
      by apply (counted_found ADDRESS p _ f i r pre post (Hcounted Hprev)). }
    unfold advanced. split_and!.
    + unfold consistent, ordered in *. fields. rewrite Hcur.
      split_and!; try done; try (intuition congruence).
    + unfold ratioDefined. fields. split; [congruence|]. intros _ Hprev.
      destruct (Hcounted' Hprev) as [H1 H2]. apply counted_range in H1, H2.
      revert H2. fields. lia.
    + unfold bound. fields. rewrite Hcur. by apply (phase_found ADDRESS).
    + by unfold unreported.
  - pose proof (phase_range ADDRESS 75 GET_ADDRESS p Hcounted) as Hphase.
    destruct (decide (currentFilenameIdx p < length (gdbVariablesInfo p))%nat) as [_|_];
      cbv iota;
      unfold advanced, consistent, ordered, ratioDefined, bound, unreported in *; fields;
      rewrite progressValues_app, app_nil_r, Hcur in *;
      (split_and!; try done; try lia; try (intuition congruence)).
Qed.

(** Each reply advances the session. *)
Lemma handleResponse_advanced (fuel : nat) (p p' : ElfParser) (gdbResponse : jstring) :
  consistent p -> handleResponse host fuel p gdbResponse = Some p' -> advanced host p p'.
Proof.
  intros Hcons. unfold handleResponse. destruct (currentState p) eqn:Hcur.
  - intros [= <-]. apply advanced_command; auto.
  - intros [= <-]. apply advanced_command; auto.
  - intros [= <-]. by apply advanced_refl.
  - intros [= <-]. apply advanced_command; auto.
  - intros Hstep.
    pose proof (advanced_variables p
                  (parseGdbVariablesInfo host gdbResponse (expandTableElements p))
                  Hcons Hcur) as Hadv.
    cbv zeta in Hstep, Hadv. destruct (decide _); by injection Hstep as <-.
  - intros Hstep. pose proof (advanced_type p gdbResponse Hcons Hcur) as Hadv.
    destruct (storeAllElementsFromGdb host gdbResponse TYPE p) as [p1 [|]].
    + by injection Hstep as <-.
    + destruct (decide _); by injection Hstep as <-.
  - by apply advanced_size.
  - intros Hstep. pose proof (advanced_address p gdbResponse Hcons Hcur) as Hadv.
    destruct (storeAllElementsFromGdb host gdbResponse ADDRESS p) as [p1 [|]];
      by injection Hstep as <-.
Qed.

End Progress.
(** ** The loop of [readData] *)

Lemma readResponses_invariant {T : Type} (handle : T -> jstring -> option T)
    (I Q : T -> Prop) :
  (forall t r t', I t -> handle t r = Some t' -> I t' /\ Q t') ->
  forall (fuel : nat) (buf rest : jstring) (t t' : T),
  I t -> readResponses handle fuel buf t = Some (rest, t') -> I t' /\ (Q t' \/ t' = t).
Proof.
  intros Hstep. induction fuel as [|k IH]; intros buf rest t t' Ht; [done|].
  destruct (find GDB_PROMPT buf) as [i|] eqn:E.
  - rewrite (readResponses_found handle k i buf t E).
    destruct (handle t (take (i + 6) buf)) as [t1|] eqn:E1; [|done].
    destruct (Hstep _ _ _ Ht E1) as [Ht1 HQ1]. intros Hrest.
    destruct (IH _ _ _ _ Ht1 Hrest) as [Ht' [HQ| ->]]; auto.
  - rewrite (readResponses_none handle k buf t E). intros [= <- <-]. auto.
Qed.

(** When the buffer holds a prompt, at least one reply is treated. *)
Lemma readResponses_treated {T : Type} (handle : T -> jstring -> option T)
    (I Q : T -> Prop) :
  (forall t r t', I t -> handle t r = Some t' -> I t' /\ Q t') ->
  forall (fuel : nat) (buf rest : jstring) (t t' : T),
  includes buf GDB_PROMPT = true ->
  I t -> readResponses handle fuel buf t = Some (rest, t') -> I t' /\ Q t'.
Proof.
  intros Hstep fuel buf rest t t' Hinc Ht. destruct fuel as [|k]; [done|].
  destruct (find GDB_PROMPT buf) as [i|] eqn:E.
  - rewrite (readResponses_found handle k i buf t E).
    destruct (handle t (take (i + 6) buf)) as [t1|] eqn:E1; [|done].
    destruct (Hstep _ _ _ Ht E1) as [Ht1 HQ1]. intros Hrest.
    destruct (readResponses_invariant handle I Q Hstep _ _ _ _ _ Ht1 Hrest)
      as [Ht' [HQ| ->]]; auto.
  - by rewrite (includes_false _ _ E) in Hinc.
Qed.

(** ** [sendProgressStatusToClient] *)

Lemma increasing_nil : increasing [].
Proof. by intros i j a b Hi. Qed.

Lemma increasing_snoc (zs : list Z) (z : Z) :
  increasing zs -> Forall (fun x => x < z) zs -> increasing (zs ++ [z]).
Proof.
  intros Hinc Hlt i j a b Hi Hj Hij.
  assert (Hlen : (j < length (zs ++ [z]))%nat) by (by eapply lookup_lt_Some).
  rewrite length_app in Hlen. cbn [length] in Hlen.
  rewrite lookup_app_l in Hi by lia.
  destruct (decide (j < length zs)%nat).
  - rewrite lookup_app_l in Hj by done. by eapply Hinc.
  - rewrite lookup_app_r in Hj by lia. replace (j - length zs)%nat with O in Hj by lia.
    injection Hj as <-. by eapply (proj1 (Forall_lookup _ _) Hlt).
Qed.

Lemma strictNe_JInt (a : JsNumber) (z : Z) : strictNe a (JInt z) = false -> a = JInt z.
Proof. destruct a as [x| |]; cbn; [|done..]. intros H. f_equal. lia. Qed.

Lemma strictNe_JInt_ne (v z : Z) : strictNe (JInt v) (JInt z) = true -> v <> z.
Proof. cbn. lia. Qed.

Section Session.
Context (host : Host).
Hypothesis ratio_range :
  forall c n : Z, 0 <= c -> c <= n -> 0 < n -> 0 <= floorRatio25 host c n <= 25.
Hypothesis ratio_monotone :
  forall c c' n : Z,
    0 <= c -> c <= c' -> c' <= n -> floorRatio25 host c n <= floorRatio25 host c' n.

Lemma bound_range (p : ElfParser) : consistent p -> 0 <= bound host p <= 100.
Proof.
  intros [_ Hst]. unfold bound. destruct (currentState p); try lia.
  - destruct Hst as (_ & _ & Hcounted).
    pose proof (phase_range host ratio_range SIZE 50 GET_SIZE p Hcounted). lia.
  - destruct Hst as (_ & Hcounted).
    pose proof (phase_range host ratio_range ADDRESS 75 GET_ADDRESS p Hcounted). lia.
Qed.

(** The value that [sendProgressStatusToClient] computes is the value of
    the state, and the state keeps it afterwards. *)
Lemma sendProgressStatusToClient_value (cb : nat) (p : ElfParser) :
  consistent p -> ratioDefined p -> progressCallback p = Some cb ->
  exists p2,
    sendProgressStatusToClient host p
    = (if strictNe (progressStatus p) (JInt (bound host p))
       then emit [ProgressCall cb (JInt (bound host p))]
              (set_progressStatus (JInt (bound host p)) p2)
       else p2)
    /\ consistent p2
    /\ bound host p <= bound host p2
    /\ (forall status e,
          consistent (emit e (set_progressStatus status p2))
          /\ bound host (emit e (set_progressStatus status p2)) = bound host p2)
    /\ progressStatus p2 = progressStatus p
    /\ events p2 = events p
    /\ progressCallback p2 = progressCallback p
    /\ (previousState p2 = GET_SIZE \/ previousState p2 = GET_ADDRESS ->
        previousState p2 = currentState p2).
Proof.
  intros Hcons [HsizeN HaddressN] Hcb. pose proof Hcons as [Hord Hst].
  unfold sendProgressStatusToClient. rewrite Hcb.
  destruct (currentState p) eqn:Hcur.
  1-6: exists (set_previousState (currentState p) p);
    unfold consistent, ordered, bound, phase in *; fields; rewrite Hcur in *;
    (split_and!; try done; try (intros; split_and!; done); try (intuition congruence)).
  - (* GET_SIZE *)
    destruct Hst as (Htyped & HN & Hcounted).
    destruct (decide (previousState p ≠ GET_SIZE)) as [Hprev|Hprev].
    + exists (set_previousState GET_SIZE (set_gdbResponseCounter 0 p)).
      assert (Hreset : counted SIZE (set_previousState GET_SIZE (set_gdbResponseCounter 0 p)))
        by (apply counted_reset; fields; done).
      unfold consistent, ordered, bound, phase in *; fields; rewrite Hcur in *.
      destruct (decide (previousState p = GET_SIZE /\ _)) as [[? _]|_]; [done|].
      destruct (decide (GET_SIZE = GET_SIZE /\ _)) as [[_ Hpos]|_].
      * pose proof (ratio_range 0 (numberOfVariables p) ltac:(lia) ltac:(lia) Hpos).
        split_and!; try done; try lia; try (intros; split_and!; auto; done);
          try (intuition congruence).
      * split_and!; try done; try lia; try (intros; split_and!; auto; done);
          try (intuition congruence).
    + apply dec_stable in Hprev. exists (set_previousState GET_SIZE p).
      pose proof (HsizeN eq_refl Hprev) as Hpos.
      unfold ratioProgress. destruct (decide (numberOfVariables p = 0)); [lia|].
      unfold consistent, ordered, bound, phase in *; fields; rewrite Hcur, Hprev in *.
      destruct (decide (GET_SIZE = GET_SIZE /\ _)) as [_|Hn]; [|by destruct Hn].
      split_and!; try done; try lia; try (intros; split_and!; auto; done);
        try (intuition congruence).
  - (* GET_ADDRESS *)
    destruct Hst as (HN & Hcounted).
    destruct (decide (previousState p ≠ GET_ADDRESS)) as [Hprev|Hprev].
    + exists (set_previousState GET_ADDRESS (set_gdbResponseCounter 0 p)).
      assert (Hreset :
        counted ADDRESS (set_previousState GET_ADDRESS (set_gdbResponseCounter 0 p)))
        by (apply counted_reset; fields; done).
      unfold consistent, ordered, bound, phase in *; fields; rewrite Hcur in *.
      destruct (decide (previousState p = GET_ADDRESS /\ _)) as [[? _]|_]; [done|].
      destruct (decide (GET_ADDRESS = GET_ADDRESS /\ _)) as [[_ Hpos]|_].
      * pose proof (ratio_range 0 (numberOfVariables p) ltac:(lia) ltac:(lia) Hpos).
        split_and!; try done; try lia; try (intros; split_and!; auto; done);
          try (intuition congruence).
      * split_and!; try done; try lia; try (intros; split_and!; auto; done);
          try (intuition congruence).
    + apply dec_stable in Hprev. exists (set_previousState GET_ADDRESS p).
      pose proof (HaddressN eq_refl Hprev) as Hpos.
      unfold ratioProgress. destruct (decide (numberOfVariables p = 0)); [lia|].
      unfold consistent, ordered, bound, phase in *; fields; rewrite Hcur, Hprev in *.
      destruct (decide (GET_ADDRESS = GET_ADDRESS /\ _)) as [_|Hn]; [|by destruct Hn].
      split_and!; try done; try lia; try (intros; split_and!; auto; done);
        try (intuition congruence).
Qed.

Lemma advanced_inSession (cb : nat) (old : list JsNumber) (p p' : ElfParser) :
  inSession host cb old p -> advanced host p p' ->
  inSession host cb old p' /\ ratioDefined p'.
Proof.
  intros (Hcons & Hcb & zs & Hvalues & Hrange & Hinc & Hlast)
    (Hcons' & Hratio & Hbound & Hprev & Hstatus & Hcb' & Hevents).
  split; [|done]. split_and!; [done | congruence |].
  exists zs. rewrite Hevents, Hprev, Hstatus. split_and!; try done.
  destruct Hlast as [?|(v & ? & ? & ?)]; [by left|].
  right. exists v. split_and!; [done | lia | done].
Qed.

Lemma set_dataBuffer_inSession (cb : nat) (old : list JsNumber) (rest : jstring)
    (p : ElfParser) :
  inSession host cb old p -> inSession host cb old (set_dataBuffer rest p).
Proof. done. Qed.

Lemma sendProgressStatusToClient_inSession (cb : nat) (old : list JsNumber)
    (p : ElfParser) :
  inSession host cb old p -> ratioDefined p ->
  inSession host cb old (sendProgressStatusToClient host p).
Proof.
  intros (Hcons & Hcb & zs & Hvalues & Hrange & Hinc & Hlast) Hratio.
  destruct (sendProgressStatusToClient_value cb p Hcons Hratio Hcb)
    as (p2 & -> & Hcons2 & Hbound & Hframe & Hstatus & Hevents & Hcb2 & _).
  pose proof (bound_range p Hcons) as Hb.
  destruct (strictNe (progressStatus p) (JInt (bound host p))) eqn:Hne.
  - destruct (Hframe (JInt (bound host p)) [ProgressCall cb (JInt (bound host p))])
      as [Hcons3 Hbound3].
    split_and!; [done | fields; congruence |].
    exists (zs ++ [bound host p]). rewrite Hbound3. fields.
    rewrite Hevents, progressValues_app, Hvalues, fmap_app, app_assoc.
    split_and!; [done | | |].
    + apply Forall_app. split; [done|]. apply Forall_singleton. lia.
    + apply increasing_snoc; [done|].
      destruct Hlast as [(-> & _)|(v & Hv & Hle & Hall)]; [constructor|].
      rewrite Hv in Hne. apply strictNe_JInt_ne in Hne.
      eapply Forall_impl; [exact Hall|]. intros x Hx. cbv beta in *. lia.
    + right. exists (bound host p). split_and!; [done | lia |].
      apply Forall_app. split; [|apply Forall_singleton; lia].
      destruct Hlast as [(-> & _)|(v & Hv & Hle & Hall)]; [constructor|].
      eapply Forall_impl; [exact Hall|]. intros x Hx. cbv beta in *. lia.
  - apply strictNe_JInt in Hne.
    split_and!; [done | congruence |].
    exists zs. rewrite Hevents. split_and!; try done.
    right. exists (bound host p). split_and!; [congruence | lia |].
    destruct Hlast as [(-> & _)|(v & Hv & Hle & Hall)]; [constructor|].
    rewrite Hv in Hne. injection Hne as ->. done.
Qed.

(** Every call of [readData] keeps the invariant. *)
Lemma readData_inSession (cb : nat) (old : list JsNumber) (fuel : nat)
    (p p' : ElfParser) (data : jstring) :
  inSession host cb old p -> readData host fuel p data = Some p' ->
  inSession host cb old p'.
Proof.
  intros Hp. unfold readData, receive.
  destruct (includes (dataBuffer p ++ data) GDB_PROMPT) eqn:Hinc; cbn [negb].
  - destruct (readResponses _ _ _ _) as [[rest p1]|] eqn:Hloop; [|done].
    intros [= <-].
    assert (Hstep : forall t r t',
              inSession host cb old t -> handleResponse host fuel t r = Some t' ->
              inSession host cb old t' /\ ratioDefined t').
    { intros t r t' Ht Hstep. apply (advanced_inSession cb old t); [done|].
      apply (handleResponse_advanced host ratio_range ratio_monotone fuel t t' r);
        [apply Ht | done]. }
    destruct (readResponses_treated (handleResponse host fuel)
                (inSession host cb old) ratioDefined Hstep _ _ _ _ _ Hinc Hp Hloop)
      as [Hp1 Hratio].
    by apply sendProgressStatusToClient_inSession.
  - by intros [= <-].
Qed.

Lemma feed_inSession (cb : nat) (old : list JsNumber) (fuel : nat)
    (chunks : list jstring) :
  forall p : ElfParser,
  inSession host cb old p -> inSession host cb old (feed host fuel p chunks).
Proof.
  induction chunks as [|data rest IH]; intros p Hp; [done|].
  cbn [feed]. destruct (readData host fuel p data) as [p1|] eqn:E; [|done].
  apply IH. by apply (readData_inSession cb old fuel p p1 data).
Qed.

(** A session that starts on an idle instance. *)
Lemma readElf_inSession (elfFilename : jstring) (cb : nat) (expand : bool)
    (progressCb : nat) (p : ElfParser) :
  existsSync host elfFilename = true ->
  currentState p = IDLE ->
  previousState p <> GET_SIZE -> previousState p <> GET_ADDRESS ->
  newGdbVariablesInfo p = [] ->
  inSession host progressCb (progressValues (events p))
    (readElf host elfFilename cb expand (Some progressCb) p).2.
Proof.
  intros Hexists Hcur Hsize Haddress Hnew. unfold readElf. rewrite Hexists. cbn [negb].
  fields. rewrite Hcur. destruct (decide (IDLE ≠ IDLE)) as [?|_]; [done|].
  destruct (decide (ELFPARSER_OK ≠ ELFPARSER_OK)) as [?|_]; [done|]. cbn [snd].
  unfold inSession, consistent, ordered, reported. fields.
  split_and!; try done.
  exists []. rewrite progressValues_app, !app_nil_r.
  split_and!; [done | constructor | apply increasing_nil | by left].
Qed.

End Session.
(** ** The values handed to the progress callback *)

Lemma sampleHost_ratio_range (c n : Z) :
  0 <= c -> c <= n -> 0 < n -> 0 <= floorRatio25 sampleHost c n <= 25.
Proof.
  intros Hc Hle Hn. cbn [floorRatio25 sampleHost]. split.
  - apply Z.div_pos; lia.
  - apply Z.div_le_upper_bound; lia.
Qed.

Lemma sampleHost_ratio_monotone (c c' n : Z) :
  0 <= c -> c <= c' -> c' <= n ->
  floorRatio25 sampleHost c n <= floorRatio25 sampleHost c' n.
Proof.
  intros Hc Hle Hn. cbn [floorRatio25 sampleHost].
  destruct (decide (n = 0)) as [->|]; [by rewrite !Z.div_0_r|].
  apply Z.div_le_mono; lia.
Qed.

(** The values of that session. *)
Lemma sample_session_values :
  let chunks :=
    lines <$>
      [ "GNU gdb (GNU Arm Embedded Toolchain)|(gdb) "; "(gdb) "; "(gdb) ";
        "All defined variables:||File main.c:|12:	int a;|13:	int b;||(gdb) ";
        "type = int|(gdb) "; "type = int|(gdb) "; "(gdb) ";
        "$1 = 4|(gdb) "; "$2 = 4|(gdb) "; "(gdb) ";
        "$3 = 0x20000000|(gdb) "; "$4 = 0x20000004|(gdb) "; "(gdb) " ]%string in
  let started := (readElf sampleHost (lit "app.elf") 1%nat false (Some 2%nat) new).2 in
  progressValues (events (feed sampleHost O started chunks))
  = JInt <$> [10; 25; 50; 62; 75; 87; 100].
Proof. vm_compute. done. Qed.
(** * Further properties of the decoder *)

(** ** Specifiers in front of a type *)

Lemma stripMarkersLoop_settled (markers : list jstring) (k : nat) (t : jstring) :
  (forall m, m ∈ markers -> startsWith t m = false) ->
  stripMarkersLoop markers (S k) t = Some t.
Proof.
  intros Hno. cbn [stripMarkersLoop]. unfold stripMarkers.
  destruct (stripMarkers_run markers t false) as (ms & H1 & H2 & H3 & H4).
  destruct (foldl stripMarker (t, false) markers) as [t' found]. cbn [fst snd] in *.
  destruct found.
  - destruct (H4 eq_refl) as [?|Hne]; [done|]. destruct ms as [|m ms]; [done|].
    apply Forall_cons in H1 as [Hm _]. specialize (Hno m Hm).
    rewrite H2 in Hno. cbn [concat] in Hno. rewrite <- !app_assoc in Hno.
    by rewrite startsWith_app_l in Hno.
  - destruct (H3 eq_refl) as (_ & -> & _). simpl in H2. by rewrite <- H2.
Qed.

Lemma stripMarkersLoop_removed (markers : list jstring) (expr : jstring) :
  Forall (fun m => (0 < length m)%nat) markers ->
  let result := default expr (stripMarkersLoop markers (S (length expr)) expr) in
  (exists ms, Forall (fun m => m ∈ markers) ms /\ expr = concat ms ++ result)
  /\ (forall m, m ∈ markers -> startsWith result m = false)
  /\ default result (stripMarkersLoop markers (S (length result)) result) = result.
Proof.
  intros Hpos.
  destruct (stripMarkersLoop_run markers (S (length expr)) Hpos expr)
    as (t & ms & E & H1 & H2 & H3); [lia|].
  rewrite E. cbn [default from_option]. split; [by exists ms|]. split; [done|].
  by rewrite stripMarkersLoop_settled.
Qed.

(** X1. [removeStorageClassSpecifier] and [removeScopeClassSpecifier] cut a
    run of their markers, in any order and number, off the front of a text
    and nothing else: the text is the run followed by the result, none of
    the markers starts the result, and a second call changes nothing. *)
Theorem specifiers_removed (expr : jstring) :
  ((exists ms, Forall (fun m => m ∈ storageMarkers) ms
               /\ expr = concat ms ++ removeStorageClassSpecifier expr)
   /\ (forall m, m ∈ storageMarkers ->
         startsWith (removeStorageClassSpecifier expr) m = false)
   /\ removeStorageClassSpecifier (removeStorageClassSpecifier expr)
      = removeStorageClassSpecifier expr)
  /\ ((exists ms, Forall (fun m => m ∈ scopeMarkers) ms
                  /\ expr = concat ms ++ removeScopeClassSpecifier expr)
      /\ (forall m, m ∈ scopeMarkers ->
            startsWith (removeScopeClassSpecifier expr) m = false)
      /\ removeScopeClassSpecifier (removeScopeClassSpecifier expr)
         = removeScopeClassSpecifier expr).
Proof.
  split.
  - apply (stripMarkersLoop_removed storageMarkers expr). by repeat constructor.
  - apply (stripMarkersLoop_removed scopeMarkers expr). by repeat constructor.
Qed.
(** ** The matching closing brace *)

(** A search for one character from a position gives [-1], or a place at
    or after the position that holds the character. *)
Lemma indexOfFrom_char (s : jstring) (x : ascii) (from : Z) :
  0 <= from ->
  indexOfFrom s [x] from = -1
  \/ exists i : nat,
       indexOfFrom s [x] from = Z.of_nat i
       /\ from <= Z.of_nat i /\ (i < length s)%nat /\ s !! i = Some x
       /\ forall j : nat, from <= Z.of_nat j -> (j < i)%nat -> s !! j <> Some x.
Proof.
  intros Hfrom. unfold indexOfFrom.
  destruct (find [x] (drop (clamp s from) s)) as [i|] eqn:E; [|by left].
  right. exists (clamp s from + i)%nat. apply find_char_Some in E as [E Hbefore].
  assert (Hi : drop (clamp s from) s !! i = Some x).
  { rewrite E. rewrite list_lookup_middle; [done|].
    rewrite length_take. apply (f_equal length) in E.
    rewrite length_app, length_take in E. cbn [length] in E. lia. }
  rewrite lookup_drop in Hi. pose proof (lookup_lt_Some _ _ _ Hi) as Hlen.
  split_and!; [done | unfold clamp, len in *; lia | done | done |].
  intros j Hj Hlt Hx.
  assert (Hk : (clamp s from <= j)%nat) by (unfold clamp, len in *; lia).
  apply Hbefore. apply elem_of_take. exists (j - clamp s from)%nat.
  rewrite lookup_drop. split; [|lia]. by replace (clamp s from + (j - clamp s from))%nat with j by lia.
Qed.

Section ClosingBrace.
Context (block : jstring) (lo : Z) (Hlo : 0 <= lo).

(** What the loop knows of [nextClose]: it is [-1], or the place of a
    closing brace after [lo]. *)
Local Abbreviation closing :=
  (fun r : Z =>
     r = -1
     \/ (lo < r /\ r < len block /\ block !! Z.to_nat r = Some "}"%char)).

Lemma closing_next (nextClose : Z) :
  lo <= nextClose -> closing (indexOfFrom block (lit "}") (nextClose + 1)).
Proof.
  intros Hlt. change (lit "}") with ["}"%char].
  destruct (indexOfFrom_char block "}" (nextClose + 1)) as [->|(i & -> & Hi & Hlen & Hx & _)];
    [lia | by left |].
  right. rewrite Nat2Z.id. unfold len. split_and!; [lia | lia | done].
Qed.

Lemma closingBraceLoop_result (fuel : nat) :
  forall nbOpen nextOpen nextClose : Z,
  0 <= nbOpen -> closing nextClose ->
  (if decide (nbOpen = 0 \/ nextClose = -1) then 1 else len block - nextClose + 1)
  <= Z.of_nat fuel ->
  exists r, closingBraceLoop fuel block nbOpen nextOpen nextClose = Some r /\ closing r.
Proof.
  induction fuel as [|k IH]; intros nbOpen nextOpen nextClose Hopen Hclose Hfuel.
  { destruct (decide _); [lia|]. destruct Hclose as [?|(_ & ? & _)]; lia. }
  cbn [closingBraceLoop].
  destruct (decide (nbOpen ≠ 0)) as [Hne|_]; [|by exists nextClose].
  destruct (decide (nextClose = -1)) as [->|Hvalid]; [exists (-1); by split; [|left]|].
  destruct (decide (nbOpen = 0 \/ nextClose = -1)) as [[?|?]|_]; [done | done |].
  destruct Hclose as [?|(Hlt & Hlen & Hat)]; [done|].
  set (step := if decide (nextOpen ≠ -1 ∧ nextOpen < nextClose)
               then (nbOpen + 1, indexOfFrom block (lit "{") (nextOpen + 1))
               else (nbOpen, nextOpen)).
  assert (Hstep : nbOpen <= step.1) by (unfold step; destruct (decide _); simpl; lia).
  destruct step as [nbOpen1 nextOpen1]. cbn [fst] in Hstep.
  destruct (decide (nbOpen1 - 1 > 0)) as [Hmore|Hlast].
  - pose proof (closing_next nextClose ltac:(lia)) as Hnext.
    apply IH; [lia | done |].
    destruct (decide (_ \/ _)) as [_|Hn]; [lia|].
    change (lit "}") with ["}"%char] in *.
    destruct (indexOfFrom_char block "}" (nextClose + 1)) as [?|(i & E & Hi & _)];
      [lia | tauto |]. rewrite E. lia.
  - apply IH; [lia | by right |]. destruct (decide (_ \/ _)) as [_|Hn]; lia.
Qed.

End ClosingBrace.

Lemma closingBraceLoop_step (k : nat) (block : jstring) (nbOpen nextOpen nextClose : Z) :
  closingBraceLoop (S k) block nbOpen nextOpen nextClose
  = if decide (nbOpen ≠ 0) then
      if decide (nextClose = -1) then Some (-1)
      else
        let '(nbOpen1, nextOpen1) :=
          if decide (nextOpen ≠ -1 ∧ nextOpen < nextClose)
          then (nbOpen + 1, indexOfFrom block (lit "{") (nextOpen + 1))
          else (nbOpen, nextOpen) in
        let nbOpen2 := nbOpen1 - 1 in
        let nextClose1 :=
          if decide (nbOpen2 > 0)
          then indexOfFrom block (lit "}") (nextClose + 1)
          else nextClose in
        closingBraceLoop k block nbOpen2 nextOpen1 nextClose1
    else Some nextClose.
Proof. done. Qed.

Lemma lookup_middle_char (a b : jstring) (x : ascii) :
  (a ++ x :: b) !! length a = Some x.
Proof. by rewrite list_lookup_middle. Qed.

(** A body without braces: the closing brace after it is the matching
    one. *)
Lemma getMatchingClosingBrace_body (pre body post : jstring) :
  "{"%char ∉ pre -> "{"%char ∉ body -> "}"%char ∉ body ->
  getMatchingClosingBrace (pre ++ "{"%char :: body ++ "}"%char :: post)
  = len pre + 1 + len body.
Proof.
  intros Hpre Hbody Hclose.
  set (block := pre ++ "{"%char :: body ++ "}"%char :: post).
  unfold getMatchingClosingBrace. change (lit "{") with ["{"%char].
  change (lit "}") with ["}"%char].
  assert (Eopen : indexOf block ["{"%char] = len pre).
  { unfold indexOf, block. rewrite find_char_app, find_char_cons by done.
    rewrite Ascii.eqb_refl. simpl. unfold len. lia. }
  rewrite Eopen. destruct (decide (len pre = -1)) as [Hn|_];
    [pose proof (len_nonneg pre); lia|].
  assert (Hat : block !! (length pre + 1 + length body)%nat = Some "}"%char).
  { unfold block. rewrite lookup_app_r by lia.
    replace (length pre + 1 + length body - length pre)%nat with (S (length body)) by lia.
    cbn [lookup list_lookup]. apply lookup_middle_char. }
  assert (Hbodyat : forall j : nat,
            len pre + 1 <= Z.of_nat j -> (j < length pre + 1 + length body)%nat ->
            exists c, block !! j = Some c /\ c ∈ body).
  { intros j Hj Hlt. unfold len in Hj. unfold block. rewrite lookup_app_r by lia.
    destruct (j - length pre)%nat as [|k] eqn:Ek; [lia|].
    change (("{"%char :: body ++ "}"%char :: post) !! S k)
      with ((body ++ "}"%char :: post) !! k).
    rewrite lookup_app_l by lia.
    destruct (body !! k) as [c|] eqn:Ec; [|apply lookup_ge_None in Ec; lia].
    exists c. split; [done|]. by eapply list_elem_of_lookup_2. }
  assert (Eclose : indexOfFrom block ["}"%char] (len pre + 1)
                   = len pre + 1 + len body).
  { destruct (indexOfFrom_char block "}" (len pre + 1))
      as [E|(i & E & Hi & Hlen & Hx & Hfirst)]; [pose proof (len_nonneg pre); lia | |].
    - exfalso. unfold indexOfFrom in E.
      destruct (find ["}"%char] (drop (clamp block (len pre + 1)) block)) eqn:Ef; [lia|].
      apply find_char_None in Ef. apply Ef.
      apply (list_elem_of_lookup_2 _ (length body)). rewrite lookup_drop.
      replace (clamp block (len pre + 1)) with (length pre + 1)%nat.
      + by rewrite <- Hat.
      + unfold clamp, len, block. rewrite length_app. cbn [length]. lia.
    - rewrite E. unfold len.
      destruct (decide (i < length pre + 1 + length body)%nat) as [Hlt|Hge].
      + destruct (Hbodyat i Hi Hlt) as (c & Hc & Hin). rewrite Hx in Hc.
        injection Hc as <-. done.
      + destruct (decide (i = length pre + 1 + length body)%nat) as [->|Hne]; [lia|].
        exfalso. apply (Hfirst (length pre + 1 + length body)%nat);
          [unfold len; lia | lia | done]. }
  rewrite Eclose.
  assert (Enext : indexOfFrom block ["{"%char] (len pre + 1) = -1
                  \/ len pre + 1 + len body < indexOfFrom block ["{"%char] (len pre + 1)).
  { destruct (indexOfFrom_char block "{" (len pre + 1))
      as [E|(i & E & Hi & Hlen & Hx & _)]; [pose proof (len_nonneg pre); lia | by left |].
    right. rewrite E. unfold len.
    destruct (decide (i < length pre + 1 + length body)%nat) as [Hlt|Hge].
    - destruct (Hbodyat i Hi Hlt) as (c & Hc & Hin). rewrite Hx in Hc.
      injection Hc as <-. done.
    - destruct (decide (i = length pre + 1 + length body)%nat) as [->|Hne]; [|lia].
      rewrite Hat in Hx. done. }
  set (nextOpen := indexOfFrom block ["{"%char] (len pre + 1)) in *.
  rewrite (closingBraceLoop_step (S (length block)) block 1 nextOpen).
  destruct (decide (1 ≠ 0)) as [_|?]; [|done].
  destruct (decide (len pre + 1 + len body = -1)) as [Hn|_];
    [pose proof (len_nonneg pre); pose proof (len_nonneg body); lia|].
  destruct (decide (nextOpen ≠ -1 ∧ nextOpen < len pre + 1 + len body)) as [[Hne Hlt]|_];
    [destruct Enext; lia|].
  cbv iota beta. destruct (decide (1 - 1 > 0)) as [?|_]; [lia|].
  rewrite (closingBraceLoop_step (length block) block (1 - 1) nextOpen).
  by destruct (decide (1 - 1 ≠ 0)) as [?|_].
Qed.

(** X2. [getMatchingClosingBrace] gives 0 for a block without an opening
    brace.  For a block with one it returns: [-1], or the place of a
    closing brace that comes after the first opening brace.  When the
    first opening brace is followed by a body without braces and a closing
    brace, the place is that of this closing brace, whatever follows. *)
Theorem matching_closing_brace :
  (forall block : jstring,
     "{"%char ∉ block -> getMatchingClosingBrace block = 0)
  /\ (forall block : jstring,
        "{"%char ∈ block ->
        getMatchingClosingBrace block = -1
        \/ (indexOf block (lit "{") < getMatchingClosingBrace block < len block
            /\ block !! Z.to_nat (getMatchingClosingBrace block) = Some "}"%char))
  /\ (forall pre body post : jstring,
        "{"%char ∉ pre -> "{"%char ∉ body -> "}"%char ∉ body ->
        getMatchingClosingBrace (pre ++ "{"%char :: body ++ "}"%char :: post)
        = len pre + 1 + len body).
Proof.
  split_and!.
  - intros block Hno. unfold getMatchingClosingBrace. change (lit "{") with ["{"%char].
    rewrite indexOf_char_absent by done. by destruct (decide (-1 = -1)).
  - intros block Hin. unfold getMatchingClosingBrace.
    change (lit "{") with ["{"%char] in *.
    destruct (decide (indexOf block ["{"%char] = -1)) as [Hnone|Hsome].
    { apply indexOf_none, find_char_None in Hnone. done. }
    apply indexOf_found in Hsome as (i & _ & ->).
    destruct (closingBraceLoop_result block (Z.of_nat i) ltac:(lia)
                (S (S (length block))) 1
                (indexOfFrom block ["{"%char] (Z.of_nat i + 1))
                (indexOfFrom block (lit "}") (Z.of_nat i + 1)))
      as (r & -> & Hr); [lia | apply closing_next; lia | |].
    + change (lit "}") with ["}"%char].
      destruct (indexOfFrom_char block "}" (Z.of_nat i + 1)) as [->|(j & -> & Hj & _)];
        [lia | |]; destruct (decide (_ \/ _)); unfold len; lia.
    + cbn [default from_option id]. destruct Hr as [->|(? & ? & ?)]; [by left | by right].
  - intros pre body post. apply getMatchingClosingBrace_body.
Qed.

Lemma matching_closing_brace_witness :
  getMatchingClosingBrace (lit "int a;") = 0
  /\ (getMatchingClosingBrace (lit "a { b { c }") = -1
      \/ (indexOf (lit "a { b { c }") (lit "{")
          < getMatchingClosingBrace (lit "a { b { c }") < len (lit "a { b { c }")
          /\ lit "a { b { c }" !! Z.to_nat (getMatchingClosingBrace (lit "a { b { c }"))
             = Some "}"%char))
  /\ getMatchingClosingBrace (lit "struct {int a; int b;} s; struct {") = 21.
Proof.
  destruct matching_closing_brace as (H1 & H2 & H3).
  assert (Hno : forall (x : ascii) (s : jstring), ~ In x s -> x ∉ s)
    by (intros x s H ?%list_elem_of_In; done).
  split_and!.
  - apply H1. apply Hno. vm_compute. intuition discriminate.
  - apply H2. apply list_elem_of_In. vm_compute. tauto.
  - apply (H3 (lit "struct ") (lit "int a; int b;") (lit " s; struct {"));
      apply Hno; vm_compute; intuition discriminate.
Defined.
(** ** The codes of the classification *)

Lemma lookupSpelling_range (table : list (jstring * Z)) (tmpStr : jstring) :
  Forall (fun entry => 1 <= entry.2 <= 10) table ->
  lookupSpelling table tmpStr = -1 \/ 1 <= lookupSpelling table tmpStr <= 10.
Proof.
  induction 1 as [|[spelling value] table Hv _ IH]; cbn [lookupSpelling]; [by left|].
  destruct (decide (tmpStr = spelling)); [by right | done].
Qed.

Lemma typeSpellings_range : Forall (fun entry => 1 <= entry.2 <= 10) typeSpellings.
Proof. unfold typeSpellings. apply Forall_fmap, Forall_forall. intros [s v] Hin.
  apply list_elem_of_In in Hin. cbn in Hin. cbn.
  repeat (destruct Hin as [[= <- <-]|Hin]; [vm_compute; split; discriminate|]). done.
Qed.

(** X3. The code that [computeTypeValue] returns is a member of
    [TYPE_VALUE] (1 to 10) or [-1], whatever the two texts are.  An [enum]
    type, with any storage class specifiers before it, is signed 8 bits
    when the size reads 1 and signed 16 bits for every other size; [int]
    and [unsigned int] are 32 bits unless the size reads 2, also when the
    size cannot be read. *)
Theorem computeTypeValue_codes :
  (forall expr size : jstring,
     computeTypeValue expr size = -1 \/ 1 <= computeTypeValue expr size <= 10)
  /\ (forall (qualifiers : list jstring) (rest size : jstring),
        Forall (fun m => m ∈ storageMarkers) qualifiers ->
        "*"%char ∉ rest ->
        (forall c, last rest = Some c -> isWhiteSpace c = false) ->
        computeTypeValue (concat qualifiers ++ lit "enum" ++ rest) size
        = if decide (measuredSize size = lit "1")
          then TYPE_VALUE.SIGNED_8 else TYPE_VALUE.SIGNED_16)
  /\ (forall size : jstring,
        measuredSize size <> lit "2" ->
        computeTypeValue (lit "int") size = TYPE_VALUE.SIGNED_32
        /\ computeTypeValue (lit "unsigned int") size = TYPE_VALUE.UNSIGNED_32).
Proof.
  split_and!.
  - intros expr size. unfold computeTypeValue.
    assert (Hcode : forall (P : Prop) (d : Decision P) (a b : Z),
              1 <= a <= 10 -> 1 <= b <= 10 ->
              1 <= (if d then a else b) <= 10) by (intros P [?|?] a b; done).
    destruct (decide (lastIndexOf _ (lit "*") ≠ -1)).
    { right. apply Hcode; [done|]. by apply Hcode. }
    destruct (startsWith _ (lit "enum")); [right; by apply Hcode|].
    destruct (decide (_ = lit "unsigned int")); [right; by apply Hcode|].
    destruct (decide (_ = lit "int" ∨ _ = lit "signed int")); [right; by apply Hcode|].
    apply lookupSpelling_range, typeSpellings_range.
  - intros qualifiers rest size Hq Hstar Hlast. unfold computeTypeValue.
    rewrite (stripped_spelling qualifiers (lit "enum" ++ rest)); [| done | | | | done].
    + change (lit "*") with ["*"%char]. rewrite lastIndexOf_char_absent.
      * destruct (decide (-1 ≠ -1)) as [?|_]; [done|]. by rewrite startsWith_app_l.
      * rewrite elem_of_app. intros [Hin|Hin]; [|done].
        apply list_elem_of_In in Hin. vm_compute in Hin. intuition discriminate.
    + intros m Hm. apply storageMarker_cases in Hm as [-> | [-> | [-> | ->]]]; reflexivity.
    + by intros c [= <-].
    + intros c. rewrite last_app. destruct (last rest) as [x|] eqn:E.
      * intros [= <-]. by apply Hlast.
      * by intros [= <-].
  - intros size Hsize. unfold computeTypeValue.
    change (removeStorageClassSpecifier (trim (lit "int"))) with (lit "int").
    change (removeStorageClassSpecifier (trim (lit "unsigned int"))) with (lit "unsigned int").
    change (lastIndexOf (lit "int") (lit "*")) with (-1).
    change (lastIndexOf (lit "unsigned int") (lit "*")) with (-1).
    destruct (decide (-1 ≠ -1)) as [?|_]; [done|].
    change (startsWith (lit "int") (lit "enum")) with false.
    change (startsWith (lit "unsigned int") (lit "enum")) with false. cbv iota.
    destruct (decide (lit "int" = lit "unsigned int")) as [?|_]; [done|].
    destruct (decide (lit "unsigned int" = lit "unsigned int")) as [_|?]; [|done].
    destruct (decide (lit "int" = lit "int" \/ lit "int" = lit "signed int")) as [_|Hn];
      [|destruct Hn; by left].
    by destruct (decide (measuredSize size = lit "2")).
Qed.

Lemma computeTypeValue_codes_witness :
  computeTypeValue (lit "static enum Color {RED, GREEN}") (lit "$1 = 1") = TYPE_VALUE.SIGNED_8
  /\ computeTypeValue (lit "enum Color {RED, GREEN}") (lit "$1 = 4") = TYPE_VALUE.SIGNED_16
  /\ computeTypeValue (lit "int") (lit "No symbol in current context.") = TYPE_VALUE.SIGNED_32.
Proof.
  destruct computeTypeValue_codes as (_ & Henum & Hint).
  assert (Hno : forall (x : ascii) (s : jstring), ~ In x s -> x ∉ s)
    by (intros x s H ?%list_elem_of_In; done).
  split_and!.
  - apply (Henum [lit "static "] (lit " Color {RED, GREEN}") (lit "$1 = 1")).
    + apply Forall_singleton, list_elem_of_In. vm_compute. tauto.
    + apply Hno. vm_compute. intuition discriminate.
    + by intros c [= <-].
  - apply (Henum [] (lit " Color {RED, GREEN}") (lit "$1 = 4")).
    + constructor.
    + apply Hno. vm_compute. intuition discriminate.
    + by intros c [= <-].
  - apply (Hint (lit "No symbol in current context.")). by vm_compute.
Defined.
(** ** The address in a reply *)

Lemma find_after_prefix (p pre post : jstring) (x : ascii) (q : jstring) :
  p = x :: q -> x ∉ pre -> find p (pre ++ p ++ post) = Some (length pre).
Proof.
  intros -> Hx. apply find_first.
  - by rewrite drop_app_length, startsWith_app_l.
  - rewrite length_app. lia.
  - intros j Hj. rewrite drop_app_le by lia.
    destruct (drop j pre) as [|c r] eqn:E.
    { apply (f_equal length) in E. rewrite length_drop in E. cbn [length] in E. lia. }
    rewrite <- app_comm_cons. cbn [startsWith].
    destruct (Ascii.eqb_spec x c) as [<-|]; [|done].
    exfalso. apply Hx. rewrite <- (take_drop j pre), E, elem_of_app. right.
    apply list_elem_of_here.
Qed.

(** X4. [extractAddress] returns the text after the first ["= "] of a
    reply, up to its end, and the empty text for a reply without
    ["= "]. *)
Theorem extractAddress_marker :
  (forall expr : jstring,
     (forall pre post, expr <> pre ++ lit "= " ++ post) -> extractAddress expr = [])
  /\ (forall pre addr : jstring,
        "="%char ∉ pre -> extractAddress (pre ++ lit "= " ++ addr) = addr).
Proof.
  split.
  - intros expr Hno. unfold extractAddress.
    destruct (decide (indexOf expr (lit "= ") ≠ -1)) as [Hfound|_]; [|done].
    apply indexOf_occurs in Hfound as (pre & post & ->). by destruct (Hno pre post).
  - intros pre addr Hpre. unfold extractAddress, indexOf.
    rewrite (find_after_prefix (lit "= ") pre addr "="%char (lit " ")) by done.
    destruct (decide (Z.of_nat (length pre) ≠ -1)) as [_|Hn]; [|lia].
    rewrite app_assoc.
    replace (len ((pre ++ lit "= ") ++ addr)) with (len (pre ++ lit "= ") + len addr)
      by (rewrite !len_app; lia).
    replace (Z.of_nat (length pre) + len (lit "= ")) with (len (pre ++ lit "= "))
      by (rewrite len_app; unfold len; lia).
    rewrite <- (app_nil_r addr) at 1. apply substring_middle.
Qed.

Lemma extractAddress_marker_witness :
  extractAddress (lit "No symbol in current context.") = []
  /\ extractAddress (lit "$3 = 0x20000004") = lit "0x20000004".
Proof.
  destruct extractAddress_marker as [Hnone Hsome]. split.
  - apply Hnone. intros pre post E.
    assert (H : indexOf (lit "No symbol in current context.") (lit "= ") <> -1)
      by (apply indexOf_occurs; by exists pre, post).
    by vm_compute in H.
  - apply (Hsome (lit "$3 ") (lit "0x20000004")).
    intros H%list_elem_of_In. vm_compute in H. intuition discriminate.
Defined.
(** ** Declarators that give one identifier *)

Lemma indexOf_absent_pattern (s p : jstring) (x : ascii) :
  x ∈ p -> x ∉ s -> indexOf s p = -1.
Proof.
  intros Hp Hs. destruct (decide (indexOf s p = -1)) as [|Hfound]; [done|].
  apply indexOf_occurs in Hfound as (pre & post & ->).
  destruct Hs. rewrite !elem_of_app. auto.
Qed.

Lemma last_name (pre name : jstring) :
  Forall nameChar name -> name <> [] ->
  forall c, last (pre ++ name) = Some c -> isWhiteSpace c = false.
Proof.
  intros Hname Hne c. rewrite last_app. destruct (last name) as [x|] eqn:E.
  - intros [= <-]. apply last_Some in E as [l ->].
    apply Forall_app in Hname as [_ Hx]. by apply Forall_singleton in Hx as [? _].
  - by apply last_None in E.
Qed.

(** Closes a goal [x ∉ s] for a text put together from parts that are
    known not to hold [x], names and literals. *)
Local Ltac no_char :=
  repeat first [rewrite elem_of_app | rewrite elem_of_cons | rewrite elem_of_nil];
  let H := fresh in
  intros H;
  repeat match type of H with _ \/ _ => destruct H as [H|H] end;
  first
    [ done
    | refine (nameChars_no _ _ _ _ H);
      [ eassumption
      | first [ apply not_nameChar_space | apply not_nameChar_open
              | apply not_nameChar_close | apply not_nameChar_star
              | apply not_nameChar_colon ] ]
    | apply list_elem_of_In in H; vm_compute in H; intuition discriminate ].

Lemma extractIdentifiers_plain (ty name root : jstring) (expand : bool) :
  (exists c ty', ty = c :: ty' /\ isWhiteSpace c = false) ->
  ":"%char ∉ ty -> "["%char ∉ ty -> "*"%char ∉ ty ->
  Forall nameChar name -> name <> [] ->
  extractIdentifiers (ty ++ " "%char :: name) root expand = [ root ++ name ].
Proof.
  intros (c0 & ty' & Hty & Hc0) Hcolon Hopen Hstar Hname Hne.
  set (decl := ty ++ " "%char :: name).
  assert (Hclean : cleanDeclarator decl = decl).
  { apply cleanDeclarator_id.
    - unfold decl. no_char.
    - unfold decl. rewrite Hty. by intros c [= <-].
    - unfold decl. rewrite (cons_middle " "%char ty), app_assoc. by apply last_name. }
  unfold extractIdentifiers. rewrite Hclean.
  change (lit "[") with ["["%char]. change (lit "*") with ["*"%char].
  rewrite (indexOf_char_absent "[") by (unfold decl; no_char).
  destruct (decide (-1 ≠ -1)) as [?|_]; [done|].
  rewrite (lastIndexOf_char_absent "*") by (unfold decl; no_char).
  destruct (decide (-1 ≠ -1)) as [?|_]; [done|].
  rewrite (indexOf_absent_pattern decl (lit " : ") ":"%char);
    [| apply list_elem_of_In; vm_compute; tauto | unfold decl; no_char].
  destruct (decide (-1 ≠ -1)) as [?|_]; [done|].
  unfold lastIndexOf. change (lit " ") with [" "%char]. unfold decl.
  rewrite findLast_char_app by no_char.
  rewrite (cons_middle " "%char ty), app_assoc.
  rewrite substringFrom_app by (rewrite len_app; unfold len; simpl; lia).
  by rewrite trim_name.
Qed.

Lemma extractIdentifiers_pointer (ty name root : jstring) (expand : bool) :
  (exists c ty', ty = c :: ty' /\ isWhiteSpace c = false) ->
  ":"%char ∉ ty -> "["%char ∉ ty -> ")"%char ∉ ty ->
  Forall nameChar name -> name <> [] -> ")"%char ∉ name ->
  extractIdentifiers (ty ++ "*"%char :: name) root expand = [ root ++ name ].
Proof.
  intros (c0 & ty' & Hty & Hc0) Hcolon Hopen Hparen Hname Hne Hnparen.
  set (decl := ty ++ "*"%char :: name).
  assert (Hclean : cleanDeclarator decl = decl).
  { apply cleanDeclarator_id.
    - unfold decl. no_char.
    - unfold decl. rewrite Hty. by intros c [= <-].
    - unfold decl. rewrite (cons_middle "*"%char ty), app_assoc. by apply last_name. }
  unfold extractIdentifiers. rewrite Hclean.
  change (lit "[") with ["["%char]. change (lit "*") with ["*"%char].
  change (lit ")") with [")"%char]. change (lit " ") with [" "%char].
  rewrite (indexOf_char_absent "[") by (unfold decl; no_char).
  destruct (decide (-1 ≠ -1)) as [?|_]; [done|].
  assert (Hstar : lastIndexOf decl ["*"%char] = len ty).
  { unfold lastIndexOf, decl. by rewrite findLast_char_app by no_char. }
  rewrite (indexOf_char_absent ")") by (unfold decl; no_char).
  destruct (decide (-1 ≠ -1)) as [?|_]; [done|].
  rewrite !Hstar.
  destruct (decide (len ty ≠ -1)) as [_|Hn]; [|pose proof (len_nonneg ty); lia].
  assert (Hsub : substringFrom decl (len ty + 1) = name).
  { unfold decl. rewrite (cons_middle "*"%char ty name), app_assoc.
    apply substringFrom_app. rewrite len_app. unfold len. simpl. lia. }
  rewrite !Hsub, trim_name by done.
  rewrite (lastIndexOf_char_absent " ") by no_char.
  by destruct (decide (-1 ≠ -1)) as [?|_].
Qed.

Lemma extractIdentifiers_function_pointer (ret name args root : jstring)
    (expand : bool) :
  (exists c ret', ret = c :: ret' /\ isWhiteSpace c = false) ->
  ":"%char ∉ ret -> "["%char ∉ ret -> ")"%char ∉ ret ->
  Forall nameChar name -> name <> [] -> ")"%char ∉ name ->
  ":"%char ∉ args -> "["%char ∉ args ->
  (forall c, last args = Some c -> isWhiteSpace c = false) ->
  extractIdentifiers (ret ++ "("%char :: "*"%char :: name ++ ")"%char :: args)
    root expand
  = [ root ++ name ].
Proof.
  intros (c0 & ret' & Hret & Hc0) Hcolon Hopen Hparen Hname Hne Hnparen Hacolon Haopen
    Halast.
  set (head := ret ++ "("%char :: "*"%char :: name).
  set (decl := ret ++ "("%char :: "*"%char :: name ++ ")"%char :: args).
  assert (Hdecl : decl = head ++ ")"%char :: args)
    by (unfold decl, head; by rewrite <- app_assoc).
  assert (Hclean : cleanDeclarator decl = decl).
  { apply cleanDeclarator_id.
    - unfold decl. no_char.
    - unfold decl. rewrite Hret. by intros c [= <-].
    - intros c. rewrite Hdecl, last_app, last_cons.
      destruct (last args) as [y|] eqn:E; intros [= <-]; [by apply Halast | done]. }
  unfold extractIdentifiers. rewrite Hclean.
  change (lit "[") with ["["%char]. change (lit "*") with ["*"%char].
  change (lit ")") with [")"%char]. change (lit " ") with [" "%char].
  rewrite (indexOf_char_absent "[") by (unfold decl; no_char).
  destruct (decide (-1 ≠ -1)) as [?|_]; [done|].
  destruct (decide (lastIndexOf decl ["*"%char] ≠ -1)) as [_|Hn].
  2:{ destruct Hn. apply lastIndexOf_char. unfold decl.
      apply elem_of_app. right. apply list_elem_of_further, list_elem_of_here. }
  assert (Hend : indexOf decl [")"%char] = len head).
  { unfold indexOf. rewrite Hdecl, find_char_app by (unfold head; no_char).
    rewrite find_char_cons, Ascii.eqb_refl. simpl. unfold len. lia. }
  rewrite !Hend.
  destruct (decide (len head ≠ -1)) as [_|Hn]; [|pose proof (len_nonneg head); lia].
  assert (Hcut : substring decl 0 (len head) = head).
  { unfold len. rewrite substring_0_take, Hdecl. apply take_app_length. }
  rewrite Hcut.
  assert (Hstar : lastIndexOf head ["*"%char] = len ret + 1).
  { unfold lastIndexOf, head. rewrite (cons_middle "("%char ret), app_assoc.
    rewrite findLast_char_app by no_char. rewrite length_app. unfold len. simpl. lia. }
  rewrite Hstar.
  assert (Hsub : substringFrom head (len ret + 1 + 1) = name).
  { unfold head. rewrite (cons_middle "("%char ret), (cons_middle "*"%char), !app_assoc.
    apply substringFrom_app. rewrite !len_app. unfold len. simpl. lia. }
  rewrite !Hsub, trim_name by done.
  rewrite (lastIndexOf_char_absent " ") by no_char.
  by destruct (decide (-1 ≠ -1)) as [?|_].
Qed.

(** Blanks at the end of the argument list are cut by the trim. *)
Lemma trimStart_keep_last (s : jstring) (c : ascii) :
  isWhiteSpace c = false -> trimStart (s ++ [c]) = trimStart s ++ [c].
Proof.
  intros Hc. induction s as [|x s IH].
  - change (trimStart ([] ++ [c])) with (if isWhiteSpace c then [] else [c]).
    by rewrite Hc.
  - rewrite <- app_comm_cons. cbn [trimStart]. by destruct (isWhiteSpace x).
Qed.

Lemma trimEnd_cons_keep (c : ascii) (s : jstring) :
  isWhiteSpace c = false -> trimEnd (c :: s) = c :: trimEnd s.
Proof.
  intros Hc. unfold trimEnd.
  by rewrite reverse_cons, trimStart_keep_last, reverse_app by done.
Qed.

Lemma trimStart_sub (x : ascii) (s : jstring) : x ∈ trimStart s -> x ∈ s.
Proof.
  induction s as [|c s IH]; [done|]. cbn [trimStart].
  destruct (isWhiteSpace c); [|done]. intros H. by apply list_elem_of_further, IH.
Qed.

Lemma trimStart_head (s : jstring) (c : ascii) :
  head (trimStart s) = Some c -> isWhiteSpace c = false.
Proof.
  induction s as [|x s IH]; [done|]. cbn [trimStart].
  destruct (isWhiteSpace x) eqn:E; [done|]. by intros [= <-].
Qed.

Lemma trimEnd_sub (x : ascii) (s : jstring) : x ∈ trimEnd s -> x ∈ s.
Proof.
  unfold trimEnd. rewrite elem_of_reverse. intros H%trimStart_sub.
  by rewrite elem_of_reverse in H.
Qed.

Lemma trimEnd_last (s : jstring) (c : ascii) :
  last (trimEnd s) = Some c -> isWhiteSpace c = false.
Proof. unfold trimEnd. rewrite last_reverse. apply trimStart_head. Qed.

(** The pointer to a function, whatever the argument list ends with. *)
Lemma extractIdentifiers_function_pointer_args (ret name args root : jstring)
    (expand : bool) :
  (exists c ret', ret = c :: ret' /\ isWhiteSpace c = false) ->
  ":"%char ∉ ret -> "["%char ∉ ret -> ")"%char ∉ ret ->
  Forall nameChar name -> name <> [] -> ")"%char ∉ name ->
  ":"%char ∉ args -> "["%char ∉ args ->
  extractIdentifiers (ret ++ "("%char :: "*"%char :: name ++ ")"%char :: args)
    root expand
  = [ root ++ name ].
Proof.
  intros Hret Hcolon Hopen Hparen Hname Hne Hnparen Hacolon Haopen.
  rewrite <- (extractIdentifiers_function_pointer ret name (trimEnd args) root expand);
    [| done | done | done | done | done | done | done
     | by intros ?%trimEnd_sub | by intros ?%trimEnd_sub | apply trimEnd_last].
  destruct Hret as (c0 & ret' & Hret & Hc0).
  set (decl := ret ++ "("%char :: "*"%char :: name ++ ")"%char :: args).
  set (decl' := ret ++ "("%char :: "*"%char :: name ++ ")"%char :: trimEnd args).
  assert (Htrimmed : ":"%char ∉ trimEnd args) by (by intros ?%trimEnd_sub).
  assert (Hclean' : cleanDeclarator decl' = decl').
  { apply cleanDeclarator_id.
    - unfold decl'. no_char.
    - unfold decl'. rewrite Hret. by intros c [= <-].
    - intros c. unfold decl'.
      rewrite (cons_middle "("%char), (cons_middle "*"%char), (cons_middle ")"%char).
      rewrite !app_assoc, last_app.
      destruct (last (trimEnd args)) as [y|] eqn:E.
      + intros [= <-]. by apply (trimEnd_last args).
      + rewrite last_snoc. by intros [= <-]. }
  assert (Hclean : cleanDeclarator decl = decl').
  { unfold cleanDeclarator.
    rewrite stripAccess_no_colon, stripLineNumber_no_colon by (unfold decl; no_char).
    unfold trim.
    assert (trimStart decl = decl) as ->
      by (unfold decl; rewrite Hret, <- app_comm_cons; cbn [trimStart]; by rewrite Hc0).
    unfold decl, decl'.
    rewrite (cons_middle "("%char), (cons_middle "*"%char), !app_assoc.
    rewrite trimEnd_app.
    - rewrite trimEnd_cons_keep by done. by rewrite <- !app_assoc.
    - exists ")"%char. split; [apply list_elem_of_here | done]. }
  unfold extractIdentifiers. by rewrite Hclean, Hclean'.
Qed.

(** X5. The declarators that give one identifier, prefixed with the root.
    A type and a name after a blank give the name; a type ending in [*]
    and a name give the name; a pointer to a function (the type, then the
    name after a star between parentheses, then the arguments) gives the
    name when the argument list holds no colon and no opening bracket,
    whatever else it holds and whatever it ends with.  The type starts
    with something other than a blank and holds no colon, no opening
    bracket and no closing parenthesis (and no star in the first case);
    the name is not empty and holds no blank, bracket, star, colon or
    closing parenthesis. *)
Theorem one_identifier_declarators (ty name root : jstring) (expand : bool) :
  (exists c ty', ty = c :: ty' /\ isWhiteSpace c = false) ->
  ":"%char ∉ ty -> "["%char ∉ ty -> ")"%char ∉ ty ->
  Forall nameChar name -> name <> [] -> ")"%char ∉ name ->
  ("*"%char ∉ ty -> extractIdentifiers (ty ++ " "%char :: name) root expand = [ root ++ name ])
  /\ extractIdentifiers (ty ++ "*"%char :: name) root expand = [ root ++ name ]
  /\ (forall args : jstring,
        ":"%char ∉ args -> "["%char ∉ args ->
        extractIdentifiers (ty ++ "("%char :: "*"%char :: name ++ ")"%char :: args)
          root expand
        = [ root ++ name ]).
Proof.
  intros Hty Hcolon Hopen Hparen Hname Hne Hnparen. split_and!.
  - intros Hstar. by apply extractIdentifiers_plain.
  - by apply extractIdentifiers_pointer.
  - intros args H1 H2. by apply extractIdentifiers_function_pointer_args.
Qed.

Lemma one_identifier_declarators_witness :
  extractIdentifiers (lit "static unsigned int" ++ " "%char :: lit "counter") (lit "s.") false
  = [ lit "s." ++ lit "counter" ]
  /\ extractIdentifiers (lit "char " ++ "*"%char :: lit "name") [] true = [ [] ++ lit "name" ]
  /\ extractIdentifiers
       (lit "void " ++ "("%char :: "*"%char :: lit "handler" ++ ")"%char :: lit "(int, char) ")
       [] false
     = [ [] ++ lit "handler" ].
Proof.
  assert (Hname : forall s : jstring,
            forallb (fun c => negb (isWhiteSpace c) && negb (Ascii.eqb c "[")
                              && negb (Ascii.eqb c "]") && negb (Ascii.eqb c "*")
                              && negb (Ascii.eqb c ":")) s = true ->
            Forall nameChar s).
  { intros s H. apply Forall_forall. intros c Hc%list_elem_of_In.
    rewrite forallb_forall in H. specialize (H c Hc).
    rewrite !andb_true_iff, !negb_true_iff, !Ascii.eqb_neq in H.
    unfold nameChar. tauto. }
  split_and!.
  - destruct (one_identifier_declarators (lit "static unsigned int") (lit "counter")
                (lit "s.") false) as (H & _ & _);
      [by exists "s"%char, (lit "tatic unsigned int")
      | by apply absent_char | by apply absent_char | by apply absent_char
      | by apply Hname | done | by apply absent_char |].
    apply H. by apply absent_char.
  - destruct (one_identifier_declarators (lit "char ") (lit "name") [] true)
      as (_ & H & _);
      [by exists "c"%char, (lit "har ")
      | by apply absent_char | by apply absent_char | by apply absent_char
      | by apply Hname | done | by apply absent_char |].
    exact H.
  - destruct (one_identifier_declarators (lit "void ") (lit "handler") [] false)
      as (_ & _ & H);
      [by exists "v"%char, (lit "oid ")
      | by apply absent_char | by apply absent_char | by apply absent_char
      | by apply Hname | done | by apply absent_char |].
    apply H; by apply absent_char.
Defined.

(** X6. The declaration of a bit field, [pre : post] with a colon between
    blanks, no other colon, something other than blanks on both sides and
    neither bracket nor star, gives no identifier, and the parse of a
    declaration list skips it. *)
Theorem bitfield_declarators (pre post root : jstring) (expand : bool) :
  ":"%char ∉ pre -> ":"%char ∉ post ->
  (exists c, c ∈ pre /\ isWhiteSpace c = false) ->
  (exists c, c ∈ post /\ isWhiteSpace c = false) ->
  "["%char ∉ pre ++ post -> "*"%char ∉ pre ++ post ->
  extractIdentifiers (pre ++ lit " : " ++ post) root expand = [ [] ]
  /\ (forall rest : jstring,
        ";"%char ∉ pre ++ post -> "{"%char ∉ pre ++ post ->
        buildVarList ((pre ++ lit " : " ++ post) ++ ";"%char :: rest) root expand
        = buildVarList rest root expand).
Proof.
  intros Hpre Hpost Hleft Hright Hopen Hstar.
  assert (Hin : forall x : ascii,
            x ∉ pre ++ post -> x ∉ lit " : " -> x ∉ pre ++ lit " : " ++ post).
  { intros x. rewrite !elem_of_app. tauto. }
  assert (Hnone : extractIdentifiers (pre ++ lit " : " ++ post) root expand = [ [] ]).
  { apply extractIdentifiers_bitfield.
    - apply Hin; [done|]. intros H%list_elem_of_In. vm_compute in H. intuition discriminate.
    - apply Hin; [done|]. intros H%list_elem_of_In. vm_compute in H. intuition discriminate.
    - apply indexOf_occurs. rewrite cleanDeclarator_bitfield by done.
      by exists (trimStart pre), (trimEnd post). }
  split; [done|]. intros rest Hsemi Hbrace.
  rewrite buildVarList_declaration.
  - rewrite Hnone. cbn [head]. by destruct (decide _) as [Hn|_].
  - apply Hin; [done|]. intros H%list_elem_of_In. vm_compute in H. intuition discriminate.
  - apply Hin; [done|]. intros H%list_elem_of_In. vm_compute in H. intuition discriminate.
Qed.

Lemma bitfield_declarators_witness :
  extractIdentifiers (lit "  unsigned int ready : 1") (lit "flags.") true = [ [] ]
  /\ buildVarList (lit "  unsigned int ready : 1; int z;") (lit "flags.") true
     = buildVarList (lit " int z;") (lit "flags.") true.
Proof.
  assert (Hno : forall (x : ascii) (s : jstring), ~ In x s -> x ∉ s)
    by (intros x s H ?%list_elem_of_In; done).
  destruct (bitfield_declarators (lit "  unsigned int ready") (lit "1") (lit "flags.") true)
    as [H1 H2]; try (apply Hno; vm_compute; intuition discriminate).
  - exists "u"%char. split; [|done]. apply list_elem_of_In. vm_compute. tauto.
  - exists "1"%char. split; [|done]. apply list_elem_of_In. vm_compute. tauto.
  - split; [exact H1|].
    apply (H2 (lit " int z;")); apply Hno; vm_compute; intuition discriminate.
Defined.
(** ** Bodies with braces inside *)

Lemma countChar_app (x : ascii) (a b : jstring) :
  countChar x (a ++ b) = (countChar x a + countChar x b)%nat.
Proof.
  induction a as [|c a IH]; [done|].
  rewrite <- app_comm_cons. cbn [countChar]. rewrite IH. lia.
Qed.

Lemma countChar_take_S (x c : ascii) (s : jstring) (q : nat) :
  s !! q = Some c ->
  countChar x (take (S q) s)
  = (countChar x (take q s) + if Ascii.eqb c x then 1 else 0)%nat.
Proof.
  intros Hq. rewrite (take_S_r _ _ _ Hq), countChar_app. cbn [countChar]. lia.
Qed.

(** No [x] between two places: as many before the one as before the
    other. *)
Lemma countChar_range_none (x : ascii) (s : jstring) (m n : nat) :
  (m <= n)%nat ->
  (forall j, (m <= j < n)%nat -> s !! j <> Some x) ->
  countChar x (take n s) = countChar x (take m s).
Proof.
  induction 1 as [|n Hmn IH]; intros Hnone; [done|].
  rewrite <- IH by (intros j Hj; apply Hnone; lia).
  destruct (s !! n) as [c|] eqn:E.
  - rewrite (countChar_take_S x c) by done.
    destruct (Ascii.eqb_spec c x) as [->|_]; [|lia].
    destruct (Hnone n); [lia | done].
  - apply lookup_ge_None in E. by rewrite !take_ge by lia.
Qed.

Lemma countChar_take_le (x : ascii) (s : jstring) (m n : nat) :
  (m <= n)%nat -> (countChar x (take m s) <= countChar x (take n s))%nat.
Proof.
  induction 1 as [|n Hmn IH]; [done|].
  destruct (s !! n) as [c|] eqn:E.
  - rewrite (countChar_take_S x c) by done. lia.
  - apply lookup_ge_None in E. rewrite (take_ge s (S n)) by lia.
    by rewrite (take_ge s n) in IH by lia.
Qed.

(** In a text whose braces match, no more braces are closed than opened
    up to any place, and as many in all. *)
Lemma wellNested_counts (s : jstring) :
  forall depth : nat,
  wellNested depth s = true ->
  (forall q : nat,
     (countChar "}" (take q s) <= depth + countChar "{" (take q s))%nat)
  /\ (depth + countChar "{" s = countChar "}" s)%nat.
Proof.
  induction s as [|c s IH]; intros depth H.
  - cbn [wellNested] in H. apply Nat.eqb_eq in H as ->.
    split; [intros q; by rewrite take_nil | done].
  - cbn [wellNested] in H.
    destruct (Ascii.eqb_spec c "{"%char) as [->|Hopen].
    { destruct (IH _ H) as [Hq Hall]. split.
      - intros [|q]; [cbn; lia|]. rewrite firstn_cons. cbn [countChar]. specialize (Hq q).
        change (Ascii.eqb "{" "}") with false. change (Ascii.eqb "{" "{") with true. cbv iota. lia.
      - cbn [countChar]. change (Ascii.eqb "{" "}") with false.
        change (Ascii.eqb "{" "{") with true. cbv iota. lia. }
    destruct (Ascii.eqb_spec c "}"%char) as [->|Hclose].
    { destruct depth as [|d]; [done|]. destruct (IH _ H) as [Hq Hall]. split.
      - intros [|q]; [cbn; lia|]. rewrite firstn_cons. cbn [countChar]. specialize (Hq q).
        change (Ascii.eqb "}" "}") with true. change (Ascii.eqb "}" "{") with false. cbv iota. lia.
      - cbn [countChar]. change (Ascii.eqb "}" "}") with true.
        change (Ascii.eqb "}" "{") with false. cbv iota. lia. }
    destruct (IH _ H) as [Hq Hall].
    assert (Ascii.eqb c "{" = false) as E1 by (by apply Ascii.eqb_neq).
    assert (Ascii.eqb c "}" = false) as E2 by (by apply Ascii.eqb_neq).
    split.
    + intros [|q]; [cbn; lia|]. rewrite firstn_cons. cbn [countChar]. specialize (Hq q).
      rewrite E1, E2. cbv iota. lia.
    + cbn [countChar]. rewrite E1, E2. cbv iota. lia.
Qed.

(** A body without braces is one whose braces match. *)
Lemma wellNested_flat (s : jstring) :
  "{"%char ∉ s -> "}"%char ∉ s -> wellNested O s = true.
Proof.
  induction s as [|c s IH]; [done|]. intros [Ho Hos]%not_elem_of_cons [Hc Hcs]%not_elem_of_cons.
  cbn [wellNested].
  destruct (Ascii.eqb_spec c "{"%char) as [?|_]; [congruence|].
  destruct (Ascii.eqb_spec c "}"%char) as [?|_]; [congruence|]. by apply IH.
Qed.

Lemma indexOfFrom_char_none (s : jstring) (x : ascii) (from : Z) (j : nat) :
  0 <= from -> indexOfFrom s [x] from = -1 -> from <= Z.of_nat j -> s !! j <> Some x.
Proof.
  intros Hfrom E Hj Hx. unfold indexOfFrom in E.
  destruct (find [x] (drop (clamp s from) s)) eqn:Ef; [lia|].
  apply find_char_None in Ef. apply Ef.
  pose proof (lookup_lt_Some _ _ _ Hx) as Hlen.
  assert (Hc : (clamp s from <= j)%nat) by (unfold clamp, len; lia).
  apply (list_elem_of_lookup_2 _ (j - clamp s from)). rewrite lookup_drop.
  by replace (clamp s from + (j - clamp s from))%nat with j by lia.
Qed.

Section Nested.
Context (pre body post : jstring).
Context (Hbody : wellNested O body = true).

Local Abbreviation rest := (body ++ "}"%char :: post).
Local Abbreviation block := (pre ++ "{"%char :: rest).
Local Abbreviation at_ := (fun q : nat => Z.of_nat (length pre + 1 + q)).

Lemma block_at (q : nat) : block !! (length pre + 1 + q)%nat = rest !! q.
Proof.
  rewrite lookup_app_r by lia.
  by replace (length pre + 1 + q - length pre)%nat with (S q) by lia.
Qed.

Lemma rest_at (q : nat) : (q < length body)%nat -> rest !! q = body !! q.
Proof. intros Hq. by rewrite lookup_app_l. Qed.

Lemma rest_end : rest !! length body = Some "}"%char.
Proof. by rewrite list_lookup_middle. Qed.

(** The next [x] from place [m] of the body on: none, or the first. *)
Lemma next_from (x : ascii) (m : nat) :
  (indexOfFrom block [x] (at_ m) = -1 /\ forall j, (m <= j)%nat -> rest !! j <> Some x)
  \/ exists q : nat,
       (m <= q)%nat /\ indexOfFrom block [x] (at_ m) = at_ q /\ rest !! q = Some x
       /\ forall j, (m <= j < q)%nat -> rest !! j <> Some x.
Proof.
  destruct (indexOfFrom_char block x (at_ m)) as [E|(i & E & Hi & Hlen & Hx & Hfirst)];
    [lia | |].
  - left. split; [done|]. intros j Hj. rewrite <- block_at.
    apply (indexOfFrom_char_none block x (at_ m)); [lia | done | lia].
  - right. exists (i - (length pre + 1))%nat.
    replace (length pre + 1 + (i - (length pre + 1)))%nat with i by lia.
    split_and!; [lia | done | | ].
    + rewrite <- block_at. by replace (length pre + 1 + (i - (length pre + 1)))%nat with i by lia.
    + intros j Hj. rewrite <- block_at. apply Hfirst; lia.
Qed.

Lemma body_range_none (x : ascii) (m n : nat) :
  (m <= n)%nat -> (n <= length body)%nat ->
  (forall j, (m <= j < n)%nat -> rest !! j <> Some x) ->
  countChar x (take n body) = countChar x (take m body).
Proof.
  intros Hmn Hn Hnone. apply countChar_range_none; [done|].
  intros j Hj. rewrite <- rest_at by lia. by apply Hnone.
Qed.

(** The loop of [getMatchingClosingBrace] at a closing brace of the body
    or at the one after the body, when as many braces are opened before
    the place that [nextOpen] is searched from as are closed before
    [nextClose]: the result is the brace after the body. *)
Lemma closingBraceLoop_nested (fuel : nat) :
  forall m qc : nat,
  (m <= qc)%nat -> (qc <= length body)%nat ->
  rest !! qc = Some "}"%char ->
  countChar "{" (take m body) = countChar "}" (take qc body) ->
  (length body - qc + 2 <= fuel)%nat ->
  closingBraceLoop fuel block 1 (indexOfFrom block ["{"%char] (at_ m)) (at_ qc)
  = Some (at_ (length body)).
Proof.
  destruct (wellNested_counts body O Hbody) as [Hprefix Hall].
  induction fuel as [|k IH]; intros m qc Hm Hqc Hclose Hcount Hfuel; [lia|].
  rewrite closingBraceLoop_step.
  destruct (decide (1 ≠ 0)) as [_|?]; [|lia].
  destruct (decide (at_ qc = -1)) as [?|_]; [lia|].
  destruct (decide (qc = length body)) as [->|Hinside].
  - rewrite firstn_all in Hcount.
    assert (Hnone : forall j, (m <= j < length body)%nat -> rest !! j <> Some "{"%char).
    { intros j Hj Hx. rewrite rest_at in Hx by lia.
      pose proof (countChar_take_S "{" "{" body j Hx) as H1.
      change (Ascii.eqb "{" "{") with true in H1. cbv iota in H1.
      pose proof (countChar_take_le "{" body m j ltac:(lia)) as H2.
      pose proof (countChar_take_le "{" body (S j) (length body) ltac:(lia)) as H3.
      rewrite firstn_all in H3. lia. }
    assert (Hno : ~ (indexOfFrom block ["{"%char] (at_ m) ≠ -1
                     ∧ indexOfFrom block ["{"%char] (at_ m) < at_ (length body))).
    { destruct (next_from "{" m) as [[-> _]|(q & Hq & -> & Hx & _)]; [lia|].
      intros [_ Hlt].
      destruct (decide (q = length body)) as [->|Hne];
        [rewrite rest_end in Hx; done|].
      apply (Hnone q); [lia | done]. }
    destruct (decide _) as [?|_]; [done|]. cbv beta iota zeta.
    destruct (decide (1 - 1 > 0)) as [?|_]; [lia|].
    destruct k as [|k]; [lia|]. rewrite closingBraceLoop_step.
    destruct (decide (1 - 1 ≠ 0)) as [?|_]; [lia | done].
  - assert (Hat : body !! qc = Some "}"%char) by (by rewrite <- rest_at by lia).
    pose proof (countChar_take_S "}" "}" body qc Hat) as Hc1.
    change (Ascii.eqb "}" "}") with true in Hc1. cbv iota in Hc1.
    pose proof (countChar_take_S "{" "}" body qc Hat) as Hc2.
    change (Ascii.eqb "}" "{") with false in Hc2. cbv iota in Hc2.
    pose proof (Hprefix (S qc)) as Hp.
    destruct (next_from "{" m) as [[_ Hnone]|(qo & Hqo & -> & Hx & Hfirst)].
    { rewrite (body_range_none "{" m qc) in Hc2; [lia | lia | lia |].
      intros j Hj. apply Hnone. lia. }
    assert (Hlt : (qo < qc)%nat).
    { destruct (decide (qo < qc)%nat) as [|Hge]; [done|].
      rewrite (body_range_none "{" m qc) in Hc2; [lia | lia | lia |].
      intros j Hj. apply Hfirst. lia. }
    assert (Hopen : body !! qo = Some "{"%char) by (by rewrite <- rest_at by lia).
    pose proof (countChar_take_S "{" "{" body qo Hopen) as Ho.
    change (Ascii.eqb "{" "{") with true in Ho. cbv iota in Ho.
    rewrite (body_range_none "{" m qo) in Ho by (done || lia).
    destruct (decide (at_ qo ≠ -1 ∧ at_ qo < at_ qc)) as [_|Hn]; [|destruct Hn; lia].
    cbv beta iota zeta.
    destruct (decide (1 + 1 - 1 > 0)) as [_|?]; [|lia].
    change (lit "{") with ["{"%char]. change (lit "}") with ["}"%char].
    replace (at_ qo + 1) with (at_ (S qo)) by lia.
    replace (at_ qc + 1) with (at_ (S qc)) by lia.
    destruct (next_from "}" (S qc)) as [[_ Hnone]|(qc' & Hqc' & -> & Hx' & Hfirst')].
    { destruct (Hnone (length body)); [lia | apply rest_end]. }
    assert (Hle : (qc' <= length body)%nat).
    { destruct (decide (qc' <= length body)%nat) as [|Hgt]; [done|].
      destruct (Hfirst' (length body)); [lia | apply rest_end]. }
    replace (1 + 1 - 1) with 1 by lia.
    apply IH; [lia | done | done | | lia].
    rewrite (body_range_none "}" (S qc) qc') by (done || lia). lia.
Qed.

(** The closing brace that matches the first opening brace of a block is
    found, whatever braces the body holds, as long as they match. *)
Lemma getMatchingClosingBrace_nested :
  "{"%char ∉ pre ->
  getMatchingClosingBrace block = len pre + 1 + len body.
Proof.
  intros Hpre. unfold getMatchingClosingBrace. change (lit "{") with ["{"%char].
  change (lit "}") with ["}"%char].
  assert (Eopen : indexOf block ["{"%char] = len pre).
  { unfold indexOf. rewrite find_char_app, find_char_cons by done.
    rewrite Ascii.eqb_refl. simpl. unfold len. lia. }
  rewrite Eopen. destruct (decide (len pre = -1)) as [Hn|_];
    [pose proof (len_nonneg pre); lia|].
  replace (len pre + 1) with (at_ O) by (unfold len; lia).
  destruct (next_from "}" O) as [[_ Hnone]|(qc & _ & -> & Hx & Hfirst)].
  { destruct (Hnone (length body)); [lia | apply rest_end]. }
  assert (Hle : (qc <= length body)%nat).
  { destruct (decide (qc <= length body)%nat) as [|Hgt]; [done|].
    destruct (Hfirst (length body)); [lia | apply rest_end]. }
  rewrite (closingBraceLoop_nested _ O qc); [| lia | done | done | |].
  - cbn [default from_option id]. unfold len. lia.
  - rewrite (body_range_none "}" O qc) by (done || lia). done.
  - rewrite length_app, length_cons, length_app, length_cons. lia.
Qed.

End Nested.
(** ** The parse of a declaration list *)

(** One round of the loop of [buildVarList] that reads the text [first] at
    the head of the block. *)
Lemma buildVarList_round (first rest root : jstring) (expand : bool)
    (l1 : list jstring) :
  first <> [] ->
  buildVarListBody (first ++ rest) root expand 0 [] = Next (len first, l1) ->
  buildVarList (first ++ rest) root expand = l1 ++ buildVarList rest root expand.
Proof.
  intros Hne Hbody. unfold buildVarList.
  destruct (buildVarListLoop_total (S (length rest)) rest root expand 0 []) as [r Hr].
  { unfold len. lia. }
  rewrite Hr. cbn [buildVarListLoop].
  destruct (decide (0 < len (first ++ rest))) as [_|Hn].
  2:{ destruct first; [done|]. rewrite len_app in Hn. unfold len in Hn. simpl in Hn. lia. }
  rewrite Hbody.
  replace (len first) with (len first + Z.of_nat 0) by lia.
  rewrite buildVarListLoop_shift. rewrite <- (app_nil_r l1) at 1.
  rewrite buildVarListLoop_acc.
  rewrite (buildVarListLoop_fuel _ (S (length rest))).
  - change (Z.of_nat 0) with 0. by rewrite Hr.
  - rewrite length_app. destruct first; [done|]. unfold len. simpl. lia.
  - unfold len. lia.
Qed.

(** A declaration with a body between braces, the braces of the body
    matching: the body is left out of the text that the identifier is read
    from. *)
Lemma buildVarListBody_aggregate (pre body post rest root : jstring) (expand : bool) :
  ";"%char ∉ pre -> "{"%char ∉ pre ->
  wellNested O body = true ->
  ";"%char ∉ post ->
  let first := pre ++ "{"%char :: body ++ "}"%char :: post ++ [";"%char] in
  buildVarListBody (first ++ rest) root expand 0 []
  = Next (len first,
          if decide (head (extractIdentifiers (pre ++ post) root expand) ≠ Some [])
          then extractIdentifiers (pre ++ post) root expand else []).
Proof.
  intros Hsemi Hbrace Hbody Hpost first.
  set (block := first ++ rest).
  assert (Hblock : block = pre ++ "{"%char :: body ++ "}"%char :: (post ++ ";"%char :: rest)).
  { unfold block, first. by repeat first [rewrite <- app_assoc | rewrite <- app_comm_cons]. }
  unfold buildVarListBody. rewrite !substringFrom_0.
  change (lit ";") with [";"%char]. change (lit "{") with ["{"%char].
  assert (Eopen : indexOf block ["{"%char] = len pre).
  { unfold indexOf. rewrite Hblock, find_char_app, find_char_cons by done.
    rewrite Ascii.eqb_refl. simpl. unfold len. lia. }
  assert (Esemi : len pre < indexOf block [";"%char]).
  { unfold indexOf. rewrite Hblock, find_char_app, find_char_cons by done.
    destruct (Ascii.eqb_spec ";"%char "{"%char) as [?|_]; [done|].
    assert (Hin : ";"%char ∈ body ++ "}"%char :: post ++ ";"%char :: rest).
    { rewrite !elem_of_app, !elem_of_cons, !elem_of_app, !elem_of_cons. auto 10. }
    destruct (find [";"%char] _) as [i|] eqn:E; [simpl; unfold len; lia|].
    by apply find_char_None in E. }
  rewrite Eopen.
  destruct (decide (len pre ≠ -1 ∧ len pre < indexOf block [";"%char])) as [_|Hn];
    [|pose proof (len_nonneg pre); destruct Hn; split; lia].
  assert (Eclose : getMatchingClosingBrace block = len pre + 1 + len body)
    by (rewrite Hblock; by apply getMatchingClosingBrace_nested).
  rewrite Eclose.
  pose proof (len_nonneg pre). pose proof (len_nonneg body). pose proof (len_nonneg post).
  destruct (decide (len pre + 1 + len body = -1)) as [?|_]; [lia|].
  set (head := pre ++ "{"%char :: body).
  assert (Hhead : block = head ++ "}"%char :: post ++ ";"%char :: rest).
  { rewrite Hblock. unfold head. by rewrite <- app_assoc. }
  assert (Hlenhead : len head = len pre + 1 + len body).
  { unfold head. rewrite len_app, len_cons. lia. }
  assert (Eend : indexOfFrom block [";"%char] (len pre + 1 + len body)
                 = len head + 1 + len post).
  { unfold indexOfFrom, clamp.
    replace (Z.to_nat (((len pre + 1 + len body) `max` 0) `min` len block))
      with (length head).
    - rewrite Hhead, drop_app_length.
      change ("}"%char :: post ++ ";"%char :: rest)
        with (("}"%char :: post) ++ ";"%char :: rest).
      rewrite find_char_app, find_char_cons, Ascii.eqb_refl.
      + cbn [fmap option_fmap option_map length]. unfold len. lia.
      + rewrite elem_of_cons. intros [?|?]; done.
    - rewrite Hhead, len_app, len_cons, <- Hlenhead. unfold len. lia. }
  rewrite Eend.
  destruct (decide (len head + 1 + len post = -1)) as [?|_]; [lia|].
  destruct (decide (len pre + 1 + len body ≠ 0)) as [_|?]; [|lia].
  assert (E1 : substring block 0 (len pre) = pre).
  { unfold len. rewrite substring_0_take, Hblock. apply take_app_length. }
  assert (E2 : substring block (len pre + 1 + len body + 1) (len head + 1 + len post)
               = post).
  { rewrite Hhead, (cons_middle "}"%char head), app_assoc.
    apply substring_between; unfold len in *; rewrite length_app; simpl; lia. }
  rewrite E1, E2. f_equal. f_equal.
  unfold first. repeat first [rewrite len_app | rewrite len_cons | rewrite len_nil]. lia.
Qed.

Lemma buildVarList_aggregate (pre body post rest root : jstring) (expand : bool) :
  ";"%char ∉ pre -> "{"%char ∉ pre ->
  wellNested O body = true ->
  ";"%char ∉ post ->
  buildVarList (pre ++ "{"%char :: body ++ "}"%char :: post ++ ";"%char :: rest)
    root expand
  = (if decide (head (extractIdentifiers (pre ++ post) root expand) ≠ Some [])
     then extractIdentifiers (pre ++ post) root expand else [])
    ++ buildVarList rest root expand.
Proof.
  intros Hsemi Hbrace Hbody Hpost.
  pose proof (buildVarListBody_aggregate pre body post rest root expand Hsemi Hbrace
                Hbody Hpost) as Hround.
  cbv zeta in Hround. apply buildVarList_round in Hround; [|by destruct pre].
  rewrite <- Hround. f_equal.
  by repeat first [rewrite <- app_assoc | rewrite <- app_comm_cons].
Qed.

(** [extractIdentifiers] returns one text, which is empty for a rejected
    declarator. *)
Lemma extractIdentifiers_one (expr root : jstring) (expand : bool) :
  exists x, extractIdentifiers expr root expand = [x].
Proof.
  unfold extractIdentifiers.
  repeat first [destruct (decide _) | destruct expand]; by eexists.
Qed.

Lemma contribution_head (text root : jstring) (expand : bool) :
  (if decide (head (extractIdentifiers text root expand) ≠ Some [])
   then extractIdentifiers text root expand else [])
  = contribution text root expand.
Proof.
  unfold contribution. destruct (extractIdentifiers_one text root expand) as [x ->].
  cbn [head].
  destruct (decide (Some x <> Some [])) as [Hx|Hx], (decide ([x] = [ [] ])) as [Hy|Hy];
    try done.
  - by injection Hy as ->.
  - destruct Hy. f_equal. by destruct (decide (x = [])) as [->|?]; [|destruct Hx; congruence].
Qed.

Lemma buildVarList_no_semicolon (block root : jstring) (expand : bool) :
  ";"%char ∉ block -> buildVarList block root expand = [].
Proof.
  intros Hsemi. unfold buildVarList. cbn [buildVarListLoop].
  destruct (decide (0 < len block)) as [_|_]; [|done].
  unfold buildVarListBody. rewrite !substringFrom_0.
  change (lit ";") with [";"%char].
  rewrite (indexOf_char_absent ";") by done.
  destruct (decide (_ ∧ indexOf block (lit "{") < -1)) as [[Hne Hlt]|_].
  { unfold indexOf in Hlt. destruct (find (lit "{") block); lia. }
  destruct (decide (0 = -1)) as [?|_]; [done|].
  rewrite indexOfFrom_0, (indexOf_char_absent ";") by done.
  by destruct (decide (-1 = -1)).
Qed.

(** A block of declarations, each closed by a semicolon: the identifiers
    of the declarations, one after the other, read from the text without
    the bodies, and none for the rejected ones. *)
Lemma buildVarList_block (root : jstring) (expand : bool) (tail : jstring) :
  ";"%char ∉ tail ->
  forall ds : list Declaration,
  Forall wellFormed ds ->
  buildVarList (blockOf ds ++ tail) root expand
  = concat ((fun d => contribution (declaratorText d) root expand) <$> ds).
Proof.
  intros Htail ds. induction ds as [|[pre rest] ds IH]; intros Hds.
  - by apply buildVarList_no_semicolon.
  - apply Forall_cons in Hds as [(Hsemi & Hbrace & Hrest) Hds]. cbn [fst snd] in *.
    change (blockOf ((pre, rest) :: ds))
      with ((declarationText (pre, rest) ++ [";"%char]) ++ blockOf ds).
    change (concat ((fun d => contribution (declaratorText d) root expand)
                      <$> (pre, rest) :: ds))
      with (contribution (declaratorText (pre, rest)) root expand
            ++ concat ((fun d => contribution (declaratorText d) root expand) <$> ds)).
    rewrite <- IH, <- contribution_head by done.
    unfold declarationText, declaratorText. cbn [fst snd].
    destruct rest as [[body post]|].
    + destruct Hrest as [Hbody Hpost].
      rewrite <- (buildVarList_aggregate pre body post) by done. f_equal.
      by repeat first [rewrite <- app_assoc | rewrite <- app_comm_cons].
    + rewrite <- (buildVarList_declaration pre) by done. f_equal.
      by repeat first [rewrite <- app_assoc | rewrite <- app_comm_cons].
Qed.

(** X7. The parse of a declaration list goes declaration by declaration.
    A text without semicolon gives nothing.  A declaration without
    semicolon and without opening brace, closed by a semicolon, gives its
    identifiers, if it has any, followed by those of the rest of the list.
    A declaration with a body between braces (a text without semicolon and
    without opening brace, the body between its braces, a text without
    semicolon, and the semicolon) is read as the text before the body
    followed by the text after it, so the semicolons of the body end no
    declaration and its members give no identifier here.  The body may
    hold braces itself as long as they match (a body without braces is
    such a body): the closing brace of the declaration is the one that
    matches its opening brace, not the first one.  So a block of such
    declarations, followed by a text without semicolon, gives the
    identifiers read from the declarations without their bodies, in
    order. *)
Theorem declaration_list_parse (root : jstring) (expand : bool) :
  (forall block : jstring, ";"%char ∉ block -> buildVarList block root expand = [])
  /\ (forall d rest : jstring,
        ";"%char ∉ d -> "{"%char ∉ d ->
        buildVarList (d ++ ";"%char :: rest) root expand
        = (if decide (head (extractIdentifiers d root expand) ≠ Some [])
           then extractIdentifiers d root expand else [])
          ++ buildVarList rest root expand)
  /\ (forall pre body post rest : jstring,
        ";"%char ∉ pre -> "{"%char ∉ pre ->
        wellNested O body = true ->
        ";"%char ∉ post ->
        buildVarList (pre ++ "{"%char :: body ++ "}"%char :: post ++ ";"%char :: rest)
          root expand
        = (if decide (head (extractIdentifiers (pre ++ post) root expand) ≠ Some [])
           then extractIdentifiers (pre ++ post) root expand else [])
          ++ buildVarList rest root expand)
  /\ (forall body : jstring,
        "{"%char ∉ body -> "}"%char ∉ body -> wellNested O body = true)
  /\ (forall (ds : list Declaration) (tail : jstring),
        Forall wellFormed ds -> ";"%char ∉ tail ->
        buildVarList (blockOf ds ++ tail) root expand
        = concat ((fun d => contribution (declaratorText d) root expand) <$> ds)).
Proof.
  split_and!.
  - intros block. apply buildVarList_no_semicolon.
  - intros d rest. apply buildVarList_declaration.
  - intros pre body post rest. apply buildVarList_aggregate.
  - intros body. apply wellNested_flat.
  - intros ds tail Hds Htail. by apply buildVarList_block.
Qed.

Lemma declaration_list_parse_witness :
  buildVarList (lit "int a") [] false = []
  /\ buildVarList (lit "int a; char *b;") [] false
     = [ lit "a" ] ++ buildVarList (lit " char *b;") [] false
  /\ buildVarList (lit "struct {struct {int x;} in; int y;} point; int z;") [] false
     = [ lit "point" ] ++ buildVarList (lit " int z;") [] false
  /\ buildVarList
       (blockOf [ (lit "int a", None);
                  (lit " struct ", Some (lit "struct {int x;} in; int y;", lit " point"));
                  (lit " char *z", None) ]
        ++ lit " ") [] false
     = [ lit "a"; lit "point"; lit "z" ].
Proof.
  destruct (declaration_list_parse [] false) as (H1 & H2 & H3 & _ & H5).
  split_and!.
  - apply H1. by apply absent_char.
  - apply (H2 (lit "int a") (lit " char *b;")); by apply absent_char.
  - apply (H3 (lit "struct ") (lit "struct {int x;} in; int y;") (lit " point")
             (lit " int z;"));
      [by apply absent_char | by apply absent_char | reflexivity | by apply absent_char].
  - rewrite H5; [reflexivity | | by apply absent_char].
    repeat (apply Forall_cons; split;
            [unfold wellFormed; cbn [fst snd]; split_and!;
             first [by apply absent_char | reflexivity]|]).
    apply Forall_nil_2.
Defined.
(** ** Declarations that give no identifier *)

(** C8, as the code has it.  A declarator in which a second [[] follows
    the first gives no identifier.  A declarator without [[] and [*] gives
    no identifier when the mark [" : "] of a bit field is in the text that
    the cleaning leaves (the two replacements, then the trim); it is there
    when the declarator is [pre : post] with no other colon and something
    other than blanks on both sides.  The mark in the text as it is given
    is not enough: the trim takes the blank at the end of ["int a : "], the
    mark is gone and the identifier [":"] comes out.  A rejected
    declaration does not stop the parse of the declaration list: for a
    block of declarations that are each closed by a semicolon, with or
    without a body between matching braces (no semicolon and no opening
    brace before the body, no semicolon between the body and the
    semicolon that closes the declaration), followed by a text without
    semicolon, the result holds the identifiers of all declarations that
    are not rejected, in their order, and nothing for the rejected ones,
    wherever they stand. *)
Theorem rejected_declarators :
  (forall (expr root : jstring) (expand : bool) (a b c : jstring),
     expr = a ++ "["%char :: b ++ "["%char :: c ->
     extractIdentifiers expr root expand = [ [] ])
  /\ (forall (expr root : jstring) (expand : bool),
        "["%char ∉ expr -> "*"%char ∉ expr ->
        (exists pre post, cleanDeclarator expr = pre ++ lit " : " ++ post) ->
        extractIdentifiers expr root expand = [ [] ])
  /\ (forall (pre post root : jstring) (expand : bool),
        ":"%char ∉ pre -> ":"%char ∉ post ->
        (exists c, c ∈ pre /\ isWhiteSpace c = false) ->
        (exists c, c ∈ post /\ isWhiteSpace c = false) ->
        "["%char ∉ pre ++ post -> "*"%char ∉ pre ++ post ->
        extractIdentifiers (pre ++ lit " : " ++ post) root expand = [ [] ])
  /\ (forall (ds : list Declaration) (tail root : jstring) (expand : bool),
        Forall wellFormed ds ->
        ";"%char ∉ tail ->
        buildVarList (blockOf ds ++ tail) root expand
        = concat ((fun d => contribution (declaratorText d) root expand) <$> ds))
  /\ (forall (text root : jstring) (expand : bool),
        extractIdentifiers text root expand = [ [] ] ->
        contribution text root expand = []).
Proof.
  split_and!.
  - intros expr root expand a b c. apply extractIdentifiers_multidimensional.
  - intros expr root expand Hbracket Hstar Hmark.
    apply extractIdentifiers_bitfield; [done | done |]. by apply indexOf_occurs.
  - intros pre post root expand Hpre Hpost Hleft Hright Hopen Hstar.
    assert (Hin : forall x : ascii,
              x ∉ pre ++ post -> x ∉ lit " : " -> x ∉ pre ++ lit " : " ++ post).
    { intros x. rewrite !elem_of_app. tauto. }
    apply extractIdentifiers_bitfield.
    + apply Hin; [done|]. intros H%list_elem_of_In. vm_compute in H. intuition discriminate.
    + apply Hin; [done|]. intros H%list_elem_of_In. vm_compute in H. intuition discriminate.
    + apply indexOf_occurs. rewrite cleanDeclarator_bitfield by done.
      by exists (trimStart pre), (trimEnd post).
  - intros ds tail root expand Hds Htail. by apply buildVarList_block.
  - intros text root expand Hrejected. unfold contribution.
    by destruct (decide _).
Qed.

Lemma rejected_declarators_witness :
  extractIdentifiers (lit "12:	int matrix[2][3]") (lit "s.") true = [ [] ]
  /\ extractIdentifiers (lit "unsigned int ready : 1") [] false = [ [] ]
  /\ buildVarList
       (blockOf [ (lit "int a", None);
                  (lit " unsigned b : 3", None);
                  (lit " struct ", Some (lit "int x; int y;", lit " grid[2][3]"));
                  (lit " char *z", None) ]
        ++ lit " ") [] false
     = [ lit "a"; lit "z" ].
Proof.
  destruct rejected_declarators as (H1 & H2 & _ & H4 & _).
  split_and!.
  - apply (H1 _ _ _ (lit "12:	int matrix") (lit "2]") (lit "3]")). reflexivity.
  - apply H2; [by apply absent_char | by apply absent_char |].
    by exists (lit "unsigned int ready"), (lit "1").
  - rewrite H4; [reflexivity | | by apply absent_char].
    repeat (apply Forall_cons; split;
            [unfold wellFormed; cbn [fst snd]; split_and!;
             first [by apply absent_char | reflexivity]|]).
    apply Forall_nil_2.
Defined.

(** The mark of a bit field in the text as it is given: ["int a : "] has
    neither [[] nor [*] and holds [" : "], and the identifier [":"] is
    emitted for it; the declaration list gets it too. *)
Lemma bitfield_marker_counterexample :
  let text := lit "int a : " in
  ("["%char ∉ text) /\ ("*"%char ∉ text)
  /\ text = lit "int a" ++ lit " : " ++ []
  /\ cleanDeclarator text = lit "int a :"
  /\ extractIdentifiers text [] false = [ lit ":" ]
  /\ buildVarList (lit "int a : ; int z;") [] false = [ lit ":"; lit "z" ].
Proof.
  intros text. split_and!; try reflexivity; by apply absent_char.
Qed.
(** ** The listing of the variables *)

Lemma occurs_skip (x : ascii) (q a s : jstring) :
  x ∉ a -> occurs (x :: q) (a ++ s) -> occurs (x :: q) s.
Proof.
  induction a as [|c a IH]; intros Hx; [done|].
  apply not_elem_of_cons in Hx as [Hne Hx]. intros (u & v & Heq).
  destruct u as [|c' u]; [by injection Heq as -> _|].
  injection Heq as _ Heq. apply IH; [done|]. by exists u, v.
Qed.

(** An occurrence in two texts put together lies in one of them, when the
    second one starts with a character that the pattern holds nowhere
    after its first place. *)
Lemma occurs_app (x y : ascii) (q s t : jstring) :
  y ∉ q -> occurs (x :: q) (s ++ y :: t) ->
  occurs (x :: q) s \/ occurs (x :: q) (y :: t).
Proof.
  intros Hy (a & b & Heq). apply app_eq_inv in Heq as [(k & -> & Hk)|(k & -> & Hk)].
  - apply app_eq_inv in Hk as [(k' & Hp & Hk')|(k' & -> & ->)].
    + destruct k' as [|c' k'].
      * left. exists a, []. by rewrite app_nil_r in Hp |- *; rewrite Hp.
      * injection Hk' as <- Ht. destruct k as [|c k].
        { right. exists [], b. by rewrite Hp, Ht. }
        injection Hp as _ Hq. destruct Hy. rewrite Hq, elem_of_app. right.
        apply list_elem_of_here.
    + left. by exists a, k'.
  - right. by exists k, b.
Qed.

Lemma find_first_marker (x : ascii) (q s r : jstring) :
  x ∉ q -> ~ occurs (x :: q) s ->
  find (x :: q) (s ++ (x :: q) ++ r) = Some (length s).
Proof.
  intros Hx Hs. apply find_first.
  - by rewrite drop_app_length, startsWith_app_l.
  - rewrite length_app. lia.
  - intros j Hj. destruct (startsWith (drop j _) (x :: q)) eqn:E; [|done].
    apply startsWith_spec in E as [t Ht]. rewrite drop_app_le in Ht by lia.
    apply app_eq_inv in Ht as [(k & Hk & _)|(k & Hk & Hk')].
    + destruct Hs. exists (take j s), k.
      by rewrite <- Hk, take_drop.
    + destruct (drop j s) as [|c s'] eqn:Es.
      { apply (f_equal length) in Es. rewrite length_drop in Es. cbn [length] in Es. lia. }
      injection Hk as <- Hq. destruct k as [|c k].
      * destruct Hs. exists (take j s), [].
        by rewrite Hq, app_nil_r, app_nil_r, <- Es, take_drop.
      * injection Hk' as <- _. destruct Hx. rewrite Hq, elem_of_app. right.
        apply list_elem_of_here.
Qed.

Lemma find_absent (p s : jstring) : ~ occurs p s -> find p s = None.
Proof.
  intros Hs. apply indexOf_none. destruct (decide (indexOf s p = -1)) as [|Hfound]; [done|].
  apply indexOf_occurs in Hfound as (a & b & ->). destruct Hs. by exists a, b.
Qed.

(** A search that starts where the text [a] ends. *)
Lemma indexOfFrom_app (a s p : jstring) (from : Z) :
  from = len a ->
  indexOfFrom (a ++ s) p from
  = match find p s with Some i => len a + Z.of_nat i | None => -1 end.
Proof.
  intros ->. unfold indexOfFrom, clamp. rewrite len_app.
  pose proof (len_nonneg a). pose proof (len_nonneg s).
  replace (Z.to_nat ((len a `max` 0) `min` (len a + len s))) with (length a)
    by (unfold len in *; lia).
  rewrite drop_app_length. destruct (find p s); [unfold len; lia | done].
Qed.

Section Listing.
Variable host : Host.
Variable expand : bool.

(** One round of the loop, at the start of the section of a file that is
    followed by another section or by the symbols without debugging
    information. *)
Lemma parseBlocksLoop_section (k : nat) (before rest : jstring)
    (file : jstring * jstring) (ended : bool) (acc : list (jstring * list jstring)) :
  plainSection host file ->
  (exists rest', rest = lit "File " ++ rest' /\ ended = false)
  \/ (exists tail, rest = lit "Non-debugging symbols:" ++ tail
                   /\ ~ occurs (lit "File ") tail /\ ended = true) ->
  parseBlocksLoop host (S k) (before ++ fileSection host file ++ rest) expand
    (len before) false acc
  = parseBlocksLoop host k (before ++ fileSection host file ++ rest) expand
      (len (before ++ fileSection host file)) ended (acc ++ [sectionEntry expand file]).
Proof.
  destruct file as [name block]. intros (Hname & Hfile & Hnon) Hrest.
  cbn [fst snd] in Hname, Hfile, Hnon.
  set (END_NAME := lit ":" ++ EOL host) in *.
  set (body := name ++ END_NAME ++ block) in *.
  set (data := before ++ fileSection host (name, block) ++ rest).
  assert (Hdata : data = (before ++ ["F"%char]) ++ (lit "ile " ++ body) ++ rest).
  { unfold data, fileSection, body. cbn [fst snd]. fold END_NAME.
    change (lit "File ") with ("F"%char :: lit "ile ").
    by repeat first [rewrite <- app_assoc | rewrite <- app_comm_cons]. }
  assert (Hskip : ~ occurs (lit "File ") (lit "ile " ++ body)).
  { intros H. apply Hfile. eapply occurs_skip; [|exact H]. by apply absent_char. }
  assert (Hskip' : ~ occurs (lit "Non-debugging symbols:") (lit "ile " ++ body)).
  { intros H. apply Hnon. eapply occurs_skip; [|exact H]. by apply absent_char. }
  pose proof (len_nonneg before) as Hb.
  assert (Hsection : len (before ++ fileSection host (name, block))
                     = len before + 1 + len (lit "ile " ++ body)).
  { unfold fileSection, body. cbn [fst snd]. fold END_NAME.
    change (lit "File ") with ("F"%char :: lit "ile ").
    repeat first [rewrite len_app | rewrite len_cons]. lia. }
  assert (Hend : indexOfFrom data END_NAME (len before)
                 = len (before ++ (lit "File ") ++ name)).
  { unfold data, fileSection. cbn [fst snd]. fold END_NAME. rewrite indexOfFrom_app by done.
    rewrite <- !app_assoc, (app_assoc (lit "File ") name).
    rewrite (find_after_prefix END_NAME (lit "File " ++ name) _ ":"%char (EOL host));
      [| done |].
    - rewrite !len_app. unfold len. rewrite length_app. lia.
    - rewrite elem_of_app. intros [H|H]; [|done]. revert H. by apply absent_char. }
  assert (Hfilename : substring data (len before + len (lit "File "))
                        (len (before ++ lit "File " ++ name))
                      = name).
  { unfold data, fileSection. cbn [fst snd]. fold END_NAME.
    rewrite (app_assoc before (lit "File ")), <- !app_assoc, (app_assoc before (lit "File ")).
    apply substring_between; rewrite !len_app; lia. }
  assert (Hblock : substring data (len (before ++ lit "File " ++ name) + len END_NAME)
                     (len (before ++ fileSection host (name, block)))
                   = block).
  { unfold data, fileSection. cbn [fst snd]. fold END_NAME.
    replace (before ++ ((lit "File ") ++ name ++ END_NAME ++ block) ++ rest)
      with ((before ++ (lit "File ") ++ name ++ END_NAME) ++ block ++ rest)
      by (by rewrite <- !app_assoc).
    apply substring_between; rewrite !len_app; lia. }
  assert (Hfollow :
    (indexOfFrom data (lit "File ") (len before + 1)
       = len (before ++ fileSection host (name, block)) /\ ended = false)
    \/ (indexOfFrom data (lit "File ") (len before + 1) = -1
        /\ indexOfFrom data (lit "Non-debugging symbols:") (len before + 1)
           = len (before ++ fileSection host (name, block))
        /\ ended = true)).
  { rewrite Hdata, !indexOfFrom_app by (rewrite len_app, len_cons, len_nil; lia).
    rewrite Hsection, len_app, len_cons, len_nil.
    destruct Hrest as [(rest' & -> & ->)|(tail & -> & Htail & ->)].
    - left. change (lit "File ") with ("F"%char :: lit "ile ") at 1.
      rewrite find_first_marker; [|by apply absent_char | done].
      split; [unfold len; lia | done].
    - right. rewrite (find_absent (lit "File ")).
      + change (lit "Non-debugging symbols:") with ("N"%char :: lit "on-debugging symbols:").
        rewrite find_first_marker; [|by apply absent_char | done].
        split_and!; [done | unfold len; lia | done].
      + intros H.
        change (lit "Non-debugging symbols:") with ("N"%char :: lit "on-debugging symbols:")
          in H.
        rewrite <- app_comm_cons in H.
        apply (occurs_app "F" "N" (lit "ile ")) in H as [H|H]; [done | | by apply absent_char].
        apply Htail. apply (occurs_skip "F" (lit "ile ") (lit "Non-debugging symbols:"));
          [by apply absent_char | done]. }
  pose proof (len_nonneg (before ++ (lit "File ") ++ name)) as Hpos.
  pose proof (len_nonneg (before ++ fileSection host (name, block))) as Hpos'.
  cbn [parseBlocksLoop].
  destruct (decide (len before ≠ -1 ∧ false = false)) as [_|Hn]; [|destruct Hn; split; [lia|done]].
  fold END_NAME. fold data.
  rewrite Hend, Hfilename.
  destruct Hfollow as [[-> ->]|(-> & -> & ->)].
  - destruct (decide (_ = -1)) as [?|_]; [lia|].
    destruct (decide (_ = -1)) as [?|_]; [lia|].
    destruct (decide (_ = -1)) as [?|_]; [lia|]. by rewrite Hblock.
  - destruct (decide (-1 = -1)) as [_|?]; [|done].
    destruct (decide (_ = -1)) as [?|_]; [lia|].
    destruct (decide (_ = -1)) as [?|_]; [lia|]. by rewrite Hblock.
Qed.

(** The sections of the files, one round each. *)
Lemma parseBlocksLoop_sections (tail : jstring) :
  ~ occurs (lit "File ") tail ->
  forall (files : list (jstring * jstring)) (file : jstring * jstring) (before : jstring)
         (acc : list (jstring * list jstring)) (fuel : nat),
  Forall (plainSection host) (file :: files) ->
  (length files + 2 <= fuel)%nat ->
  parseBlocksLoop host fuel
    (before ++ concat (fileSection host <$> file :: files) ++ (lit "Non-debugging symbols:") ++ tail) expand
    (len before) false acc
  = Some (acc ++ (sectionEntry expand <$> file :: files)).
Proof.
  intros Htail. induction files as [|next files IH]; intros file before acc fuel Hall Hfuel.
  - destruct fuel as [|[|k]]; [cbn [length] in Hfuel; lia..|].
    rewrite Forall_singleton in Hall.
    cbn [fmap list_fmap concat]. rewrite app_nil_r.
    rewrite (parseBlocksLoop_section _ _ _ _ true); [| done |].
    + cbn [parseBlocksLoop]. by destruct (decide (_ ∧ true = false)) as [[_ ?]|_].
    + right. by exists tail.
  - destruct fuel as [|k]; [lia|]. cbn [length] in Hfuel.
    rewrite Forall_cons in Hall. destruct Hall as [Hfile Hall].
    change (concat (fileSection host <$> file :: next :: files))
      with (fileSection host file ++ concat (fileSection host <$> next :: files)).
    rewrite <- (app_assoc (fileSection host file)).
    rewrite (parseBlocksLoop_section _ _ _ _ false); [| done |].
    + rewrite (app_assoc before). rewrite IH; [|done | lia].
      by rewrite <- app_assoc.
    + left. eexists. split; [|done].
      cbn [fmap list_fmap concat]. unfold fileSection at 1.
      by rewrite <- !app_assoc.
Qed.

End Listing.

Lemma length_sections (host : Host) (files : list (jstring * jstring)) :
  (length files <= length (concat (fileSection host <$> files)))%nat.
Proof.
  induction files as [|file files IH]; [done|].
  cbn [fmap list_fmap concat length]. rewrite length_app. unfold fileSection at 1.
  rewrite length_app. cbn [length lit String.list_ascii_of_string]. lia.
Qed.

Lemma indexOfFrom_absent (s p : jstring) (from : Z) :
  ~ occurs p s -> indexOfFrom s p from = -1.
Proof.
  intros Hs. unfold indexOfFrom. destruct (find p _) as [i|] eqn:E; [|done].
  apply find_Some in E as (E & _ & _). apply startsWith_spec in E as [r Hr].
  destruct Hs. exists (take (clamp s from + i) s), r.
  by rewrite <- Hr, drop_drop, take_drop.
Qed.

(** A text in which the search finds nothing holds no occurrence. *)
Lemma absent_text (p s : jstring) : find p s = None -> ~ occurs p s.
Proof.
  intros E (a & b & ->). destruct (find_occurrence p a b) as (i & Hi & _). congruence.
Qed.

Lemma parseGdbVariablesInfo_no_file (host : Host) (expand : bool) (data : jstring) :
  ~ occurs (lit "File ") data -> parseGdbVariablesInfo host data expand = [].
Proof.
  intros Hdata. unfold parseGdbVariablesInfo, indexOf.
  rewrite find_absent by done. cbn [parseBlocksLoop].
  by destruct (decide (-1 ≠ -1 ∧ false = false)) as [[? _]|_].
Qed.

Lemma parseGdbVariablesInfo_no_name (host : Host) (expand : bool) (data : jstring) :
  ~ occurs (lit ":" ++ EOL host) data -> parseGdbVariablesInfo host data expand = [].
Proof.
  intros Hdata. unfold parseGdbVariablesInfo. cbn [parseBlocksLoop].
  destruct (decide (_ ≠ -1 ∧ false = false)) as [_|_]; [|done].
  destruct (if decide (indexOfFrom data (lit "File ") _ = -1) then _ else _) as [e1 b1].
  destruct (if decide (e1 = -1) then _ else _) as [e2 b2].
  rewrite indexOfFrom_absent by done. by destruct (decide (-1 = -1)).
Qed.

(** X8. What [parseGdbVariablesInfo] makes of a reply to [info variables]:
    without the marker ["File "] the result is empty; without a colon
    followed by the end of a line the result is empty as well; and a
    listing, made of a heading, the sections of the files and the symbols
    without debugging information, gives one entry per section, in order,
    with the name of the file and the identifiers of its declarations.
    The name of a file holds no colon, and neither of the two markers
    occurs in the heading or in a section. *)
Theorem listing_parse (host : Host) (expand : bool) :
  (forall data : jstring,
     ~ occurs (lit "File ") data -> parseGdbVariablesInfo host data expand = [])
  /\ (forall data : jstring,
        ~ occurs (lit ":" ++ EOL host) data -> parseGdbVariablesInfo host data expand = [])
  /\ (forall (heading : jstring) (files : list (jstring * jstring)) (tail : jstring),
        ~ occurs (lit "File ") heading ->
        Forall (plainSection host) files ->
        ~ occurs (lit "File ") tail ->
        parseGdbVariablesInfo host (listing host heading files tail) expand
        = sectionEntry expand <$> files).
Proof.
  split_and!.
  - intros data. apply parseGdbVariablesInfo_no_file.
  - intros data. apply parseGdbVariablesInfo_no_name.
  - intros heading files tail Hheading Hfiles Htail.
    destruct files as [|file files].
    + apply parseGdbVariablesInfo_no_file. unfold listing. cbn [fmap list_fmap concat app]. intros H.
      change (lit "Non-debugging symbols:") with ("N"%char :: lit "on-debugging symbols:")
        in H.
      rewrite <- app_comm_cons in H.
      apply (occurs_app "F" "N" (lit "ile ")) in H as [H|H]; [done | | by apply absent_char].
      apply Htail. apply (occurs_skip "F" (lit "ile ") (lit "Non-debugging symbols:"));
        [by apply absent_char | done].
    + unfold parseGdbVariablesInfo, indexOf, listing.
      assert (Hfirst : find (lit "File ")
                         (heading ++ concat (fileSection host <$> file :: files)
                          ++ lit "Non-debugging symbols:" ++ tail)
                       = Some (length heading)).
      { cbn [fmap list_fmap concat]. unfold fileSection at 1.
        rewrite <- !app_assoc.
        by apply (find_first_marker "F" (lit "ile ")); [apply absent_char|]. }
      rewrite Hfirst.
      rewrite (parseBlocksLoop_sections host expand tail Htail files file heading []);
        [done | done |].
      rewrite !length_app. pose proof (length_sections host (file :: files)) as Hlen.
      cbn [length] in Hlen |- *. lia.
Qed.

Lemma listing_parse_witness :
  parseGdbVariablesInfo sampleHost
    (listing sampleHost (lines "All defined variables:||")
       [ (lit "main.c", lines "|int counter;|static char *name;||") ]
       (lines "|0x08000000  _start|(gdb) "))
    false
  = [ (lit "main.c", buildVarList (lines "|int counter;|static char *name;||") [] false) ].
Proof.
  destruct (listing_parse sampleHost false) as (_ & _ & H).
  apply (H (lines "All defined variables:||")
           [ (lit "main.c", lines "|int counter;|static char *name;||") ]
           (lines "|0x08000000  _start|(gdb) ")).
  - by apply absent_text.
  - apply Forall_singleton. split_and!; [by apply absent_char | by apply absent_text..].
  - by apply absent_text.
Defined.
(** ** The members of a structure *)

Lemma alter_new_entry (n : TgdbVariablesInfo) (file : jstring) (refs : list nat) :
  alter (pushIdentifiers refs) (length n) (n ++ [mkVariableInfo file []])
  = n ++ [mkVariableInfo file refs].
Proof.
  by rewrite <- (Nat.add_0_r (length n)), alter_app_r.
Qed.

(** X9. The reply to [ptype] for a variable of a structure or union type
    with a body without inner braces: when no star follows the closing
    brace, [extractType] returns the empty text, takes the variable out of
    the collection, and adds one object per member, named after the
    variable, a dot and the member, to the store and to the entry of the
    file in the new collection (a fresh entry if the file has none); the
    stars of the body do not count.  When a star follows the closing
    brace, the reply is the type of a pointer: it is returned as it is
    and nothing else changes. *)
Theorem extractType_aggregate (host : Host) (s : Store) (v n : TgdbVariablesInfo)
    (file keyword tag body post root : jstring) (hierarchy : option jstring)
    (expand : bool) :
  keyword = lit "struct " \/ keyword = lit "union " ->
  "{"%char ∉ tag -> "{"%char ∉ body -> "}"%char ∉ body ->
  (forall c, last post = Some c -> isWhiteSpace c = false) ->
  let expr := keyword ++ tag ++ "{"%char :: body ++ "}"%char :: post in
  let members :=
    (fun member => mkIdentifier member None None None (Some []))
      <$> buildVarList body (root ++ lit ".") expand in
  let refs := seq (length s) (length members) in
  ("*"%char ∉ post ->
   extractType host s v n file expr root hierarchy expand
   = ([], s ++ members, removeRootIdentifier s file root v,
      match findFilename file n with
      | Some position => alter (pushIdentifiers refs) position n
      | None => n ++ [mkVariableInfo file refs]
      end))
  /\ ("*"%char ∈ post ->
      extractType host s v n file expr root hierarchy expand = (expr, s, v, n)).
Proof.
  intros Hkeyword Htag Hbody Hclose Hlast expr members refs.
  assert (Hopen : "{"%char ∉ keyword ++ tag).
  { rewrite elem_of_app. intros [H|H]; [|done]. revert H.
    destruct Hkeyword as [-> | ->]; by apply absent_char. }
  assert (Hexpr : expr = (keyword ++ tag) ++ "{"%char :: body ++ "}"%char :: post)
    by (unfold expr; by rewrite <- app_assoc).
  assert (Htrim : trim expr = expr).
  { apply trim_id.
    - unfold expr. destruct Hkeyword as [-> | ->]; by intros c [= <-].
    - intros c. rewrite Hexpr, last_app, last_cons, last_app, last_cons.
      destruct (last post) as [x|] eqn:E; [intros [= <-]; by apply Hlast | by intros [= <-]]. }
  assert (Hplain : removeStorageClassSpecifier expr = expr).
  { apply (removeStorageClassSpecifier_strips [] expr); [constructor|].
    apply noStorageMarker_computed. unfold expr.
    by destruct Hkeyword as [-> | ->]. }
  assert (Hkind : startsWith expr (lit "struct ") || startsWith expr (lit "union ")
                  || startsWith expr (lit "class ") = true
                  /\ startsWith expr (lit "class ") = false).
  { unfold expr. by destruct Hkeyword as [-> | ->]. }
  destruct Hkind as [Hkind Hclass].
  assert (Hfirst : indexOf expr (lit "{") = len (keyword ++ tag)).
  { rewrite Hexpr. unfold indexOf. change (lit "{") with ["{"%char].
    rewrite find_char_app, find_char_cons, Ascii.eqb_refl by done.
    cbn [fmap option_fmap option_map]. unfold len. lia. }
  assert (Hmatch : getMatchingClosingBrace expr = len (keyword ++ tag) + 1 + len body)
    by (rewrite Hexpr; by apply getMatchingClosingBrace_body).
  assert (Hstar : indexOfFrom expr (lit "*") (len (keyword ++ tag) + 1 + len body + 1)
                  = match find (lit "*") post with
                    | Some i => len (keyword ++ tag) + 1 + len body + 1 + Z.of_nat i
                    | None => -1
                    end).
  { replace expr with (((keyword ++ tag) ++ "{"%char :: body ++ ["}"%char]) ++ post).
    - rewrite indexOfFrom_app.
      + destruct (find (lit "*") post); [|done].
        repeat first [rewrite len_app | rewrite len_cons | rewrite len_nil]. lia.
      + repeat first [rewrite len_app | rewrite len_cons | rewrite len_nil]. lia.
    - rewrite Hexpr. by repeat first [rewrite <- app_assoc | rewrite <- app_comm_cons]. }
  assert (Hblock : substring expr (len (keyword ++ tag) + 1)
                     (len (keyword ++ tag) + 1 + len body) = body).
  { replace expr with (((keyword ++ tag) ++ ["{"%char]) ++ body ++ "}"%char :: post).
    - apply substring_between;
        repeat first [rewrite len_app | rewrite len_cons | rewrite len_nil]; lia.
    - rewrite Hexpr. by repeat first [rewrite <- app_assoc | rewrite <- app_comm_cons]. }
  pose proof (len_nonneg (keyword ++ tag)) as Hpos. pose proof (len_nonneg body) as Hpos'.
  split; intros Hpost; unfold extractType; cbv zeta;
    rewrite Htrim, Hplain, Hkind, Hclass, Hfirst, Hmatch, Hstar; cbn [andb];
    (destruct (decide (len (keyword ++ tag) = -1)) as [?|_]; [lia|]);
    (destruct (decide (len (keyword ++ tag) + 1 + len body = -1)) as [?|_]; [lia|]).
  - change (lit "*") with ["*"%char]. rewrite (proj2 (find_char_None _ _)) by done.
    destruct (decide (-1 = -1)) as [_|?]; [|done].
    rewrite Hblock. fold members. rewrite app_nil_r. fold refs.
    destruct (findFilename file n) as [position|]; [done|].
    by rewrite alter_new_entry.
  - change (lit "*") with ["*"%char].
    destruct (find ["*"%char] post) as [i|] eqn:E; [|by apply find_char_None in E].
    by destruct (decide (_ = -1)) as [?|_]; [lia|].
Qed.

Lemma extractType_aggregate_witness :
  extractType sampleHost [mkIdentifier (lit "point") None None None None]
    [mkVariableInfo (lit "main.c") [O]] [] (lit "main.c")
    (lit "struct " ++ [] ++ "{"%char :: lines "|    int x;|    char *label;|" ++ "}"%char :: [])
    (lit "point") None false
  = ([], [mkIdentifier (lit "point") None None None None;
          mkIdentifier (lit "point.x") None None None (Some []);
          mkIdentifier (lit "point.label") None None None (Some [])],
     [mkVariableInfo (lit "main.c") []],
     [mkVariableInfo (lit "main.c") [1%nat; 2%nat]]).
Proof.
  destruct (extractType_aggregate sampleHost [mkIdentifier (lit "point") None None None None]
              [mkVariableInfo (lit "main.c") [O]] [] (lit "main.c")
              (lit "struct ") [] (lines "|    int x;|    char *label;|") [] (lit "point")
              None false) as [H _];
    [by left | by apply absent_char | by apply absent_char | by apply absent_char | done |].
  rewrite H by (by apply absent_char). by vm_compute.
Defined.
(** ** The course of a session *)

Lemma commands_app (l k : list Event) : commands (l ++ k) = commands l ++ commands k.
Proof. unfold commands. induction l as [|[] l IH]; cbn; by rewrite ?IH. Qed.

Lemma commands_writes (l : list jstring) : commands (StdinWrite <$> l) = l.
Proof. induction l as [|c l IH]; [done|]. cbn. f_equal. apply IH. Qed.

(** [storeAllElementsFromGdb] writes nothing and keeps the state. *)
Lemma storeAllElementsFromGdb_silent (host : Host) (gdbResponse : jstring)
    (info : InformationType) (p : ElfParser) :
  let p' := (storeAllElementsFromGdb host gdbResponse info p).1 in
  settingsKept p p' /\ currentState p' = currentState p /\ events p' = events p.
Proof.
  unfold storeAllElementsFromGdb, settingsKept.
  destruct (scanFiles _ _ _ _ _) as [[f i]|].
  - destruct (gdbVariablesInfo p !! f) as [entry|]; [|done].
    destruct (identifiersList entry !! i) as [r|]; [|done].
    destruct (store p !! r) as [element|]; [|done]. cbn [fst]. fields.
    destruct info; [done | | |].
    + by rewrite storeElement_TYPE.
    + unfold storeElement. by destruct (type element).
    + done.
  - by destruct (decide _).
Qed.

(** The commands of [requestAllElementsToGdb]; none of them is [quit]. *)
Lemma requestAllElementsToGdb_commands (info : InformationType) (p : ElfParser) :
  let p' := requestAllElementsToGdb info p in
  settingsKept p p'
  /\ exists new, events p' = events p ++ (StdinWrite <$> new) /\ GDB_QUIT ∉ new.
Proof.
  unfold requestAllElementsToGdb, settingsKept. cbv zeta.
  set (elements := elementsOf (store p) (gdbVariablesInfo p)).
  destruct info; fields.
  - split; [done|]. exists []. cbn [fmap list_fmap].
    split; [by rewrite app_nil_r | by intros ?%elem_of_nil].
  - split; [done|].
    assert (H : exists new, concat (typeCommand <$> elements) = StdinWrite <$> new
                            /\ GDB_QUIT ∉ new).
    { induction elements as [|element elements (new & E & Hnew)];
        [exists []; split; [done | by intros ?%elem_of_nil]|].
      cbn [fmap list_fmap concat]. rewrite E. unfold typeCommand.
      destruct (type element) as [t|].
      - destruct (firstCharIs t "?"); [|by exists new].
        eexists (_ :: new). split; [done|]. by rewrite elem_of_cons; intros [?|?].
      - eexists (_ :: new). split; [done|]. by rewrite elem_of_cons; intros [?|?]. }
    destruct H as (new & -> & Hnew). exists (new ++ [lit "StopRequestType" ++ LF]).
    split; [by rewrite fmap_app|]. rewrite elem_of_app, list_elem_of_singleton.
    by intros [?|?].
  - split; [done|].
    exists (((fun element => GDB_GET_SIZE_HEAD ++ identifier element ++ GDB_GET_SIZE_TAIL)
               <$> elements) ++ [lit "StopRequestSize" ++ LF]).
    split; [by rewrite fmap_app, <- list_fmap_compose|].
    rewrite elem_of_app, list_elem_of_fmap, list_elem_of_singleton.
    by intros [(element & ? & _)|?].
  - split; [done|].
    exists (((fun element =>
                GDB_GET_ADDRESS_HEAD ++ identifier element ++ GDB_GET_ADDRESS_TAIL)
               <$> elements) ++ [lit "StopRequestAddress" ++ LF]).
    split; [by rewrite fmap_app, <- list_fmap_compose|].
    rewrite elem_of_app, list_elem_of_fmap, list_elem_of_singleton.
    by intros [(element & ? & _)|?].
Qed.

(** What one reply does: the parameters stay, the state does not go back,
    and only commands are added to the events; [quit] is the command of
    the reply that ends the session, and of no other. *)
Lemma handleResponse_course (host : Host) (fuel : nat) (p p' : ElfParser)
    (gdbResponse : jstring) :
  handleResponse host fuel p gdbResponse = Some p' ->
  settingsKept p p'
  /\ (stage (currentState p) <= stage (currentState p'))%nat
  /\ exists new,
       events p' = events p ++ (StdinWrite <$> new)
       /\ (currentState p = IDLE -> new = [])
       /\ (currentState p <> IDLE ->
           if decide (currentState p' = IDLE) then new = [GDB_QUIT] else GDB_QUIT ∉ new).
Proof.
  assert (Hone : forall (q : ElfParser) (state : State) (command : jstring),
            state <> IDLE -> command <> GDB_QUIT ->
            currentState q <> IDLE ->
            (stage (currentState q) <= stage state)%nat ->
            settingsKept q (sendCommandToGdb command (set_currentState state q))
            /\ (stage (currentState q)
                <= stage (currentState (sendCommandToGdb command (set_currentState state q))))%nat
            /\ exists new,
                 events (sendCommandToGdb command (set_currentState state q))
                 = events q ++ (StdinWrite <$> new)
                 /\ (currentState q = IDLE -> new = [])
                 /\ (currentState q <> IDLE ->
                     if decide (currentState (sendCommandToGdb command
                                                (set_currentState state q)) = IDLE)
                     then new = [GDB_QUIT] else GDB_QUIT ∉ new)).
  { intros q state command Hstate Hcommand Hq Hstage. unfold settingsKept. fields.
    split_and!; [done..|].
    exists [command]. split_and!; [done..|]. intros _.
    destruct (decide (state = IDLE)); [done|].
    rewrite list_elem_of_singleton. congruence. }
  assert (Hquit : forall q : ElfParser,
            currentState q <> IDLE ->
            settingsKept q (sendCommandToGdb GDB_QUIT (set_currentState IDLE q))
            /\ (stage (currentState q)
                <= stage (currentState (sendCommandToGdb GDB_QUIT (set_currentState IDLE q))))%nat
            /\ exists new,
                 events (sendCommandToGdb GDB_QUIT (set_currentState IDLE q))
                 = events q ++ (StdinWrite <$> new)
                 /\ (currentState q = IDLE -> new = [])
                 /\ (currentState q <> IDLE ->
                     if decide (currentState (sendCommandToGdb GDB_QUIT
                                                (set_currentState IDLE q)) = IDLE)
                     then new = [GDB_QUIT] else GDB_QUIT ∉ new)).
  { intros q Hq. unfold settingsKept. fields.
    split_and!; [done.. | by destruct (currentState q); cbn; lia |].
    exists [GDB_QUIT]. split_and!; [done..|]. intros _. by destruct (decide (IDLE = IDLE)). }
  unfold handleResponse. destruct (currentState p) eqn:Hcur.
  - intros [= <-]. rewrite <- Hcur. apply Hone; rewrite ?Hcur; cbn; (done || lia).
  - intros [= <-]. rewrite <- Hcur. apply Hone; rewrite ?Hcur; cbn; (done || lia).
  - intros [= <-]. rewrite Hcur. unfold settingsKept. split_and!; [done..|]. exists [].
    split_and!; [by rewrite app_nil_r | done..].
  - intros [= <-]. rewrite <- Hcur. apply Hone; rewrite ?Hcur; cbn; (done || lia).
  - cbv zeta. rewrite loadVariables_eq.
    set (q := set_variables _ _ _ p).
    destruct (decide _) as [_|_]; intros [= <-].
    + destruct (Hquit q) as (H1 & H2 & H3); [subst q; fields; by rewrite Hcur|].
      subst q. by rewrite <- Hcur.
    + destruct (requestAllElementsToGdb_commands TYPE q) as (Hkept & new & Hev & Hnew).
      unfold settingsKept in *. subst q. fields.
      split_and!; [tauto.. | cbn; lia |].
      exists new. rewrite Hev. split_and!; [done..|]. intros _.
      by destruct (decide (GET_TYPE = IDLE)).
  - destruct (storeAllElementsFromGdb host gdbResponse TYPE p) as [p1 found] eqn:E.
    pose proof (storeAllElementsFromGdb_silent host gdbResponse TYPE p) as Hs.
    rewrite E in Hs. cbn [fst] in Hs. destruct Hs as (Hk1 & Hc1 & He1).
    destruct found; [|destruct (decide _) as [_|_]]; intros [= <-].
    + rewrite Hc1, Hcur. split_and!; [done..|]. exists [].
      split_and!; [by rewrite app_nil_r | done |]. intros _.
      destruct (decide (GET_TYPE = IDLE)); [done | by intros ?%elem_of_nil].
    + destruct (requestAllElementsToGdb_commands TYPE (mergeNewVariables p1))
        as (Hkept & new & Hev & Hnew).
      destruct (requestAllElementsToGdb_fields TYPE (mergeNewVariables p1)) as (Hc & _).
      unfold settingsKept in *. fields. rewrite Hc, Hc1, Hcur.
      split_and!; [intuition congruence.. | done |].
      exists new. rewrite Hev, He1. split_and!; [done..|]. intros _.
      by destruct (decide (GET_TYPE = IDLE)).
    + destruct (requestAllElementsToGdb_commands SIZE p1) as (Hkept & new & Hev & Hnew).
      unfold settingsKept in *. fields.
      split_and!; [intuition congruence.. | cbn; lia |].
      exists new. rewrite Hev, He1. split_and!; [done..|]. intros _.
      by destruct (decide (GET_SIZE = IDLE)).
  - destruct (storeAllElementsFromGdb host gdbResponse SIZE p) as [p1 found] eqn:E.
    pose proof (storeAllElementsFromGdb_silent host gdbResponse SIZE p) as Hs.
    rewrite E in Hs. cbn [fst] in Hs. destruct Hs as (Hk1 & Hc1 & He1).
    destruct found.
    + intros [= <-]. rewrite Hc1, Hcur. split_and!; [done..|]. exists [].
      split_and!; [by rewrite app_nil_r | done |]. intros _.
      destruct (decide (GET_SIZE = IDLE)); [done | by intros ?%elem_of_nil].
    + destruct (postProcessArraysInfo fuel p1) as [p2|] eqn:E2; [|done]. intros [= <-].
      assert (Hk2 : settingsKept p1 p2 /\ events p2 = events p1).
      { unfold postProcessArraysInfo in E2. destruct (expandTableElements p1).
        - destruct (expandEntries _ _ _) as [[s2 v2]|]; [|done]. by injection E2 as <-.
        - by injection E2 as <-. }
      destruct Hk2 as [Hk2 He2].
      destruct (requestAllElementsToGdb_commands ADDRESS p2) as (Hkept & new & Hev & Hnew).
      unfold settingsKept in *. fields.
      split_and!; [intuition congruence.. | cbn; lia |].
      exists new. rewrite Hev, He2, He1. split_and!; [done..|]. intros _.
      by destruct (decide (GET_ADDRESS = IDLE)).
  - destruct (storeAllElementsFromGdb host gdbResponse ADDRESS p) as [p1 found] eqn:E.
    pose proof (storeAllElementsFromGdb_silent host gdbResponse ADDRESS p) as Hs.
    rewrite E in Hs. cbn [fst] in Hs. destruct Hs as (Hk1 & Hc1 & He1).
    destruct found; intros [= <-].
    + rewrite Hc1, Hcur. split_and!; [done..|]. exists [].
      split_and!; [by rewrite app_nil_r | done |]. intros _.
      destruct (decide (GET_ADDRESS = IDLE)); [done | by intros ?%elem_of_nil].
    + destruct (Hquit p1) as (H1 & H2 & new & H3 & H4 & H5); [by rewrite Hc1, Hcur|].
      unfold settingsKept in *. rewrite Hc1, Hcur in *.
      split_and!; [intuition congruence.. | done |].
      exists new. rewrite H3, He1. by split_and!.
Qed.

(** [sendProgressStatusToClient] keeps the state and adds at most a call
    of the progress callback. *)
Lemma sendProgressStatusToClient_course (host : Host) (p : ElfParser) :
  let p' := sendProgressStatusToClient host p in
  settingsKept p p' /\ currentState p' = currentState p
  /\ (events p' = events p
      \/ exists cb v, progressCallback p = Some cb
                      /\ events p' = events p ++ [ProgressCall cb v]).
Proof.
  unfold sendProgressStatusToClient, settingsKept.
  destruct (progressCallback p) as [cb|] eqn:Hcb; [|by split_and!; [..|left]].
  destruct (currentState p) eqn:Hcur;
    try (destruct (decide (previousState p ≠ _)));
    cbv beta iota zeta;
    (destruct (strictNe _ _); fields; rewrite ?Hcur;
     (split_and!; [done..|]); [right; by eexists _, _ | by left]).
Qed.

(** What holds of a parser at the start of a run of [feed] and is kept by
    the treatment of a reply, by [sendProgressStatusToClient] and by a
    change of the buffer holds at its end. *)
Lemma feed_invariant (host : Host) (fuel : nat) (I : ElfParser -> Prop) :
  (forall t r t', I t -> handleResponse host fuel t r = Some t' -> I t') ->
  (forall t, I t -> I (sendProgressStatusToClient host t)) ->
  (forall t buf, I t -> I (set_dataBuffer buf t)) ->
  forall (chunks : list jstring) (p : ElfParser), I p -> I (feed host fuel p chunks).
Proof.
  intros Hstep Hprogress Hbuffer. induction chunks as [|data chunks IH]; intros p Hp; [done|].
  cbn [feed]. destruct (readData host fuel p data) as [p1|] eqn:E; [|done].
  apply IH. unfold readData, receive in E.
  destruct (includes (dataBuffer p ++ data) GDB_PROMPT); cbn [negb] in E.
  - destruct (readResponses _ _ _ _) as [[rest t]|] eqn:Er; [|done]. injection E as <-.
    apply Hprogress, Hbuffer.
    eapply (readResponses_invariant (handleResponse host fuel) I (fun _ => True));
      [|exact Hp|exact Er].
    intros t0 r t' Ht0 Hr. split; [by eapply Hstep | done].
  - injection E as <-. by apply Hbuffer.
Qed.

Lemma stage_IDLE (state : State) : (stage IDLE <= stage state)%nat -> state = IDLE.
Proof. destruct state; cbn; (done || lia). Qed.

(** X10. The states of a session follow each other in one order: however
    the output of the debugger is cut into chunks, and whatever it holds,
    [readData] never takes the parser back to an earlier state.  An idle
    parser writes no command.  A session that is under way writes [quit]
    exactly once, as its last command, if it comes to its end, and not at
    all before. *)
Theorem session_course (host : Host) (fuel : nat) (p : ElfParser) (chunks : list jstring) :
  let p' := feed host fuel p chunks in
  (stage (currentState p) <= stage (currentState p'))%nat
  /\ exists new,
       commands (events p') = commands (events p) ++ new
       /\ (currentState p = IDLE -> new = [])
       /\ (currentState p <> IDLE ->
           if decide (currentState p' = IDLE)
           then exists before, new = before ++ [GDB_QUIT] /\ GDB_QUIT ∉ before
           else GDB_QUIT ∉ new).
Proof.
  cbv zeta.
  set (I := fun t : ElfParser =>
              (stage (currentState p) <= stage (currentState t))%nat
              /\ exists new,
                   commands (events t) = commands (events p) ++ new
                   /\ (currentState p = IDLE -> new = [])
                   /\ (currentState p <> IDLE ->
                       if decide (currentState t = IDLE)
                       then exists before, new = before ++ [GDB_QUIT] /\ GDB_QUIT ∉ before
                       else GDB_QUIT ∉ new)).
  change (I (feed host fuel p chunks)). apply feed_invariant; subst I; cbv beta.
  - intros t r t' (Hstage & new & Hev & Hidle & Hrun) Hstep.
    apply handleResponse_course in Hstep as (_ & Hstage' & added & Hev' & Hidle' & Hrun').
    split; [lia|]. exists (new ++ added).
    rewrite Hev', commands_app, commands_writes, Hev, app_assoc. split; [done|].
    destruct (decide (currentState t = IDLE)) as [Ht|Ht].
    + rewrite (Hidle' Ht), app_nil_r. rewrite Ht in Hstage'.
      apply stage_IDLE in Hstage'. split; [done|]. intros Hp.
      destruct (decide (currentState t' = IDLE)); [by apply Hrun | done].
    + split.
      * intros Hp. rewrite Hp in Hstage. by apply stage_IDLE in Hstage.
      * intros Hp. specialize (Hrun Hp). specialize (Hrun' Ht).
        destruct (decide (currentState t' = IDLE)).
        -- exists new. by rewrite Hrun'.
        -- rewrite elem_of_app. by intros [?|?].
  - intros t (Hstage & new & Hev & Hidle & Hrun).
    destruct (sendProgressStatusToClient_course host t) as (_ & Hc & He).
    rewrite Hc. split; [done|]. exists new. split; [|done].
    destruct He as [-> | (cb & v & _ & ->)]; [done|].
    by rewrite commands_app, app_nil_r.
  - intros t buf H. exact H.
  - split; [done|]. exists []. rewrite app_nil_r. split_and!; [done..|]. intros Hp.
    destruct (decide (currentState p = IDLE)); [done | by intros ?%elem_of_nil].
Qed.

(** X11. The treatment of the output of the debugger adds nothing to the
    events but commands and calls of the progress callback that was given
    to [readElf]: it starts no process and never calls the result
    callback, and without a progress callback it only writes commands.
    The callbacks, the option to expand the arrays and the process stay
    those of the parser. *)
Theorem data_events (host : Host) (fuel : nat) (p : ElfParser) (chunks : list jstring) :
  let p' := feed host fuel p chunks in
  settingsKept p p'
  /\ exists new, events p' = events p ++ new /\ Forall (dataEvent p) new.
Proof.
  cbv zeta.
  set (I := fun t : ElfParser =>
              settingsKept p t
              /\ exists new, events t = events p ++ new /\ Forall (dataEvent p) new).
  change (I (feed host fuel p chunks)). apply feed_invariant; subst I; cbv beta.
  - intros t r t' (Hkept & new & Hev & Hnew) Hstep.
    apply handleResponse_course in Hstep as (Hkept' & _ & added & Hev' & _).
    unfold settingsKept in *. split; [intuition congruence|].
    exists (new ++ (StdinWrite <$> added)). rewrite Hev', Hev, app_assoc. split; [done|].
    apply Forall_app. split; [done|]. by apply Forall_fmap, Forall_true.
  - intros t (Hkept & new & Hev & Hnew).
    destruct (sendProgressStatusToClient_course host t) as (Hkept' & _ & He).
    unfold settingsKept in *. split; [intuition congruence|].
    destruct He as [-> | (cb & v & Hcb & ->)]; [by exists new|].
    exists (new ++ [ProgressCall cb v]). rewrite Hev, app_assoc. split; [done|].
    apply Forall_app. split; [done|]. apply Forall_singleton. cbn.
    destruct Hkept as (_ & _ & <- & _). done.
  - intros t buf H. exact H.
  - split; [done|]. exists []. by rewrite app_nil_r.
Qed.
(** ** The list handed to the result callback *)

Section Sorting.
Context {A : Type} (compare : A -> A -> Z).

Lemma insertSorted_Permutation (x : A) (l : list A) : insertSorted compare x l ≡ₚ x :: l.
Proof.
  induction l as [|y l IH]; [done|]. cbn [insertSorted].
  destruct (decide (compare x y <= 0)); [done|]. by rewrite IH, Permutation_swap.
Qed.

Lemma sort_Permutation (l : list A) : sort compare l ≡ₚ l.
Proof.
  unfold sort. induction l as [|x l IH]; [done|]. cbn [foldr].
  by rewrite insertSorted_Permutation, IH.
Qed.

Hypothesis compare_swap : forall a b, 0 < compare a b -> compare b a <= 0.

Lemma insertSorted_ascending (x : A) (l : list A) :
  ascending compare l -> ascending compare (insertSorted compare x l).
Proof.
  induction l as [|y l IH]; intros Hl.
  - intros [|i] a b; [|done]. done.
  - cbn [insertSorted]. destruct (decide (compare x y <= 0)) as [Hle|Hgt].
    + intros [|i] a b Ha Hb.
      * injection Ha as <-. injection Hb as <-. done.
      * by apply (Hl i).
    + assert (Htail : ascending compare l) by (intros i a b Ha Hb; by apply (Hl (S i))).
      specialize (IH Htail). intros [|i] a b Ha Hb; [|by apply (IH i)].
      injection Ha as <-. destruct l as [|z l].
      * injection Hb as <-. apply compare_swap. lia.
      * cbn [insertSorted] in Hb. destruct (decide (compare x z <= 0)).
        -- injection Hb as <-. apply compare_swap. lia.
        -- injection Hb as <-. by apply (Hl O).
Qed.

Lemma sort_ascending (l : list A) : ascending compare (sort compare l).
Proof.
  unfold sort. induction l as [|x l IH]; [by intros i a b|].
  cbn [foldr]. by apply insertSorted_ascending.
Qed.

End Sorting.

Lemma resultEntry_entry (element : Identifier) (e : VariableInfo) :
  resultEntry element = Some e <-> entryOfElement element e.
Proof.
  unfold resultEntry, entryOfElement. destruct e as [name addr kind]. cbn [varName varAddress varType].
  destruct (address element) as [a|], (typeValue element) as [t|].
  - destruct (decide (a ≠ [])) as [Ha|Ha].
    + split.
      * intros [= <- <- <-]. split_and!; [done..|]. by exists a.
      * intros (-> & [= ->] & a' & [= <-] & _ & ->). done.
    + split; [done|]. intros (_ & _ & a' & [= <-] & Ha' & _). done.
  - split; [done | by intros (_ & ? & _)].
  - split; [done | by intros (_ & _ & a' & ? & _)].
  - split; [done | by intros (_ & ? & _)].
Qed.

Lemma codeUnitCompare_swap (a b : jstring) :
  0 < codeUnitCompare a b -> codeUnitCompare b a <= 0.
Proof.
  revert b; induction a as [|x a IH]; intros [|y b]; cbn [codeUnitCompare]; try lia.
  rewrite (N.compare_antisym (N_of_ascii x) (N_of_ascii y)).
  destruct (N_of_ascii x ?= N_of_ascii y)%N; cbn [CompOpp]; [apply IH | lia..].
Qed.

(** X12. The list that [sendVariablesInfoToClient] hands to the result
    callback holds one entry for every element, of every file, that has a
    kind and an address other than the empty text, and nothing else: the
    entry has the name and the kind of the element, and its address is
    the number read from the address text, written in base sixteen with
    at least eight places after ["0x"].  When the comparison of the host
    never puts two names in both orders, the entries are in the order of
    their names.  The callback is called once, with this list. *)
Theorem result_list (host : Host) (p : ElfParser) :
  let elements := elementsOf (store p) (gdbVariablesInfo p) in
  resultList host p ≡ₚ omap resultEntry elements
  /\ (forall e : VariableInfo,
        e ∈ resultList host p
        <-> exists element, element ∈ elements /\ entryOfElement element e)
  /\ ((forall a b, 0 < localeCompare host a b -> localeCompare host b a <= 0) ->
      sortedByName host (resultList host p))
  /\ (forall cb, callback p = Some cb ->
        events (sendVariablesInfoToClient host p)
        = events p ++ [ResultCall cb (resultList host p)]).
Proof.
  cbv zeta. assert (Hperm : resultList host p
                            ≡ₚ omap resultEntry (elementsOf (store p) (gdbVariablesInfo p)))
    by apply sort_Permutation.
  split_and!.
  - done.
  - intros e. rewrite Hperm, list_elem_of_omap.
    split; intros (element & Hin & He); exists element; by apply resultEntry_entry in He.
  - intros Hswap. apply sort_ascending. intros a b. apply Hswap.
  - intros cb Hcb. unfold sendVariablesInfoToClient. by rewrite Hcb.
Qed.

Lemma result_list_witness :
  sortedByName sampleHost
    (resultList sampleHost
       (set_variables
          [mkIdentifier (lit "speed") (Some (lit "int")) (Some 6) (Some (lit "0x20000004")) None;
           mkIdentifier (lit "count") (Some (lit "int")) (Some 6) (Some (lit "0x20000000")) None]
          [mkVariableInfo (lit "main.c") [O; 1%nat]] [] new)).
Proof.
  apply result_list. intros a b. apply codeUnitCompare_swap.
Defined.
(** ** The address as text *)

Lemma readHex_hexChars_acc (d : Hexadecimal.uint) :
  forall acc : positive,
  readHex (hexChars d) (Z.pos acc) = Some (Z.pos (Pos.of_hex_uint_acc d acc)).
Proof.
  induction d; intros acc; cbn [hexChars readHex Pos.of_hex_uint_acc]; [done|..];
    match goal with
    | |- context [hexDigitValue ?c] =>
        let v := eval vm_compute in (hexDigitValue c) in
        change (hexDigitValue c) with v
    end;
    cbv iota beta;
    match goal with
    | |- readHex _ ?z = Some (Z.pos (Pos.of_hex_uint_acc _ ?q)) =>
        replace z with (Z.pos q) by lia
    end; apply IHd.
Qed.

Lemma readHex_hexChars (d : Hexadecimal.uint) :
  readHex (hexChars d) 0 = Some (Z.of_N (Pos.of_hex_uint d)).
Proof.
  induction d; cbn [hexChars readHex Pos.of_hex_uint]; [done|..];
    match goal with
    | |- context [hexDigitValue ?c] =>
        let v := eval vm_compute in (hexDigitValue c) in
        change (hexDigitValue c) with v
    end;
    cbv iota beta; [exact IHd|..];
    match goal with
    | |- readHex _ ?z = Some (Z.of_N (N.pos (Pos.of_hex_uint_acc _ ?q))) =>
        change z with (Z.pos q)
    end; apply readHex_hexChars_acc.
Qed.

Lemma hexChars_plain (d : Hexadecimal.uint) :
  Forall (fun c => isWhiteSpace c = false) (hexChars d).
Proof. induction d; cbn [hexChars]; by constructor. Qed.

Lemma N_to_hex_uint_nonnil (n : N) : N.to_hex_uint n <> Hexadecimal.Nil.
Proof. destruct n; [done|]. apply HexadecimalPos.Unsigned.to_uint_nonnil. Qed.

(** [Number] reads back the text of [toString(16)] after ["0x"]. *)
Lemma Number_toString16 (n : Z) :
  0 <= n -> Number (lit "0x" ++ toString16 (JInt n)) = JInt n.
Proof.
  intros Hn. unfold toString16. destruct (Z.ltb_spec n 0) as [?|_]; [lia|].
  rewrite app_nil_l. set (d := N.to_hex_uint (Z.abs_N n)).
  pose proof (hexChars_plain d) as Hplain.
  assert (Hne : exists c s, hexChars d = c :: s).
  { pose proof (N_to_hex_uint_nonnil (Z.abs_N n)) as Hnil. fold d in Hnil.
    destruct d; try done; cbn [hexChars]; by eexists _, _. }
  destruct Hne as (c & s & Hd).
  unfold Number.
  assert (Htrim : trim (lit "0x" ++ hexChars d) = lit "0x" ++ hexChars d).
  { apply trim_id; [intros x Hx; cbn in Hx; by injection Hx as <-|]. intros x Hx.
    rewrite last_app in Hx. destruct (last (hexChars d)) as [y|] eqn:Ey.
    - injection Hx as <-. apply last_Some in Ey as [l El]. rewrite El in Hplain.
      apply Forall_app in Hplain as [_ Hy]. by rewrite Forall_singleton in Hy.
    - apply last_None in Ey. by rewrite Hd in Ey. }
  rewrite Htrim, Hd.
  change (lit "0x" ++ c :: s) with ("0"%char :: "x"%char :: c :: s). cbv beta iota.
  change (drop 2 ("0"%char :: "x"%char :: c :: s)) with (c :: s).
  change (Ascii.eqb "0" "0" && (Ascii.eqb "x" "x" || Ascii.eqb "x" "X")) with true.
  cbv iota.
  rewrite <- Hd, readHex_hexChars. f_equal.
  change (Pos.of_hex_uint d) with (N.of_hex_uint d). unfold d.
  rewrite HexadecimalN.Unsigned.of_to. lia.
Qed.

(** X13. An address that the debugger prints as ["0x"] followed by the
    digits of a number in base sixteen comes out of
    [sendVariablesInfoToClient] as ["0x"] followed by the same digits,
    filled up with zeros on the left to eight places; digits beyond eight
    places stay.  The entry has ten characters at least.  The number is
    below 2^53, where the numbers of the engine are exact. *)
Theorem address_rendering (n t : Z) (element : Identifier) :
  0 <= n < 2 ^ 53 ->
  address element = Some (lit "0x" ++ toString16 (JInt n)) ->
  typeValue element = Some t ->
  resultEntry element
  = Some (mkVariable (identifier element)
            (lit "0x" ++ replicate (8 - length (toString16 (JInt n))) "0"%char
               ++ toString16 (JInt n)) t)
  /\ (forall e, resultEntry element = Some e -> (10 <= length (varAddress e))%nat).
Proof.
  intros [Hn _] Ha Ht.
  assert (E : resultEntry element
              = Some (mkVariable (identifier element)
                        (lit "0x" ++ replicate (8 - length (toString16 (JInt n))) "0"%char
                           ++ toString16 (JInt n)) t)).
  { unfold resultEntry. rewrite Ha, Ht.
    destruct (decide (_ ≠ [])) as [_|Hempty]; [|by destruct Hempty].
    by rewrite Number_toString16. }
  split; [done|]. rewrite E. intros e [= <-]. cbn [varAddress].
  cbn [length]. rewrite length_app, length_replicate. lia.
Qed.

Lemma address_rendering_witness :
  resultEntry (mkIdentifier (lit "count") (Some (lit "int")) (Some 6)
                 (Some (lit "0x" ++ toString16 (JInt 536871168))) None)
  = Some (mkVariable (lit "count") (lit "0x20000100") 6).
Proof.
  destruct (address_rendering 536871168 6
              (mkIdentifier (lit "count") (Some (lit "int")) (Some 6)
                 (Some (lit "0x" ++ toString16 (JInt 536871168))) None))
    as [H _]; [lia | done | done |].
  rewrite H. by vm_compute.
Defined.
(** ** Where a reply is stored *)

(** X14. [storeAllElementsFromGdb] stores a reply in the first element,
    from the cursor on, that still lacks the information, and leaves the
    cursor on it; the elements before the cursor are not looked at.  It
    counts the reply.  For a size the kind of the element is set from its
    type and the reply, for an address the address is set to the text
    after ["= "] of the reply, and no other element changes.  When no
    element from the cursor on lacks the information, the reply is
    dropped: nothing is stored or counted. *)
Theorem reply_storage (host : Host) (gdbResponse : jstring) (info : InformationType)
    (p : ElfParser) :
  let result := storeAllElementsFromGdb host gdbResponse info p in
  let rest :=
    refsFrom (gdbVariablesInfo p) (currentFilenameIdx p) (currentIdentifierIdx p) in
  (result.2 = false <-> Forall (fun x => waiting (store p) info x = false) rest)
  /\ (result.2 = false ->
      store result.1 = store p
      /\ gdbVariablesInfo result.1 = gdbVariablesInfo p
      /\ gdbResponseCounter result.1 = gdbResponseCounter p)
  /\ (result.2 = true ->
      exists (pre post : list nat) (r : nat) (element : Identifier),
        rest = pre ++ r :: post
        /\ Forall (fun x => waiting (store p) info x = false) pre
        /\ store p !! r = Some element
        /\ awaits info element = true
        /\ refsFrom (gdbVariablesInfo p) (currentFilenameIdx result.1)
             (currentIdentifierIdx result.1) = r :: post
        /\ gdbResponseCounter result.1 = gdbResponseCounter p + 1
        /\ (info = SIZE ->
            gdbVariablesInfo result.1 = gdbVariablesInfo p
            /\ forall t, type element = Some t ->
                 store result.1
                 = alter (set_typeValue (computeTypeValue t (replyBody gdbResponse 0))) r
                     (store p))
        /\ (info = ADDRESS ->
            gdbVariablesInfo result.1 = gdbVariablesInfo p
            /\ store result.1
               = alter (set_address (extractAddress (replyBody gdbResponse 0))) r (store p))).
Proof.
  cbv zeta.
  destruct (storeAllElementsFromGdb_cases host gdbResponse info p)
    as [(f & i & entry & r & element & pre & post
         & Hf & Hi & Hr & Hawaits & Hpre & Hrest & Hpost & ->)
       |[Hnone ->]]; cbn [fst snd].
  - split_and!.
    + split; [done|]. rewrite Hrest, Forall_app, Forall_cons. intros (_ & Hw & _).
      unfold waiting in Hw. rewrite Hr in Hw. cbn in Hw. congruence.
    + done.
    + intros _. exists pre, post, r, element. fields.
      destruct (storeElement_fields host gdbResponse (filename entry) info r element p)
        as (_ & Hcounter & _).
      rewrite Hcounter. split_and!; [done.. | |].
      * intros ->. unfold storeElement. destruct (type element) as [t|]; [|done].
        split; [done|]. by intros ? [= <-].
      * by intros ->.
  - split_and!; [done | | done]. intros _. by destruct (decide _).
Qed.
(** ** The move of the new identifiers *)

Lemma mergeEntries_each (new : TgdbVariablesInfo) :
  forall v : TgdbVariablesInfo,
  foldl mergeEntry v new
  = (fun entry =>
       pushIdentifiers
         (allRefs (filter (fun newEntry => filename newEntry = filename entry) new))
         entry) <$> v.
Proof.
  induction new as [|newEntry new IH]; intros v.
  - cbn [foldl]. rewrite <- (list_fmap_id v) at 1. apply list_fmap_ext.
    intros i [name l] _. unfold pushIdentifiers, allRefs. cbn. by rewrite app_nil_r.
  - cbn [foldl]. rewrite IH. unfold mergeEntry. rewrite <- list_fmap_compose.
    apply list_fmap_ext. intros i [name l] _. cbn [compose].
    rewrite filter_cons. cbn [filename].
    destruct (decide (filename newEntry = name)) as [E|E].
    + unfold pushIdentifiers. cbn [filename identifiersList].
      by rewrite allRefs_cons, app_assoc.
    + done.
Qed.

Lemma filter_none {A : Type} (P : A -> Prop) `{!forall x, Decision (P x)} (l : list A) :
  Forall (fun x => ~ P x) l -> filter P l = [].
Proof.
  induction 1 as [|x l Hx _ IH]; [done|]. by rewrite filter_cons_False.
Qed.

(** X15. When the types of a round are in, the identifiers of the new
    collection are moved to the collection: every entry keeps its file
    name and its identifiers, and gets, after them, the identifiers of
    the new entries with its file name, in their order.  The identifiers
    of a new entry whose file name no entry has go nowhere.  The new
    collection is empty afterwards and the store is the same. *)
Theorem merge_new_variables (p : ElfParser) :
  let p' := mergeNewVariables p in
  newGdbVariablesInfo p' = []
  /\ store p' = store p
  /\ length (gdbVariablesInfo p') = length (gdbVariablesInfo p)
  /\ (forall (i : nat) (entry : IGdbVariableInfo),
        gdbVariablesInfo p !! i = Some entry ->
        gdbVariablesInfo p' !! i
        = Some (mkVariableInfo (filename entry)
                  (identifiersList entry
                   ++ allRefs (filter (fun newEntry => filename newEntry = filename entry)
                                 (newGdbVariablesInfo p)))))
  /\ (Forall (fun newEntry => filename newEntry ∉ filename <$> gdbVariablesInfo p)
        (newGdbVariablesInfo p) ->
      gdbVariablesInfo p' = gdbVariablesInfo p).
Proof.
  cbv zeta. unfold mergeNewVariables. fields. rewrite mergeEntries_each.
  split_and!; [done | done | by rewrite length_fmap | |].
  - intros i entry Hi. by rewrite list_lookup_fmap, Hi.
  - intros Hnew. rewrite <- (list_fmap_id (gdbVariablesInfo p)) at 2.
    apply list_fmap_ext. intros i [name l] Hi. unfold pushIdentifiers. cbn [filename identifiersList].
    rewrite filter_none; [by rewrite app_nil_r|].
    eapply Forall_impl; [exact Hnew|]. intros newEntry Hout E. apply Hout.
    rewrite E. apply list_elem_of_fmap. exists (mkVariableInfo name l). split; [done|].
    by eapply list_elem_of_lookup_2.
Qed.

Lemma merge_new_variables_witness :
  gdbVariablesInfo
    (mergeNewVariables
       (set_variables [] [mkVariableInfo (lit "main.c") [O]]
          [mkVariableInfo (lit "other.c") [1%nat; 2%nat]] new))
  = [mkVariableInfo (lit "main.c") [O]].
Proof.
  apply (merge_new_variables
           (set_variables [] [mkVariableInfo (lit "main.c") [O]]
              [mkVariableInfo (lit "other.c") [1%nat; 2%nat]] new)).
  apply Forall_singleton. apply not_elem_of_cons. split; [done | by intros ?%elem_of_nil].
Defined.
(** ** A session from its start to its end *)

Lemma resultCalls_app (l k : list Event) :
  resultCalls (l ++ k) = resultCalls l ++ resultCalls k.
Proof. unfold resultCalls. induction l as [|[] l IH]; cbn; by rewrite ?IH. Qed.

Lemma spawns_app (l k : list Event) : spawns (l ++ k) = spawns l ++ spawns k.
Proof. unfold spawns. induction l as [|[] l IH]; cbn; by rewrite ?IH. Qed.

Lemma resultCalls_writes (l : list jstring) : resultCalls (StdinWrite <$> l) = [].
Proof. by induction l. Qed.

Lemma spawns_writes (l : list jstring) : spawns (StdinWrite <$> l) = [].
Proof. by induction l. Qed.

(** X16. A reply to [info variables] that names no file, or in which no
    colon ends a line, ends the session at once: the parser takes no
    variable from it, writes [quit] and nothing else, and is idle; the
    list for the result callback is empty. *)
Theorem no_debug_information (host : Host) (fuel : nat) (p : ElfParser)
    (gdbResponse : jstring) :
  currentState p = GET_VARIABLES_INFO ->
  ~ occurs (lit "File ") gdbResponse \/ ~ occurs (lit ":" ++ EOL host) gdbResponse ->
  exists p',
    handleResponse host fuel p gdbResponse = Some p'
    /\ currentState p' = IDLE
    /\ events p' = events p ++ [StdinWrite GDB_QUIT]
    /\ gdbVariablesInfo p' = []
    /\ store p' = store p
    /\ resultList host p' = [].
Proof.
  intros Hcur Hreply. unfold handleResponse. rewrite Hcur. cbv zeta.
  assert (Hparsed : parseGdbVariablesInfo host gdbResponse (expandTableElements p) = []).
  { destruct Hreply; [by apply parseGdbVariablesInfo_no_file
                     | by apply parseGdbVariablesInfo_no_name]. }
  rewrite Hparsed. unfold loadVariables. cbn [foldl]. fields.
  destruct (decide (length [] = O)) as [_|?]; [|done].
  eexists. split; [done|]. fields. by split_and!.
Qed.

Lemma no_debug_information_witness :
  exists p',
    handleResponse sampleHost O (set_currentState GET_VARIABLES_INFO new)
      (lines "No symbol table is loaded.  Use the file command.|(gdb) ") = Some p'
    /\ currentState p' = IDLE
    /\ events p' = events (set_currentState GET_VARIABLES_INFO new) ++ [StdinWrite GDB_QUIT]
    /\ gdbVariablesInfo p' = []
    /\ store p' = store (set_currentState GET_VARIABLES_INFO new)
    /\ resultList sampleHost p' = [].
Proof.
  apply no_debug_information; [done|]. left. by apply absent_text.
Defined.

(** X17. A session that starts well ends with one call of the result
    callback: when the file exists and the parser is idle, [readElf]
    starts one process and calls nothing; whatever the debugger prints
    then, in whatever chunks, no other process is started and the result
    callback is not called; and when the process closes, the callback
    given to [readElf] is called once, with the list made from the
    variables known then.  The arrays are expanded or not as [readElf]
    was told. *)
Theorem one_result_call (host : Host) (fuel : nat) (elfFilename : jstring) (cb : nat)
    (expand : bool) (progressCb : option nat) (p : ElfParser) (chunks : list jstring) :
  existsSync host elfFilename = true ->
  currentState p = IDLE ->
  let started := readElf host elfFilename cb expand progressCb p in
  let fed := feed host fuel started.2 chunks in
  let closed := sendVariablesInfoToClient host fed in
  started.1 = ELFPARSER_OK
  /\ expandTableElements fed = expand
  /\ spawns (events closed) = spawns (events p) ++ [elfFilename]
  /\ resultCalls (events closed) = resultCalls (events p) ++ [(cb, resultList host fed)].
Proof.
  intros Hexists Hidle. cbv zeta.
  assert (Hstart : readElf host elfFilename cb expand progressCb p
                   = (ELFPARSER_OK,
                      emit [Spawn elfFilename]
                        (set_gdbProcess (Some elfFilename)
                           (set_currentState START_GDB
                              (set_parameters cb expand progressCb p))))).
  { unfold readElf. cbv zeta. rewrite Hexists. cbn [negb]. fields.
    destruct (decide (currentState p ≠ IDLE)) as [?|_]; [done|].
    by destruct (decide (ELFPARSER_OK ≠ ELFPARSER_OK)). }
  rewrite Hstart. cbn [fst snd]. set (p1 := emit _ _).
  set (I := fun t : ElfParser =>
              callback t = Some cb /\ expandTableElements t = expand
              /\ spawns (events t) = spawns (events p) ++ [elfFilename]
              /\ resultCalls (events t) = resultCalls (events p)).
  assert (Hfed : I (feed host fuel p1 chunks)).
  { apply feed_invariant; subst I; cbv beta.
    - intros t r t' (H1 & H2 & H3 & H4) Hstep.
      apply handleResponse_course in Hstep as ((K1 & K2 & _) & _ & new & -> & _).
      rewrite K1, K2, spawns_app, resultCalls_app, spawns_writes, resultCalls_writes,
        !app_nil_r. done.
    - intros t (H1 & H2 & H3 & H4).
      destruct (sendProgressStatusToClient_course host t) as ((K1 & K2 & _) & _ & He).
      rewrite K1, K2. destruct He as [-> | (c & v & _ & ->)]; [done|].
      by rewrite spawns_app, resultCalls_app, !app_nil_r.
    - intros t buf H. exact H.
    - subst p1. fields. rewrite spawns_app, resultCalls_app, app_nil_r. done. }
  destruct Hfed as (H1 & H2 & H3 & H4).
  unfold sendVariablesInfoToClient. rewrite H1. fields.
  rewrite spawns_app, resultCalls_app, H3, H4, app_nil_r. done.
Qed.

Lemma one_result_call_witness :
  let started := readElf sampleHost (lit "app.elf") 7 false None new in
  let fed := feed sampleHost 100 started.2 [lines "GNU gdb|(gdb) "; lit "(gdb) "] in
  let closed := sendVariablesInfoToClient sampleHost fed in
  started.1 = ELFPARSER_OK
  /\ expandTableElements fed = false
  /\ spawns (events closed) = spawns (events new) ++ [lit "app.elf"]
  /\ resultCalls (events closed)
     = resultCalls (events new) ++ [(7%nat, resultList sampleHost fed)].
Proof.
  apply (one_result_call sampleHost 100 (lit "app.elf") 7 false None new
           [lines "GNU gdb|(gdb) "; lit "(gdb) "]); done.
Defined.
(** ** The chunks of the output *)

Lemma alike_refl (p : ElfParser) : alike p p.
Proof. by unfold alike. Qed.

Lemma alike_trans (p q r : ElfParser) : alike p q -> alike q r -> alike p r.
Proof. unfold alike. intros ? ?. split_and!; intuition congruence. Qed.

Lemma alike_sym (p q : ElfParser) : alike p q -> alike q p.
Proof. unfold alike. intros ?. split_and!; intuition congruence. Qed.

Lemma storeAllElementsFromGdb_alike (host : Host) (gdbResponse : jstring)
    (info : InformationType) (p q : ElfParser) :
  alike p q ->
  alike (storeAllElementsFromGdb host gdbResponse info p).1
    (storeAllElementsFromGdb host gdbResponse info q).1
  /\ (storeAllElementsFromGdb host gdbResponse info p).2
     = (storeAllElementsFromGdb host gdbResponse info q).2.
Proof.
  intros (H1 & H2 & H3 & H4 & H5 & H6 & H7 & H8).
  unfold storeAllElementsFromGdb. rewrite H3, H4, H6, H7.
  destruct (scanFiles _ _ _ _ _) as [[f i]|].
  - destruct (gdbVariablesInfo q !! f) as [entry|]; [|by unfold alike].
    destruct (identifiersList entry !! i) as [r|]; [|by unfold alike].
    destruct (store q !! r) as [element|]; [|by unfold alike].
    cbn [fst snd]. split; [|done]. unfold alike. fields.
    destruct info.
    + by cbn [storeElement].
    + rewrite !storeElement_TYPE. cbv zeta. rewrite H2, H3, H4, H5. by fields.
    + unfold storeElement. destruct (type element); fields; by rewrite ?H3, ?H4, ?H5.
    + unfold storeElement. fields. by rewrite ?H3, ?H4, ?H5.
  - cbn [fst snd]. split; [|done]. destruct (decide _); by unfold alike.
Qed.

Lemma requestAllElementsToGdb_alike (info : InformationType) (p q : ElfParser) :
  alike p q -> alike (requestAllElementsToGdb info p) (requestAllElementsToGdb info q).
Proof.
  intros (H1 & H2 & H3 & H4 & H5 & H6 & H7 & H8).
  unfold requestAllElementsToGdb, alike. cbv zeta. rewrite H3, H4.
  destruct info; fields; split_and!; try done;
    by rewrite !commands_app, H8.
Qed.

Lemma postProcessArraysInfo_alike (fuel : nat) (p q : ElfParser) :
  alike p q ->
  match postProcessArraysInfo fuel p, postProcessArraysInfo fuel q with
  | Some p', Some q' => alike p' q'
  | None, None => True
  | _, _ => False
  end.
Proof.
  intros (H1 & H2 & H3 & H4 & H5 & H6 & H7 & H8).
  unfold postProcessArraysInfo. rewrite H2, H3, H4.
  destruct (expandTableElements q) eqn:E; [|unfold alike; split_and!; congruence].
  destruct (expandEntries _ _ _) as [[s v]|]; [|done]. unfold alike. fields.
  split_and!; congruence.
Qed.

(** The treatment of a reply does not look at what the progress reports
    use. *)
Lemma handleResponse_alike (host : Host) (fuel : nat) (p q : ElfParser)
    (gdbResponse : jstring) :
  alike p q ->
  match handleResponse host fuel p gdbResponse, handleResponse host fuel q gdbResponse with
  | Some p', Some q' => alike p' q'
  | None, None => True
  | _, _ => False
  end.
Proof.
  intros Halike. pose proof Halike as (H1 & H2 & H3 & H4 & H5 & H6 & H7 & H8).
  assert (Hcommand : forall (state : State) (command : jstring) (t u : ElfParser),
            alike t u ->
            alike (sendCommandToGdb command (set_currentState state t))
              (sendCommandToGdb command (set_currentState state u))).
  { intros state command t u (K1 & K2 & K3 & K4 & K5 & K6 & K7 & K8). unfold alike. fields.
    split_and!; try done. by rewrite !commands_app, K8. }
  assert (Hstate : forall (state : State) (t u : ElfParser),
            alike t u -> alike (set_currentState state t) (set_currentState state u)).
  { intros state t u (K1 & K2 & K3 & K4 & K5 & K6 & K7 & K8). unfold alike. fields.
    split_and!; congruence. }
  unfold handleResponse. rewrite <- H1. destruct (currentState p) eqn:Hcur.
  - by apply Hcommand.
  - by apply Hcommand.
  - done.
  - by apply Hcommand.
  - cbv zeta. rewrite !loadVariables_eq, <- H2, <- H3.
    set (loaded := foldl loadFile (store p, []) _).
    assert (Hloaded : alike (set_variables loaded.1 loaded.2 (newGdbVariablesInfo p) p)
                        (set_variables loaded.1 loaded.2 (newGdbVariablesInfo q) q)).
    { unfold alike. fields. split_and!; congruence. }
    fields. destruct (decide (length loaded.2 = O)).
    + by apply Hcommand.
    + by apply Hstate, requestAllElementsToGdb_alike.
  - destruct (storeAllElementsFromGdb_alike host gdbResponse TYPE p q Halike) as [Hs Hf].
    destruct (storeAllElementsFromGdb host gdbResponse TYPE p) as [p1 fp].
    destruct (storeAllElementsFromGdb host gdbResponse TYPE q) as [q1 fq].
    cbn [fst snd] in Hs, Hf. subst fq. destruct fp; [done|].
    pose proof Hs as (K1 & K2 & K3 & K4 & K5 & K6 & K7 & K8). rewrite <- K5.
    destruct (decide (length (newGdbVariablesInfo p1) ≠ O)).
    + apply requestAllElementsToGdb_alike. unfold alike. fields.
      split_and!; try done. by rewrite K4, K5.
    + by apply Hstate, requestAllElementsToGdb_alike.
  - destruct (storeAllElementsFromGdb_alike host gdbResponse SIZE p q Halike) as [Hs Hf].
    destruct (storeAllElementsFromGdb host gdbResponse SIZE p) as [p1 fp].
    destruct (storeAllElementsFromGdb host gdbResponse SIZE q) as [q1 fq].
    cbn [fst snd] in Hs, Hf. subst fq. destruct fp; [done|].
    pose proof (postProcessArraysInfo_alike fuel p1 q1 Hs) as Hpost.
    destruct (postProcessArraysInfo fuel p1) as [p2|],
             (postProcessArraysInfo fuel q1) as [q2|]; try done.
    by apply Hstate, requestAllElementsToGdb_alike.
  - destruct (storeAllElementsFromGdb_alike host gdbResponse ADDRESS p q Halike) as [Hs Hf].
    destruct (storeAllElementsFromGdb host gdbResponse ADDRESS p) as [p1 fp].
    destruct (storeAllElementsFromGdb host gdbResponse ADDRESS q) as [q1 fq].
    cbn [fst snd] in Hs, Hf. subst fq. destruct fp; [done|].
    by apply Hcommand.
Qed.

Lemma readResponses_alike (host : Host) (fuel k : nat) :
  forall (buf : jstring) (p q : ElfParser),
  alike p q ->
  match readResponses (handleResponse host fuel) k buf p,
        readResponses (handleResponse host fuel) k buf q with
  | Some (rest, p'), Some (rest', q') => rest = rest' /\ alike p' q'
  | None, None => True
  | _, _ => False
  end.
Proof.
  induction k as [|k IH]; intros buf p q Halike; [done|].
  destruct (find GDB_PROMPT buf) as [i|] eqn:E.
  - rewrite !(readResponses_found _ k i buf) by done.
    pose proof (handleResponse_alike host fuel p q (take (i + 6) buf) Halike) as Hstep.
    destruct (handleResponse host fuel p _) as [p1|],
             (handleResponse host fuel q _) as [q1|]; try done.
    by apply IH.
  - by rewrite !readResponses_none.
Qed.

(** [sendProgressStatusToClient] changes nothing but what the progress
    reports use. *)
Lemma sendProgressStatusToClient_alike (host : Host) (p : ElfParser) :
  alike (sendProgressStatusToClient host p) p
  /\ dataBuffer (sendProgressStatusToClient host p) = dataBuffer p.
Proof.
  unfold sendProgressStatusToClient, alike.
  destruct (progressCallback p) as [cb|]; [|done].
  destruct (currentState p) eqn:Hcur;
    try (destruct (decide (previousState p ≠ _)));
    cbv beta iota zeta;
    (destruct (strictNe _ _); fields; rewrite ?Hcur, ?commands_app, ?app_nil_r; done).
Qed.

(** The calls of [readData], one per chunk, against the loop of
    [readData] run over the chunks without the progress reports. *)
Lemma feed_receiveAll (host : Host) (fuel : nat) (chunks : list jstring) :
  forall (p t t1 : ElfParser) (rest : jstring),
  alike p t ->
  receiveAll (handleResponse host fuel) (dataBuffer p) t chunks = Some (rest, t1) ->
  alike (feed host fuel p chunks) t1 /\ dataBuffer (feed host fuel p chunks) = rest.
Proof.
  induction chunks as [|data chunks IH]; intros p t t1 rest Halike; cbn [receiveAll feed].
  - by intros [= <- <-].
  - rewrite receive_readResponses.
    pose proof (readResponses_alike host fuel (S (length (dataBuffer p ++ data)))
                  (dataBuffer p ++ data) p t Halike) as Hloop.
    destruct (readResponses _ _ _ t) as [[b1 t']|] eqn:Et; [|done].
    unfold readData. rewrite receive_readResponses.
    destruct (readResponses _ _ _ p) as [[b1' p1]|]; [|done].
    destruct Hloop as [-> Hp1]. intros Hrest.
    set (p2 := set_dataBuffer b1 p1).
    assert (Hp2 : alike p2 t' /\ dataBuffer p2 = b1) by (by unfold alike in * ).
    destruct (sendProgressStatusToClient_alike host p2) as [Hp3 Hb3].
    destruct (includes (dataBuffer p ++ data) GDB_PROMPT).
    + eapply IH; [|by rewrite Hb3, (proj2 Hp2)].
      eapply alike_trans; [exact Hp3 | exact (proj1 Hp2)].
    + eapply IH; [exact (proj1 Hp2) | by rewrite (proj2 Hp2)].
Qed.

(** X18. What a session learns and writes does not depend on how the
    output of the debugger is cut into chunks: when the treatment of a
    text in one call of [readData] returns, the calls of [readData] on
    the chunks of any cut of the text end in the same state, with the
    same variables, the same cursor, the same commands written in the
    same order, the same result list and the same text left in the
    buffer.  (The progress reports may differ: they are made once per
    call.) *)
Theorem chunking_invariance (host : Host) (fuel : nat) (p q : ElfParser)
    (chunks : list jstring) :
  find GDB_PROMPT (dataBuffer p) = None ->
  readData host fuel p (concat chunks) = Some q ->
  alike (feed host fuel p chunks) q
  /\ dataBuffer (feed host fuel p chunks) = dataBuffer q
  /\ resultList host (feed host fuel p chunks) = resultList host q.
Proof.
  intros Hbuffer Hwhole. unfold readData in Hwhole.
  destruct (receive _ (dataBuffer p) p (concat chunks)) as [[rest p1]|] eqn:E; [|done].
  injection Hwhole as <-.
  rewrite receive_readResponses, <- receiveAll_readResponses in E by done.
  destruct (feed_receiveAll host fuel chunks p p p1 rest (alike_refl p) E) as [Hfed Hrest].
  set (p2 := set_dataBuffer rest p1).
  assert (Hp2 : alike p1 p2 /\ dataBuffer p2 = rest) by (by unfold alike).
  destruct (sendProgressStatusToClient_alike host p2) as [Hp3 Hb3].
  assert (Hq : alike (feed host fuel p chunks)
                 (if includes (dataBuffer p ++ concat chunks) GDB_PROMPT
                  then sendProgressStatusToClient host p2 else p2)
               /\ dataBuffer (feed host fuel p chunks)
                  = dataBuffer (if includes (dataBuffer p ++ concat chunks) GDB_PROMPT
                                then sendProgressStatusToClient host p2 else p2)).
  { destruct (includes _ _).
    - split; [|by rewrite Hb3, (proj2 Hp2)].
      eapply alike_trans; [exact Hfed|]. eapply alike_trans; [exact (proj1 Hp2)|].
      by apply alike_sym.
    - split; [|by rewrite (proj2 Hp2)]. eapply alike_trans; [exact Hfed | exact (proj1 Hp2)]. }
  destruct Hq as [Hq Hb]. split_and!; [done..|].
  destruct Hq as (_ & _ & Hs & Hv & _). unfold resultList. by rewrite Hs, Hv.
Qed.

Lemma chunking_invariance_witness :
  exists q,
    readData sampleHost 100 (set_currentState START_GDB new)
      (concat [lines "GNU gdb|(g"; lit "db) (gdb"; lit ") "]) = Some q
    /\ alike (feed sampleHost 100 (set_currentState START_GDB new)
                [lines "GNU gdb|(g"; lit "db) (gdb"; lit ") "]) q
    /\ commands (events q) = [GDB_SET_METHOD_OFF; GDB_SET_TYPEDEF_OFF].
Proof.
  eexists. split; [by vm_compute|]. split; [|by vm_compute].
  apply (chunking_invariance sampleHost 100 (set_currentState START_GDB new) _
           [lines "GNU gdb|(g"; lit "db) (gdb"; lit ") "]); by vm_compute.
Defined.
(** ** The last progress report *)

Lemma unreported_refl (p : ElfParser) : unreported p p.
Proof. by unfold unreported. Qed.

Lemma unreported_trans (p q r : ElfParser) :
  unreported p q -> unreported q r -> unreported p r.
Proof. unfold unreported. intros ? ?. split_and!; intuition congruence. Qed.

Lemma storeAllElementsFromGdb_unreported (host : Host) (gdbResponse : jstring)
    (info : InformationType) (p : ElfParser) :
  unreported p (storeAllElementsFromGdb host gdbResponse info p).1.
Proof.
  unfold storeAllElementsFromGdb.
  destruct (scanFiles _ _ _ _ _) as [[f i]|].
  - destruct (gdbVariablesInfo p !! f) as [entry|]; [|apply unreported_refl].
    destruct (identifiersList entry !! i) as [r|]; [|apply unreported_refl].
    destruct (store p !! r) as [element|]; [|apply unreported_refl]. cbn [fst].
    destruct (storeElement_fields host gdbResponse (filename entry) info r element p)
      as (_ & _ & _ & H).
    unfold unreported in *. by fields.
  - cbn [fst]. destruct (decide _); by unfold unreported.
Qed.

(** The treatment of a reply reports no progress. *)
Lemma handleResponse_unreported (host : Host) (fuel : nat) (p p' : ElfParser)
    (gdbResponse : jstring) :
  handleResponse host fuel p gdbResponse = Some p' -> unreported p p'.
Proof.
  assert (Hcommand : forall (state : State) (command : jstring) (q : ElfParser),
            unreported p q ->
            unreported p (sendCommandToGdb command (set_currentState state q))).
  { intros state command q H. unfold unreported in *. fields.
    by rewrite progressValues_app, app_nil_r. }
  assert (Hrequest : forall (state : State) (info : InformationType) (q : ElfParser),
            unreported p q ->
            unreported p (set_currentState state (requestAllElementsToGdb info q))).
  { intros state info q H.
    destruct (requestAllElementsToGdb_fields info q) as (_ & _ & _ & _ & _ & _ & _ & _ & K).
    unfold unreported in *. fields. split_and!; intuition congruence. }
  unfold handleResponse. destruct (currentState p) eqn:Hcur.
  - intros [= <-]. apply Hcommand, unreported_refl.
  - intros [= <-]. apply Hcommand, unreported_refl.
  - intros [= <-]. apply unreported_refl.
  - intros [= <-]. apply Hcommand, unreported_refl.
  - cbv zeta. rewrite loadVariables_eq. destruct (decide _); intros [= <-].
    + by apply Hcommand.
    + by apply Hrequest.
  - pose proof (storeAllElementsFromGdb_unreported host gdbResponse TYPE p) as Hs.
    destruct (storeAllElementsFromGdb host gdbResponse TYPE p) as [p1 found].
    cbn [fst] in Hs. destruct found; [|destruct (decide _)]; intros [= <-].
    + done.
    + destruct (requestAllElementsToGdb_fields TYPE (mergeNewVariables p1))
        as (_ & _ & _ & _ & _ & _ & _ & _ & K).
      unfold unreported in *. fields. split_and!; intuition congruence.
    + by apply Hrequest.
  - pose proof (storeAllElementsFromGdb_unreported host gdbResponse SIZE p) as Hs.
    destruct (storeAllElementsFromGdb host gdbResponse SIZE p) as [p1 found].
    cbn [fst] in Hs. destruct found; [by intros [= <-]|].
    destruct (postProcessArraysInfo fuel p1) as [p2|] eqn:E; [|done]. intros [= <-].
    apply postProcessArraysInfo_fields in E as (_ & _ & K).
    apply Hrequest. by eapply unreported_trans.
  - pose proof (storeAllElementsFromGdb_unreported host gdbResponse ADDRESS p) as Hs.
    destruct (storeAllElementsFromGdb host gdbResponse ADDRESS p) as [p1 found].
    cbn [fst] in Hs. destruct found; intros [= <-]; [done | by apply Hcommand].
Qed.

(** What [sendProgressStatusToClient] reports: either the value of the
    state, which it keeps, or nothing, when the value is the one it
    keeps; the value of the idle state is 100. *)
Lemma sendProgressStatusToClient_report (host : Host) (cb : nat) (p : ElfParser) :
  progressCallback p = Some cb ->
  let p' := sendProgressStatusToClient host p in
  currentState p' = currentState p
  /\ progressCallback p' = Some cb
  /\ exists status,
       (currentState p = IDLE -> status = JInt 100)
       /\ ((events p' = events p ++ [ProgressCall cb status] /\ progressStatus p' = status)
           \/ (events p' = events p /\ progressStatus p' = progressStatus p
               /\ strictNe (progressStatus p) status = false)).
Proof.
  intros Hcb. unfold sendProgressStatusToClient. rewrite Hcb.
  destruct (currentState p) eqn:Hcur;
    try (destruct (decide (previousState p ≠ _)));
    cbv beta iota zeta;
    match goal with
    | |- context [strictNe _ ?status] =>
        destruct (strictNe _ status) eqn:E; fields; rewrite ?Hcur;
        (split_and!; [done..|]); exists status; (split; [done|]);
        [left | right]; by rewrite ?E
    end.
Qed.

(** X19. A session with a progress callback that comes to its end has
    100 as its last progress report: when the parser is under way and
    the value it keeps is not 100, and the calls of [readData] leave it
    idle, the last value handed to the progress callback is 100. *)
Theorem progress_completes (host : Host) (fuel : nat) (cb : nat) (p : ElfParser)
    (chunks : list jstring) :
  progressCallback p = Some cb ->
  progressStatus p <> JInt 100 ->
  currentState p <> IDLE ->
  currentState (feed host fuel p chunks) = IDLE ->
  last (progressValues (events (feed host fuel p chunks))) = Some (JInt 100).
Proof.
  intros Hcb Hstatus Hrun.
  set (I := fun t : ElfParser =>
              progressCallback t = Some cb
              /\ (currentState t = IDLE -> progressStatus t = JInt 100)
              /\ (last (progressValues (events t)) = Some (progressStatus t)
                  \/ progressStatus t <> JInt 100)).
  assert (Hstep : forall t data t', I t -> readData host fuel t data = Some t' -> I t').
  { intros t data t' (H1 & H2 & H3). unfold readData, receive.
    destruct (includes (dataBuffer t ++ data) GDB_PROMPT) eqn:Einc; cbn [negb].
    - destruct (readResponses _ _ _ _) as [[rest t1]|] eqn:Er; [|done]. intros [= <-].
      assert (Ht1 : unreported t t1).
      { eapply (readResponses_invariant (handleResponse host fuel) (unreported t)
                  (fun _ => True)); [|apply unreported_refl|exact Er].
        intros u r u' Hu Hr. split; [|done].
        eapply unreported_trans; [exact Hu|]. by eapply handleResponse_unreported. }
      destruct Ht1 as (_ & K2 & K3 & K4).
      destruct (sendProgressStatusToClient_report host cb (set_dataBuffer rest t1))
        as (Hc & Hp & status & Hidle & Hreport); [fields; congruence|].
      fields. subst I. cbv beta. rewrite Hc. split; [done|].
      destruct Hreport as [[-> ->]|(-> & -> & Hsame)].
      + split; [by intros ?%Hidle|]. left.
        rewrite progressValues_app.
        change (progressValues [ProgressCall cb status]) with [status]. by rewrite last_snoc.
      + rewrite K2, K4. split; [|done]. intros Ht1. rewrite (Hidle Ht1) in Hsame.
        apply strictNe_JInt in Hsame. congruence.
    - intros [= <-]. subst I. cbv beta. by fields. }
  assert (Hfeed : forall (l : list jstring) (t : ElfParser), I t -> I (feed host fuel t l)).
  { induction l as [|data l IH]; intros t Ht; [done|]. cbn [feed].
    destruct (readData host fuel t data) as [t'|] eqn:E; [|done].
    apply IH. by eapply Hstep. }
  intros Hidle. destruct (Hfeed chunks p) as (_ & H2 & H3).
  { subst I. cbv beta. split_and!; [done | done | by right]. }
  rewrite (H2 Hidle) in H3. by destruct H3.
Qed.

Lemma progress_completes_witness :
  last (progressValues
          (events (feed sampleHost 100
                     (set_parameters 1 false (Some 2%nat)
                        (set_currentState SET_TYPEDEFS_OFF new))
                     [lit "(gdb) "; lines "No symbol table is loaded.|(gdb) "])))
  = Some (JInt 100).
Proof.
  apply (progress_completes sampleHost 100 2); by vm_compute.
Defined.
(** ** The state that a session leaves behind *)

Lemma sendProgressStatusToClient_previous (host : Host) (cb : nat) (p : ElfParser) :
  progressCallback p = Some cb ->
  let p' := sendProgressStatusToClient host p in
  previousState p' = currentState p
  /\ currentState p' = currentState p
  /\ newGdbVariablesInfo p' = newGdbVariablesInfo p
  /\ progressCallback p' = Some cb.
Proof.
  intros Hcb. unfold sendProgressStatusToClient. rewrite Hcb.
  destruct (currentState p) eqn:Hcur;
    try (destruct (decide (previousState p ≠ _)));
    cbv beta iota zeta;
    match goal with
    | |- context [strictNe _ ?status] => destruct (strictNe _ status)
    end; fields; by rewrite ?Hcur.
Qed.

Lemma storeAllElementsFromGdb_state (host : Host) (gdbResponse : jstring)
    (info : InformationType) (p : ElfParser) :
  let p' := (storeAllElementsFromGdb host gdbResponse info p).1 in
  currentState p' = currentState p
  /\ (info <> TYPE -> newGdbVariablesInfo p' = newGdbVariablesInfo p).
Proof.
  unfold storeAllElementsFromGdb.
  destruct (scanFiles _ _ _ _ _) as [[f i]|].
  - destruct (gdbVariablesInfo p !! f) as [entry|]; [|done].
    destruct (identifiersList entry !! i) as [r|]; [|done].
    destruct (store p !! r) as [element|]; [|done]. cbn [fst]. fields.
    destruct (storeElement_fields host gdbResponse (filename entry) info r element p)
      as (-> & _). split; [done|]. intros Hinfo.
    unfold storeElement. destruct info; try done. by destruct (type element).
  - cbn [fst]. by destruct (decide _).
Qed.

(** Outside the treatment of the types no new variable waits to be
    merged. *)
Lemma handleResponse_merged (host : Host) (fuel : nat) (p p' : ElfParser)
    (gdbResponse : jstring) :
  handleResponse host fuel p gdbResponse = Some p' ->
  (currentState p <> GET_TYPE -> newGdbVariablesInfo p = []) ->
  currentState p' <> GET_TYPE -> newGdbVariablesInfo p' = [].
Proof.
  unfold handleResponse. destruct (currentState p) eqn:Hcur.
  - intros [= <-] Hp _. fields. by apply Hp.
  - intros [= <-] Hp _. fields. by apply Hp.
  - intros [= <-] Hp _. by apply Hp.
  - intros [= <-] Hp _. fields. by apply Hp.
  - cbv zeta. rewrite loadVariables_eq. destruct (decide _); intros [= <-] Hp Hstate.
    + fields. by apply Hp.
    + by fields.
  - destruct (storeAllElementsFromGdb_state host gdbResponse TYPE p) as [Hs _].
    destruct (storeAllElementsFromGdb host gdbResponse TYPE p) as [p1 found].
    cbn [fst] in Hs. destruct found; [|destruct (decide _) as [|Hnone]];
      intros [= <-] _ Hstate.
    + congruence.
    + destruct (requestAllElementsToGdb_fields TYPE (mergeNewVariables p1)) as (K & _).
      fields. congruence.
    + destruct (requestAllElementsToGdb_fields SIZE p1) as (_ & _ & _ & K & _).
      fields. rewrite K. apply length_zero_iff_nil.
      by destruct (decide (length (newGdbVariablesInfo p1) = O)) as [|Hn]; [|destruct Hnone].
  - destruct (storeAllElementsFromGdb_state host gdbResponse SIZE p) as [_ Hs].
    destruct (storeAllElementsFromGdb host gdbResponse SIZE p) as [p1 found].
    cbn [fst] in Hs. destruct found.
    + intros [= <-] Hp _. rewrite Hs by done. by apply Hp.
    + destruct (postProcessArraysInfo fuel p1) as [p2|] eqn:E; [|done].
      intros [= <-] Hp _.
      destruct (requestAllElementsToGdb_fields ADDRESS p2) as (_ & _ & _ & K & _).
      fields. rewrite K.
      assert (newGdbVariablesInfo p2 = newGdbVariablesInfo p1) as ->.
      { unfold postProcessArraysInfo in E. destruct (expandTableElements p1).
        - destruct (expandEntries _ _ _) as [[s v]|]; [|done]. by injection E as <-.
        - by injection E as <-. }
      rewrite Hs by done. by apply Hp.
  - destruct (storeAllElementsFromGdb_state host gdbResponse ADDRESS p) as [_ Hs].
    destruct (storeAllElementsFromGdb host gdbResponse ADDRESS p) as [p1 found].
    cbn [fst] in Hs. destruct found; intros [= <-] Hp _; fields;
      (rewrite Hs by done); by apply Hp.
Qed.

(** A session with a progress callback that is idle again leaves nothing
    of the counted states behind. *)
Lemma feed_rested (host : Host) (fuel : nat) (cb : nat) (chunks : list jstring) :
  forall p : ElfParser,
  progressCallback p = Some cb ->
  (currentState p <> GET_TYPE -> newGdbVariablesInfo p = []) ->
  (currentState p = IDLE -> previousState p <> GET_SIZE /\ previousState p <> GET_ADDRESS) ->
  let p' := feed host fuel p chunks in
  currentState p' = IDLE ->
  previousState p' <> GET_SIZE /\ previousState p' <> GET_ADDRESS
  /\ newGdbVariablesInfo p' = [].
Proof.
  induction chunks as [|data chunks IH]; intros p Hcb Hnew Hprev; cbv zeta; cbn [feed].
  { intros Hidle. destruct (Hprev Hidle). split_and!; [done | done |].
    apply Hnew. by rewrite Hidle. }
  destruct (readData host fuel p data) as [p1|] eqn:E.
  2:{ intros Hidle. destruct (Hprev Hidle). split_and!; [done | done |].
      apply Hnew. by rewrite Hidle. }
  unfold readData, receive in E.
  destruct (includes (dataBuffer p ++ data) GDB_PROMPT); cbn [negb] in E.
  - destruct (readResponses _ _ _ _) as [[rest t]|] eqn:Er; [|done]. injection E as <-.
    assert (Hkept : progressCallback t = Some cb
                    /\ (currentState t <> GET_TYPE -> newGdbVariablesInfo t = [])).
    { eapply (readResponses_invariant (handleResponse host fuel)
                (fun t => progressCallback t = Some cb
                          /\ (currentState t <> GET_TYPE -> newGdbVariablesInfo t = []))
                (fun _ => True)); [| |exact Er]; [|done].
      intros t0 r t' [H1 H2] Hr. split; [|done]. split.
      - apply handleResponse_unreported in Hr as (_ & _ & K & _). congruence.
      - by apply (handleResponse_merged host fuel t0 t' r). }
    destruct Hkept as [Hcb' Hnew'].
    destruct (sendProgressStatusToClient_previous host cb (set_dataBuffer rest t))
      as (K1 & K2 & K3 & K4); [done|].
    apply IH; [done | by rewrite K2, K3 |].
    rewrite K1, K2. intros ->. by split.
  - injection E as <-. by apply IH.
Qed.



(** ** Line numbers and access keywords *)

Lemma spaceRun_app (ws s : jstring) :
  Forall (fun c => isWhiteSpace c = true) ws ->
  spaceRun (ws ++ s) = (length ws + spaceRun s)%nat.
Proof.
  induction 1 as [|c ws Hc _ IH]; [done|].
  rewrite <- app_comm_cons. cbn [spaceRun length]. by rewrite Hc, IH.
Qed.

Lemma digitRun_app (digits s : jstring) :
  Forall (fun c => isDigit c = true) digits ->
  digitRun (digits ++ s) = (length digits + digitRun s)%nat.
Proof.
  induction 1 as [|c digits Hc _ IH]; [done|].
  rewrite <- app_comm_cons. cbn [digitRun length]. by rewrite Hc, IH.
Qed.

Lemma trimStart_blanks (ws s : jstring) :
  Forall (fun c => isWhiteSpace c = true) ws -> trimStart (ws ++ s) = trimStart s.
Proof.
  induction 1 as [|c ws Hc _ IH]; [done|].
  rewrite <- app_comm_cons. cbn [trimStart]. by rewrite Hc.
Qed.

(** Characters of a match that are still to be dropped are dropped. *)
Lemma stripAccess_skip (k : nat) :
  forall s : jstring, stripAccess k s = stripAccess O (drop k s).
Proof.
  induction k as [|k IH]; intros s; [done|]. destruct s as [|c s]; [done|].
  cbn [stripAccess drop]. apply IH.
Qed.

(** No access keyword ends at a colon that follows a digit. *)
Lemma accessMatch_numbered (s : jstring) :
  (forall i : nat, s !! S i = Some ":"%char ->
                   exists c, s !! i = Some c /\ isDigit c = true) ->
  accessMatch s = None.
Proof.
  intros Hs. unfold accessMatch.
  assert (Hkw : forall (kw : jstring) (x : ascii) (j : nat),
            kw !! j = Some x -> kw !! S j = Some ":"%char -> isDigit x = false ->
            startsWith (drop (spaceRun s) s) kw = false).
  { intros kw x j Hx Hcolon Hne.
    destruct (startsWith (drop (spaceRun s) s) kw) eqn:E; [|done].
    apply startsWith_spec in E as [r Hr].
    assert (Hat : forall k y, kw !! k = Some y -> s !! (spaceRun s + k)%nat = Some y).
    { intros k y Hk. rewrite <- lookup_drop, Hr. by apply lookup_app_l_Some. }
    apply Hat in Hx, Hcolon. rewrite Nat.add_succ_r in Hcolon.
    apply Hs in Hcolon as (c & Hc & Hdigit). congruence. }
  rewrite (Hkw (lit "public:") "c"%char 5%nat), (Hkw (lit "private:") "e"%char 6%nat),
    (Hkw (lit "protected:") "d"%char 8%nat) by done.
  done.
Qed.

Lemma stripAccess_numbered (s : jstring) :
  (forall i : nat, s !! S i = Some ":"%char ->
                   exists c, s !! i = Some c /\ isDigit c = true) ->
  stripAccess O s = s.
Proof.
  induction s as [|c s IH]; intros Hs; [done|]. cbn [stripAccess].
  rewrite accessMatch_numbered by done. f_equal. apply IH. intros i. apply (Hs (S i)).
Qed.

Lemma lineNumberMatch_number (digits rest : jstring) :
  Forall (fun c => isDigit c = true) digits -> digits <> [] ->
  lineNumberMatch (digits ++ ":"%char :: rest) = Some (S (length digits)).
Proof.
  intros Hdigits Hne. unfold lineNumberMatch. rewrite digitRun_app by done.
  cbn [digitRun]. change (isDigit ":") with false. cbv iota.
  rewrite Nat.add_0_r, drop_app_length.
  destruct (decide _) as [_|Hn]; [done|]. destruct Hn. split; [|done].
  by destruct digits.
Qed.

(** The line number at the head of a declaration, after blanks. *)
Lemma stripLineNumber_numbered (ws digits rest : jstring) :
  Forall (fun c => isWhiteSpace c = true) ws ->
  Forall (fun c => isDigit c = true) digits -> digits <> [] ->
  stripLineNumber (ws ++ digits ++ ":"%char :: rest) = ws ++ rest.
Proof.
  intros Hws Hdigits Hne. induction Hws as [|c ws Hc _ IH].
  - pose proof (lineNumberMatch_number digits rest Hdigits Hne) as Hmatch.
    destruct digits as [|d digits]; [done|]. rewrite app_nil_l in *.
    rewrite <- app_comm_cons in *. cbn [stripLineNumber]. rewrite Hmatch.
    rewrite app_comm_cons, cons_middle, app_assoc. apply drop_app_length'.
    rewrite length_app. cbn [length]. lia.
  - rewrite <- !app_comm_cons. cbn [stripLineNumber]. unfold lineNumberMatch.
    cbn [digitRun].
    assert (Hd : isDigit c = false).
    { revert Hc. unfold isDigit, isWhiteSpace. cbv zeta. generalize (N_of_ascii c).
      intros m H. apply andb_false_iff.
      rewrite !orb_true_iff, andb_true_iff, !N.leb_le, !N.eqb_eq in H.
      rewrite !N.leb_gt. lia. }
    rewrite Hd. destruct (decide (O ≠ O ∧ _)) as [[? _]|_]; [done|]. by rewrite IH.
Qed.

(** The text of a declaration after its line number or its access
    keyword. *)
Lemma cleanDeclarator_numbered (ws digits rest : jstring) :
  Forall (fun c => isWhiteSpace c = true) ws ->
  Forall (fun c => isDigit c = true) digits -> digits <> [] ->
  ":"%char ∉ rest ->
  cleanDeclarator (ws ++ digits ++ ":"%char :: rest) = cleanDeclarator rest.
Proof.
  intros Hws Hdigits Hne Hrest. unfold cleanDeclarator.
  rewrite stripAccess_numbered.
  - rewrite stripLineNumber_numbered by done.
    rewrite stripAccess_no_colon, stripLineNumber_no_colon by done.
    unfold trim. by rewrite trimStart_blanks.
  - intros i Hi.
    assert (Hwhite : ":"%char ∉ ws).
    { intros Hin. rewrite Forall_forall in Hws. by specialize (Hws _ Hin). }
    assert (Hnum : ":"%char ∉ digits).
    { intros Hin. rewrite Forall_forall in Hdigits. by specialize (Hdigits _ Hin). }
    assert (Hlen : (0 < length digits)%nat) by (destruct digits; [done | cbn; lia]).
    rewrite app_assoc in Hi |- *.
    destruct (decide (S i < length (ws ++ digits))%nat) as [Hlt|Hge].
    { rewrite lookup_app_l in Hi by done. apply list_elem_of_lookup_2 in Hi.
      apply elem_of_app in Hi as [?|?]; done. }
    rewrite lookup_app_r in Hi by lia.
    destruct (S i - length (ws ++ digits))%nat as [|k] eqn:Ek.
    + rewrite lookup_app_l by lia. rewrite lookup_app_r by (rewrite length_app in *; lia).
      destruct (digits !! (i - length ws)%nat) as [c|] eqn:Ec.
      * exists c. split; [done|]. rewrite Forall_forall in Hdigits. apply Hdigits.
        by eapply list_elem_of_lookup_2.
      * apply lookup_ge_None in Ec. rewrite length_app in *. lia.
    + cbn in Hi. by apply list_elem_of_lookup_2 in Hi.
Qed.

Lemma cleanDeclarator_access (ws keyword rest : jstring) :
  Forall (fun c => isWhiteSpace c = true) ws ->
  keyword ∈ [lit "public:"; lit "private:"; lit "protected:"] ->
  ":"%char ∉ rest ->
  cleanDeclarator (ws ++ keyword ++ rest) = cleanDeclarator rest.
Proof.
  intros Hws Hkeyword Hrest. unfold cleanDeclarator. f_equal. f_equal.
  assert (Hmatch : accessMatch (ws ++ keyword ++ rest)
                   = Some (length ws + length keyword)%nat).
  { unfold accessMatch. cbv zeta.
    assert (Hrun : spaceRun (ws ++ keyword ++ rest) = length ws).
    { rewrite spaceRun_app by done.
      rewrite !elem_of_cons in Hkeyword.
      assert (Hzero : spaceRun (keyword ++ rest) = O)
        by (destruct Hkeyword as [-> | [-> | [-> | ?%elem_of_nil]]]; done).
      lia. }
    rewrite Hrun, drop_app_length.
    rewrite !elem_of_cons in Hkeyword.
    destruct Hkeyword as [-> | [-> | [-> | ?%elem_of_nil]]]; [| | |done];
      rewrite ?startsWith_app_l; cbn [startsWith lit String.list_ascii_of_string app
                                       Ascii.eqb Bool.eqb andb];
      rewrite ?startsWith_nil; done. }
  assert (Hlen : exists k, (length ws + length keyword)%nat = S k).
  { rewrite !elem_of_cons in Hkeyword.
    destruct Hkeyword as [-> | [-> | [-> | ?%elem_of_nil]]]; [| | |done];
      cbn [length lit String.list_ascii_of_string]; eexists; by rewrite Nat.add_succ_r. }
  destruct Hlen as [k Hk]. rewrite Hk in Hmatch.
  destruct (ws ++ keyword ++ rest) as [|c s] eqn:Es.
  { apply (f_equal length) in Es. rewrite !length_app in Es. cbn [length] in Es. lia. }
  cbn [stripAccess]. rewrite Hmatch, stripAccess_skip.
  replace (drop k s) with (drop (S k) (c :: s)) by done.
  rewrite <- Es, <- Hk, app_assoc, drop_app_length'; [|by rewrite length_app].
  rewrite stripAccess_no_colon by done. done.
Qed.

(** X20. The line number that the debugger puts before a declaration and
    an access keyword of a class body do not change the identifiers that
    [extractIdentifiers] gives: a declaration that comes after blanks, a
    number and a colon, or after blanks and one of [public:], [private:]
    and [protected:], gives what the declaration alone gives. *)
Theorem declaration_prefix_ignored (ws rest root : jstring) (expand : bool) :
  Forall (fun c => isWhiteSpace c = true) ws ->
  ":"%char ∉ rest ->
  (forall digits : jstring,
     Forall (fun c => isDigit c = true) digits -> digits <> [] ->
     extractIdentifiers (ws ++ digits ++ ":"%char :: rest) root expand
     = extractIdentifiers rest root expand)
  /\ (forall keyword : jstring,
        keyword ∈ [lit "public:"; lit "private:"; lit "protected:"] ->
        extractIdentifiers (ws ++ keyword ++ rest) root expand
        = extractIdentifiers rest root expand).
Proof.
  intros Hws Hrest. split.
  - intros digits Hdigits Hne. unfold extractIdentifiers.
    by rewrite cleanDeclarator_numbered.
  - intros keyword Hkeyword. unfold extractIdentifiers.
    by rewrite cleanDeclarator_access.
Qed.

Lemma declaration_prefix_ignored_witness :
  extractIdentifiers (lines "|" ++ lit "42" ++ ":"%char :: lit " static int counter") [] false
  = extractIdentifiers (lit " static int counter") [] false
  /\ extractIdentifiers (lines "|  " ++ lit "private:" ++ lines "|    int x") (lit "c.") false
     = extractIdentifiers (lines "|    int x") (lit "c.") false.
Proof.
  split.
  - destruct (declaration_prefix_ignored (lines "|") (lit " static int counter") [] false)
      as [H _]; [by repeat constructor | by apply absent_char |].
    exact (H (lit "42") ltac:(by repeat constructor) ltac:(done)).
  - destruct (declaration_prefix_ignored (lines "|  ") (lines "|    int x") (lit "c.") false)
      as [_ H]; [by repeat constructor | by apply absent_char |].
    exact (H (lit "private:") ltac:(apply list_elem_of_further, list_elem_of_here)).
Defined.
(** ** Variables that are no arrays *)

Lemma addMarkers_plain (s : Store) (l : list nat) :
  Forall (fun e => ("["%char ∉ identifier e) /\ ("]"%char ∉ identifier e)) s ->
  foldl
    (fun s r =>
       alter
         (fun element =>
            set_identifier
              (replaceChar "]" (lit "x]") (replaceChar "[" (lit "[x") (identifier element)))
              element) r s)
    s l
  = s.
Proof.
  intros Hs. induction l as [|r l IH]; [done|]. cbn [foldl].
  rewrite <- IH at 2. f_equal. apply list_eq. intros i.
  rewrite list_lookup_alter. destruct (decide (r = i)) as [->|]; [|done].
  destruct (s !! i) as [e|] eqn:E; [|done]. cbn [fmap option_fmap option_map]. f_equal.
  rewrite Forall_forall in Hs.
  destruct (Hs e) as [Hopen Hclose]; [by eapply list_elem_of_lookup_2|].
  rewrite (replaceChar_absent "[") by done. rewrite replaceChar_absent by done.
  by destruct e.
Qed.

Lemma expandEntries_plain (fuel : nat) (s : Store) :
  Forall (fun e => "["%char ∉ identifier e) s ->
  forall v : TgdbVariablesInfo,
  Forall (fun r => (r < length s)%nat) (allRefs v) ->
  Forall (fun entry => (length (identifiersList entry) < fuel)%nat) v ->
  expandEntries fuel s v = Some (s, v).
Proof.
  intros Hs. induction v as [|[name l] v IH]; intros Hrefs Hfuel; [done|].
  rewrite allRefs_cons, Forall_app in Hrefs. destruct Hrefs as [Hl Hv].
  rewrite Forall_cons in Hfuel. destruct Hfuel as [Hlen Hfuel].
  cbn [identifiersList filename] in *. cbn [expandEntries identifiersList filename].
  destruct fuel as [|k]; [lia|]. rewrite expandEntry_step.
  rewrite expandPass_settled.
  - by rewrite IH.
  - intros i r _ Hi. rewrite Forall_forall in Hl.
    destruct (lookup_lt_is_Some_2 s r) as [e He].
    { apply Hl. by eapply list_elem_of_lookup_2. }
    exists e. split; [done|]. unfold lastIndexOf.
    rewrite (findLast_head_absent "[" (lit "x")); [done|].
    rewrite Forall_forall in Hs. apply Hs. by eapply list_elem_of_lookup_2.
  - lia.
Qed.

(** X21. The expansion of the arrays leaves a parser without arrays as it
    is: when no identifier holds a bracket and every reference points to
    an object of the store, [postProcessArraysInfo] returns, and returns
    the parser it was given, whether the arrays are to be expanded or
    not.  The loops need one round more than the longest list has
    identifiers. *)
Theorem plain_variables_untouched (fuel : nat) (p : ElfParser) :
  Forall (fun e => ("["%char ∉ identifier e) /\ ("]"%char ∉ identifier e)) (store p) ->
  Forall (fun r => (r < length (store p))%nat) (allRefs (gdbVariablesInfo p)) ->
  Forall (fun entry => (length (identifiersList entry) < fuel)%nat) (gdbVariablesInfo p) ->
  postProcessArraysInfo fuel p = Some p.
Proof.
  intros Hplain Hrefs Hfuel. unfold postProcessArraysInfo.
  destruct (expandTableElements p); [|done].
  unfold addMarkers. rewrite addMarkers_plain by done.
  rewrite expandEntries_plain; [by destruct p | | done | done].
  eapply Forall_impl; [exact Hplain|]. by intros e [? _].
Qed.

Lemma plain_variables_untouched_witness :
  postProcessArraysInfo 3
    (set_parameters 1 true None
       (set_variables
          [mkIdentifier (lit "count") (Some (lit "int")) (Some 6) None None;
           mkIdentifier (lit "point.x") (Some (lit "int")) (Some 6) None (Some [])]
          [mkVariableInfo (lit "main.c") [O; 1%nat]] [] new))
  = Some (set_parameters 1 true None
            (set_variables
               [mkIdentifier (lit "count") (Some (lit "int")) (Some 6) None None;
                mkIdentifier (lit "point.x") (Some (lit "int")) (Some 6) None (Some [])]
               [mkVariableInfo (lit "main.c") [O; 1%nat]] [] new)).
Proof.
  apply plain_variables_untouched.
  - repeat constructor; by apply absent_char.
  - repeat constructor.
  - repeat constructor.
Defined.
(** ** The types are known before the sizes are asked for *)

Lemma parseBlocksLoop_host (host : Host) (fuel : nat) :
  forall (data : jstring) (expand : bool) (start : Z) (ended : bool)
         (acc : list (jstring * list jstring)),
  parseBlocksLoop (withExactRatio host) fuel data expand start ended acc
  = parseBlocksLoop host fuel data expand start ended acc.
Proof.
  induction fuel as [|k IH]; intros data expand start ended acc; [done|].
  cbn [parseBlocksLoop]. cbn [withExactRatio EOL].
  destruct (decide _); [|done].
  destruct (if decide (indexOfFrom data (lit "File ") _ = -1) then _ else _) as [e1 b1].
  destruct (if decide (e1 = -1) then _ else _) as [e2 b2].
  destruct (decide _); [done|]. apply IH.
Qed.

(** The treatment of a reply does not look at the ratio of the host. *)
Lemma handleResponse_host (host : Host) (fuel : nat) (p : ElfParser)
    (gdbResponse : jstring) :
  handleResponse (withExactRatio host) fuel p gdbResponse
  = handleResponse host fuel p gdbResponse.
Proof.
  unfold handleResponse. destruct (currentState p); try reflexivity.
  unfold parseGdbVariablesInfo. by rewrite parseBlocksLoop_host.
Qed.

Lemma typesSettled_alike (p q : ElfParser) : alike p q -> typesSettled p -> typesSettled q.
Proof.
  intros (H1 & H2 & H3 & H4 & H5 & H6 & H7 & H8). unfold typesSettled.
  by rewrite H1, H3, H4, H5, H6, H7.
Qed.

Lemma consistent_typesSettled (p : ElfParser) : consistent p -> typesSettled p.
Proof.
  intros [_ H]. unfold typesSettled. destruct (currentState p); try done.
  by destruct H as (? & _).
Qed.

Lemma typesSettled_consistent (p : ElfParser) :
  typesSettled p -> consistent (unreportedYet p).
Proof.
  unfold typesSettled, consistent, ordered, unreportedYet. fields.
  intros H. split; [done|]. destruct (currentState p); try done.
Qed.

Lemma alike_unreportedYet (p : ElfParser) : alike p (unreportedYet p).
Proof. by unfold alike, unreportedYet. Qed.

(** Every reply keeps what holds of the types. *)
Lemma handleResponse_typesSettled (host : Host) (fuel : nat) (p p' : ElfParser)
    (gdbResponse : jstring) :
  typesSettled p -> handleResponse host fuel p gdbResponse = Some p' -> typesSettled p'.
Proof.
  intros Hp Hstep. rewrite <- handleResponse_host in Hstep.
  pose proof (handleResponse_alike (withExactRatio host) fuel p (unreportedYet p)
                gdbResponse (alike_unreportedYet p)) as Halike.
  rewrite Hstep in Halike.
  destruct (handleResponse (withExactRatio host) fuel (unreportedYet p) gdbResponse)
    as [q'|] eqn:E; [|done].
  apply (typesSettled_alike q' p'); [by apply alike_sym|].
  apply consistent_typesSettled.
  eapply (handleResponse_advanced (withExactRatio host)); [..|exact E].
  - intros c n Hc Hle Hn. cbn [floorRatio25 withExactRatio]. split.
    + apply Z.div_pos; lia.
    + apply Z.div_le_upper_bound; lia.
  - intros c c' n Hc Hle Hn. cbn [floorRatio25 withExactRatio].
    destruct (decide (n = 0)) as [->|]; [by rewrite !Z.div_0_r|].
    apply Z.div_le_mono; lia.
  - by apply typesSettled_consistent.
Qed.

(** X22. In a session, the sizes are asked for only when every type is
    known: whatever the debugger prints and however its output is cut,
    after [readElf] has started a session on an idle parser without
    pending identifiers, a parser that is in the state of the sizes has,
    for every variable of every file, a type that is no base class still
    to be looked up.  So every reply with a size finds the type of its
    variable. *)
Theorem types_before_sizes (host : Host) (fuel : nat) (elfFilename : jstring) (cb : nat)
    (expand : bool) (progressCb : option nat) (p : ElfParser) (chunks : list jstring) :
  existsSync host elfFilename = true ->
  currentState p = IDLE ->
  newGdbVariablesInfo p = [] ->
  let p' := feed host fuel (readElf host elfFilename cb expand progressCb p).2 chunks in
  typesSettled p'
  /\ (currentState p' = GET_SIZE ->
      forall element,
        element ∈ elementsOf (store p') (gdbVariablesInfo p') ->
        exists t, type element = Some t /\ firstCharIs t "?" = false).
Proof.
  intros Hexists Hidle Hnew. cbv zeta.
  assert (Hsettled : typesSettled
                       (feed host fuel (readElf host elfFilename cb expand progressCb p).2
                          chunks)).
  { apply feed_invariant.
    - intros t r t'. apply handleResponse_typesSettled.
    - intros t. apply typesSettled_alike, alike_sym, sendProgressStatusToClient_alike.
    - intros t buf. apply typesSettled_alike. by unfold alike.
    - unfold readElf. cbv zeta. rewrite Hexists. cbn [negb]. fields.
      destruct (decide (currentState p ≠ IDLE)) as [?|_]; [done|].
      destruct (decide (ELFPARSER_OK ≠ ELFPARSER_OK)) as [?|_]; [done|]. cbn [snd].
      unfold typesSettled. by fields. }
  split; [done|]. intros Hsize element Hin.
  unfold typesSettled in Hsettled. rewrite Hsize in Hsettled.
  unfold elementsOf in Hin. apply list_elem_of_omap in Hin as (r & Hr & Helement).
  rewrite Forall_forall in Hsettled. specialize (Hsettled r Hr).
  unfold waiting in Hsettled. rewrite Helement in Hsettled. cbn in Hsettled.
  destruct (type element) as [t|]; [|done]. by exists t.
Qed.

Lemma types_before_sizes_witness :
  let p' :=
    feed sampleHost 100 (readElf sampleHost (lit "app.elf") 1 false None new).2
      [lit "(gdb) (gdb) (gdb) ";
       lines "All defined variables:||File main.c:|int count;||(gdb) ";
       lines "type = int|(gdb) ";
       lines "No symbol StopRequestType in current context.|(gdb) "] in
  currentState p' = GET_SIZE
  /\ forall element,
       element ∈ elementsOf (store p') (gdbVariablesInfo p') ->
       exists t, type element = Some t /\ firstCharIs t "?" = false.
Proof.
  cbv zeta. split; [by vm_compute|].
  apply (types_before_sizes sampleHost 100 (lit "app.elf") 1 false None new); by vm_compute.
Defined.
(** ** The first commands of a session *)

(** X23. Every session opens in the same way: after [readElf] has started
    it, the first reply of the debugger, whatever it is, is answered by
    the command that turns the methods off, the second by the one that
    turns the typedefs off, and the third by [info variables]; nothing is
    written before the first reply, and nothing else before these three.
    So the commands written since the start are the first ones of this
    list, as many as the state tells, before the variables are asked
    for, and the whole list followed by the others after that. *)
Theorem session_opening (host : Host) (fuel : nat) (elfFilename : jstring) (cb : nat)
    (expand : bool) (progressCb : option nat) (p : ElfParser) (chunks : list jstring) :
  existsSync host elfFilename = true ->
  currentState p = IDLE ->
  let p' := feed host fuel (readElf host elfFilename cb expand progressCb p).2 chunks in
  exists more,
    commands (events p')
    = commands (events p)
      ++ take (stage (currentState p'))
           [GDB_SET_METHOD_OFF; GDB_SET_TYPEDEF_OFF; GDB_GET_INFO_VARIABLES]
      ++ more
    /\ ((stage (currentState p') <= 3)%nat -> more = []).
Proof.
  intros Hexists Hidle. cbv zeta.
  set (opening := [GDB_SET_METHOD_OFF; GDB_SET_TYPEDEF_OFF; GDB_GET_INFO_VARIABLES]).
  set (I := fun t : ElfParser =>
              exists more,
                commands (events t)
                = commands (events p) ++ take (stage (currentState t)) opening ++ more
                /\ ((stage (currentState t) <= 3)%nat -> more = [])).
  change (I (feed host fuel (readElf host elfFilename cb expand progressCb p).2 chunks)).
  apply feed_invariant; subst I; cbv beta.
  - intros t r t' (more & Hev & Hmore) Hstep.
    destruct (decide (stage (currentState t) < 3)%nat) as [Hearly|Hlate].
    + rewrite (Hmore ltac:(lia)), app_nil_r in Hev. unfold handleResponse in Hstep.
      destruct (currentState t) eqn:Hcur; cbn [stage] in Hearly; try lia;
        injection Hstep as <-; fields; exists [];
        (split; [|done]); rewrite commands_app, Hev, <- app_assoc; f_equal; reflexivity.
    + assert (Hnext : (3 < stage (currentState t'))%nat).
      { destruct (decide (stage (currentState t) = 3)%nat) as [Hthree|Hmore'].
        - unfold handleResponse in Hstep.
          destruct (currentState t) eqn:Hcur; cbn [stage] in Hthree; try lia.
          cbv zeta in Hstep. destruct (decide _); injection Hstep as <-; fields;
            cbn [stage]; lia.
        - apply handleResponse_course in Hstep as (_ & Hstage & _). lia. }
      apply handleResponse_course in Hstep as (_ & Hstage & new & Hnew & _).
      exists (more ++ new). rewrite Hnew, commands_app, commands_writes, Hev.
      rewrite !(take_ge opening) by (cbn [length opening]; lia).
      rewrite <- !app_assoc. split; [done | lia].
  - intros t (more & Hev & Hmore).
    destruct (sendProgressStatusToClient_course host t) as (_ & Hc & He).
    rewrite Hc. exists more. split; [|done].
    destruct He as [-> | (c & v & _ & ->)]; [done|].
    by rewrite commands_app, app_nil_r.
  - intros t buf H. exact H.
  - unfold readElf. cbv zeta. rewrite Hexists. cbn [negb]. fields.
    destruct (decide (currentState p ≠ IDLE)) as [?|_]; [done|].
    destruct (decide (ELFPARSER_OK ≠ ELFPARSER_OK)) as [?|_]; [done|]. cbn [snd]. fields.
    exists []. rewrite commands_app, !app_nil_r. done.
Qed.

Lemma session_opening_witness :
  let p' :=
    feed sampleHost 100 (readElf sampleHost (lit "app.elf") 1 false None new).2
      [lines "GNU gdb|(gdb) "; lit "(gdb) "] in
  exists more,
    commands (events p')
    = commands (events new)
      ++ take (stage (currentState p'))
           [GDB_SET_METHOD_OFF; GDB_SET_TYPEDEF_OFF; GDB_GET_INFO_VARIABLES]
      ++ more
    /\ ((stage (currentState p') <= 3)%nat -> more = []).
Proof.
  apply (session_opening sampleHost 100 (lit "app.elf") 1 false None new); by vm_compute.
Defined.
(** ** The requests and the replies *)

Lemma typeCommand_awaited (element : Identifier) :
  commands (typeCommand element)
  = if awaits TYPE element then [typeRequest element] else [].
Proof.
  unfold typeCommand, typeRequest, awaits. destruct (type element) as [t|]; [|done].
  by destruct (firstCharIs t "?").
Qed.

Lemma typeCommands_awaited (elements : list Identifier) :
  commands (concat (typeCommand <$> elements))
  = typeRequest <$> filter (fun element => awaits TYPE element = true) elements.
Proof.
  induction elements as [|element elements IH]; [done|].
  cbn [fmap list_fmap concat].
  rewrite commands_app, IH, filter_cons, typeCommand_awaited.
  destruct (awaits TYPE element).
  - by destruct (decide (true = true)).
  - by destruct (decide (false = true)).
Qed.

Lemma commands_requests {A : Type} (f : A -> jstring) (l : list A) :
  commands ((fun x => StdinWrite (f x)) <$> l) = f <$> l.
Proof. induction l as [|x l IH]; [done|]. cbn. f_equal. apply IH. Qed.

